(** * hulo-npm: the release packaging scripts

    A shallow embedding of the scripts of the repository,

    - the downloader ([prepare.ts], module [Prepare]),
    - the post-processor ([scripts/postprepare.ts], module [Postprepare]), and
    - the installer of the platform package (module [Install]),

    together with the parts of the JavaScript run time they rely on:
    strings of UTF-16 code units, the [path] and [fs] modules of Node and
    the Handlebars template engine. *)

From Stdlib Require Import Ascii String DecimalString.
From Stdlib Require Import List NArith Bool Arith Lia Permutation.
Import ListNotations.

Set Warnings "-register-all".

Set Implicit Arguments.

(** ** JavaScript strings *)

Module JsString.

(** A JavaScript string is a sequence of UTF-16 code units. *)
Definition char := N.
Definition jsstring := list char.

(** Literals are written as Rocq strings (UTF-8) and decoded into code
    units; code points beyond the basic plane give a surrogate pair. *)
Fixpoint utf8_units (bs : list N) : jsstring :=
  match bs with
  | [] => []
  | b0 :: r =>
      if (b0 <? 128)%N then b0 :: utf8_units r
      else if (b0 <? 224)%N then
        match r with
        | b1 :: r1 => ((b0 - 192) * 64 + (b1 - 128))%N :: utf8_units r1
        | _ => []
        end
      else if (b0 <? 240)%N then
        match r with
        | b1 :: b2 :: r2 =>
            ((b0 - 224) * 4096 + (b1 - 128) * 64 + (b2 - 128))%N :: utf8_units r2
        | _ => []
        end
      else
        match r with
        | b1 :: b2 :: b3 :: r3 =>
            let cp := ((b0 - 240) * 262144 + (b1 - 128) * 4096
                       + (b2 - 128) * 64 + (b3 - 128))%N in
            let v := (cp - 65536)%N in
            (55296 + v / 1024)%N :: (56320 + v mod 1024)%N :: utf8_units r3
        | _ => []
        end
  end.

Definition lit (s : string) : jsstring :=
  utf8_units (map N_of_ascii (list_ascii_of_string s)).

Definition quote : jsstring := [34%N].
Definition newline : jsstring := [10%N].

Fixpoint str_eqb (a b : jsstring) : bool :=
  match a, b with
  | [], [] => true
  | x :: a', y :: b' => (x =? y)%N && str_eqb a' b'
  | _, _ => false
  end.

(** [if (s)]: a string is truthy when it is not empty. *)
Definition truthy (s : jsstring) : bool :=
  match s with [] => false | _ :: _ => true end.

(** [WhiteSpace] and [LineTerminator] of ECMAScript: the characters that
    [String.prototype.trim] strips and that [\s] matches. *)
Definition isLineTerminator (c : char) : bool :=
  ((c =? 10) || (c =? 13) || (c =? 8232) || (c =? 8233))%N.

Definition isWhiteSpace (c : char) : bool :=
  ((c =? 9) || (c =? 11) || (c =? 12) || (c =? 32) || (c =? 160)
   || (c =? 5760) || ((8192 <=? c) && (c <=? 8202)) || (c =? 8239)
   || (c =? 8287) || (c =? 12288) || (c =? 65279))%N.

Definition isSpace (c : char) : bool := isWhiteSpace c || isLineTerminator c.

Fixpoint trimStart (s : jsstring) : jsstring :=
  match s with
  | [] => []
  | c :: r => if isSpace c then trimStart r else s
  end.

Definition trimEnd (s : jsstring) : jsstring := rev (trimStart (rev s)).

(** [s.trim()] *)
Definition trim (s : jsstring) : jsstring := trimEnd (trimStart s).

(** [s.split(sep)] for a separator of one code unit: the pieces between
    the occurrences, empty pieces included; the empty string gives one
    empty piece. *)
Fixpoint split (sep : char) (s : jsstring) : list jsstring :=
  match s with
  | [] => [[]]
  | c :: r =>
      if (c =? sep)%N then [] :: split sep r
      else match split sep r with
           | p :: ps => (c :: p) :: ps
           | [] => [[c]]
           end
  end.

(** [s.split(/\s+/)]: the pieces between the maximal runs of white space.
    A run at the start leaves an empty first piece, a run at the end an
    empty last piece.  [insep] tells that the previous unit belonged to a
    separator. *)
Fixpoint split_space_from (insep : bool) (s : jsstring) : list jsstring :=
  match s with
  | [] => [[]]
  | c :: r =>
      if isSpace c then
        if insep then split_space_from true r
        else [] :: split_space_from true r
      else match split_space_from false r with
           | p :: ps => (c :: p) :: ps
           | [] => [[c]]
           end
  end.

Definition split_space (s : jsstring) : list jsstring := split_space_from false s.

(** [parts.join(sep)] *)
Fixpoint join (sep : jsstring) (parts : list jsstring) : jsstring :=
  match parts with
  | [] => []
  | [p] => p
  | p :: ps => p ++ sep ++ join sep ps
  end.

Fixpoint startsWith (s prefix : jsstring) {struct prefix} : bool :=
  match prefix, s with
  | [], _ => true
  | p :: prefix', c :: s' => (c =? p)%N && startsWith s' prefix'
  | _ :: _, [] => false
  end.

Definition endsWith (s suffix : jsstring) : bool :=
  startsWith (rev s) (rev suffix).

(** [s.toLowerCase()].  The letters A-Z are mapped to a-z.  Other code
    units are left as they are: the result is only compared with the
    keys of the platform table, which are ASCII and have no letter that
    is the lower case of a unit outside ASCII, so the lookups of the
    program are those of the full Unicode mapping. *)
Definition lowerChar (c : char) : char :=
  if ((65 <=? c) && (c <=? 90))%N then (c + 32)%N else c.

Definition toLowerCase (s : jsstring) : jsstring := map lowerChar s.

(** [s.replace(/_/g, '-')] *)
Definition replaceUnderscores (s : jsstring) : jsstring :=
  map (fun c => if (c =? 95)%N then 45%N else c) s.

(** [s] occurs in [t] *)
Fixpoint includes (t s : jsstring) : bool :=
  startsWith t s || match t with [] => false | _ :: t' => includes t' s end.

(** The order of two strings by their UTF-8 encodings, byte by byte (the
    order of [strcmp]), which is the order of their code points.  It is
    decided at the first unit in which the strings differ; there a
    surrogate, which belongs to a code point beyond the basic plane,
    comes after every unit that is not one. *)
Definition isSurrogate (c : char) : bool := ((55296 <=? c) && (c <=? 57343))%N.

Definition unit_ltb (a b : char) : bool :=
  if isSurrogate a then isSurrogate b && (a <? b)%N
  else isSurrogate b || (a <? b)%N.

Fixpoint str_ltb (a b : jsstring) : bool :=
  match a, b with
  | _, [] => false
  | [], _ :: _ => true
  | x :: a', y :: b' => if (x =? y)%N then str_ltb a' b' else unit_ltb x y
  end.

End JsString.

Import JsString.

(** ** The checksum manifest *)

Module Checksums.

Record ChecksumEntry := { hash : jsstring; filename : jsstring }.

(** The body of the [forEach] callback of [parseChecksums], on the entries
    pushed so far. *)
Definition parseLine (entries : list ChecksumEntry) (line : jsstring)
  : list ChecksumEntry :=
  let trimmed := trim line in
  if truthy trimmed then
    let parts := split_space trimmed in
    if 2 <=? length parts then
      entries ++ [ {| hash := nth 0 parts []; filename := join (lit " ") (skipn 1 parts) |} ]
    else entries
  else entries.

(** [parseChecksums(content)], the same function in both scripts. *)
Definition parseChecksums (content : jsstring) : list ChecksumEntry :=
  fold_left parseLine (split 10%N content) [].

End Checksums.

Import Checksums.

(** ** The platform table *)

Module Platform.

(** [type OS] and [type CPU]: unions of string literals. *)
Inductive OS := win32 | darwin | linux | freebsd | openbsd | sunos | aix.
Inductive CPU := x64 | ia32 | arm64 | arm | mips | ppc | ppc64.

Definition OS_string (o : OS) : jsstring :=
  match o with
  | win32 => lit "win32" | darwin => lit "darwin" | linux => lit "linux"
  | freebsd => lit "freebsd" | openbsd => lit "openbsd" | sunos => lit "sunos"
  | aix => lit "aix"
  end.

Definition CPU_string (c : CPU) : jsstring :=
  match c with
  | x64 => lit "x64" | ia32 => lit "ia32" | arm64 => lit "arm64" | arm => lit "arm"
  | mips => lit "mips" | ppc => lit "ppc" | ppc64 => lit "ppc64"
  end.

Record PlatformData := {
  os : OS;
  arch : CPU;
  description : jsstring;
  keywords : list jsstring
}.

(** The own properties of the object literal [platformInfo], in order. *)
Definition platformInfo : list (jsstring * PlatformData) :=
  [ (lit "darwin-arm64",
     {| os := darwin; arch := arm64;
        description := lit "Hulo compiler for macOS (Apple Silicon)";
        keywords := map lit ["hulo"; "compiler"; "macos"; "darwin"; "arm64";
                             "apple-silicon"; "m1"; "m2"]%string |});
    (lit "darwin-x86-64",
     {| os := darwin; arch := x64;
        description := lit "Hulo compiler for macOS (Intel)";
        keywords := map lit ["hulo"; "compiler"; "macos"; "darwin"; "x86_64";
                             "intel"]%string |});
    (lit "linux-arm64",
     {| os := linux; arch := arm64;
        description := lit "Hulo compiler for Linux (ARM64)";
        keywords := map lit ["hulo"; "compiler"; "linux"; "arm64"; "aarch64"]%string |});
    (lit "linux-i386",
     {| os := linux; arch := ia32;
        description := lit "Hulo compiler for Linux (32-bit)";
        keywords := map lit ["hulo"; "compiler"; "linux"; "i386"; "32bit"]%string |});
    (lit "linux-x86-64",
     {| os := linux; arch := x64;
        description := lit "Hulo compiler for Linux (64-bit)";
        keywords := map lit ["hulo"; "compiler"; "linux"; "x86_64"; "64bit"]%string |});
    (lit "windows-arm64",
     {| os := win32; arch := arm64;
        description := lit "Hulo compiler for Windows (ARM64)";
        keywords := map lit ["hulo"; "compiler"; "windows"; "arm64"]%string |});
    (lit "windows-i386",
     {| os := win32; arch := ia32;
        description := lit "Hulo compiler for Windows (32-bit)";
        keywords := map lit ["hulo"; "compiler"; "windows"; "i386"; "32bit"]%string |});
    (lit "windows-x86-64",
     {| os := win32; arch := x64;
        description := lit "Hulo compiler for Windows (64-bit)";
        keywords := map lit ["hulo"; "compiler"; "windows"; "x86_64"; "64bit"]%string |}) ].

Fixpoint assoc {A} (key : jsstring) (l : list (jsstring * A)) : option A :=
  match l with
  | [] => None
  | (k, v) :: l' => if str_eqb key k then Some v else assoc key l'
  end.

(** [platformInfo] is an object literal: a key that it does not own is
    looked up in [Object.prototype].  These are the names found there;
    what they hold (functions, and the prototype itself for [__proto__])
    is truthy and has none of the fields of a table entry. *)
Definition objectPrototypeKeys : list jsstring :=
  map lit ["constructor"; "__defineGetter__"; "__defineSetter__"; "hasOwnProperty";
           "__lookupGetter__"; "__lookupSetter__"; "isPrototypeOf";
           "propertyIsEnumerable"; "toString"; "valueOf"; "__proto__";
           "toLocaleString"]%string.

(** The value of [platformInfo[key]]. *)
Inductive property :=
| Own (d : PlatformData)
| Inherited
| Undefined.

Definition getProperty (key : jsstring) : property :=
  match assoc key platformInfo with
  | Some d => Own d
  | None => if existsb (str_eqb key) objectPrototypeKeys then Inherited else Undefined
  end.

Definition propertyTruthy (p : property) : bool :=
  match p with Own _ | Inherited => true | Undefined => false end.

End Platform.

(** ** Handlebars *)

Module Handlebars.

(** [Handlebars.Utils.escapeExpression] on a string. *)
Definition escapeChar (c : char) : jsstring :=
  if (c =? 38)%N then lit "&amp;"
  else if (c =? 60)%N then lit "&lt;"
  else if (c =? 62)%N then lit "&gt;"
  else if (c =? 34)%N then lit "&quot;"
  else if (c =? 39)%N then lit "&#x27;"
  else if (c =? 96)%N then lit "&#x60;"
  else if (c =? 61)%N then lit "&#x3D;"
  else [c].

Definition escapeExpression (s : jsstring) : jsstring := flat_map escapeChar s.

(** The values a template sees in its data. *)
Inductive value :=
| VUndefined
| VString (s : jsstring)
| VArray (items : list jsstring).

(** The data of a template: the fields of an object, by name. *)
Definition context := string -> value.

(** The pieces of a compiled template, as far as the three templates of
    the program use the language: text, [{{field}}], [{{this}}],
    [{{#each field}}...{{/each}}] and [{{#unless @last}}...{{/unless}}]. *)
Inductive piece :=
| Text (s : jsstring)
| Mustache (field : string)
| This
| Each (field : string) (body : list piece)
| UnlessLast (body : list piece).

(** [{{x}}] prints nothing for [undefined], the escaped string otherwise
    (an array prints its items joined by commas). *)
Definition printValue (v : value) : jsstring :=
  match v with
  | VUndefined => []
  | VString s => escapeExpression s
  | VArray items => escapeExpression (join (lit ",") items)
  end.

Fixpoint eachItem {A} (f : A -> bool -> jsstring) (items : list A) : jsstring :=
  match items with
  | [] => []
  | [x] => f x true
  | x :: rest => f x false ++ eachItem f rest
  end.

(** Rendering of one piece; [this] is the current item inside [each] and
    [last] its [@last]. *)
Fixpoint renderPiece (ctx : context) (this : value) (last : bool) (p : piece)
  : jsstring :=
  match p with
  | Text s => s
  | Mustache f => printValue (ctx f)
  | This => printValue this
  | Each f body =>
      match ctx f with
      | VArray items =>
          eachItem (fun item is_last =>
                      concat (map (renderPiece (fun _ => VUndefined) (VString item) is_last)
                                  body))
                   items
      | _ => []
      end
  | UnlessLast body =>
      if last then [] else concat (map (renderPiece ctx this last) body)
  end.

(** The function that [Handlebars.compile] returns. *)
Definition render (template : list piece) (ctx : context) : jsstring :=
  concat (map (renderPiece ctx VUndefined false) template).

End Handlebars.

(** ** Node's [path] module (POSIX) *)

Module NodePath.

(** The program only handles paths that start from [process.cwd()], which
    is absolute and normalized.  Such a path string is represented by its
    segments; [trailing] tells that the string ends with a separator. *)
Record path := { segments : list jsstring; trailing : bool }.

Definition toString (p : path) : jsstring :=
  match segments p with
  | [] => lit "/"
  | segs => lit "/" ++ JsString.join (lit "/") segs
            ++ (if trailing p then lit "/" else [])
  end.

(** One step of [normalizeString] on an absolute path: empty segments and
    [.] are dropped and [..] removes the segment before it (at the root,
    nothing). *)
Definition pushSegment (stack : list jsstring) (seg : jsstring) : list jsstring :=
  if str_eqb seg [] || str_eqb seg (lit ".") then stack
  else if str_eqb seg (lit "..") then removelast stack
  else stack ++ [seg].

(** [path.join(base, arg)]: the strings are joined by a separator and the
    result is normalized; an empty argument is ignored. *)
Definition join1 (base : path) (arg : jsstring) : path :=
  match arg with
  | [] => base
  | _ :: _ =>
      {| segments := fold_left pushSegment (split 47%N arg) (segments base);
         trailing := endsWith arg (lit "/") |}
  end.

(** [path.join(base, ...args)] *)
Definition join (base : path) (args : list jsstring) : path :=
  fold_left join1 args base.

(** [path.basename(p)] *)
Definition basename (p : path) : jsstring := last (segments p) [].

(** The path of the entry [name] that [readdir] found in the directory
    [p]: a name is one segment, which [join] appends. *)
Definition child (p : path) (name : jsstring) : path :=
  {| segments := segments p ++ [name]; trailing := false |}.

End NodePath.

Import NodePath.

(** ** Node's [fs] module, on a tree of files and directories *)

Module NodeFs.

(** A directory holds its entries by name; the order in which the list
    keeps them has no meaning, [readdir] lists the names sorted. *)
Inductive node :=
| File (content : jsstring)
| Dir (entries : list (jsstring * node)).

Definition isDirectory (n : node) : bool :=
  match n with Dir _ => true | File _ => false end.

Fixpoint getEntry (name : jsstring) (es : list (jsstring * node)) : option node :=
  match es with
  | [] => None
  | (k, v) :: es' => if str_eqb name k then Some v else getEntry name es'
  end.

(** Replaces the entry [name], or adds it at the end. *)
Fixpoint setEntry (name : jsstring) (n : node) (es : list (jsstring * node))
  : list (jsstring * node) :=
  match es with
  | [] => [(name, n)]
  | (k, v) :: es' =>
      if str_eqb name k then (k, n) :: es' else (k, v) :: setEntry name n es'
  end.

Fixpoint removeEntry (name : jsstring) (es : list (jsstring * node))
  : list (jsstring * node) :=
  match es with
  | [] => []
  | (k, v) :: es' =>
      if str_eqb name k then removeEntry name es' else (k, v) :: removeEntry name es'
  end.

Definition putEntry (name : jsstring) (n : option node) (es : list (jsstring * node))
  : list (jsstring * node) :=
  match n with
  | Some n' => setEntry name n' es
  | None => removeEntry name es
  end.

(** The node at the end of a list of segments, from the root. *)
Fixpoint lookup (p : list jsstring) (n : node) : option node :=
  match p with
  | [] => Some n
  | s :: p' =>
      match n with
      | Dir es =>
          match getEntry s es with
          | Some c => lookup p' c
          | None => None
          end
      | File _ => None
      end
  end.

(** Changes the entry at the end of [p] in the directory that holds it;
    the directory has to exist.  [f] receives the entry, if there is one,
    and returns the new entry, or none to delete it; [f] may refuse. *)
Fixpoint alter (f : option node -> option (option node)) (p : list jsstring)
  (n : node) : option node :=
  match n with
  | File _ => None
  | Dir es =>
      match p with
      | [] => None
      | s :: p' =>
          match p' with
          | [] =>
              match f (getEntry s es) with
              | Some r => Some (Dir (putEntry s r es))
              | None => None
              end
          | _ :: _ =>
              match getEntry s es with
              | Some c =>
                  match alter f p' c with
                  | Some c' => Some (Dir (setEntry s c' es))
                  | None => None
                  end
              | None => None
              end
          end
      end
  end.

(** [mkdir(p, { recursive: true })] *)
Fixpoint mkdirRecursive (p : list jsstring) (n : node) : option node :=
  match n with
  | File _ => None
  | Dir es =>
      match p with
      | [] => Some n
      | s :: p' =>
          let c := match getEntry s es with Some c => c | None => Dir [] end in
          match mkdirRecursive p' c with
          | Some c' => Some (Dir (setEntry s c' es))
          | None => None
          end
      end
  end.

(** The listing of a directory is sorted by name, as [scandir] of libuv
    sorts it. *)
Fixpoint insertSorted (e : jsstring * bool) (l : list (jsstring * bool))
  : list (jsstring * bool) :=
  match l with
  | [] => [e]
  | x :: l' => if str_ltb (fst e) (fst x) then e :: l else x :: insertSorted e l'
  end.

Definition sortByName (l : list (jsstring * bool)) : list (jsstring * bool) :=
  fold_right insertSorted [] l.

(** [readdir(p, { withFileTypes: true })]: names, and whether they are
    directories. *)
Definition readdir (p : path) (fs : node) : option (list (jsstring * bool)) :=
  match lookup (segments p) fs with
  | Some (Dir es) =>
      Some (sortByName (map (fun e => (fst e, isDirectory (snd e))) es))
  | _ => None
  end.

(** [readFile(p)]; a path that ends with a separator names no file. *)
Definition readFile (p : path) (fs : node) : option jsstring :=
  if trailing p then None
  else match lookup (segments p) fs with
       | Some (File c) => Some c
       | _ => None
       end.

(** [writeFile(p, data)]: creates or replaces a file in an existing
    directory. *)
Definition writeFile (p : path) (data : jsstring) (fs : node) : option node :=
  if trailing p then None
  else alter (fun old => match old with
                         | Some (Dir _) => None
                         | _ => Some (Some (File data))
                         end) (segments p) fs.

(** [copyFile(src, dest)] *)
Definition copyFile (src dest : path) (fs : node) : option node :=
  match readFile src fs with
  | Some c => writeFile dest c fs
  | None => None
  end.

(** What [rmSync(p, { recursive, force: true })] does to the tree: a path
    that does not exist is not an error; a directory is only removed
    when [recursive] is set. *)
Definition remove (recursive : bool) (p : path) (fs : node) : option node :=
  match lookup (segments p) fs with
  | None => Some fs
  | Some n =>
      if isDirectory n && negb recursive then None
      else alter (fun _ => Some None) (segments p) fs
  end.

(** Replaces the entries of the directory at [p]. *)
Fixpoint setDirectory (p : list jsstring) (es' : list (jsstring * node)) (n : node)
  : option node :=
  match n with
  | File _ => None
  | Dir es =>
      match p with
      | [] => Some (Dir es')
      | s :: p' =>
          match getEntry s es with
          | Some c =>
              match setDirectory p' es' c with
              | Some c' => Some (Dir (setEntry s c' es))
              | None => None
              end
          | None => None
          end
      end
  end.

End NodeFs.

Import NodeFs.

(** ** The run time of a script: world, exceptions and exit *)

Module Runtime.

(** The archive tools that [extractFile] spawns. *)
Inductive tool := Tar | Unzip | ExpandArchive.

(** What [rmSync] may do: remove the path, throw, or return and leave
    the path in place. *)
Inductive rmBehaviour := Removes | Throws | Leaves.

(** What [JSON.parse] makes of a text, as far as the scripts tell values
    apart: a string, or a value of another type ([null], a number, a
    boolean, an array or an object). *)
Inductive data :=
| StringData (s : jsstring)
| OtherData.

(** The course of a GET whose body is streamed: the request fails; the
    response starts and its body arrives in full; or the response starts
    and the transfer breaks after a part of the body. *)
Inductive transfer :=
| Refused
| Delivers (body : jsstring)
| Breaks (part : jsstring).

(** What the scripts take from their environment. *)
Record Env := {
  (** the segments of [process.cwd()] *)
  cwd : list jsstring;
  (** [process.platform === 'win32'] *)
  isWin32 : bool;
  rmSyncBehaviour : path -> rmBehaviour;
  (** A tool, run on the bytes of an archive and on the entries of the
      directory it extracts to, gives the new entries of that directory,
      or fails (the process does not start, or ends with a code other
      than 0). *)
  extract : tool -> jsstring -> list (jsstring * node) -> option (list (jsstring * node));
  (** The body that a GET of the URL delivers, unless the request fails. *)
  httpGet : jsstring -> option jsstring;
  (** [JSON.parse]: the value of a text, unless the text is not JSON. *)
  jsonParse : jsstring -> option data;
  (** The course of a GET of the URL whose body is streamed. *)
  httpStream : jsstring -> transfer;
  (** The time at which the streamed GET of the URL comes to its end. *)
  arrival : jsstring -> nat
}.

Inductive error :=
| FsError (syscall : string) (p : path)
| SpawnError (cmd : jsstring)
| HttpError (url : jsstring)
| TypeError
| RecursionLimit.

(** A line of the console; time stamp and styling are left out.
    [LogError prefix e] stands for the prefix followed by [e.message]. *)
Inductive line :=
| Log (text : jsstring)
| LogError (prefix : jsstring) (e : error).

(** The calls by which a script acts on the outside. *)
Inductive event :=
| DownloadText (url : jsstring)
| DownloadFile (url : jsstring) (dest : path)
| Spawn (cmd : jsstring) (args : list jsstring)
| CopyFile (src dest : path)
| WriteFile (p : path) (data : jsstring).

Record World := {
  fs : node;
  console : list line;
  trace : list event
}.

(** How a computation ends: with a value, with an exception, with
    [process.exit], or not at all: it awaits a promise that never
    settles, and nothing that follows it is run. *)
Inductive outcome (A : Type) :=
| Return (a : A)
| Throw (e : error)
| Exit (code : N)
| Pending.
Arguments Return {A} a.
Arguments Throw {A} e.
Arguments Exit {A} code.
Arguments Pending {A}.

Definition M (A : Type) := World -> outcome A * World.

Definition ret {A} (a : A) : M A := fun w => (Return a, w).

Definition bind {A B} (m : M A) (k : A -> M B) : M B :=
  fun w =>
    match m w with
    | (Return a, w') => k a w'
    | (Throw e, w') => (Throw e, w')
    | (Exit c, w') => (Exit c, w')
    | (Pending, w') => (Pending, w')
    end.

Definition throw {A} (e : error) : M A := fun w => (Throw e, w).

(** [process.exit(code)] *)
Definition exit {A} (code : N) : M A := fun w => (Exit code, w).

(** [await] of a promise that never settles. *)
Definition pending {A} : M A := fun w => (Pending, w).

(** [try { m } catch (e) { handler(e) }] *)
Definition tryCatch {A} (m : M A) (handler : error -> M A) : M A :=
  fun w =>
    match m w with
    | (Throw e, w') => handler e w'
    | r => r
    end.

Declare Scope js_scope.
Delimit Scope js_scope with js.
Notation "x <- m ;; k" := (bind m (fun x => k))
  (at level 61, m at next level, right associativity) : js_scope.
Notation "m ;; k" := (bind m (fun _ => k))
  (at level 61, right associativity) : js_scope.
Open Scope js_scope.

Definition print (l : line) : M unit :=
  fun w => (Return tt, {| fs := fs w; console := console w ++ [l]; trace := trace w |}).

(** [console.log] of a text *)
Definition log (text : jsstring) : M unit := print (Log text).

Definition emit (e : event) : M unit :=
  fun w => (Return tt, {| fs := fs w; console := console w; trace := trace w ++ [e] |}).

(** A call of [fs] that reads. *)
Definition reading {A} (syscall : string) (p : path) (f : node -> option A) : M A :=
  fun w =>
    match f (fs w) with
    | Some a => (Return a, w)
    | None => (Throw (FsError syscall p), w)
    end.

(** A call of [fs] that changes the tree. *)
Definition writing (syscall : string) (p : path) (f : node -> option node) : M unit :=
  fun w =>
    match f (fs w) with
    | Some fs' => (Return tt, {| fs := fs'; console := console w; trace := trace w |})
    | None => (Throw (FsError syscall p), w)
    end.

Definition readdirM (p : path) : M (list (jsstring * bool)) :=
  reading "scandir" p (readdir p).

Definition readFileM (p : path) : M jsstring :=
  reading "open" p (readFile p).

Definition mkdirM (p : path) : M unit :=
  writing "mkdir" p (mkdirRecursive (segments p)).

Definition writeFileM (p : path) (data : jsstring) : M unit :=
  emit (WriteFile p data) ;; writing "open" p (writeFile p data).

Definition copyFileM (src dest : path) : M unit :=
  emit (CopyFile src dest) ;; writing "copyfile" src (copyFile src dest).

(** [rmSync(p, { recursive, force: true })] *)
Definition rmSyncM (env : Env) (recursive : bool) (p : path) : M unit :=
  match rmSyncBehaviour env p with
  | Removes => writing "rm" p (remove recursive p)
  | Throws => throw (FsError "rm" p)
  | Leaves => ret tt
  end.

(** [spawn(cmd, args)] of an archive tool, until the child has closed. *)
Definition spawnM (env : Env) (t : tool) (cmd : jsstring) (args : list jsstring)
  (archive dir : path) : M unit :=
  emit (Spawn cmd args) ;;
  fun w =>
    match readFile archive (fs w), lookup (segments dir) (fs w) with
    | Some bytes, Some (Dir es) =>
        match extract env t bytes es with
        | Some es' =>
            match setDirectory (segments dir) es' (fs w) with
            | Some fs' =>
                (Return tt, {| fs := fs'; console := console w; trace := trace w |})
            | None => (Throw (SpawnError cmd), w)
            end
        | None => (Throw (SpawnError cmd), w)
        end
    | _, _ => (Throw (SpawnError cmd), w)
    end.

(** [for (const x of l) { body(x) }] *)
Fixpoint forOf {A} (l : list A) (body : A -> M unit) : M unit :=
  match l with
  | [] => ret tt
  | x :: l' => body x ;; forOf l' body
  end.

(** [l.map(f)] for a callback with effects, the calls taken in order. *)
Fixpoint mapM {A B} (f : A -> M B) (l : list A) : M (list B) :=
  match l with
  | [] => ret []
  | x :: l' => y <- f x ;; ys <- mapM f l' ;; ret (y :: ys)
  end.

(** [process.argv[2] || def] *)
Definition argOr (arg : option jsstring) (def : jsstring) : jsstring :=
  match arg with
  | Some s => if truthy s then s else def
  | None => def
  end.

(** [`${n}`] for a length *)
Definition numberToString (n : nat) : jsstring :=
  lit (NilZero.string_of_uint (Nat.to_uint n)).

(** The depth of a tree; it bounds the recursion of [copyDirectory]. *)
Fixpoint height (n : node) : nat :=
  match n with
  | File _ => 0
  | Dir es => S (fold_right (fun e h => Nat.max (height (snd e)) h) 0 es)
  end.

End Runtime.

Import Runtime.

(** ** [scripts/postprepare.ts]: the post-processor *)

Module Postprepare.

Import Platform Handlebars.

(** [copyDirectory(source, target)].  The recursion follows the tree as
    it is when each directory is read; [fuel] bounds its depth. *)
Fixpoint copyDirectory (fuel : nat) (source target : path) : M unit :=
  match fuel with
  | O => throw RecursionLimit
  | S fuel' =>
      entries <- readdirM source ;;
      forOf entries (fun entry =>
        let sourcePath := child source (fst entry) in
        let targetPath := child target (fst entry) in
        if snd entry then
          mkdirM targetPath ;;
          copyDirectory fuel' sourcePath targetPath
        else
          copyFileM sourcePath targetPath)
  end.

(** [extractFile(filePath, extractDir)] *)
Definition extractFile (env : Env) (filePath extractDir : path) : M unit :=
  let isZip := endsWith (toString filePath) (lit ".zip") in
  let isTar := endsWith (toString filePath) (lit ".tar.gz") in
  if negb isZip && negb isTar then
    copyFileM filePath (join extractDir [basename filePath])
  else if isZip then
    if isWin32 env then
      spawnM env ExpandArchive (lit "powershell")
        [lit "-Command";
         lit "Expand-Archive -Path " ++ quote ++ toString filePath ++ quote
           ++ lit " -DestinationPath " ++ quote ++ toString extractDir ++ quote
           ++ lit " -Force"]
        filePath extractDir
    else
      spawnM env Unzip (lit "unzip")
        [lit "-o"; toString filePath; lit "-d"; toString extractDir]
        filePath extractDir
  else
    spawnM env Tar (lit "tar")
      [lit "-xzf"; toString filePath; lit "-C"; toString extractDir]
      filePath extractDir.

(** Pieces of template text. *)
Definition T (s : string) : piece := Text (lit s).
Definition Q : piece := Text quote.
Definition S' (s : string) : piece := Text (quote ++ lit s ++ quote).
Definition V (field : string) : piece := Mustache field.

(** The lines of a template, with a line break between two lines. *)
Fixpoint lines (ls : list (list piece)) : list piece :=
  match ls with
  | [] => []
  | [l] => l
  | l :: ls' => l ++ Text newline :: lines ls'
  end.

Definition packageJsonTemplate : context -> jsstring :=
  render (lines
    [ [T "{"];
      [T "    "; S' "name"; T ": "; Q; T "@hulo/"; V "platformName"; Q; T ","];
      [T "    "; S' "version"; T ": "; Q; V "version"; Q; T ","];
      [T "    "; S' "description"; T ": "; Q; V "description"; Q; T ","];
      [T "    "; S' "main"; T ": "; S' "index.js"; T ","];
      [T "    "; S' "bin"; T ": {"];
      [T "        "; S' "hulo"; T ": "; Q; T "./bin/"; V "binaryName"; Q];
      [T "    },"];
      [T "    "; S' "files"; T ": ["];
      [T "        "; S' "bin/"; T ","];
      [T "        "; S' "index.js"; T ","];
      [T "        "; S' "*.md"; T ","];
      [T "        "; S' "LICENSE"];
      [T "    ],"];
      [T "    "; S' "keywords"; T ": [";
       Each "keywords" [Q; This; Q; UnlessLast [T ", "]]; T "],"];
      [T "    "; S' "author"; T ": "; S' "The Hulo Authors"; T ","];
      [T "    "; S' "license"; T ": "; S' "MIT"; T ","];
      [T "    "; S' "homepage"; T ": "; S' "https://hulo-lang.github.io/docs/"; T ","];
      [T "    "; S' "repository"; T ": {"];
      [T "        "; S' "type"; T ": "; S' "git"; T ","];
      [T "        "; S' "url"; T ": "; S' "https://github.com/hulo-lang/hulo.git"];
      [T "    },"];
      [T "    "; S' "publishConfig"; T ": {"];
      [T "        "; S' "access"; T ": "; S' "public"];
      [T "    },"];
      [T "    "; S' "os"; T ": ["; Q; V "os"; Q; T "],"];
      [T "    "; S' "cpu"; T ": ["; Q; V "arch"; Q; T "],"];
      [T "    "; S' "engines"; T ": {"];
      [T "        "; S' "node"; T ": "; S' ">=14.0.0"];
      [T "    }"];
      [T "}"] ]).

Definition indexJsTemplate : context -> jsstring :=
  render (lines
    [ [T "#!/usr/bin/env node"];
      [];
      [T "const { spawn } = require('child_process');"];
      [T "const path = require('path');"];
      [];
      [T "// 获取可执行文件路径"];
      [T "const exePath = path.join(__dirname, 'bin', '"; V "binaryName"; T "');"];
      [];
      [T "// 执行 hulo 可执行文件"];
      [T "const child = spawn(exePath, process.argv.slice(2), {"];
      [T "    stdio: 'inherit',"];
      [T "    cwd: process.cwd()"];
      [T "});"];
      [];
      [T "child.on('error', (err) => {"];
      [T "    console.error(`Failed to start hulo: ${err.message}`);"];
      [T "    process.exit(1);"];
      [T "});"];
      [];
      [T "child.on('close', (code) => {"];
      [T "    process.exit(code);"];
      [T "});"];
      [] ]).

Definition readmeTemplate : context -> jsstring :=
  render (lines
    [ [T "# @hulo/"; V "platformName"];
      [];
      [V "description"];
      [];
      [T "## Installation"];
      [];
      [T "```bash"];
      [T "npm install @hulo/"; V "platformName"];
      [T "```"];
      [];
      [T "## Usage"];
      [];
      [T "```bash"];
      [T "npx @hulo/"; V "platformName"; T " -V"];
      [T "```"];
      [];
      [T "## Platform"];
      [];
      [T "- **OS**: "; V "os"];
      [T "- **Architecture**: "; V "arch"];
      [];
      [T "## License"];
      [];
      [T "MIT License - see [LICENSE](LICENSE) for details."];
      [] ]).

(** The fields that [main] reads from [platformData]; a value inherited
    from [Object.prototype] has none of them. *)
Definition descriptionOf (p : property) : value :=
  match p with Own d => VString (description d) | _ => VUndefined end.
Definition keywordsOf (p : property) : value :=
  match p with Own d => VArray (keywords d) | _ => VUndefined end.
Definition osOf (p : property) : value :=
  match p with Own d => VString (OS_string (os d)) | _ => VUndefined end.
Definition archOf (p : property) : value :=
  match p with Own d => VString (CPU_string (arch d)) | _ => VUndefined end.

(** An object literal as template data. *)
Fixpoint object (fields : list (string * value)) : context :=
  fun name =>
    match fields with
    | [] => VUndefined
    | (k, v) :: fields' => if String.eqb name k then v else object fields' name
    end.

Definition packageJsonData (platformName version : jsstring) (platformData : property)
  (binaryName : jsstring) : context :=
  object [ ("platformName", VString platformName);
           ("version", VString version);
           ("description", descriptionOf platformData);
           ("binaryName", VString binaryName);
           ("keywords", keywordsOf platformData);
           ("os", osOf platformData);
           ("arch", archOf platformData) ]%string.

Definition indexJsData (binaryName : jsstring) : context :=
  object [ ("binaryName", VString binaryName) ]%string.

Definition readmeData (platformName : jsstring) (platformData : property) : context :=
  object [ ("platformName", VString platformName);
           ("description", descriptionOf platformData);
           ("os", osOf platformData);
           ("arch", archOf platformData) ]%string.

(** [\.(tar\.gz|zip)] at the start of [s] *)
Definition matchExtension (s : jsstring) : bool :=
  startsWith s (lit ".tar.gz") || startsWith s (lit ".zip").

(** [(.+?)\.(tar\.gz|zip)] at the start of [s]: the shortest run of one
    or more units other than line terminators that an extension follows. *)
Fixpoint matchKey (s : jsstring) : option jsstring :=
  match s with
  | [] => None
  | c :: r =>
      if isLineTerminator c then None
      else if matchExtension r then Some [c]
      else match matchKey r with
           | Some k => Some (c :: k)
           | None => None
           end
  end.

(** [filename.match(/hulo_(.+?)\.(tar\.gz|zip)/)]: the first group of the
    leftmost match, if there is a match. *)
Fixpoint matchArchive (s : jsstring) : option jsstring :=
  match (if startsWith s (lit "hulo_") then matchKey (skipn 5 s) else None) with
  | Some k => Some k
  | None =>
      match s with
      | [] => None
      | _ :: r => matchArchive r
      end
  end.

(** The body of the loop of [main] over the entries of the manifest;
    [continue] is to return. *)
Definition processEntry (env : Env) (version : jsstring) (tempDir : path)
  (entry : ChecksumEntry) : M unit :=
  match matchArchive (filename entry) with
  | None => log (lit "Skipping unknown format: " ++ filename entry)
  | Some platformKey =>
      let platformName := replaceUnderscores (toLowerCase platformKey) in
      if negb (propertyTruthy (getProperty platformName)) then
        log (lit "Skipping unknown platform: " ++ platformKey
             ++ lit " (" ++ filename entry ++ lit ")")
      else
        let platformData := getProperty platformName in
        if negb (propertyTruthy platformData) then
          log (lit "No platform info for: " ++ platformName)
        else
          log (lit "Processing " ++ platformName) ;;
          log (lit "File: " ++ filename entry) ;;
          let filePath := join tempDir [filename entry] in
          found <- tryCatch (readFileM filePath ;; ret true)
                     (fun _ => log (lit "File not found: " ++ filename entry) ;;
                               ret false) ;;
          if negb found then ret tt
          else
            let platformDir :=
              join {| segments := cwd env; trailing := false |}
                   [lit "temp"; lit "packages"; lit "hulo-" ++ platformName] in
            mkdirM platformDir ;;
            let extractDir := platformDir in
            log (lit "Extracting files...") ;;
            extractFile env filePath extractDir ;;
            log (lit "Extracted to: " ++ toString extractDir) ;;
            let binDir := join platformDir [lit "bin"] in
            mkdirM binDir ;;
            let binaryName :=
              if startsWith platformName (lit "windows") then lit "hulo.exe"
              else lit "hulo" in
            let sourceBinary := join platformDir [binaryName] in
            let targetBinary := join binDir [binaryName] in
            log (lit "Moving " ++ binaryName ++ lit " to bin/ directory...") ;;
            copyFileM sourceBinary targetBinary ;;
            let sourceStd := join platformDir [lit "std"] in
            let targetStd := join binDir [lit "std"] in
            log (lit "Moving std/ directory to bin/ directory...") ;;
            (fun w => copyDirectory (height (fs w)) sourceStd targetStd w) ;;
            rmSyncM env false sourceBinary ;;
            rmSyncM env true sourceStd ;;
            let packageJson :=
              packageJsonTemplate
                (packageJsonData platformName version platformData binaryName) in
            writeFileM (join platformDir [lit "package.json"]) packageJson ;;
            let indexJs := indexJsTemplate (indexJsData binaryName) in
            writeFileM (join platformDir [lit "index.js"]) indexJs ;;
            let readme := readmeTemplate (readmeData platformName platformData) in
            writeFileM (join platformDir [lit "README.md"]) readme ;;
            log (lit "Created package for " ++ platformName)
  end.

(** [main()], with [process.argv[2]]. *)
Definition main (env : Env) (arg : option jsstring) : M unit :=
  let version := argOr arg (lit "0.1.0") in
  let tempDir := join {| segments := cwd env; trailing := false |} [lit "temp"] in
  let checksumsPath := join tempDir [lit "checksums.txt"] in
  log (lit "Starting post-processing...") ;;
  tryCatch
    (tryCatch (readdirM tempDir ;; ret tt)
       (fun _ =>
          log (lit "Error: temp directory not found. Please run prepare.ts first.") ;;
          exit 1%N) ;;
     checksumsText <- readFileM checksumsPath ;;
     let checksums := parseChecksums checksumsText in
     log (lit "Found " ++ numberToString (length checksums)
          ++ lit " files in checksums.txt") ;;
     tempFiles <- readdirM tempDir ;;
     log (lit "Found " ++ numberToString (length tempFiles)
          ++ lit " files in temp directory") ;;
     forOf checksums (processEntry env version tempDir) ;;
     log (lit "All packages processed successfully!") ;;
     log (lit "Check the packages/ directory for individual platform packages"))
    (fun error => print (LogError (lit "Error: ") error) ;; exit 1%N).

End Postprepare.

(** ** [prepare.ts]: the downloader *)

Module Prepare.

(** [downloadText(url)]: [response.data] is the body as a string, unless
    the body is JSON: axios, asked for no [responseType], then hands
    over the value that the body parses to. *)
Definition downloadText (env : Env) (url : jsstring) : M data :=
  emit (DownloadText url) ;;
  match httpGet env url with
  | Some body =>
      match jsonParse env body with
      | Some value => ret value
      | None => ret (StringData body)
      end
  | None => throw (HttpError url)
  end.

(** [downloadFile(url, destPath)], up to its first [await]: the request
    is made. *)
Definition requestFile (url : jsstring) (destPath : path) : M unit :=
  emit (DownloadFile url destPath).

(** [downloadFile(url, destPath)], from its first [await] on, when the
    request has run its course.  A request that fails is thrown.  A
    response is piped into a write stream on [destPath], and the promise
    that is returned settles with the stream: it is rejected when the
    file cannot be opened, and fulfilled ([true]) when the body has been
    written.  When the transfer breaks, the part that arrived is in the
    file and the stream neither finishes nor fails: the promise stays
    pending ([false]). *)
Definition downloadFile (env : Env) (url : jsstring) (destPath : path) : M bool :=
  match httpStream env url with
  | Refused => throw (HttpError url)
  | Delivers body => writing "open" destPath (writeFile destPath body) ;; ret true
  | Breaks part => writing "open" destPath (writeFile destPath part) ;; ret false
  end.

(** What the callback of [checksums.map] resolves to. *)
Record DownloadResult := { success : bool; resultFilename : jsstring }.

(** The callback of [checksums.map] in [main], up to its first [await]. *)
Definition startDownload (baseUrl : jsstring) (tempDir : path) (entry : ChecksumEntry)
  : M unit :=
  let downloadPath := join tempDir [filename entry] in
  log (lit "Downloading " ++ filename entry) ;;
  requestFile (baseUrl ++ lit "/" ++ filename entry) downloadPath.

(** The callback from there on, when the request has run its course; it
    has no result when the promise of [downloadFile] stays pending. *)
Definition downloadEntry (env : Env) (baseUrl : jsstring) (tempDir : path)
  (entry : ChecksumEntry) : M (option DownloadResult) :=
  let downloadPath := join tempDir [filename entry] in
  tryCatch
    (finished <- downloadFile env (baseUrl ++ lit "/" ++ filename entry) downloadPath ;;
     if finished then
       log (lit "Downloaded " ++ filename entry) ;;
       ret (Some {| success := true; resultFilename := filename entry |})
     else ret None)
    (fun _ =>
       log (lit "Failed to download " ++ filename entry) ;;
       ret (Some {| success := false; resultFilename := filename entry |})).

(** The downloads that were started, in the order in which their
    requests come to an end: by time of arrival, and in the order of
    their start when the times are the same. *)
Fixpoint insertByArrival {A} (arrivalOf : A -> nat) (x : A) (l : list A) : list A :=
  match l with
  | [] => [x]
  | y :: l' =>
      if arrivalOf x <=? arrivalOf y then x :: l
      else y :: insertByArrival arrivalOf x l'
  end.

Definition byArrival {A} (arrivalOf : A -> nat) (l : list A) : list A :=
  fold_right (insertByArrival arrivalOf) [] l.

(** The state of the promise number [i] among those that came to an
    end. *)
Fixpoint promiseOf {A} (i : nat) (settled : list (nat * option A)) : option A :=
  match settled with
  | [] => None
  | (j, r) :: settled' => if i =? j then r else promiseOf i settled'
  end.

(** [Promise.all(promises)]: the results in the order of the promises,
    when each of them is fulfilled. *)
Fixpoint promiseAll {A} (promises : list (option A)) : option (list A) :=
  match promises with
  | [] => Some []
  | Some a :: promises' =>
      match promiseAll promises' with
      | Some l => Some (a :: l)
      | None => None
      end
  | None :: _ => None
  end.

(** The downloads of [main]: [checksums.map] calls the callback for
    every entry, in the order of the manifest, and each call runs to
    its first [await]; the callbacks then go on in the order in which
    their requests come to an end; [await Promise.all] gives the results
    in the order of the manifest, once every callback has returned. *)
Definition downloadAll (env : Env) (baseUrl : jsstring) (tempDir : path)
  (checksums : list ChecksumEntry) : M (list DownloadResult) :=
  forOf checksums (startDownload baseUrl tempDir) ;;
  let started := combine (seq 0 (length checksums)) checksums in
  settled <-
    mapM (fun download =>
            result <- downloadEntry env baseUrl tempDir (snd download) ;;
            ret (fst download, result))
         (byArrival (fun download =>
                       arrival env (baseUrl ++ lit "/" ++ filename (snd download)))
                    started) ;;
  match promiseAll (map (fun i => promiseOf i settled) (seq 0 (length checksums))) with
  | Some results => ret results
  | None => pending
  end.

(** [main()], with [process.argv[2]]. *)
Definition main (env : Env) (arg : option jsstring) : M unit :=
  let version := argOr arg (lit "v0.1.0") in
  let baseUrl := lit "https://github.com/hulo-lang/hulo/releases/download/" ++ version in
  let tempDir := join {| segments := cwd env; trailing := false |} [lit "temp"] in
  log (lit "Clearing temp directory...") ;;
  tryCatch
    (rmSyncM env true tempDir ;;
     tryCatch
       (remainingFiles <- readdirM tempDir ;;
        if 0 <? length remainingFiles then
          log (lit "Error: Temp directory not cleared! Remaining files: "
               ++ JsString.join (lit ", ") (map fst remainingFiles)) ;;
          exit 1%N
        else ret tt)
       (fun _ => ret tt) ;;
     log (lit "Temp directory cleared successfully"))
    (fun error =>
       print (LogError (lit "Error: Failed to clear temp directory: ") error) ;;
       exit 1%N) ;;
  log (lit "Starting Hulo downloader...") ;;
  tryCatch
    (mkdirM tempDir ;;
     log (lit "Fetching checksums...") ;;
     content <- downloadText env (baseUrl ++ lit "/checksums.txt") ;;
     log (lit "Checksums fetched successfully") ;;
     match content with
     | OtherData =>
         (* [content.split] in [parseChecksums]: a value that is not a
            string has no such method *)
         throw TypeError
     | StringData checksumsText =>
         let checksums := parseChecksums checksumsText in
         log (lit "Found " ++ numberToString (length checksums)
              ++ lit " files to download") ;;
         writeFileM (join tempDir [lit "checksums.txt"]) checksumsText ;;
         log (lit "Starting concurrent downloads...") ;;
         results <- downloadAll env baseUrl tempDir checksums ;;
         let successCount := length (filter (fun r => success r) results) in
         let failCount := length (filter (fun r => negb (success r)) results) in
         log (lit "Download Summary") ;;
         log (lit "Successfully downloaded: " ++ numberToString successCount
              ++ lit " files") ;;
         (if 0 <? failCount then
            log (lit "Failed to download: " ++ numberToString failCount ++ lit " files")
          else ret tt) ;;
         log (lit "All files downloaded successfully!") ;;
         log (lit "Check the temp/ directory for downloaded files")
     end)
    (fun error => print (LogError (lit "Error: ") error) ;; exit 1%N).

End Prepare.

(** ** The installer of the platform package *)

Module Install.

(** The own properties of the object literals [platformMap] and
    [archMap]. *)
Definition platformMap : list (jsstring * jsstring) :=
  [ (lit "win32", lit "windows"); (lit "darwin", lit "darwin");
    (lit "linux", lit "linux") ].

Definition archMap : list (jsstring * jsstring) :=
  [ (lit "x64", lit "x86-64"); (lit "arm64", lit "arm64"); (lit "ia32", lit "i386") ].

(** [table[key] || key] for a table of strings: the value that the table
    owns, when it is not empty, and the key itself when the table has
    nothing under that name.  A name of [Object.prototype] gives a
    function or an object, the text of which is left out: there is no
    result then. *)
Definition lookupOr (table : list (jsstring * jsstring)) (key : jsstring)
  : option jsstring :=
  match Platform.assoc key table with
  | Some v => Some (if truthy v then v else key)
  | None =>
      if existsb (str_eqb key) Platform.objectPrototypeKeys then None else Some key
  end.

(** What the script takes from its host: [os.platform()], [os.arch()],
    and [exec]: a command, run on the file tree, leaves a file tree and,
    when it fails, gives the message of its error. *)
Record Host := {
  platform : jsstring;
  arch : jsstring;
  exec : jsstring -> node -> option jsstring * node
}.

(** [getPlatform()] *)
Definition getPlatform (h : Host) : option jsstring :=
  match lookupOr platformMap (platform h), lookupOr archMap (arch h) with
  | Some platformName, Some archName => Some (platformName ++ lit "-" ++ archName)
  | _, _ => None
  end.

(** [exec(command, callback)], until the callback is called: the error,
    if there is one. *)
Definition execM (h : Host) (command : jsstring) : M (option jsstring) :=
  fun w =>
    (Return (fst (exec h command (fs w))),
     {| fs := snd (exec h command (fs w)); console := console w; trace := trace w |}).

(** [main()]; the callback of [exec] is taken when the command has ended. *)
Definition main (h : Host) : option (M unit) :=
  match getPlatform h with
  | None => None
  | Some platformName =>
      let packageName := lit "@hulo/" ++ platformName in
      Some (log (lit "Installing " ++ packageName ++ lit "...") ;;
            let installCommand := lit "npm install -g " ++ packageName in
            error <- execM h installCommand ;;
            match error with
            | Some message =>
                log (lit "Error: Failed to install " ++ packageName ++ lit ": " ++ message) ;;
                exit 1%N
            | None => log (lit "Successfully installed " ++ packageName)
            end)
  end.

End Install.

(** * Notions used in the statements *)

Unset Implicit Arguments.

(** ** Strings *)

(** A token: a non-empty run of units that are not white space. *)
Definition isToken (t : jsstring) : bool :=
  truthy t && forallb (fun c => negb (isSpace c)) t.

Definition allSpace (s : jsstring) : bool := forallb isSpace s.

(** The last unit of the string is white space. *)
Fixpoint endsInSpace (s : jsstring) : bool :=
  match s with
  | [] => false
  | c :: r => match r with [] => isSpace c | _ :: _ => endsInSpace r end
  end.

Definition startsInSpace (s : jsstring) : bool :=
  match s with [] => false | c :: _ => isSpace c end.


(** ** The manifest, in the words of the specification *)

(** The white-space separated tokens of a line, after trimming. *)
Definition tokens (line : jsstring) : list jsstring :=
  filter truthy (split_space (trim line)).

(** A well-formed line has at least two tokens. *)
Definition wellFormed (line : jsstring) : bool := 2 <=? length (tokens line).

(** The entry of a well-formed line: the first token is the hash, the
    other tokens, joined by single spaces, are the file name. *)
Definition lineEntry (line : jsstring) : ChecksumEntry :=
  {| hash := nth 0 (tokens line) [];
     filename := JsString.join (lit " ") (skipn 1 (tokens line)) |}.

Fixpoint dropToken (s : jsstring) : jsstring :=
  match s with
  | [] => []
  | c :: r => if isSpace c then s else dropToken r
  end.

(** The portion of a line after the hash: what follows the first token
    and the white space behind it, up to the end of the trimmed line. *)
Definition afterHash (line : jsstring) : jsstring :=
  trimStart (dropToken (trim line)).

(** ** The post-processor *)

Import Platform Handlebars Postprepare.

Definition workingDirectory (env : Env) : path :=
  {| segments := cwd env; trailing := false |}.

(** The normalized platform key of a file name that the pattern accepts. *)
Definition platformNameOf (platformKey : jsstring) : jsstring :=
  replaceUnderscores (toLowerCase platformKey).

(** The keys that the lookup in [platformInfo] accepts. *)
Definition accepted (platformName : jsstring) : bool :=
  propertyTruthy (getProperty platformName).

Definition platformDirOf (env : Env) (platformName : jsstring) : path :=
  join (workingDirectory env) [lit "temp"; lit "packages"; lit "hulo-" ++ platformName].

Definition binaryNameOf (platformName : jsstring) : jsstring :=
  if startsWith platformName (lit "windows") then lit "hulo.exe" else lit "hulo".

(** The three generated texts of a platform. *)
Definition packageJsonOf (version platformName : jsstring) : jsstring :=
  packageJsonTemplate
    (packageJsonData platformName version (getProperty platformName)
       (binaryNameOf platformName)).

Definition indexJsOf (platformName : jsstring) : jsstring :=
  indexJsTemplate (indexJsData (binaryNameOf platformName)).

Definition readmeOf (platformName : jsstring) : jsstring :=
  readmeTemplate (readmeData platformName (getProperty platformName)).

(** The files that hold them. *)
Definition artifacts (env : Env) (version platformName : jsstring)
  : list (path * jsstring) :=
  [ (join (platformDirOf env platformName) [lit "package.json"],
     packageJsonOf version platformName);
    (join (platformDirOf env platformName) [lit "index.js"],
     indexJsOf platformName);
    (join (platformDirOf env platformName) [lit "README.md"],
     readmeOf platformName) ].

(** An event that, if it writes a file, writes an artifact of an accepted
    platform. *)
Definition writesArtifact (env : Env) (version : jsstring) (ev : event) : Prop :=
  match ev with
  | WriteFile p data =>
      exists platformName,
        accepted platformName = true /\ In (p, data) (artifacts env version platformName)
  | _ => True
  end.

(** ** Traces *)

(** The events of [w'] are those of [w], followed by events in [P]. *)
Definition extends (P : event -> Prop) (w w' : World) : Prop :=
  exists evs, trace w' = trace w ++ evs /\ Forall P evs.

(** The computation only emits events in [P]. *)
Definition emits {A} (P : event -> Prop) (m : M A) : Prop :=
  forall w, extends P w (snd (m w)).

(** An event other than the start of a tool. *)
Definition notSpawn (ev : event) : Prop :=
  match ev with Spawn _ _ => False | _ => True end.

(** The console of [w'] is that of [w], followed by further lines. *)
Definition prints (w w' : World) : Prop :=
  exists ls, console w' = console w ++ ls.

(** The computation leaves the lines of the console in place. *)
Definition printing {A} (m : M A) : Prop :=
  forall w, prints w (snd (m w)).

(** A line of a text. *)
Definition hasLine (text l : jsstring) : Prop := In l (split 10%N text).

(** A file name of one segment: not empty, not [.] or [..], without a
    separator. *)
Definition plainName (s : jsstring) : bool :=
  truthy s && negb (str_eqb s (lit ".")) && negb (str_eqb s (lit ".."))
  && forallb (fun c => negb (c =? 47)%N) s.

(** No unit of the string is a line terminator: [.] matches them all. *)
Definition noLineTerminator (s : jsstring) : bool :=
  forallb (fun c => negb (isLineTerminator c)) s.

(** The keys for which [platformInfo[key]] is truthy. *)
Definition acceptedKeys : list jsstring :=
  map fst platformInfo ++ objectPrototypeKeys.

(** A line of a template, rendered. *)
Definition renderLine (ctx : context) (l : list piece) : jsstring :=
  concat (map (renderPiece ctx VUndefined false) l).

(** The lines of the package descriptor that declare a field. *)
Definition stringField (field : string) (v : jsstring) : jsstring :=
  lit "    " ++ quote ++ lit field ++ quote ++ lit ": " ++ quote ++ v ++ quote ++ lit ",".

Definition arrayField (field : string) (v : jsstring) : jsstring :=
  lit "    " ++ quote ++ lit field ++ quote ++ lit ": [" ++ quote ++ v ++ quote ++ lit "],".

(** ** Worlds to run the scripts in *)

(** A tool that unpacks the entries [archive] over those of the
    directory, whatever the bytes. *)
Definition unpack (archive : list (jsstring * node)) (es : list (jsstring * node))
  : list (jsstring * node) :=
  fold_left (fun acc e => setEntry (fst e) (snd e) acc) archive es.

(** A POSIX host in [/work] whose archives all hold [archive]; nothing
    is served over the network. *)
Definition hostWith (archive : list (jsstring * node)) : Env :=
  {| cwd := [lit "work"];
     isWin32 := false;
     rmSyncBehaviour := fun _ => Removes;
     extract := fun _ _ es => Some (unpack archive es);
     httpGet := fun _ => None;
     jsonParse := fun _ => None;
     httpStream := fun _ => Refused;
     arrival := fun _ => 0 |}.

(** A release archive: the executable and a library directory. *)
Definition releaseArchive : list (jsstring * node) :=
  [ (lit "hulo", File (lit "ELF"));
    (lit "std", Dir [ (lit "core", Dir [ (lit "io.hl", File (lit "fn print")) ]) ]) ].

(** A staging directory [/work/temp] with a manifest and staged files. *)
Definition staged (manifest : jsstring) (files : list (jsstring * node)) : node :=
  Dir [ (lit "work",
         Dir [ (lit "temp", Dir ((lit "checksums.txt", File manifest) :: files)) ]) ].

(** The world at the start of a process. *)
Definition start (tree : node) : World :=
  {| fs := tree; console := []; trace := [] |}.

Definition linuxArchiveName : jsstring := lit "hulo_Linux_x86_64.tar.gz".

Definition linuxStaging : node :=
  staged (lit "d41d8cd9  hulo_Linux_x86_64.tar.gz")
         [ (linuxArchiveName, File (lit "bytes")) ].

Definition linuxDescriptorPath : path :=
  join (platformDirOf (hostWith releaseArchive) (lit "linux-x86-64"))
       [lit "package.json"].

(** The directory of a platform in [/work], by segments. *)
Definition packageSegments (platformName : string) (rest : list string)
  : list jsstring :=
  map lit (["work"; "temp"; "packages"]%string ++ [("hulo-" ++ platformName)%string] ++ rest).

(** A manifest that lists the name [hulo_constructor.tar.gz], staged. *)
Definition constructorStaging : node :=
  staged (lit "d41d8cd9  hulo_constructor.tar.gz")
         [ (lit "hulo_constructor.tar.gz", File (lit "bytes")) ].

Definition constructorRun : outcome unit * World :=
  Postprepare.main (hostWith releaseArchive) None (start constructorStaging).

(** Archives whose [std] holds a file with a name that sorts before the
    names of its directories ([README.md] before [core]: upper case comes
    first), and whose [std] is empty. *)
Definition fileFirstStd : list (jsstring * node) :=
  [ (lit "core", Dir [ (lit "io.hl", File (lit "fn print")) ]);
    (lit "README.md", File (lit "# std")) ].

Definition fileFirstArchive : list (jsstring * node) :=
  [ (lit "hulo", File (lit "ELF")); (lit "std", Dir fileFirstStd) ].

Definition emptyStdArchive : list (jsstring * node) :=
  [ (lit "hulo", File (lit "ELF")); (lit "std", Dir []) ].

Definition darwinStaging : node :=
  staged (lit "d41d8cd9  hulo_Darwin_arm64.tar.gz")
         [ (lit "hulo_Darwin_arm64.tar.gz", File (lit "bytes")) ].

Definition darwinRun (archive : list (jsstring * node)) : outcome unit * World :=
  Postprepare.main (hostWith archive) None (start darwinStaging).

(** A manifest that names the Linux archive with a [/.] behind it. *)
Definition dotName : jsstring := lit "hulo_Linux_x86_64.tar.gz/.".

Definition dotStaging : node :=
  staged (lit "d41d8cd9  hulo_Linux_x86_64.tar.gz/.")
         [ (linuxArchiveName, File (lit "bytes")) ].

Definition dotRun : outcome unit * World :=
  Postprepare.main (hostWith releaseArchive) None (start dotStaging).

(** A manifest that lists a name around the archive name of a platform
    that the table does not have. *)
Definition plan9Name : jsstring := lit "prefix-hulo_Plan9.zip.bak".

Definition plan9Entry : ChecksumEntry :=
  {| hash := lit "d41d8cd9"; filename := plan9Name |}.

Definition plan9Staging : node :=
  staged (lit "d41d8cd9  prefix-hulo_Plan9.zip.bak")
         [ (plan9Name, File (lit "bytes")) ].

Definition plan9Run : outcome unit * World :=
  Postprepare.main (hostWith releaseArchive) None (start plan9Staging).

(** A manifest that lists a checksum file next to the archive. *)
Definition sha256Name : jsstring := lit "hulo_Linux_x86_64.tar.gz.sha256".

Definition sha256Entry : ChecksumEntry :=
  {| hash := lit "d41d8cd9"; filename := sha256Name |}.

Definition sha256Staging : node :=
  staged (lit "d41d8cd9  hulo_Linux_x86_64.tar.gz.sha256")
         [ (sha256Name, File (lit "0cc175b9")) ].

Definition sha256Run : outcome unit * World :=
  Postprepare.main (hostWith releaseArchive) None (start sha256Staging).

Definition tempDirOf (env : Env) : path := join (workingDirectory env) [lit "temp"].

(** ** The downloader *)

Import Prepare.

(** The release that a version argument selects. *)
Definition baseUrlOf (arg : option jsstring) : jsstring :=
  lit "https://github.com/hulo-lang/hulo/releases/download/" ++ argOr arg (lit "v0.1.0").

Definition manifestUrlOf (arg : option jsstring) : jsstring :=
  baseUrlOf arg ++ lit "/checksums.txt".

Definition manifestPathOf (env : Env) : path :=
  join (tempDirOf env) [lit "checksums.txt"].

(** What [downloadText] hands over for a URL, when the request
    succeeds: the body, or the value of the body when it is JSON. *)
Definition dataOf (env : Env) (url : jsstring) : option data :=
  match httpGet env url with
  | Some body =>
      Some (match jsonParse env body with
            | Some value => value
            | None => StringData body
            end)
  | None => None
  end.

(** The text of the manifest of a release, when [downloadText] hands
    over a text. *)
Definition manifestOf (env : Env) (arg : option jsstring) : option jsstring :=
  match dataOf env (manifestUrlOf arg) with
  | Some (StringData text) => Some text
  | _ => None
  end.

(** The request that an entry of the manifest causes. *)
Definition requestOf (baseUrl : jsstring) (tempDir : path) (entry : ChecksumEntry)
  : event :=
  DownloadFile (baseUrl ++ lit "/" ++ filename entry) (join tempDir [filename entry]).

(** The staging directory still lists an entry. *)
Definition listed (tempDir : path) (tree : node) : bool :=
  match readdir tempDir tree with
  | Some (_ :: _) => true
  | _ => false
  end.

(** The tree after the staging directory has been cleared, when [main]
    takes it as cleared. *)
Definition cleared (env : Env) (tempDir : path) (tree : node) : option node :=
  match rmSyncBehaviour env tempDir with
  | Removes =>
      match remove true tempDir tree with
      | Some tree' => if listed tempDir tree' then None else Some tree'
      | None => None
      end
  | Throws => None
  | Leaves => if listed tempDir tree then None else Some tree
  end.

Definition isSome {A} (o : option A) : bool :=
  match o with Some _ => true | None => false end.

(** The manifest of the release [v1.2.3], which lists two archives. *)
Definition twoArchives : jsstring :=
  lit "d41d8cd9  hulo_Darwin_arm64.tar.gz" ++ newline
  ++ lit "0cc175b9  hulo_Linux_x86_64.tar.gz".

Definition releaseUrl (name : string) : jsstring :=
  lit "https://github.com/hulo-lang/hulo/releases/download/v1.2.3/" ++ lit name.

(** A server for that release.  It delivers the manifest and the
    archive for Linux, which is the first to arrive; the archive for
    macOS goes the course [darwin]. *)
Definition serverWith (darwin : transfer) : Env :=
  {| cwd := [lit "work"];
     isWin32 := false;
     rmSyncBehaviour := fun _ => Removes;
     extract := fun _ _ es => Some es;
     httpGet := fun url =>
       if str_eqb url (releaseUrl "checksums.txt") then Some twoArchives else None;
     jsonParse := fun _ => None;
     httpStream := fun url =>
       if str_eqb url (releaseUrl "hulo_Linux_x86_64.tar.gz") then Delivers (lit "bytes")
       else if str_eqb url (releaseUrl "hulo_Darwin_arm64.tar.gz") then darwin
       else Refused;
     arrival := fun url =>
       if str_eqb url (releaseUrl "hulo_Linux_x86_64.tar.gz") then 1 else 2 |}.

(** The request for the archive for macOS fails. *)
Definition halfServer : Env := serverWith Refused.

(** The transfer of the archive for macOS breaks after two units. *)
Definition brokenServer : Env := serverWith (Breaks (lit "by")).

(** A working directory with a stale staging directory. *)
Definition staleTree : node :=
  Dir [ (lit "work", Dir [ (lit "temp", Dir [ (lit "old.zip", File (lit "stale")) ]) ]) ].

Definition brokenRun : outcome unit * World :=
  Prepare.main brokenServer (Some (lit "v1.2.3")) (start staleTree).

Definition halfRun : outcome unit * World :=
  Prepare.main halfServer (Some (lit "v1.2.3")) (start staleTree).

(** Two downloads that were started for the same file name, at the same
    place in the manifest. *)
Definition sameDownload (d1 d2 : nat * ChecksumEntry) : Prop :=
  fst d1 = fst d2 /\ filename (snd d1) = filename (snd d2).

(** The two [try] blocks of [main]: the clearing of the staging
    directory, and the downloads. *)
Definition clearStaging (env : Env) (tempDir : path) : M unit :=
  tryCatch
    (rmSyncM env true tempDir ;;
     tryCatch
       (remainingFiles <- readdirM tempDir ;;
        if 0 <? length remainingFiles then
          log (lit "Error: Temp directory not cleared! Remaining files: "
               ++ JsString.join (lit ", ") (map fst remainingFiles)) ;;
          exit 1%N
        else ret tt)
       (fun _ => ret tt) ;;
     log (lit "Temp directory cleared successfully"))
    (fun error =>
       print (LogError (lit "Error: Failed to clear temp directory: ") error) ;;
       exit 1%N).

Definition fetchStaging (env : Env) (baseUrl : jsstring) (tempDir : path) : M unit :=
  tryCatch
    (mkdirM tempDir ;;
     log (lit "Fetching checksums...") ;;
     content <- downloadText env (baseUrl ++ lit "/checksums.txt") ;;
     log (lit "Checksums fetched successfully") ;;
     match content with
     | OtherData => throw TypeError
     | StringData checksumsText =>
         let checksums := parseChecksums checksumsText in
         log (lit "Found " ++ numberToString (length checksums)
              ++ lit " files to download") ;;
         writeFileM (join tempDir [lit "checksums.txt"]) checksumsText ;;
         log (lit "Starting concurrent downloads...") ;;
         results <- downloadAll env baseUrl tempDir checksums ;;
         let successCount := length (filter (fun r => success r) results) in
         let failCount := length (filter (fun r => negb (success r)) results) in
         log (lit "Download Summary") ;;
         log (lit "Successfully downloaded: " ++ numberToString successCount
              ++ lit " files") ;;
         (if 0 <? failCount then
            log (lit "Failed to download: " ++ numberToString failCount ++ lit " files")
          else ret tt) ;;
         log (lit "All files downloaded successfully!") ;;
         log (lit "Check the temp/ directory for downloaded files")
     end)
    (fun error => print (LogError (lit "Error: ") error) ;; exit 1%N).

(** ** Trees that differ in the content of one file *)

(** Induction on trees, with the entries of a directory. *)
Fixpoint node_rect' (P : node -> Prop)
  (HF : forall c, P (File c))
  (HD : forall es, Forall (fun e => P (snd e)) es -> P (Dir es))
  (n : node) : P n :=
  match n with
  | File c => HF c
  | Dir es =>
      HD es ((fix go (l : list (jsstring * node)) : Forall (fun e => P (snd e)) l :=
                match l with
                | [] => Forall_nil _
                | e :: l' => Forall_cons e (node_rect' P HF HD (snd e)) (go l')
                end) es)
  end.

(** What is left of the path to the file below the entry [k]; [None]
    when the file is not below. *)
Definition below (om : option (list jsstring)) (k : jsstring)
  : option (list jsstring) :=
  match om with
  | Some (s :: m) => if str_eqb s k then Some m else None
  | _ => None
  end.

Definition belowPath (om : option (list jsstring)) (p : list jsstring)
  : option (list jsstring) :=
  fold_left below p om.

(** [same (Some m) a b]: the trees have the same entries, in the same
    order, and the same contents, except for the content of the file at
    [m]; [same None a b]: the trees are equal. *)
Fixpoint same (om : option (list jsstring)) (a b : node) {struct a} : bool :=
  match a, b with
  | File ca, File cb =>
      match om with
      | Some [] => true
      | _ => str_eqb ca cb
      end
  | Dir ea, Dir eb =>
      (fix sameEntries (ea eb : list (jsstring * node)) {struct ea} : bool :=
         match ea, eb with
         | [], [] => true
         | (ka, na) :: ra, (kb, nb) :: rb =>
             str_eqb ka kb && same (below om ka) na nb && sameEntries ra rb
         | _, _ => false
         end) ea eb
  | _, _ => false
  end.

Definition sameEntries (om : option (list jsstring)) (ea eb : list (jsstring * node))
  : bool :=
  same om (Dir ea) (Dir eb).

(** Two worlds with such trees, the same console and the same trace. *)
Definition sameWorld (om : option (list jsstring)) (wa wb : World) : Prop :=
  same om (fs wa) (fs wb) = true /\ console wa = console wb /\ trace wa = trace wb.

Definition sameResult {A} (om : option (list jsstring)) (ra rb : outcome A * World)
  : Prop :=
  fst ra = fst rb /\ sameWorld om (snd ra) (snd rb).

(** A computation that does not tell such worlds apart. *)
Definition respects {A} (om : option (list jsstring)) (c : M A) : Prop :=
  forall wa wb, sameWorld om wa wb -> sameResult om (c wa) (c wb).

Definition sameOption (om : option (list jsstring)) (oa ob : option node) : Prop :=
  match oa, ob with
  | Some a, Some b => same om a b = true
  | None, None => True
  | _, _ => False
  end.

(** The kind of an entry: absent, a file or a directory. *)
Definition sameKind (oa ob : option node) : Prop :=
  match oa, ob with
  | Some a, Some b => isDirectory a = isDirectory b
  | None, None => True
  | _, _ => False
  end.

(** [main] of the post-processor after the manifest has been parsed. *)
Definition installFrom (env : Env) (version : jsstring) (tempDir : path)
  (checksums : list ChecksumEntry) : M unit :=
  log (lit "Found " ++ numberToString (length checksums)
       ++ lit " files in checksums.txt") ;;
  tempFiles <- readdirM tempDir ;;
  log (lit "Found " ++ numberToString (length tempFiles)
       ++ lit " files in temp directory") ;;
  forOf checksums (Postprepare.processEntry env version tempDir) ;;
  log (lit "All packages processed successfully!") ;;
  log (lit "Check the packages/ directory for individual platform packages").

(** [main] of the post-processor on a staging directory whose manifest
    has the text [text]. *)
Definition mainWith (env : Env) (arg : option jsstring) (text : jsstring) : M unit :=
  log (lit "Starting post-processing...") ;;
  tryCatch
    (tryCatch (readdirM (tempDirOf env) ;; ret tt)
       (fun _ =>
          log (lit "Error: temp directory not found. Please run prepare.ts first.") ;;
          exit 1%N) ;;
     installFrom env (argOr arg (lit "0.1.0")) (tempDirOf env) (parseChecksums text))
    (fun error => print (LogError (lit "Error: ") error) ;; exit 1%N).

(** The directory of the packages. *)
Definition packagesDirOf (env : Env) : list jsstring :=
  cwd env ++ [lit "temp"; lit "packages"].

(** Equality of lists of segments. *)
Fixpoint segments_eqb (p q : list jsstring) : bool :=
  match p, q with
  | [], [] => true
  | a :: p', b :: q' => str_eqb a b && segments_eqb p' q'
  | _, _ => false
  end.

(** Two lines that are equal except for the hash: they have as many
    tokens, and the same tokens after the first. *)
Definition sameButHash (la lb : jsstring) : bool :=
  (length (tokens la) =? length (tokens lb))
  && segments_eqb (skipn 1 (tokens la)) (skipn 1 (tokens lb)).

Fixpoint forall2b {A} (f : A -> A -> bool) (l1 l2 : list A) : bool :=
  match l1, l2 with
  | [], [] => true
  | a :: l1', b :: l2' => f a b && forall2b f l1' l2'
  | _, _ => false
  end.

(** Two manifest texts that are equal except for the hash of each line. *)
Definition differOnlyInHash (ta tb : jsstring) : bool :=
  forall2b sameButHash (split 10%N ta) (split 10%N tb).

(** The entry names the manifest file itself. *)
Definition namesManifest (env : Env) (entry : ChecksumEntry) : bool :=
  segments_eqb (segments (join (tempDirOf env) [filename entry]))
               (segments (manifestPathOf env)).

(** A manifest whose only line names the manifest itself, behind the name
    of an archive. *)
Definition selfManifest (h : string) : jsstring :=
  lit h ++ lit "  hulo_Linux_x86_64.tar.gz/../checksums.txt".

Definition selfRun (h : string) : outcome unit * World :=
  Postprepare.main (hostWith releaseArchive) None (start (staged (selfManifest h) [])).

(** Two manifests of one archive, with different hashes. *)
Definition linuxManifest (h : string) : jsstring :=
  lit h ++ lit "  hulo_Linux_x86_64.tar.gz".

Definition linuxStaged (h : string) : World :=
  start (staged (linuxManifest h) [ (linuxArchiveName, File (lit "bytes")) ]).

(** ** Manifests as they are written *)

(** A line of a manifest as [sha256sum] prints it: the hash, two spaces
    and the file name, here given by its words. *)
Definition manifestLine (r : jsstring * list jsstring) : jsstring :=
  fst r ++ lit "  " ++ JsString.join (lit " ") (snd r).

Definition manifestEntry (r : jsstring * list jsstring) : ChecksumEntry :=
  {| hash := fst r; filename := JsString.join (lit " ") (snd r) |}.

(** The hash is a token and the file name has at least one word, each
    of them a token. *)
Definition wellTokenized (r : jsstring * list jsstring) : bool :=
  isToken (fst r) && (1 <=? length (snd r)) && forallb isToken (snd r).

Definition noLineFeed (l : jsstring) : bool := forallb (fun c => negb (c =? 10)%N) l.

(** The only white space of the string are single units U+0020. *)
Definition spacesOnly (s : jsstring) : bool :=
  forallb (fun c => negb (isSpace c) || (c =? 32)%N) s.

(** No two units of white space follow each other. *)
Fixpoint noSpaceRun (s : jsstring) : bool :=
  match s with
  | [] => true
  | c :: r =>
      match r with
      | [] => true
      | d :: _ => negb (isSpace c && isSpace d) && noSpaceRun r
      end
  end.

(** A line with a carriage return at its end. *)
Definition withCarriageReturn (l : jsstring) : jsstring := l ++ [13%N].

(** ** The generated texts *)

(** The units that [escapeExpression] replaces. *)
Definition isHtmlSpecial (c : char) : bool :=
  ((c =? 38) || (c =? 60) || (c =? 62) || (c =? 34) || (c =? 39) || (c =? 96)
   || (c =? 61))%N.

Definition htmlSafe (s : jsstring) : bool := forallb (fun c => negb (isHtmlSpecial c)) s.

Definition noQuote (s : jsstring) : bool := forallb (fun c => negb (c =? 34)%N) s.

(** The line of the package descriptor that declares the executable. *)
Definition binField (binaryName : jsstring) : jsstring :=
  lit "        " ++ quote ++ lit "hulo" ++ quote ++ lit ": " ++ quote
  ++ lit "./bin/" ++ binaryName ++ quote.

(** The line of the launcher that locates the executable. *)
Definition exePathLine (binaryName : jsstring) : jsstring :=
  lit "const exePath = path.join(__dirname, 'bin', '" ++ binaryName ++ lit "');".

(** ** Hosts of the installer *)

(** A host whose [os.platform()] and [os.arch()] are the given values of
    the types [OS] and [CPU], with its commands. *)
Definition hostRunning (o : Platform.OS) (c : Platform.CPU)
  (command : jsstring -> node -> option jsstring * node) : Install.Host :=
  {| Install.platform := Platform.OS_string o;
     Install.arch := Platform.CPU_string c;
     Install.exec := command |}.

(** Such a host on which a command only succeeds or fails. *)
Definition hostOf (o : Platform.OS) (c : Platform.CPU) (run : jsstring -> option jsstring)
  : Install.Host :=
  hostRunning o c (fun command tree => (run command, tree)).

(** The command that installs the package of a platform. *)
Definition installCommandOf (platformName : jsstring) : jsstring :=
  lit "npm install -g @hulo/" ++ platformName.

(** The lines of the readme of a platform. *)
Definition readmeLines (platformName : jsstring) (d : Platform.PlatformData)
  : list jsstring :=
  [ lit "# @hulo/" ++ platformName;
    Platform.description d;
    lit "npm install @hulo/" ++ platformName;
    lit "npx @hulo/" ++ platformName ++ lit " -V";
    lit "- **OS**: " ++ Platform.OS_string (Platform.os d);
    lit "- **Architecture**: " ++ Platform.CPU_string (Platform.arch d) ].

Definition isWindows (o : Platform.OS) : bool :=
  match o with Platform.win32 => true | _ => false end.

(** The entry [linux-x86-64] of the platform table. *)
Definition linuxData : Platform.PlatformData :=
  {| Platform.os := Platform.linux; Platform.arch := Platform.x64;
     Platform.description := lit "Hulo compiler for Linux (64-bit)";
     Platform.keywords := map lit ["hulo"; "compiler"; "linux"; "x86_64"; "64bit"]%string |}.

(** ** Runs that change nothing *)

(** On the tree [tree], the computation returns and leaves the tree and
    the trace as they are. *)
Definition calmOn {A} (tree : node) (m : M A) : Prop :=
  forall w, fs w = tree ->
            (exists a, fst (m w) = Return a)
            /\ fs (snd (m w)) = tree /\ trace (snd (m w)) = trace w.

(** An entry that the loop of the post-processor passes over: the
    pattern rejects its name, or [platformInfo] has nothing for its key,
    or its file is not in the staging directory. *)
Definition passedOver (env : Env) (tree : node) (entry : ChecksumEntry) : bool :=
  match Postprepare.matchArchive (filename entry) with
  | None => true
  | Some key =>
      negb (accepted (platformNameOf key))
      || negb (isSome (readFile (join (tempDirOf env) [filename entry]) tree))
  end.

Definition noDot (s : jsstring) : bool := forallb (fun c => negb (c =? 46)%N) s.

(** The string holds a match of the pattern of the post-processor:
    [hulo_], a key, and one of the extensions. *)
Definition holdsArchiveName (s : jsstring) : Prop :=
  exists before key after,
    s = before ++ lit "hulo_" ++ key ++ after
    /\ key <> [] /\ noLineTerminator key = true
    /\ Postprepare.matchExtension after = true.

(** ** The downloads of the downloader *)

(** What [writeFile] does with the entry at the end of its path. *)
Definition fileWriter (data : jsstring) (old : option node) : option (option node) :=
  match old with
  | Some (Dir _) => None
  | _ => Some (Some (File data))
  end.

(** A file can be written at the path: the directory that is to hold it
    exists, and the path is not that of a directory. *)
Definition writable (p : path) (tree : node) : bool := isSome (writeFile p [] tree).

(** The download of the entry stays pending: the response starts, the
    file is opened and the transfer breaks. *)
Definition hangs (env : Env) (baseUrl : jsstring) (tempDir : path) (tree : node)
  (entry : ChecksumEntry) : bool :=
  match httpStream env (baseUrl ++ lit "/" ++ filename entry) with
  | Breaks _ => writable (join tempDir [filename entry]) tree
  | _ => false
  end.

(** The download of the entry succeeds: the body arrives in full and
    goes to the file. *)
Definition succeeds (env : Env) (baseUrl : jsstring) (tempDir : path) (tree : node)
  (entry : ChecksumEntry) : bool :=
  match httpStream env (baseUrl ++ lit "/" ++ filename entry) with
  | Delivers _ => writable (join tempDir [filename entry]) tree
  | _ => false
  end.

Definition resultOf (env : Env) (baseUrl : jsstring) (tempDir : path) (tree : node)
  (entry : ChecksumEntry) : Prepare.DownloadResult :=
  {| Prepare.success := succeeds env baseUrl tempDir tree entry;
     Prepare.resultFilename := filename entry |}.

(** The promise of the download of an entry: pending, or fulfilled with
    its result. *)
Definition promiseFor (env : Env) (baseUrl : jsstring) (tempDir : path) (tree : node)
  (entry : ChecksumEntry) : option Prepare.DownloadResult :=
  if hangs env baseUrl tempDir tree entry then None
  else Some (resultOf env baseUrl tempDir tree entry).

(** Files can be written at the same paths of both trees. *)
Definition sameWritable (a b : node) : Prop :=
  forall p, writable p a = writable p b.

(** The line that reports the end of the download of an entry. *)
Definition settleLine (env : Env) (baseUrl : jsstring) (tempDir : path) (tree : node)
  (entry : ChecksumEntry) : list line :=
  if succeeds env baseUrl tempDir tree entry
  then [Log (lit "Downloaded " ++ filename entry)]
  else if hangs env baseUrl tempDir tree entry then []
  else [Log (lit "Failed to download " ++ filename entry)].

(** The tree after the download of an entry: what arrived is in the
    file, if the file can be written. *)
Definition store (env : Env) (baseUrl : jsstring) (tempDir : path) (tree : node)
  (entry : ChecksumEntry) : node :=
  match httpStream env (baseUrl ++ lit "/" ++ filename entry) with
  | Refused => tree
  | Delivers content | Breaks content =>
      match writeFile (join tempDir [filename entry]) content tree with
      | Some tree' => tree'
      | None => tree
      end
  end.

(** No entry of another name goes to the file of the entry. *)
Definition goesAlone (tempDir : path) (entry : ChecksumEntry)
  (entries : list ChecksumEntry) : Prop :=
  forall other,
    In other entries ->
    segments (join tempDir [filename other]) = segments (join tempDir [filename entry]) ->
    filename other = filename entry.

(** The entries of a manifest in the order in which their downloads come
    to an end. *)
Definition settleOrder (env : Env) (baseUrl : jsstring) (entries : list ChecksumEntry)
  : list ChecksumEntry :=
  map snd
    (Prepare.byArrival
       (fun download => arrival env (baseUrl ++ lit "/" ++ filename (snd download)))
       (combine (seq 0 (length entries)) entries)).

(** ** The console of the downloader *)

(** The lines of the downloads of a manifest: every download is
    announced, in the order of the manifest, before the end of the
    first of them is reported. *)
Definition downloadLog (env : Env) (baseUrl : jsstring) (tempDir : path)
  (entries : list ChecksumEntry) (tree : node) : list line :=
  map (fun entry => Log (lit "Downloading " ++ filename entry)) entries
  ++ flat_map (settleLine env baseUrl tempDir tree) (settleOrder env baseUrl entries).

(** The summary at the end of a run, for the results of the downloads. *)
Definition summaryLines (results : list Prepare.DownloadResult) : list line :=
  [ Log (lit "Download Summary");
    Log (lit "Successfully downloaded: "
         ++ numberToString (length (filter (fun r => Prepare.success r) results))
         ++ lit " files") ]
  ++ (if 0 <? length (filter (fun r => negb (Prepare.success r)) results)
      then [Log (lit "Failed to download: "
                 ++ numberToString
                      (length (filter (fun r => negb (Prepare.success r)) results))
                 ++ lit " files")]
      else [])
  ++ [ Log (lit "All files downloaded successfully!");
       Log (lit "Check the temp/ directory for downloaded files") ].

(** The lines before the downloads, for a manifest with [n] entries. *)
Definition preambleLines (n : nat) : list line :=
  [ Log (lit "Clearing temp directory...");
    Log (lit "Temp directory cleared successfully");
    Log (lit "Starting Hulo downloader...");
    Log (lit "Fetching checksums...");
    Log (lit "Checksums fetched successfully");
    Log (lit "Found " ++ numberToString n ++ lit " files to download");
    Log (lit "Starting concurrent downloads...") ].

(** A server that delivers a manifest of two archives and no archive. *)
Definition manifestOnlyServer : Env :=
  {| cwd := [lit "work"];
     isWin32 := false;
     rmSyncBehaviour := fun _ => Removes;
     extract := fun _ _ es => Some es;
     httpGet := fun url =>
       if str_eqb url (lit "https://github.com/hulo-lang/hulo/releases/download/v0.1.0/checksums.txt")
       then Some (lit "d41d8cd9  hulo_Darwin_arm64.tar.gz" ++ newline
                  ++ lit "0cc175b9  hulo_Linux_x86_64.tar.gz")
       else None;
     jsonParse := fun _ => None;
     httpStream := fun _ => Refused;
     arrival := fun _ => 0 |}.

(** A server whose manifest is the JSON text of an array. *)
Definition jsonServer : Env :=
  {| cwd := [lit "work"];
     isWin32 := false;
     rmSyncBehaviour := fun _ => Removes;
     extract := fun _ _ es => Some es;
     httpGet := fun _ => Some (lit "[1]");
     jsonParse := fun text => if str_eqb text (lit "[1]") then Some OtherData else None;
     httpStream := fun _ => Refused;
     arrival := fun _ => 0 |}.

Definition workTree : node := Dir [ (lit "work", Dir []) ].

(** ** What a run leaves as it is *)

(** The paths part: at some segment they take different names. *)
Fixpoint diverge (p q : list jsstring) : bool :=
  match p, q with
  | a :: p', b :: q' => if str_eqb a b then diverge p' q' else true
  | _, _ => false
  end.

(** The computation leaves what is at [q] as it is. *)
Definition keeps {A} (q : list jsstring) (m : M A) : Prop :=
  forall w, lookup q (fs (snd (m w))) = lookup q (fs w).

(** All segments are names of one segment. *)
Definition plainSegments (p : list jsstring) : bool := forallb plainName p.

(** The manifest that the downloader receives for the release only lists
    names of one segment. *)
Definition servesPlainNames (env : Env) (arg : option jsstring) : Prop :=
  forall text,
    manifestOf env arg = Some text ->
    forallb (fun e => plainName (filename e)) (parseChecksums text) = true.

(** A host whose server has the manifest of one archive, and the archive. *)
Definition fullServer : Env :=
  {| cwd := [lit "work"];
     isWin32 := false;
     rmSyncBehaviour := fun _ => Removes;
     extract := fun _ _ es => Some es;
     httpGet := fun url =>
       if str_eqb url (lit "https://github.com/hulo-lang/hulo/releases/download/v0.1.0/checksums.txt")
       then Some (lit "0cc175b9  hulo_Linux_x86_64.tar.gz")
       else None;
     jsonParse := fun _ => None;
     httpStream := fun url =>
       if str_eqb url (lit "https://github.com/hulo-lang/hulo/releases/download/v0.1.0/hulo_Linux_x86_64.tar.gz")
       then Delivers (lit "bytes")
       else Refused;
     arrival := fun _ => 0 |}.

(** A working directory with a file of its own next to a stale staging
    directory. *)
Definition projectTree : node :=
  Dir [ (lit "work",
         Dir [ (lit "package.json", File (lit "{}"));
               (lit "temp", Dir [ (lit "old.zip", File (lit "stale")) ]) ]) ].

(** ** Trees as a file system has them *)

(** No name occurs twice. *)
Fixpoint uniqueNames (names : list jsstring) : bool :=
  match names with
  | [] => true
  | x :: rest => negb (existsb (str_eqb x) rest) && uniqueNames rest
  end.

(** In every directory of the tree the names of the entries differ. *)
Fixpoint wellNamed (n : node) : bool :=
  match n with
  | File _ => true
  | Dir es => uniqueNames (map fst es) && forallb (fun e => wellNamed (snd e)) es
  end.

(** None of the names is the name of an entry. *)
Definition absentFrom (es : list (jsstring * node)) (names : list jsstring) : bool :=
  forallb (fun name => negb (isSome (getEntry name es))) names.

(** What [readdir] lists for the entries of a directory. *)
Definition listing (es : list (jsstring * node)) : list (jsstring * bool) :=
  map (fun e => (fst e, isDirectory (snd e))) es.

(** The body of the loop of [copyDirectory], for the fuel that is left. *)
Definition copyEntry (fuel : nat) (source target : path) (entry : jsstring * bool)
  : M unit :=
  if snd entry then
    mkdirM (child target (fst entry)) ;;
    Postprepare.copyDirectory fuel (child source (fst entry)) (child target (fst entry))
  else
    copyFileM (child source (fst entry)) (child target (fst entry)).

(** The entries of a directory in the order in which [readdir] lists
    them. *)
Fixpoint insertNode (e : jsstring * node) (l : list (jsstring * node))
  : list (jsstring * node) :=
  match l with
  | [] => [e]
  | x :: l' => if str_ltb (fst e) (fst x) then e :: l else x :: insertNode e l'
  end.

Definition sortNodes (l : list (jsstring * node)) : list (jsstring * node) :=
  fold_right insertNode [] l.

(** The same files and directories, with the entries of every directory
    in that order. *)
Fixpoint arranged (n : node) : node :=
  match n with
  | File c => File c
  | Dir es => Dir (sortNodes (map (fun e => (fst e, arranged (snd e))) es))
  end.

Definition arrangedEntry (e : jsstring * node) : jsstring * node :=
  (fst e, arranged (snd e)).

(** What is at a path: nothing, a directory, or a file with its
    content. *)
Definition contentOf (n : node) : option jsstring :=
  match n with File c => Some c | Dir _ => None end.

Definition shapeAt (p : list jsstring) (tree : node) : option (option jsstring) :=
  option_map contentOf (lookup p tree).

(** [copyDirectory] with this fuel copies: into a directory that has
    none of the names of the source it adds the entries of the source,
    in the order of the listings, and it changes nothing else. *)
Definition copiesInto (fuel : nat) : Prop :=
  forall (source target : path) (w : World) (es ts : list (jsstring * node)),
    diverge (segments target) (segments source) = true ->
    lookup (segments source) (fs w) = Some (Dir es) ->
    lookup (segments target) (fs w) = Some (Dir ts) ->
    wellNamed (Dir es) = true ->
    absentFrom ts (map fst es) = true ->
    height (Dir es) <= fuel ->
    exists w',
      Postprepare.copyDirectory fuel source target w = (Return tt, w')
      /\ setDirectory (segments target) (ts ++ sortNodes (map arrangedEntry es)) (fs w)
         = Some (fs w').

(** A library of two levels, and a tree with it and an empty target. *)
Definition stdEntries : list (jsstring * node) :=
  [ (lit "prelude.hl", File (lit "use core"));
    (lit "core", Dir [ (lit "io.hl", File (lit "fn print")) ]) ].

Definition stdTree : node :=
  Dir [ (lit "std", Dir stdEntries); (lit "bin", Dir [ (lit "std", Dir []) ]) ].

(** The line of the package descriptor that lists the keywords. *)
Definition keywordsField (ks : list jsstring) : jsstring :=
  lit "    " ++ quote ++ lit "keywords" ++ quote ++ lit ": ["
  ++ JsString.join (lit ", ") (map (fun k => quote ++ k ++ quote) ks) ++ lit "],".

(** The listing starts with a directory. *)
Definition leadsWithDirectory (entries : list (jsstring * bool)) : bool :=
  match entries with
  | (_, true) :: _ => true
  | _ => false
  end.

(** The world with another tree. *)
Definition withTree (w : World) (tree : node) : World :=
  {| fs := tree; console := console w; trace := trace w |}.

(** A tree with a library and a [bin] without [std]. *)
Definition unpackedTree : node :=
  Dir [ (lit "std", Dir [ (lit "core", Dir [ (lit "io.hl", File (lit "fn print")) ]);
                          (lit "prelude.hl", File (lit "use core")) ]);
        (lit "bin", Dir []) ].

(** ** The package of a platform *)

(** The tool that [extractFile] runs on a path, if it runs one. *)
Definition toolFor (env : Env) (filePath : path) : option tool :=
  if endsWith (toString filePath) (lit ".zip") then
    Some (if isWin32 env then ExpandArchive else Unzip)
  else if endsWith (toString filePath) (lit ".tar.gz") then Some Tar
  else None.

(** What [main] leaves in the directory of a platform, from an archive
    with the executable [binary] and the library [std]. *)
Definition packageEntries (version platformName binary : jsstring)
  (std : list (jsstring * node)) : list (jsstring * node) :=
  [ (lit "bin", Dir [ (binaryNameOf platformName, File binary); (lit "std", Dir std) ]);
    (lit "package.json", File (packageJsonOf version platformName));
    (lit "index.js", File (indexJsOf platformName));
    (lit "README.md", File (readmeOf platformName)) ].

(** * Properties *)

(** ** Strings *)

Section StringFacts.

Lemma str_eqb_eq (a b : jsstring) : str_eqb a b = true <-> a = b.
Proof.
  revert b; induction a as [|x a IH]; intros [|y b]; simpl; split; intros H;
    try reflexivity; try discriminate.
  - apply andb_true_iff in H as [H1 H2].
    apply N.eqb_eq in H1. apply IH in H2. now subst.
  - injection H as -> ->. rewrite N.eqb_refl. now apply IH.
Qed.

Lemma str_eqb_refl (a : jsstring) : str_eqb a a = true.
Proof. now apply str_eqb_eq. Qed.

Lemma str_eqb_neq (a b : jsstring) : str_eqb a b = false <-> a <> b.
Proof.
  split.
  - intros H E. apply str_eqb_eq in E. congruence.
  - intros H. destruct (str_eqb a b) eqn:E; [|reflexivity].
    apply str_eqb_eq in E. contradiction.
Qed.

Lemma startsWith_app (p s : jsstring) : startsWith (p ++ s) p = true.
Proof. induction p as [|c p IH]; simpl; [reflexivity|]. now rewrite N.eqb_refl. Qed.

Lemma startsWith_prefix (s p : jsstring) :
  startsWith s p = true -> exists r, s = p ++ r.
Proof.
  revert s; induction p as [|c p IH]; intros s H; simpl in *.
  - now exists s.
  - destruct s as [|d s]; [discriminate|].
    apply andb_true_iff in H as [H1 H2]. apply N.eqb_eq in H1. subst d.
    destruct (IH _ H2) as [r ->]. now exists r.
Qed.

Lemma endsInSpace_snoc (s : jsstring) (c : char) :
  endsInSpace (s ++ [c]) = isSpace c.
Proof.
  induction s as [|d s IH]; simpl; [reflexivity|].
  destruct (s ++ [c]) eqn:E; [now destruct s|]. exact IH.
Qed.

Lemma trimStart_decompose (s : jsstring) :
  exists ws, s = ws ++ trimStart s /\ allSpace ws = true.
Proof.
  induction s as [|c s (ws & E & A)]; simpl.
  - now exists [].
  - destruct (isSpace c) eqn:Hc.
    + exists (c :: ws); simpl. rewrite Hc, A. split; [now f_equal|reflexivity].
    + now exists [].
Qed.

Lemma trimStart_starts (s : jsstring) : startsInSpace (trimStart s) = false.
Proof.
  induction s as [|c s IH]; simpl; [reflexivity|].
  destruct (isSpace c) eqn:Hc; [exact IH|]. simpl. exact Hc.
Qed.

Lemma trimStart_id (s : jsstring) : startsInSpace s = false -> trimStart s = s.
Proof. destruct s as [|c s]; simpl; [reflexivity|]. now intros ->. Qed.

Lemma trimStart_spaces (ws s : jsstring) :
  allSpace ws = true -> trimStart (ws ++ s) = trimStart s.
Proof.
  induction ws as [|c ws IH]; simpl; [reflexivity|].
  intros H. apply andb_true_iff in H as [-> H]. now apply IH.
Qed.

Lemma startsInSpace_rev (s : jsstring) : startsInSpace (rev s) = endsInSpace s.
Proof.
  induction s as [|c s IH]; [reflexivity|].
  simpl rev. destruct s as [|d s]; [reflexivity|].
  change (endsInSpace (c :: d :: s)) with (endsInSpace (d :: s)). rewrite <- IH.
  destruct (rev (d :: s)) eqn:E; [|reflexivity].
  apply (f_equal (@length _)) in E. rewrite length_rev in E. discriminate.
Qed.

Lemma trim_ends (s : jsstring) : endsInSpace (trim s) = false.
Proof.
  unfold trim, trimEnd. rewrite <- startsInSpace_rev, rev_involutive.
  apply trimStart_starts.
Qed.

Lemma trim_starts (s : jsstring) : startsInSpace (trim s) = false.
Proof.
  unfold trim, trimEnd.
  destruct (trimStart_decompose (rev (trimStart s))) as (ws & E & A).
  pose proof (trimStart_starts s) as Hs.
  apply (f_equal (@rev _)) in E. rewrite rev_involutive, rev_app_distr in E.
  destruct (rev (trimStart (rev (trimStart s)))) as [|c u]; [reflexivity|].
  rewrite E in Hs. exact Hs.
Qed.

Lemma trim_id (s : jsstring) :
  startsInSpace s = false -> endsInSpace s = false -> trim s = s.
Proof.
  intros H1 H2. unfold trim, trimEnd. rewrite (trimStart_id _ H1).
  rewrite trimStart_id; [apply rev_involutive|]. now rewrite startsInSpace_rev.
Qed.

Lemma split_space_from_nonempty (b : bool) (s : jsstring) :
  split_space_from b s <> [].
Proof.
  revert b; induction s as [|c s IH]; intros b; simpl; [discriminate|].
  destruct (isSpace c).
  - destruct b; [apply IH|discriminate].
  - destruct (split_space_from false s); discriminate.
Qed.

(** After a separator, leading white space does not start a piece. *)
Lemma split_space_from_true_tail (s : jsstring) :
  startsInSpace s = true ->
  split_space_from false s = [] :: split_space_from true s.
Proof. destruct s as [|c s]; simpl; [discriminate|]. now intros ->. Qed.

Lemma split_space_from_token_start (b : bool) (s : jsstring) :
  startsInSpace s = false -> s <> [] ->
  split_space_from b s = split_space_from false s.
Proof. destruct s as [|c s]; simpl; [congruence|]. now intros ->. Qed.

(** The pieces of a string that does not end in white space are not
    empty, except a first piece in front of leading white space. *)
Lemma split_space_from_pieces (s : jsstring) :
  s <> [] -> endsInSpace s = false ->
  forallb truthy (split_space_from true s) = true /\
  (startsInSpace s = false -> forallb truthy (split_space_from false s) = true).
Proof.
  induction s as [|c s IH]; [congruence|]. intros _ Hend.
  destruct s as [|d s].
  - simpl in Hend. simpl. rewrite Hend. simpl. auto.
  - assert (Hs : d :: s <> []) by discriminate.
    specialize (IH Hs Hend). destruct IH as [IHt IHf].
    remember (d :: s) as r. simpl. destruct (isSpace c) eqn:Hc.
    + split; [exact IHt|discriminate].
    + assert (forallb truthy (match split_space_from false r with
                              | [] => [[c]] | p :: ps => (c :: p) :: ps end) = true).
      { destruct (startsInSpace r) eqn:Hr.
        - rewrite (split_space_from_true_tail _ Hr). simpl. exact IHt.
        - specialize (IHf eq_refl).
          destruct (split_space_from false r) as [|p ps]; [reflexivity|].
          simpl in *. now apply andb_true_iff in IHf as [_ ->]. }
      split; [exact H|intros _; exact H].
Qed.

Lemma split_space_trim_pieces (line : jsstring) :
  truthy (trim line) = true -> forallb truthy (split_space (trim line)) = true.
Proof.
  intros H. unfold split_space.
  apply split_space_from_pieces.
  - destruct (trim line); [discriminate|discriminate].
  - apply trim_ends.
  - apply trim_starts.
Qed.

End StringFacts.

(** ** The manifest parser *)

Section ManifestFacts.

Lemma tokens_trimmed (line : jsstring) :
  truthy (trim line) = true -> tokens line = split_space (trim line).
Proof.
  intros H. unfold tokens.
  pose proof (split_space_trim_pieces _ H) as P.
  induction (split_space (trim line)) as [|p ps IH]; simpl in *; [reflexivity|].
  apply andb_true_iff in P as [-> P]. now rewrite IH.
Qed.

Lemma tokens_blank (line : jsstring) : truthy (trim line) = false -> tokens line = [].
Proof. unfold tokens. destruct (trim line); [reflexivity|discriminate]. Qed.

Lemma tokens_truthy (line : jsstring) : forallb truthy (tokens line) = true.
Proof.
  unfold tokens. induction (split_space (trim line)) as [|p ps IH]; simpl; [reflexivity|].
  destruct (truthy p) eqn:E; simpl; [now rewrite E|exact IH].
Qed.

(** What the callback of [parseChecksums] does with one line. *)
Lemma parseLine_lineEntry (entries : list ChecksumEntry) (line : jsstring) :
  parseLine entries line =
  if wellFormed line then entries ++ [lineEntry line] else entries.
Proof.
  unfold parseLine, wellFormed, lineEntry.
  destruct (truthy (trim line)) eqn:H.
  - now rewrite (tokens_trimmed _ H).
  - now rewrite (tokens_blank _ H).
Qed.

Lemma fold_parseLine (ls : list jsstring) (acc : list ChecksumEntry) :
  fold_left parseLine ls acc = acc ++ map lineEntry (filter wellFormed ls).
Proof.
  revert acc; induction ls as [|l ls IH]; intros acc; simpl.
  - now rewrite app_nil_r.
  - rewrite IH, parseLine_lineEntry. destruct (wellFormed l); [|reflexivity].
    simpl. now rewrite <- app_assoc.
Qed.

Lemma parseChecksums_split (content : jsstring) :
  parseChecksums content = map lineEntry (filter wellFormed (split 10%N content)).
Proof. unfold parseChecksums. now rewrite fold_parseLine. Qed.

Lemma split_line (l : jsstring) : ~ In 10%N l -> split 10%N l = [l].
Proof.
  induction l as [|c l IH]; intros H; simpl; [reflexivity|].
  destruct (N.eqb_spec c 10) as [->|_]; [exfalso; apply H; now left|].
  rewrite IH; [reflexivity|]. intros I. apply H. now right.
Qed.

Lemma split_line_app (l r : jsstring) :
  ~ In 10%N l -> split 10%N (l ++ 10%N :: r) = l :: split 10%N r.
Proof.
  induction l as [|c l IH]; intros H; simpl; [reflexivity|].
  destruct (N.eqb_spec c 10) as [->|_]; [exfalso; apply H; now left|].
  rewrite IH; [reflexivity|]. intros I. apply H. now right.
Qed.

(** The lines of a text are the lines it was made of. *)
Lemma split_join_lines (ls : list jsstring) :
  ls <> [] -> Forall (fun l => ~ In 10%N l) ls ->
  split 10%N (JsString.join newline ls) = ls.
Proof.
  induction ls as [|l ls IH]; [congruence|]. intros _ F.
  inversion F as [|? ? Hl Hls]; subst.
  destruct ls as [|l' ls]; simpl.
  - now apply split_line.
  - change (l ++ newline ++ JsString.join newline (l' :: ls))
      with (l ++ 10%N :: JsString.join newline (l' :: ls)).
    rewrite (split_line_app _ _ Hl). f_equal. now apply IH.
Qed.

Lemma parseChecksums_join (ls : list jsstring) :
  Forall (fun l => ~ In 10%N l) ls ->
  parseChecksums (JsString.join newline ls) = map lineEntry (filter wellFormed ls).
Proof.
  intros F. rewrite parseChecksums_split. destruct ls as [|l ls]; [reflexivity|].
  rewrite split_join_lines; [reflexivity|discriminate|exact F].
Qed.

Lemma filter_all {A} (f : A -> bool) (l : list A) :
  forallb f l = true -> filter f l = l.
Proof.
  induction l as [|x l IH]; simpl; [reflexivity|].
  intros H. apply andb_true_iff in H as [-> H]. now rewrite IH.
Qed.

Lemma join_cons_nonempty (sep p : jsstring) (ps : list jsstring) :
  p <> [] -> JsString.join sep (p :: ps) <> [].
Proof. destruct p; [congruence|]. destruct ps; simpl; discriminate. Qed.

Lemma lineEntry_nonempty (line : jsstring) :
  wellFormed line = true ->
  hash (lineEntry line) <> [] /\ filename (lineEntry line) <> [].
Proof.
  unfold wellFormed, lineEntry. pose proof (tokens_truthy line) as T.
  destruct (tokens line) as [|h [|f fs]]; try discriminate. intros _.
  simpl in T. apply andb_true_iff in T as [Th T]. apply andb_true_iff in T as [Tf _].
  split.
  - simpl. destruct h; [discriminate|discriminate].
  - change (JsString.join (lit " ") (f :: fs) <> []).
    apply join_cons_nonempty. destruct f; [discriminate|discriminate].
Qed.

(** Pieces of a line that starts with a token. *)
Lemma split_space_token (b : bool) (t r : jsstring) :
  isToken t = true ->
  split_space_from b (t ++ r) =
  match split_space_from false r with
  | p :: ps => (t ++ p) :: ps
  | [] => [t]
  end.
Proof.
  unfold isToken. intros H. apply andb_true_iff in H as [Hn H].
  revert b; induction t as [|c t IH]; [discriminate|]. intros b.
  simpl in H. apply andb_true_iff in H as [Hc H]. apply negb_true_iff in Hc.
  simpl. rewrite Hc. destruct t as [|d t].
  - simpl. destruct (split_space_from false r); reflexivity.
  - rewrite (IH eq_refl H false).
    destruct (split_space_from false r); reflexivity.
Qed.

Lemma split_space_spaces (ws r : jsstring) :
  allSpace ws = true ->
  split_space_from true (ws ++ r) = split_space_from true r.
Proof.
  induction ws as [|c ws IH]; simpl; [reflexivity|].
  intros H. apply andb_true_iff in H as [-> H]. now apply IH.
Qed.

Lemma split_space_token_sep (b : bool) (t ws r : jsstring) :
  isToken t = true -> allSpace ws = true -> ws <> [] ->
  split_space_from b (t ++ ws ++ r) = t :: split_space_from true r.
Proof.
  intros Ht Hw Hn. rewrite (split_space_token _ _ _ Ht).
  destruct ws as [|c ws]; [congruence|]. simpl in Hw.
  apply andb_true_iff in Hw as [Hc Hw]. simpl. rewrite Hc.
  rewrite app_nil_r. f_equal. now apply split_space_spaces.
Qed.

Lemma split_space_tokens (ns : list jsstring) :
  ns <> [] -> forallb isToken ns = true ->
  split_space_from true (JsString.join (lit " ") ns) = ns.
Proof.
  induction ns as [|n ns IH]; [congruence|]. intros _ H.
  simpl in H. apply andb_true_iff in H as [Hn H].
  destruct ns as [|m ns].
  - simpl. rewrite <- (app_nil_r n) at 1. rewrite (split_space_token _ _ _ Hn).
    simpl. now rewrite app_nil_r.
  - change (JsString.join (lit " ") (n :: m :: ns))
      with (n ++ lit " " ++ JsString.join (lit " ") (m :: ns)).
    rewrite split_space_token_sep; [|exact Hn|reflexivity|discriminate].
    f_equal. apply IH; [discriminate|exact H].
Qed.

Lemma token_starts (t r : jsstring) : isToken t = true -> startsInSpace (t ++ r) = false.
Proof.
  unfold isToken. destruct t as [|c t]; [discriminate|]. simpl.
  intros H. apply andb_true_iff in H as [H _]. now apply negb_true_iff.
Qed.

Lemma token_ends (s t : jsstring) : isToken t = true -> endsInSpace (s ++ t) = false.
Proof.
  unfold isToken. intros H. apply andb_true_iff in H as [Hn H].
  destruct (rev t) as [|c u] eqn:E.
  - apply (f_equal (@rev _)) in E. rewrite rev_involutive in E. subst. discriminate.
  - apply (f_equal (@rev _)) in E. rewrite rev_involutive in E. simpl in E. subst t.
    rewrite app_assoc, endsInSpace_snoc.
    rewrite forallb_app in H. apply andb_true_iff in H as [_ H]. simpl in H.
    apply andb_true_iff in H as [H _]. now apply negb_true_iff.
Qed.

Lemma join_tokens_end (s : jsstring) (ns : list jsstring) :
  ns <> [] -> forallb isToken ns = true ->
  endsInSpace (s ++ JsString.join (lit " ") ns) = false.
Proof.
  revert s; induction ns as [|n ns IH]; [congruence|]. intros s _ H.
  simpl in H. apply andb_true_iff in H as [Hn H].
  destruct ns as [|m ns].
  - simpl. now apply token_ends.
  - change (JsString.join (lit " ") (n :: m :: ns))
      with (n ++ lit " " ++ JsString.join (lit " ") (m :: ns)).
    rewrite 2 app_assoc. apply IH; [discriminate|exact H].
Qed.

Lemma dropToken_token (t r : jsstring) :
  isToken t = true -> startsInSpace r = true -> dropToken (t ++ r) = r.
Proof.
  unfold isToken. intros H Hr. apply andb_true_iff in H as [_ H].
  induction t as [|c t IH]; simpl.
  - destruct r as [|d r]; [discriminate|]. simpl in *. now rewrite Hr.
  - simpl in H. apply andb_true_iff in H as [Hc H]. apply negb_true_iff in Hc.
    rewrite Hc. now apply IH.
Qed.

(** A line made of a hash, white space and the words of a file name with
    single spaces between them. *)
Lemma tokens_hash_words (h ws : jsstring) (ns : list jsstring) :
  isToken h = true -> allSpace ws = true -> ws <> [] ->
  ns <> [] -> forallb isToken ns = true ->
  let line := h ++ ws ++ JsString.join (lit " ") ns in
  tokens line = h :: ns /\ afterHash line = JsString.join (lit " ") ns.
Proof.
  intros Hh Hw Hwn Hns Ht line.
  assert (Tr : trim line = line).
  { apply trim_id; [now apply token_starts|].
    unfold line. rewrite app_assoc. now apply join_tokens_end. }
  assert (Hj : startsInSpace (JsString.join (lit " ") ns) = false).
  { destruct ns as [|n ns]; [congruence|]. simpl in Ht.
    apply andb_true_iff in Ht as [Hn _].
    destruct ns; [rewrite <- (app_nil_r n)|]; now apply token_starts. }
  split.
  - unfold tokens. rewrite Tr. unfold split_space, line.
    rewrite (split_space_token_sep _ _ _ _ Hh Hw Hwn).
    rewrite (split_space_tokens _ Hns Ht). simpl.
    assert (Hh' : truthy h = true) by (unfold isToken in Hh; now apply andb_true_iff in Hh as [-> _]).
    rewrite Hh'. f_equal. apply filter_all.
    clear -Ht. induction ns as [|n ns IH]; simpl in *; [reflexivity|].
    apply andb_true_iff in Ht as [Hn Ht]. rewrite (IH Ht), andb_true_r.
    unfold isToken in Hn. now apply andb_true_iff in Hn as [-> _].
  - unfold afterHash. rewrite Tr. unfold line.
    rewrite dropToken_token; [|exact Hh|].
    + rewrite (trimStart_spaces _ _ Hw). now apply trimStart_id.
    + destruct ws as [|c ws]; [congruence|]. simpl in *.
      now apply andb_true_iff in Hw as [-> _].
Qed.

End ManifestFacts.

(** C3: every entry that [parseChecksums] produces has a hash and a file
    name that are not empty, whatever the text; a line whose trimmed text
    has fewer than two tokens adds no entry, and the parser, a total
    function, raises no error on it. *)
Theorem parseChecksums_entries_nonempty (content : jsstring) :
  (forall e, In e (parseChecksums content) -> hash e <> [] /\ filename e <> [])
  /\ (forall entries line, length (tokens line) < 2 -> parseLine entries line = entries).
Proof.
  split.
  - intros e H. rewrite parseChecksums_split in H.
    apply in_map_iff in H as (line & <- & H).
    apply filter_In in H as [_ H]. now apply lineEntry_nonempty.
  - intros entries line H. rewrite parseLine_lineEntry. unfold wellFormed.
    destruct (Nat.leb_spec 2 (length (tokens line))); [lia|reflexivity].
Qed.

Lemma parseChecksums_entries_nonempty_witness :
  let content := lit "d41d8cd9  hulo_Linux_x86_64.tar.gz" ++ newline ++ lit "orphan" in
  let e := {| hash := lit "d41d8cd9"; filename := lit "hulo_Linux_x86_64.tar.gz" |} in
  In e (parseChecksums content)
  /\ (hash e <> [] /\ filename e <> [])
  /\ length (tokens (lit "orphan")) < 2
  /\ parseLine [e] (lit "orphan") = [e].
Proof.
  intros content e.
  assert (I : In e (parseChecksums content)) by (vm_compute; left; reflexivity).
  assert (L : length (tokens (lit "orphan")) < 2) by (vm_compute; lia).
  split; [exact I|]. split.
  - exact (proj1 (parseChecksums_entries_nonempty content) e I).
  - split; [exact L|].
    exact (proj2 (parseChecksums_entries_nonempty content) [e] (lit "orphan") L).
Defined.

(** C2, as stated, fails: a run of white space inside a file name is
    collapsed to one space, so the file name of the entry is not the
    portion of the line after the hash. *)
Lemma filename_collapses_inner_space :
  let line := lit "d41d8cd9  my  file.tar.gz" in
  wellFormed line = true
  /\ afterHash line = lit "my  file.tar.gz"
  /\ map filename (parseChecksums line) = [lit "my file.tar.gz"]
  /\ map filename (parseChecksums line) <> [afterHash line].
Proof. vm_compute. repeat split; discriminate. Qed.

(** C2, amended: a text made of the lines [ls] gives one entry per
    well-formed line, in the order of the lines, and none for the other
    lines (blank, or with one token); when all [n] lines are well formed
    there are [n] entries.  The hash of an entry is the first token of
    its line and the file name is the other tokens joined by single
    spaces: for a file name whose words are separated by single spaces
    this is the portion of the line after the hash. *)
Theorem parseChecksums_lines_in_order (ls : list jsstring) :
  Forall (fun l => ~ In 10%N l) ls ->
  parseChecksums (JsString.join newline ls) = map lineEntry (filter wellFormed ls)
  /\ (forallb wellFormed ls = true ->
      length (parseChecksums (JsString.join newline ls)) = length ls)
  /\ (forall h ws ns,
        isToken h = true -> allSpace ws = true -> ws <> [] ->
        ns <> [] -> forallb isToken ns = true ->
        let line := h ++ ws ++ JsString.join (lit " ") ns in
        wellFormed line = true
        /\ lineEntry line = {| hash := h; filename := JsString.join (lit " ") ns |}
        /\ filename (lineEntry line) = afterHash line).
Proof.
  intros F. pose proof (parseChecksums_join ls F) as E. split; [exact E|]. split.
  - intros W. rewrite E, (filter_all _ _ W). apply length_map.
  - intros h ws ns Hh Hw Hwn Hns Ht line.
    destruct (tokens_hash_words h ws ns Hh Hw Hwn Hns Ht) as [Tk Ah].
    fold line in Tk, Ah. unfold wellFormed, lineEntry. rewrite Tk, Ah.
    destruct ns as [|n ns]; [congruence|]. repeat split.
Qed.

Lemma parseChecksums_lines_in_order_witness :
  let ls := [lit "d41d8cd9  my file.tar.gz"; []; lit "orphan";
             lit "0cc175b9 hulo_Linux_x86_64.tar.gz"] in
  parseChecksums (JsString.join newline ls)
  = [ {| hash := lit "d41d8cd9"; filename := lit "my file.tar.gz" |};
      {| hash := lit "0cc175b9"; filename := lit "hulo_Linux_x86_64.tar.gz" |} ]
  /\ filename (lineEntry (lit "d41d8cd9  my file.tar.gz"))
     = afterHash (lit "d41d8cd9  my file.tar.gz").
Proof.
  intros ls.
  assert (F : Forall (fun l => ~ In 10%N l) ls).
  { repeat constructor; vm_compute; intros H;
      repeat (destruct H as [H|H]; [discriminate H|]); exact H. }
  destruct (parseChecksums_lines_in_order ls F) as (E & _ & R). split.
  - rewrite E. vm_compute. reflexivity.
  - exact (proj2 (proj2 (R (lit "d41d8cd9") (lit "  ") [lit "my"; lit "file.tar.gz"]
                           eq_refl eq_refl ltac:(discriminate) ltac:(discriminate) eq_refl))).
Defined.

(** ** Traces of the run time *)

Section TraceFacts.

Variable P : event -> Prop.

Lemma extends_refl (w : World) : extends P w w.
Proof. exists []. now rewrite app_nil_r. Qed.

Lemma extends_same (w w' : World) : trace w' = trace w -> extends P w w'.
Proof. intros E. exists []. now rewrite app_nil_r. Qed.

Lemma extends_trans (w1 w2 w3 : World) :
  extends P w1 w2 -> extends P w2 w3 -> extends P w1 w3.
Proof.
  intros (e1 & E1 & F1) (e2 & E2 & F2). exists (e1 ++ e2). split.
  - now rewrite E2, E1, app_assoc.
  - now apply Forall_app.
Qed.

Lemma emits_ret {A} (a : A) : emits P (ret a).
Proof. intros w. apply extends_refl. Qed.

Lemma emits_throw {A} (e : error) : emits P (@throw A e).
Proof. intros w. apply extends_refl. Qed.

Lemma emits_exit {A} (c : N) : emits P (@exit A c).
Proof. intros w. apply extends_refl. Qed.

Lemma emits_bind {A B} (m : M A) (k : A -> M B) :
  emits P m -> (forall a, emits P (k a)) -> emits P (bind m k).
Proof.
  intros Hm Hk w. unfold bind. specialize (Hm w).
  destruct (m w) as [[a|e|c|] w']; simpl in *; [|exact Hm|exact Hm|exact Hm].
  eapply extends_trans; [exact Hm|apply Hk].
Qed.

Lemma emits_tryCatch {A} (m : M A) (h : error -> M A) :
  emits P m -> (forall e, emits P (h e)) -> emits P (tryCatch m h).
Proof.
  intros Hm Hh w. unfold tryCatch. specialize (Hm w).
  destruct (m w) as [[a|e|c|] w']; simpl in *; [exact Hm| |exact Hm|exact Hm].
  eapply extends_trans; [exact Hm|apply Hh].
Qed.

Lemma emits_print (l : line) : emits P (print l).
Proof. intros w. now apply extends_same. Qed.

Lemma emits_log (text : jsstring) : emits P (log text).
Proof. apply emits_print. Qed.

Lemma emits_emit (e : event) : P e -> emits P (emit e).
Proof. intros H w. exists [e]. split; [reflexivity|now constructor]. Qed.

Lemma emits_reading {A} (syscall : string) (p : path) (f : node -> option A) :
  emits P (reading syscall p f).
Proof. intros w. unfold reading. destruct (f (fs w)); apply extends_refl. Qed.

Lemma emits_writing (syscall : string) (p : path) (f : node -> option node) :
  emits P (writing syscall p f).
Proof. intros w. unfold writing. destruct (f (fs w)); now apply extends_same. Qed.

Lemma emits_rmSyncM (env : Env) (r : bool) (p : path) : emits P (rmSyncM env r p).
Proof.
  unfold rmSyncM. destruct (rmSyncBehaviour env p);
    [apply emits_writing|apply emits_throw|apply emits_ret].
Qed.

Lemma emits_copyFileM (src dest : path) :
  P (CopyFile src dest) -> emits P (copyFileM src dest).
Proof.
  intros H. apply emits_bind; [now apply emits_emit|intros _; apply emits_writing].
Qed.

Lemma emits_writeFileM (p : path) (data : jsstring) :
  P (WriteFile p data) -> emits P (writeFileM p data).
Proof.
  intros H. apply emits_bind; [now apply emits_emit|intros _; apply emits_writing].
Qed.

Lemma emits_spawnM (env : Env) (t : tool) (cmd : jsstring) (args : list jsstring)
  (archive dir : path) :
  P (Spawn cmd args) -> emits P (spawnM env t cmd args archive dir).
Proof.
  intros H. apply emits_bind; [now apply emits_emit|]. intros _ w.
  destruct (readFile archive (fs w)); [|apply extends_refl].
  destruct (lookup (segments dir) (fs w)) as [[|es]|]; try apply extends_refl.
  destruct (extract env t j es); [|apply extends_refl].
  destruct (setDirectory (segments dir) l (fs w)); now apply extends_same.
Qed.

Lemma emits_forOf {A} (l : list A) (body : A -> M unit) :
  (forall x, emits P (body x)) -> emits P (forOf l body).
Proof.
  intros H. induction l as [|x l IH]; simpl; [apply emits_ret|].
  apply emits_bind; [apply H|intros _; exact IH].
Qed.

Lemma emits_mapM {A B} (f : A -> M B) (l : list A) :
  (forall x, emits P (f x)) -> emits P (mapM f l).
Proof.
  intros H. induction l as [|x l IH]; simpl; [apply emits_ret|].
  apply emits_bind; [apply H|intros y].
  apply emits_bind; [exact IH|intros ys; apply emits_ret].
Qed.

Lemma emits_fuel {A} (f : World -> nat) (m : nat -> M A) :
  (forall n, emits P (m n)) -> emits P (fun w => m (f w) w).
Proof. intros H w. apply H. Qed.

End TraceFacts.
(** ** Steps of a run *)

Section RunSteps.

Lemma bind_log {B} (text : jsstring) (k : unit -> M B) (w : World) :
  bind (log text) k w
  = k tt {| fs := fs w; console := console w ++ [Log text]; trace := trace w |}.
Proof. reflexivity. Qed.

Lemma bind_returns {A B} (m : M A) (k : A -> M B) (w w' : World) (a : A) :
  m w = (Return a, w') -> bind m k w = k a w'.
Proof. unfold bind. now intros ->. Qed.

Lemma bind_exits {A B} (m : M A) (k : A -> M B) (w : World) (c : N) :
  fst (m w) = Exit c ->
  fst (bind m k w) = Exit c /\ snd (bind m k w) = snd (m w).
Proof.
  unfold bind. destruct (m w) as [[a|e|c'|] w']; cbv beta iota; cbn [fst snd];
    try discriminate.
  intros H. injection H as ->. split; reflexivity.
Qed.

Lemma bind_throws {A B} (m : M A) (k : A -> M B) (w w' : World) (e : error) :
  m w = (Throw e, w') -> bind m k w = (Throw e, w').
Proof. unfold bind. now intros ->. Qed.

Lemma bind_emit {B} (e : event) (k : unit -> M B) (w : World) :
  bind (emit e) k w
  = k tt {| fs := fs w; console := console w; trace := trace w ++ [e] |}.
Proof. reflexivity. Qed.

Lemma mkdirM_run (p : path) (w : World) (t : node) :
  mkdirRecursive (segments p) (fs w) = Some t ->
  mkdirM p w = (Return tt, {| fs := t; console := console w; trace := trace w |}).
Proof. intros H. unfold mkdirM, writing. now rewrite H. Qed.

Lemma found_run (p : path) (h : error -> M bool) (w : World) (b : jsstring) :
  readFile p (fs w) = Some b ->
  tryCatch (bind (readFileM p) (fun _ => ret true)) h w = (Return true, w).
Proof. intros H. unfold tryCatch, bind, readFileM, reading. now rewrite H. Qed.

End RunSteps.

(** ** The console only grows *)

Section ConsoleFacts.

Lemma prints_refl (w : World) : prints w w.
Proof. exists []. now rewrite app_nil_r. Qed.

Lemma prints_same (w w' : World) : console w' = console w -> prints w w'.
Proof. intros E. exists []. now rewrite app_nil_r. Qed.

Lemma prints_trans (w1 w2 w3 : World) : prints w1 w2 -> prints w2 w3 -> prints w1 w3.
Proof.
  intros (l1 & E1) (l2 & E2). exists (l1 ++ l2). now rewrite E2, E1, app_assoc.
Qed.

Lemma printing_ret {A} (a : A) : printing (ret a).
Proof. intros w. apply prints_refl. Qed.

Lemma printing_throw {A} (e : error) : printing (@throw A e).
Proof. intros w. apply prints_refl. Qed.

Lemma printing_exit {A} (c : N) : printing (@exit A c).
Proof. intros w. apply prints_refl. Qed.

Lemma printing_bind {A B} (m : M A) (k : A -> M B) :
  printing m -> (forall a, printing (k a)) -> printing (bind m k).
Proof.
  intros Hm Hk w. unfold bind. specialize (Hm w).
  destruct (m w) as [[a|e|c|] w']; simpl in *; [|exact Hm|exact Hm|exact Hm].
  eapply prints_trans; [exact Hm|apply Hk].
Qed.

Lemma printing_tryCatch {A} (m : M A) (h : error -> M A) :
  printing m -> (forall e, printing (h e)) -> printing (tryCatch m h).
Proof.
  intros Hm Hh w. unfold tryCatch. specialize (Hm w).
  destruct (m w) as [[a|e|c|] w']; simpl in *; [exact Hm| |exact Hm|exact Hm].
  eapply prints_trans; [exact Hm|apply Hh].
Qed.

Lemma printing_print (l : line) : printing (print l).
Proof. intros w. now exists [l]. Qed.

Lemma printing_log (text : jsstring) : printing (log text).
Proof. apply printing_print. Qed.

Lemma printing_emit (e : event) : printing (emit e).
Proof. intros w. now apply prints_same. Qed.

Lemma printing_reading {A} (syscall : string) (p : path) (f : node -> option A) :
  printing (reading syscall p f).
Proof. intros w. unfold reading. destruct (f (fs w)); apply prints_refl. Qed.

Lemma printing_writing (syscall : string) (p : path) (f : node -> option node) :
  printing (writing syscall p f).
Proof. intros w. unfold writing. destruct (f (fs w)); now apply prints_same. Qed.

Lemma printing_rmSyncM (env : Env) (r : bool) (p : path) : printing (rmSyncM env r p).
Proof.
  unfold rmSyncM. destruct (rmSyncBehaviour env p);
    [apply printing_writing|apply printing_throw|apply printing_ret].
Qed.

Lemma printing_copyFileM (src dest : path) : printing (copyFileM src dest).
Proof.
  apply printing_bind; [apply printing_emit|intros _; apply printing_writing].
Qed.

Lemma printing_writeFileM (p : path) (data : jsstring) : printing (writeFileM p data).
Proof.
  apply printing_bind; [apply printing_emit|intros _; apply printing_writing].
Qed.

Lemma printing_spawnM (env : Env) (t : tool) (cmd : jsstring) (args : list jsstring)
  (archive dir : path) :
  printing (spawnM env t cmd args archive dir).
Proof.
  apply printing_bind; [apply printing_emit|]. intros _ w.
  destruct (readFile archive (fs w)); [|apply prints_refl].
  destruct (lookup (segments dir) (fs w)) as [[|es]|]; try apply prints_refl.
  destruct (extract env t j es); [|apply prints_refl].
  destruct (setDirectory (segments dir) l (fs w)); now apply prints_same.
Qed.

Lemma printing_forOf {A} (l : list A) (body : A -> M unit) :
  (forall x, printing (body x)) -> printing (forOf l body).
Proof.
  intros H. induction l as [|x l IH]; simpl; [apply printing_ret|].
  apply printing_bind; [apply H|intros _; exact IH].
Qed.

Lemma printing_fuel {A} (f : World -> nat) (m : nat -> M A) :
  (forall n, printing (m n)) -> printing (fun w => m (f w) w).
Proof. intros H w. apply H. Qed.

Lemma printing_copyDirectory (fuel : nat) (source target : path) :
  printing (Postprepare.copyDirectory fuel source target).
Proof.
  revert source target.
  induction fuel as [|fuel IH]; intros source target; simpl.
  - apply printing_throw.
  - apply printing_bind; [apply printing_reading|intros entries].
    apply printing_forOf. intros [name isDir]. simpl. destruct isDir.
    + apply printing_bind; [apply printing_writing|intros _; apply IH].
    + apply printing_copyFileM.
Qed.

Lemma printing_extractFile (env : Env) (filePath extractDir : path) :
  printing (Postprepare.extractFile env filePath extractDir).
Proof.
  unfold Postprepare.extractFile.
  destruct (negb _ && negb _); [apply printing_copyFileM|].
  destruct (endsWith _ _); [destruct (isWin32 env)|]; apply printing_spawnM.
Qed.

End ConsoleFacts.

Ltac printing_step :=
  lazymatch goal with
  | |- printing (bind _ _) => apply printing_bind; [|intros ?]
  | |- printing (tryCatch _ _) => apply printing_tryCatch; [|intros ?]
  | |- printing (ret _) => apply printing_ret
  | |- printing (log _) => apply printing_log
  | |- printing (print _) => apply printing_print
  | |- printing (exit _) => apply printing_exit
  | |- printing (throw _) => apply printing_throw
  | |- printing (readdirM _) => apply printing_reading
  | |- printing (readFileM _) => apply printing_reading
  | |- printing (mkdirM _) => apply printing_writing
  | |- printing (rmSyncM _ _ _) => apply printing_rmSyncM
  | |- printing (copyFileM _ _) => apply printing_copyFileM
  | |- printing (writeFileM _ _) => apply printing_writeFileM
  | |- printing (Postprepare.extractFile _ _ _) => apply printing_extractFile
  | |- printing (fun w => Postprepare.copyDirectory _ _ _ w) =>
      apply (printing_fuel (fun w => height (fs w))
               (fun n => Postprepare.copyDirectory n _ _));
      intros ?; apply printing_copyDirectory
  | |- printing (if ?b then _ else _) => destruct b
  end.

(** ** What the post-processor writes *)

Section PostprepareTrace.

Import Platform Handlebars Postprepare.

Ltac emits_step :=
  lazymatch goal with
  | |- emits _ (bind _ _) => apply emits_bind; [|intros ?]
  | |- emits _ (tryCatch _ _) => apply emits_tryCatch; [|intros ?]
  | |- emits _ (ret _) => apply emits_ret
  | |- emits _ (log _) => apply emits_log
  | |- emits _ (print _) => apply emits_print
  | |- emits _ (exit _) => apply emits_exit
  | |- emits _ (throw _) => apply emits_throw
  | |- emits _ (readdirM _) => apply emits_reading
  | |- emits _ (readFileM _) => apply emits_reading
  | |- emits _ (mkdirM _) => apply emits_writing
  | |- emits _ (rmSyncM _ _ _) => apply emits_rmSyncM
  | |- emits _ (copyFileM _ _) => apply emits_copyFileM; exact I
  end.

Lemma emits_copyDirectory (P : event -> Prop) (fuel : nat) (source target : path) :
  (forall s d, P (CopyFile s d)) -> emits P (copyDirectory fuel source target).
Proof.
  intros HP. revert source target.
  induction fuel as [|fuel IH]; intros source target; simpl.
  - apply emits_throw.
  - apply emits_bind; [apply emits_reading|intros entries].
    apply emits_forOf. intros [name isDir]. simpl. destruct isDir.
    + apply emits_bind; [apply emits_writing|intros _; apply IH].
    + apply emits_copyFileM. apply HP.
Qed.

Lemma emits_extractFile (P : event -> Prop) (env : Env) (filePath extractDir : path) :
  (forall s d, P (CopyFile s d)) -> (forall c a, P (Spawn c a)) ->
  emits P (extractFile env filePath extractDir).
Proof.
  intros Hc Hs. unfold extractFile.
  destruct (negb _ && negb _); [apply emits_copyFileM, Hc|].
  destruct (endsWith _ _); [destruct (isWin32 env)|]; apply emits_spawnM, Hs.
Qed.

(** Every file that an iteration of the loop writes is an artifact of an
    accepted platform. *)
Lemma emits_processEntry (env : Env) (version : jsstring) (tempDir : path)
  (entry : ChecksumEntry) :
  emits (writesArtifact env version) (processEntry env version tempDir entry).
Proof.
  unfold processEntry.
  destruct (matchArchive (filename entry)) as [platformKey|]; [|apply emits_log].
  set (platformName := replaceUnderscores (toLowerCase platformKey)).
  destruct (propertyTruthy (getProperty platformName)) eqn:Hacc; simpl negb; cbv iota;
    [|apply emits_log].
  assert (A : forall p d, In (p, d) (artifacts env version platformName) ->
                          writesArtifact env version (WriteFile p d)).
  { intros p d H. exists platformName. split; [exact Hacc|exact H]. }
  cbv zeta.
  emits_step; [apply emits_log|].
  emits_step; [apply emits_log|].
  emits_step; [repeat emits_step|].
  destruct a1; simpl negb; cbv iota; [|apply emits_ret].
  unfold artifacts, packageJsonOf, indexJsOf, readmeOf, platformDirOf, binaryNameOf,
    workingDirectory in A.
  emits_step; [emits_step|].
  emits_step; [emits_step|].
  emits_step; [apply emits_extractFile; intros; exact I|].
  emits_step; [emits_step|].
  emits_step; [emits_step|].
  emits_step; [emits_step|].
  emits_step; [emits_step|].
  emits_step; [emits_step|].
  emits_step;
    [apply (emits_fuel _ (fun w => height (fs w)) (fun n => copyDirectory n _ _));
     intros ?; apply emits_copyDirectory; intros; exact I|].
  emits_step; [emits_step|].
  emits_step; [emits_step|].
  emits_step; [apply emits_writeFileM, A; left; reflexivity|].
  emits_step; [apply emits_writeFileM, A; right; left; reflexivity|].
  emits_step; [apply emits_writeFileM, A; right; right; left; reflexivity|].
  apply emits_log.
Qed.

Lemma emits_main (env : Env) (arg : option jsstring) :
  emits (writesArtifact env (argOr arg (lit "0.1.0"))) (Postprepare.main env arg).
Proof.
  unfold Postprepare.main. cbv zeta.
  emits_step; [emits_step|].
  emits_step; [|cbv beta; repeat emits_step].
  emits_step; [repeat emits_step|].
  emits_step; [emits_step|].
  emits_step; [emits_step|].
  emits_step; [emits_step|].
  emits_step; [emits_step|].
  emits_step; [apply emits_forOf; intros entry; apply emits_processEntry|].
  repeat emits_step.
Qed.

End PostprepareTrace.

(** ** Paths and platform keys *)

Section PathFacts.

Import Platform Handlebars Postprepare.

Lemma split_plain (sep : char) (s : jsstring) :
  forallb (fun c => negb (c =? sep)%N) s = true -> split sep s = [s].
Proof.
  induction s as [|c s IH]; simpl; [reflexivity|]. intros H.
  apply andb_true_iff in H as [Hc H]. apply negb_true_iff in Hc.
  now rewrite Hc, (IH H).
Qed.

Lemma endsWith_separator (s : jsstring) :
  forallb (fun c => negb (c =? 47)%N) s = true -> endsWith s (lit "/") = false.
Proof.
  intros H. unfold endsWith. change (rev (lit "/")) with [47%N].
  destruct (rev s) as [|c u] eqn:E; [reflexivity|]. simpl.
  assert (I : In c s) by (apply in_rev; rewrite E; now left).
  rewrite forallb_forall in H. specialize (H c I).
  apply negb_true_iff in H. now rewrite H.
Qed.

(** [join] appends a plain name. *)
Lemma join1_plain (p : path) (s : jsstring) :
  plainName s = true -> join1 p s = child p s.
Proof.
  unfold plainName. intros H.
  apply andb_true_iff in H as [H Hs]. apply andb_true_iff in H as [H Hdd].
  apply andb_true_iff in H as [Hn Hd].
  apply negb_true_iff in Hd, Hdd.
  destruct s as [|c s]; [discriminate|]. unfold join1, child.
  rewrite (split_plain _ _ Hs), (endsWith_separator _ Hs). simpl fold_left.
  unfold pushSegment. rewrite Hd, Hdd.
  replace (str_eqb (c :: s) []) with false by reflexivity. reflexivity.
Qed.

Lemma join_plain (p : path) (s : jsstring) :
  plainName s = true -> join p [s] = child p s.
Proof. apply join1_plain. Qed.

Lemma child_inj (p q : path) (a b : jsstring) :
  child p a = child q b -> segments p = segments q /\ a = b.
Proof.
  unfold child. intros H. injection H as H. now apply app_inj_tail in H.
Qed.

Lemma assoc_In {A} (key : jsstring) (l : list (jsstring * A)) (v : A) :
  assoc key l = Some v -> In key (map fst l).
Proof.
  induction l as [|[k x] l IH]; simpl; [discriminate|].
  destruct (str_eqb key k) eqn:E; [|now right; apply IH].
  intros _. left. symmetry. now apply str_eqb_eq.
Qed.

Lemma accepted_In (k : jsstring) : accepted k = true -> In k acceptedKeys.
Proof.
  unfold accepted, getProperty, acceptedKeys. intros H. apply in_or_app.
  destruct (assoc k platformInfo) eqn:E; [left; now apply assoc_In in E|].
  right. destruct (existsb (str_eqb k) objectPrototypeKeys) eqn:X; [|discriminate].
  apply existsb_exists in X as (x & I & Hx). apply str_eqb_eq in Hx. now subst.
Qed.

Lemma accepted_plain (k : jsstring) :
  accepted k = true -> plainName (lit "hulo-" ++ k) = true.
Proof.
  intros H. apply accepted_In in H. vm_compute in H.
  repeat (destruct H as [<-|H]; [reflexivity|]). destruct H.
Qed.

(** The directory of an accepted platform. *)
Lemma platformDirOf_child (env : Env) (k : jsstring) :
  accepted k = true ->
  platformDirOf env k =
  child (child (child (workingDirectory env) (lit "temp")) (lit "packages"))
        (lit "hulo-" ++ k).
Proof.
  intros H. unfold platformDirOf, join. cbn [fold_left].
  rewrite (join1_plain _ (lit "temp")) by reflexivity.
  rewrite (join1_plain _ (lit "packages")) by reflexivity.
  now rewrite (join1_plain _ _ (accepted_plain _ H)).
Qed.

(** The artifacts of an accepted platform, by file name. *)
Lemma artifacts_child (env : Env) (version k : jsstring) (p : path) (data : jsstring) :
  accepted k = true ->
  In (p, data) (artifacts env version k) ->
  exists name,
    p = child (platformDirOf env k) name
    /\ ((name = lit "package.json" /\ data = packageJsonOf version k)
        \/ (name = lit "index.js" /\ data = indexJsOf k)
        \/ (name = lit "README.md" /\ data = readmeOf k)).
Proof.
  intros Hk I. unfold artifacts in I. cbn [In] in I.
  destruct I as [H|[H|[H|[]]]]; apply pair_equal_spec in H as [Hp Hd]; subst p data.
  - exists (lit "package.json"). split; [now apply join_plain|]. now left.
  - exists (lit "index.js"). split; [now apply join_plain|]. right; now left.
  - exists (lit "README.md"). split; [now apply join_plain|]. right; now right.
Qed.

(** A file is an artifact of one platform only, and has one content. *)
Lemma artifacts_functional (env1 env2 : Env) (version k1 k2 : jsstring) (p : path)
  (d1 d2 : jsstring) :
  cwd env1 = cwd env2 ->
  accepted k1 = true -> accepted k2 = true ->
  In (p, d1) (artifacts env1 version k1) -> In (p, d2) (artifacts env2 version k2) ->
  k1 = k2 /\ d1 = d2.
Proof.
  intros Hc H1 H2 I1 I2.
  destruct (artifacts_child _ _ _ _ _ H1 I1) as (n1 & E1 & C1).
  destruct (artifacts_child _ _ _ _ _ H2 I2) as (n2 & E2 & C2).
  rewrite E1 in E2. apply child_inj in E2 as [S N].
  rewrite !platformDirOf_child in S by assumption.
  cbn [child segments] in S. apply app_inj_tail in S as [_ S].
  apply (app_inv_head (lit "hulo-")) in S. subst k2 n2. split; [reflexivity|].
  destruct C1 as [[N1 ->]|[[N1 ->]|[N1 ->]]], C2 as [[N2 ->]|[[N2 ->]|[N2 ->]]];
    try reflexivity; rewrite N1 in N2; discriminate N2.
Qed.

End PathFacts.

(** ** The lines of the generated texts *)

Section DescriptorFacts.

Import Platform Handlebars Postprepare.

Lemma split_cons_nonempty (sep : char) (s : jsstring) : split sep s <> [].
Proof.
  destruct s as [|c s]; simpl; [discriminate|].
  destruct (c =? sep)%N; [discriminate|]. destruct (split sep s); discriminate.
Qed.

Lemma split_app_newline (a b : jsstring) :
  split 10%N (a ++ 10%N :: b) = split 10%N a ++ split 10%N b.
Proof.
  induction a as [|c a IH]; simpl; [reflexivity|].
  destruct (c =? 10)%N; [now rewrite IH|]. rewrite IH.
  pose proof (split_cons_nonempty 10%N a) as H.
  destruct (split 10%N a); [congruence|reflexivity].
Qed.

Lemma split_join_newline (ls : list jsstring) :
  ls <> [] -> split 10%N (JsString.join newline ls) = flat_map (split 10%N) ls.
Proof.
  induction ls as [|l ls IH]; [congruence|]. intros _.
  destruct ls as [|l' ls].
  - simpl. now rewrite app_nil_r.
  - change (JsString.join newline (l :: l' :: ls))
      with (l ++ 10%N :: JsString.join newline (l' :: ls)).
    rewrite split_app_newline, IH by discriminate. reflexivity.
Qed.

(** A template given by its lines renders line by line. *)
Lemma render_lines (ls : list (list piece)) (ctx : context) :
  render (lines ls) ctx = JsString.join newline (map (renderLine ctx) ls).
Proof.
  unfold render. induction ls as [|l ls IH]; [reflexivity|].
  destruct ls as [|l' ls].
  - reflexivity.
  - change (lines (l :: l' :: ls)) with (l ++ Text newline :: lines (l' :: ls)).
    rewrite map_app, concat_app.
    change (concat (map (renderPiece ctx VUndefined false)
                        (Text newline :: lines (l' :: ls))))
      with (newline ++ concat (map (renderPiece ctx VUndefined false)
                                   (lines (l' :: ls)))).
    rewrite IH. reflexivity.
Qed.

(** A line of the template without a line break in its rendering is a
    line of the rendered text. *)
Lemma hasLine_rendered (ls : list (list piece)) (ctx : context) (l : list piece)
  (s : jsstring) :
  In l ls -> renderLine ctx l = s ->
  forallb (fun c => negb (c =? 10)%N) s = true ->
  hasLine (render (lines ls) ctx) s.
Proof.
  intros I E N. unfold hasLine. rewrite render_lines.
  rewrite split_join_newline by (destruct ls; [destruct I|discriminate]).
  apply in_flat_map. exists (renderLine ctx l). split.
  - now apply in_map.
  - rewrite E, (split_plain _ _ N). now left.
Qed.

Ltac in_lines := simpl; repeat first [left; reflexivity | right].

(** The descriptor of a platform of the table declares its [os] and
    [arch]. *)
Lemma packageJson_os_cpu (version key : jsstring) (d : PlatformData) :
  getProperty key = Own d ->
  hasLine (packageJsonOf version key) (arrayField "os" (OS_string (os d)))
  /\ hasLine (packageJsonOf version key) (arrayField "cpu" (CPU_string (arch d))).
Proof.
  intros H. unfold packageJsonOf, packageJsonTemplate. rewrite H.
  destruct d as [o a desc kw]. cbn [os arch]. split.
  - apply (hasLine_rendered _ _ [T "    "; S' "os"; T ": ["; Q; V "os"; Q; T "],"]);
      [in_lines| |]; destruct o; vm_compute; reflexivity.
  - apply (hasLine_rendered _ _ [T "    "; S' "cpu"; T ": ["; Q; V "arch"; Q; T "],"]);
      [in_lines| |]; destruct a; vm_compute; reflexivity.
Qed.

(** The descriptor names the package after the platform and declares the
    version that it was given. *)
Lemma packageJson_name_version (version key : jsstring) :
  forallb (fun c => negb (c =? 10)%N) (escapeExpression key) = true ->
  forallb (fun c => negb (c =? 10)%N) (escapeExpression version) = true ->
  hasLine (packageJsonOf version key)
          (stringField "name" (lit "@hulo/" ++ escapeExpression key))
  /\ hasLine (packageJsonOf version key)
             (stringField "version" (escapeExpression version)).
Proof.
  intros Hk Hv. unfold packageJsonOf, packageJsonTemplate. split.
  - apply (hasLine_rendered _ _
             [T "    "; S' "name"; T ": "; Q; T "@hulo/"; V "platformName"; Q; T ","]);
      [in_lines| |].
    + vm_compute. reflexivity.
    + unfold stringField. rewrite !forallb_app.
      repeat (apply andb_true_intro; split); first [exact Hk | reflexivity].
  - apply (hasLine_rendered _ _
             [T "    "; S' "version"; T ": "; Q; V "version"; Q; T ","]);
      [in_lines| |].
    + vm_compute. reflexivity.
    + unfold stringField. rewrite !forallb_app.
      repeat (apply andb_true_intro; split); first [exact Hv | reflexivity].
Qed.

Lemma platformInfo_getProperty (key : jsstring) (d : PlatformData) :
  In (key, d) platformInfo -> getProperty key = Own d.
Proof.
  intros H. unfold platformInfo in H.
  repeat (destruct H as [H|H]; [injection H as <- <-; reflexivity|]). destruct H.
Qed.

Lemma getProperty_accepted (key : jsstring) (d : PlatformData) :
  getProperty key = Own d -> accepted key = true.
Proof. unfold accepted. now intros ->. Qed.

(** What a run of [main] writes to the descriptor of an accepted platform. *)
Lemma main_writes (env : Env) (arg : option jsstring) (w : World) (p : path)
  (data : jsstring) :
  trace w = [] ->
  In (WriteFile p data) (trace (snd (Postprepare.main env arg w))) ->
  exists k, accepted k = true
            /\ In (p, data) (artifacts env (argOr arg (lit "0.1.0")) k).
Proof.
  intros T I. destruct (emits_main env arg w) as (evs & E & F).
  rewrite T in E. simpl in E. rewrite E in I.
  rewrite Forall_forall in F. exact (F _ I).
Qed.

Lemma main_writes_packageJson (env : Env) (arg : option jsstring) (w : World)
  (key data : jsstring) :
  trace w = [] -> accepted key = true ->
  In (WriteFile (join (platformDirOf env key) [lit "package.json"]) data)
     (trace (snd (Postprepare.main env arg w))) ->
  data = packageJsonOf (argOr arg (lit "0.1.0")) key.
Proof.
  intros T A I. destruct (main_writes env arg w _ _ T I) as (k & Hk & Ik).
  assert (J : In (join (platformDirOf env key) [lit "package.json"],
                  packageJsonOf (argOr arg (lit "0.1.0")) key)
                 (artifacts env (argOr arg (lit "0.1.0")) key)) by now left.
  exact (proj2 (artifacts_functional env env _ k key _ _ _ eq_refl Hk A Ik J)).
Qed.

End DescriptorFacts.

(** C1, as stated, fails: run with [v1.2.3], the post-processor writes
    the version as it was given, with the [v]; the descriptor of
    [hulo_Linux_x86_64.tar.gz] names [@hulo/linux-x86-64] and has no line
    that declares the version [1.2.3]. *)
Lemma descriptor_version_keeps_prefix :
  fst (Postprepare.main (hostWith releaseArchive) (Some (lit "v1.2.3"))
         (start linuxStaging)) = Return tt
  /\ exists data,
       readFile linuxDescriptorPath
         (fs (snd (Postprepare.main (hostWith releaseArchive) (Some (lit "v1.2.3"))
                     (start linuxStaging)))) = Some data
       /\ hasLine data (stringField "name" (lit "@hulo/linux-x86-64"))
       /\ hasLine data (stringField "version" (lit "v1.2.3"))
       /\ ~ hasLine data (stringField "version" (lit "1.2.3")).
Proof.
  split; [vm_compute; reflexivity|].
  eexists. split; [vm_compute; reflexivity|]. unfold hasLine. split; [|split].
  - vm_compute. tauto.
  - vm_compute. tauto.
  - vm_compute. intros H. repeat (destruct H as [H|H]; [discriminate H|]). exact H.
Qed.

(** C1, amended: whatever the staging directory holds, a package
    descriptor that a run with the version argument [v] writes for the
    platform of [hulo_Linux_x86_64.tar.gz] names the package
    [@hulo/linux-x86-64] and declares the version [v] as it was passed:
    [v1.2.3] for [v1.2.3], and [1.2.3] for [1.2.3]. *)
Theorem descriptor_name_and_version (env : Env) (w : World) (v data : jsstring) :
  v = lit "v1.2.3" \/ v = lit "1.2.3" ->
  trace w = [] ->
  In (WriteFile (join (platformDirOf env (lit "linux-x86-64")) [lit "package.json"]) data)
     (trace (snd (Postprepare.main env (Some v) w))) ->
  option_map platformNameOf (Postprepare.matchArchive linuxArchiveName)
    = Some (lit "linux-x86-64")
  /\ hasLine data (stringField "name" (lit "@hulo/linux-x86-64"))
  /\ hasLine data (stringField "version" v).
Proof.
  intros Hv T I. split; [reflexivity|].
  apply main_writes_packageJson in I; [|exact T|reflexivity]. subst data.
  assert (A : argOr (Some v) (lit "0.1.0") = v) by (destruct Hv; subst; reflexivity).
  rewrite A.
  assert (E : Handlebars.escapeExpression v = v) by (destruct Hv; subst; reflexivity).
  assert (N : forallb (fun c => negb (c =? 10)%N) (Handlebars.escapeExpression v) = true)
    by (destruct Hv; subst; reflexivity).
  destruct (packageJson_name_version v (lit "linux-x86-64") eq_refl N) as [H1 H2].
  rewrite E in H2. split; [exact H1|exact H2].
Qed.

Lemma descriptor_name_and_version_witness :
  exists data,
    In (WriteFile linuxDescriptorPath data)
       (trace (snd (Postprepare.main (hostWith releaseArchive) (Some (lit "v1.2.3"))
                      (start linuxStaging))))
    /\ hasLine data (stringField "name" (lit "@hulo/linux-x86-64"))
    /\ hasLine data (stringField "version" (lit "v1.2.3")).
Proof.
  eexists. split.
  - vm_compute. do 3 right. left. reflexivity.
  - refine (proj2 (descriptor_name_and_version (hostWith releaseArchive)
                     (start linuxStaging) (lit "v1.2.3") _ (or_introl eq_refl) eq_refl _)).
    vm_compute. do 3 right. left. reflexivity.
Defined.

(** C8: for every key of the platform table, a package descriptor that
    the post-processor writes for that platform declares, as [os] and
    [cpu], the [os] and [arch] of the table entry of the key. *)
Theorem descriptor_declares_os_and_cpu (key : jsstring) (d : Platform.PlatformData)
  (env : Env) (arg : option jsstring) (w : World) (data : jsstring) :
  In (key, d) Platform.platformInfo ->
  trace w = [] ->
  In (WriteFile (join (platformDirOf env key) [lit "package.json"]) data)
     (trace (snd (Postprepare.main env arg w))) ->
  hasLine data (arrayField "os" (Platform.OS_string (Platform.os d)))
  /\ hasLine data (arrayField "cpu" (Platform.CPU_string (Platform.arch d))).
Proof.
  intros K T I. apply platformInfo_getProperty in K.
  apply main_writes_packageJson in I; [|exact T|exact (getProperty_accepted _ _ K)].
  subst data. now apply packageJson_os_cpu.
Qed.

Lemma descriptor_declares_os_and_cpu_witness :
  exists data,
    In (WriteFile linuxDescriptorPath data)
       (trace (snd (Postprepare.main (hostWith releaseArchive) None (start linuxStaging))))
    /\ hasLine data (arrayField "os" (lit "linux"))
    /\ hasLine data (arrayField "cpu" (lit "x64")).
Proof.
  eexists. split.
  - vm_compute. do 3 right. left. reflexivity.
  - refine (descriptor_declares_os_and_cpu (lit "linux-x86-64")
              {| Platform.os := Platform.linux; Platform.arch := Platform.x64;
                 Platform.description := lit "Hulo compiler for Linux (64-bit)";
                 Platform.keywords :=
                   map lit ["hulo"; "compiler"; "linux"; "x86_64"; "64bit"]%string |}
              (hostWith releaseArchive) None (start linuxStaging) _ _ eq_refl _).
    + vm_compute. tauto.
    + vm_compute. do 3 right. left. reflexivity.
Defined.

(** C9: the texts that the post-processor generates are a function of the
    platform and of the version: every file that a run writes is the
    package descriptor, the launcher or the readme of an accepted
    platform key, as [artifacts] computes them from the table entry of
    the key and the version; hence two runs with the same working
    directory and version argument (the second may start from what the
    first has left, or from any other staging directory) write the same
    bytes to every file that both write. *)
Theorem generated_artifacts_deterministic (env1 env2 : Env) (arg : option jsstring)
  (w1 w2 : World) :
  cwd env1 = cwd env2 -> trace w1 = [] -> trace w2 = [] ->
  (forall p data,
      In (WriteFile p data) (trace (snd (Postprepare.main env1 arg w1))) ->
      exists k, accepted k = true
                /\ In (p, data) (artifacts env1 (argOr arg (lit "0.1.0")) k))
  /\ (forall p d1 d2,
        In (WriteFile p d1) (trace (snd (Postprepare.main env1 arg w1))) ->
        In (WriteFile p d2) (trace (snd (Postprepare.main env2 arg w2))) ->
        d1 = d2).
Proof.
  intros C T1 T2. split.
  - intros p data I. exact (main_writes env1 arg w1 p data T1 I).
  - intros p d1 d2 I1 I2.
    destruct (main_writes env1 arg w1 _ _ T1 I1) as (k1 & A1 & J1).
    destruct (main_writes env2 arg w2 _ _ T2 I2) as (k2 & A2 & J2).
    exact (proj2 (artifacts_functional env1 env2 _ k1 k2 _ _ _ C A1 A2 J1 J2)).
Qed.

Lemma generated_artifacts_deterministic_witness :
  exists d1 d2,
    In (WriteFile linuxDescriptorPath d1)
       (trace (snd (Postprepare.main (hostWith releaseArchive) None (start linuxStaging))))
    /\ In (WriteFile linuxDescriptorPath d2)
          (trace (snd (Postprepare.main (hostWith releaseArchive) None
                         (start (fs (snd (Postprepare.main (hostWith releaseArchive) None
                                            (start linuxStaging))))))))
    /\ d1 = d2.
Proof.
  eexists. eexists. split; [vm_compute; do 3 right; left; reflexivity|].
  split; [vm_compute; do 3 right; left; reflexivity|].
  refine (proj2 (generated_artifacts_deterministic (hostWith releaseArchive)
                   (hostWith releaseArchive) None (start linuxStaging)
                   (start (fs (snd (Postprepare.main (hostWith releaseArchive) None
                                      (start linuxStaging)))))
                   eq_refl eq_refl eq_refl) linuxDescriptorPath _ _ _ _).
  - vm_compute. do 3 right. left. reflexivity.
  - vm_compute. do 3 right. left. reflexivity.
Defined.

(** ** The file name pattern *)

Section PatternFacts.

Import Platform Handlebars Postprepare.

Lemma matchKey_complete (key rest : jsstring) :
  key <> [] -> noLineTerminator key = true -> matchExtension rest = true ->
  exists k, matchKey (key ++ rest) = Some k.
Proof.
  induction key as [|c key IH]; [congruence|]. intros _ N X.
  simpl in N. apply andb_true_iff in N as [Nc N]. apply negb_true_iff in Nc.
  simpl. rewrite Nc. destruct (matchExtension (key ++ rest)) eqn:E; [now eexists|].
  destruct key as [|d key]; [simpl in E; congruence|].
  destruct (IH ltac:(discriminate) N X) as [k ->]. now eexists.
Qed.

(** The key that is found is followed by an extension, and no shorter
    start of it is. *)
Lemma matchKey_sound (s k : jsstring) :
  matchKey s = Some k ->
  k <> [] /\ noLineTerminator k = true
  /\ (exists after, s = k ++ after /\ matchExtension after = true)
  /\ (forall k' after', s = k' ++ after' -> k' <> [] -> length k' < length k ->
        matchExtension after' = false).
Proof.
  revert k; induction s as [|c s IH]; intros k; simpl; [discriminate|].
  destruct (isLineTerminator c) eqn:Nc; [discriminate|].
  destruct (matchExtension s) eqn:E.
  - intros H. injection H as <-. repeat split; try discriminate.
    + simpl. now rewrite Nc.
    + now exists s.
    + intros k' after' _ Hn Hl. destruct k'; [congruence|]. simpl in Hl. lia.
  - destruct (matchKey s) as [k0|] eqn:M; [|discriminate].
    intros H. injection H as <-.
    destruct (IH k0 eq_refl) as (Hk & Hn & (after & -> & Ha) & Hm).
    repeat split; try discriminate.
    + simpl. now rewrite Nc, Hn.
    + now exists after.
    + intros k' after' Hs Hn' Hl. destruct k' as [|c' k']; [congruence|].
      simpl in Hs. injection Hs as <- Hs. destruct k' as [|d k'].
      * simpl in Hs. now subst after'.
      * apply (Hm (d :: k') after' Hs); [discriminate|simpl in *; lia].
Qed.

Lemma matchArchive_cons (c : char) (s : jsstring) :
  matchArchive (c :: s) =
  match (if startsWith (c :: s) (lit "hulo_") then matchKey (skipn 5 (c :: s)) else None) with
  | Some k => Some k
  | None => matchArchive s
  end.
Proof. reflexivity. Qed.

Lemma matchArchive_here (r k : jsstring) :
  matchKey r = Some k -> matchArchive (lit "hulo_" ++ r) = Some k.
Proof.
  intros H. change (lit "hulo_" ++ r) with (104 :: 117 :: 108 :: 111 :: 95 :: r)%N.
  rewrite matchArchive_cons.
  change (104 :: 117 :: 108 :: 111 :: 95 :: r)%N with (lit "hulo_" ++ r).
  rewrite startsWith_app. change (skipn 5 (lit "hulo_" ++ r)) with r. now rewrite H.
Qed.

(** The pattern is not anchored: what comes before does not matter. *)
Lemma matchArchive_complete (before r k : jsstring) :
  matchKey r = Some k -> exists k', matchArchive (before ++ lit "hulo_" ++ r) = Some k'.
Proof.
  intros H. induction before as [|c before IH].
  - exists k. now apply matchArchive_here.
  - simpl app. rewrite matchArchive_cons.
    destruct (if startsWith _ _ then _ else None); [now eexists|exact IH].
Qed.

Lemma matchArchive_sound (s k : jsstring) :
  matchArchive s = Some k ->
  exists before r, s = before ++ lit "hulo_" ++ r /\ matchKey r = Some k.
Proof.
  induction s as [|c s IH].
  - simpl. discriminate.
  - rewrite matchArchive_cons.
    destruct (startsWith (c :: s) (lit "hulo_")) eqn:S.
    + destruct (matchKey (skipn 5 (c :: s))) as [k0|] eqn:M.
      * intros H. injection H as <-.
        apply startsWith_prefix in S as [r S]. exists [], r. split; [exact S|].
        rewrite S in M. exact M.
      * intros H. destruct (IH H) as (before & r & -> & Hr).
        now exists (c :: before), r.
    + intros H. destruct (IH H) as (before & r & -> & Hr).
      now exists (c :: before), r.
Qed.

End PatternFacts.

(** ** The file tree *)

Section FsFacts.

Lemma getEntry_setEntry (s : jsstring) (n : node) (es : list (jsstring * node)) :
  getEntry s (setEntry s n es) = Some n.
Proof.
  induction es as [|[k v] es IH]; simpl.
  - now rewrite str_eqb_refl.
  - destruct (str_eqb s k) eqn:E; simpl; rewrite E; [reflexivity|exact IH].
Qed.

Lemma getEntry_setEntry_other (s t : jsstring) (n : node) (es : list (jsstring * node)) :
  s <> t -> getEntry t (setEntry s n es) = getEntry t es.
Proof.
  intros H. induction es as [|[k v] es IH]; simpl.
  - apply str_eqb_neq in H. destruct (str_eqb t s) eqn:E; [|reflexivity].
    apply str_eqb_eq in E. subst. now rewrite str_eqb_refl in H.
  - destruct (str_eqb s k) eqn:E; simpl.
    + apply str_eqb_eq in E. subst k.
      destruct (str_eqb t s) eqn:E'; [|reflexivity].
      apply str_eqb_eq in E'. congruence.
    + destruct (str_eqb t k); [reflexivity|exact IH].
Qed.

Lemma getEntry_removeEntry_other (s t : jsstring) (es : list (jsstring * node)) :
  s <> t -> getEntry t (removeEntry s es) = getEntry t es.
Proof.
  intros H. induction es as [|[k v] es IH]; simpl; [reflexivity|].
  destruct (str_eqb s k) eqn:E; simpl.
  - apply str_eqb_eq in E. subst k. rewrite IH.
    destruct (str_eqb t s) eqn:E'; [|reflexivity].
    apply str_eqb_eq in E'. congruence.
  - destruct (str_eqb t k); [reflexivity|exact IH].
Qed.

Lemma getEntry_putEntry_other (s t : jsstring) (r : option node)
  (es : list (jsstring * node)) :
  s <> t -> getEntry t (putEntry s r es) = getEntry t es.
Proof.
  destruct r; simpl; [apply getEntry_setEntry_other|apply getEntry_removeEntry_other].
Qed.

(** After a change at [p] that sets a node, the node is found at [p]. *)
Lemma lookup_alter (f : option node -> option (option node)) (p : list jsstring)
  (n n' x : node) :
  (forall old r, f old = Some r -> r = Some x) ->
  alter f p n = Some n' -> lookup p n' = Some x.
Proof.
  intros Hf. revert n n'. induction p as [|s p IH]; intros n n' H.
  - destruct n; discriminate.
  - destruct n as [|es]; [discriminate|]. simpl in H. destruct p as [|t p].
    + destruct (f (getEntry s es)) as [r|] eqn:F; [|discriminate].
      injection H as <-. rewrite (Hf _ _ F). simpl. now rewrite getEntry_setEntry.
    + destruct (getEntry s es) as [c|]; [|discriminate].
      destruct (alter f (t :: p) c) as [c'|] eqn:A; [|discriminate].
      injection H as <-. change (lookup (s :: t :: p) (Dir (setEntry s c' es)))
        with (match getEntry s (setEntry s c' es) with
              | Some c0 => lookup (t :: p) c0 | None => None end).
      rewrite getEntry_setEntry. now apply (IH c).
Qed.

Lemma readFile_writeFile (p : path) (data : jsstring) (tree tree' : node) :
  writeFile p data tree = Some tree' -> readFile p tree' = Some data.
Proof.
  unfold writeFile, readFile. destruct (trailing p); [discriminate|]. intros H.
  assert (L : lookup (segments p) tree' = Some (File data)).
  { refine (lookup_alter _ _ _ _ _ _ H).
    intros old r F. destruct old as [[|]|]; now inversion F. }
  now rewrite L.
Qed.

(** A copy has the content of its source. *)
Lemma readFile_copyFile (src dest : path) (tree tree' : node) :
  copyFile src dest tree = Some tree' ->
  exists data, readFile src tree = Some data /\ readFile dest tree' = Some data.
Proof.
  unfold copyFile. destruct (readFile src tree) as [c|] eqn:R; [|discriminate].
  intros H. exists c. split; [reflexivity|]. now apply readFile_writeFile in H.
Qed.

End FsFacts.

(** ** Entries that the post-processor skips, and entries it does not *)

Section InstallerFacts.

Import Platform Handlebars Postprepare.

(** An entry whose name the pattern rejects, or whose key has no value in
    [platformInfo], only logs the reason. *)
Lemma processEntry_skips (env : Env) (version : jsstring) (tempDir : path)
  (entry : ChecksumEntry) :
  (matchArchive (filename entry) = None ->
   processEntry env version tempDir entry
   = log (lit "Skipping unknown format: " ++ filename entry))
  /\ (forall key,
        matchArchive (filename entry) = Some key ->
        getProperty (platformNameOf key) = Undefined ->
        processEntry env version tempDir entry
        = log (lit "Skipping unknown platform: " ++ key
               ++ lit " (" ++ filename entry ++ lit ")")).
Proof.
  unfold processEntry, platformNameOf. split.
  - now intros ->.
  - intros key -> U. now rewrite U.
Qed.

(** The loop goes on after an entry that only logs. *)
Lemma forOf_after_log (text : jsstring) (entry : ChecksumEntry)
  (rest : list ChecksumEntry) (body : ChecksumEntry -> M unit) (w : World) :
  body entry = log text ->
  forOf (entry :: rest) body w = forOf rest body (snd (log text w)).
Proof. intros H. simpl. unfold bind. now rewrite H. Qed.

Lemma startsWith_app_l (s t p : jsstring) :
  length p <= length s -> startsWith (s ++ t) p = startsWith s p.
Proof.
  revert s; induction p as [|c p IH]; intros s H; [reflexivity|].
  destruct s as [|d s]; simpl in H; [lia|]. simpl.
  rewrite IH by lia. reflexivity.
Qed.

Lemma endsWith_app_r (s t suffix : jsstring) :
  length suffix <= length t -> endsWith (s ++ t) suffix = endsWith t suffix.
Proof.
  intros H. unfold endsWith. rewrite rev_app_distr.
  apply startsWith_app_l. now rewrite !length_rev.
Qed.

Lemma join_snoc (sep : jsstring) (l : list jsstring) (x : jsstring) :
  exists y, JsString.join sep (l ++ [x]) = y ++ x.
Proof.
  induction l as [|a l (y & IH)]; simpl.
  - now exists [].
  - destruct (l ++ [x]) eqn:E; [now destruct l|]. rewrite IH.
    exists (a ++ sep ++ y). now rewrite <- !app_assoc.
Qed.

(** The path of a staged file with a plain name ends as the name does. *)
Lemma endsWith_staged (tempDir : path) (name suffix : jsstring) :
  plainName name = true -> length suffix <= length name ->
  endsWith (toString (join tempDir [name])) suffix = endsWith name suffix.
Proof.
  intros Hp Hl. rewrite (join_plain _ _ Hp).
  assert (E : exists y, toString (child tempDir name) = y ++ name).
  { unfold toString, child. cbn [segments trailing].
    destruct (join_snoc (lit "/") (segments tempDir) name) as [y J].
    destruct (segments tempDir ++ [name]) eqn:S; [now destruct (segments tempDir)|].
    rewrite J. exists (lit "/" ++ y). now rewrite app_nil_r, app_assoc. }
  destruct E as [y ->]. now apply endsWith_app_r.
Qed.

(** A path that ends in neither extension is copied. *)
Lemma extractFile_copies (env : Env) (filePath extractDir : path) :
  endsWith (toString filePath) (lit ".zip") = false ->
  endsWith (toString filePath) (lit ".tar.gz") = false ->
  extractFile env filePath extractDir
  = copyFileM filePath (join extractDir [basename filePath]).
Proof. unfold extractFile. now intros -> ->. Qed.

Lemma copyFileM_returns (src dest : path) (w w' : World) :
  copyFileM src dest w = (Return tt, w') ->
  (exists data, readFile src (fs w) = Some data /\ readFile dest (fs w') = Some data)
  /\ trace w' = trace w ++ [CopyFile src dest].
Proof.
  unfold copyFileM, bind, emit, writing. simpl.
  destruct (copyFile src dest (fs w)) as [tree|] eqn:C; [|discriminate].
  intros H. injection H as <-. simpl. split; [|reflexivity].
  now apply readFile_copyFile in C.
Qed.

End InstallerFacts.

(** C6, on a failing input: [constructor] is not a key of the platform
    table, yet [platformInfo['constructor']] is the constructor that the
    table inherits from [Object.prototype], a truthy value.  The entry
    [hulo_constructor.tar.gz] is not skipped: the run processes it and
    writes a package [@hulo/constructor]. *)
Theorem constructor_key_is_processed :
  Platform.assoc (lit "constructor") Platform.platformInfo = None
  /\ option_map platformNameOf (Postprepare.matchArchive (lit "hulo_constructor.tar.gz"))
     = Some (lit "constructor")
  /\ fst constructorRun = Return tt
  /\ In (Log (lit "Processing constructor")) (console (snd constructorRun))
  /\ ~ In (Log (lit "Skipping unknown platform: constructor (hulo_constructor.tar.gz)"))
          (console (snd constructorRun))
  /\ exists data,
       lookup (packageSegments "constructor" ["package.json"]%string)
              (fs (snd constructorRun)) = Some (File data)
       /\ hasLine data (stringField "name" (lit "@hulo/constructor"))
       /\ hasLine data (arrayField "os" []).
Proof.
  split; [reflexivity|]. split; [reflexivity|]. split; [vm_compute; reflexivity|].
  split; [vm_compute; tauto|]. split.
  - vm_compute. intros H. repeat (destruct H as [H|H]; [discriminate H|]). exact H.
  - eexists. split; [vm_compute; reflexivity|]. unfold hasLine.
    split; vm_compute; tauto.
Qed.

(** C7, on failing inputs: [copyDirectory] never creates its target.
    When the listing of [std], which is sorted by name, starts with a
    file ([README.md] sorts before [core]), the copy of that file to
    [bin/std] fails: the run ends with code 1, [hulo] and [std] are still
    at the top of the output directory, there is no [bin/std] and no
    package descriptor.  When [std] is empty the run ends well, without
    a [bin/std]. *)
Theorem std_copy_needs_a_leading_directory :
  (readdir {| segments := [lit "std"]; trailing := false |}
           (Dir [ (lit "std", Dir fileFirstStd) ])
   = Some [ (lit "README.md", false); (lit "core", true) ]
   /\ fst (darwinRun fileFirstArchive) = Exit 1%N
   /\ lookup (packageSegments "darwin-arm64" ["bin"; "hulo"]%string)
             (fs (snd (darwinRun fileFirstArchive))) = Some (File (lit "ELF"))
   /\ lookup (packageSegments "darwin-arm64" ["bin"; "std"]%string)
             (fs (snd (darwinRun fileFirstArchive))) = None
   /\ lookup (packageSegments "darwin-arm64" ["hulo"]%string)
             (fs (snd (darwinRun fileFirstArchive))) = Some (File (lit "ELF"))
   /\ option_map isDirectory
        (lookup (packageSegments "darwin-arm64" ["std"]%string)
                (fs (snd (darwinRun fileFirstArchive)))) = Some true
   /\ lookup (packageSegments "darwin-arm64" ["package.json"]%string)
             (fs (snd (darwinRun fileFirstArchive))) = None)
  /\ (fst (darwinRun emptyStdArchive) = Return tt
      /\ option_map isDirectory
           (lookup (packageSegments "darwin-arm64" ["bin"]%string)
                   (fs (snd (darwinRun emptyStdArchive)))) = Some true
      /\ lookup (packageSegments "darwin-arm64" ["bin"; "std"]%string)
                (fs (snd (darwinRun emptyStdArchive))) = None).
Proof. vm_compute. repeat split. Qed.

(** With a directory first in [std], the same staged archive gives the
    output that C7 describes. *)
Lemma std_copy_with_leading_directory :
  fst (darwinRun releaseArchive) = Return tt
  /\ lookup (packageSegments "darwin-arm64" ["bin"; "hulo"]%string)
            (fs (snd (darwinRun releaseArchive))) = Some (File (lit "ELF"))
  /\ option_map isDirectory
       (lookup (packageSegments "darwin-arm64" ["bin"; "std"]%string)
               (fs (snd (darwinRun releaseArchive)))) = Some true
  /\ lookup (packageSegments "darwin-arm64" ["hulo"]%string)
            (fs (snd (darwinRun releaseArchive))) = None
  /\ lookup (packageSegments "darwin-arm64" ["std"]%string)
            (fs (snd (darwinRun releaseArchive))) = None.
Proof. vm_compute. repeat split. Qed.
(** ** Entries that the pattern accepts *)

Ltac quiet_step :=
  lazymatch goal with
  | |- emits _ (bind _ _) => apply emits_bind; [|intros ?]
  | |- emits _ (tryCatch _ _) => apply emits_tryCatch; [|intros ?]
  | |- emits _ (ret _) => apply emits_ret
  | |- emits _ (log _) => apply emits_log
  | |- emits _ (print _) => apply emits_print
  | |- emits _ (exit _) => apply emits_exit
  | |- emits _ (throw _) => apply emits_throw
  | |- emits _ (readdirM _) => apply emits_reading
  | |- emits _ (readFileM _) => apply emits_reading
  | |- emits _ (mkdirM _) => apply emits_writing
  | |- emits _ (rmSyncM _ _ _) => apply emits_rmSyncM
  | |- emits _ (copyFileM _ _) => apply emits_copyFileM; exact I
  | |- emits _ (writeFileM _ _) => apply emits_writeFileM; exact I
  | |- emits _ (fun w => Postprepare.copyDirectory _ _ _ w) =>
      apply (emits_fuel _ (fun w => height (fs w))
               (fun n => Postprepare.copyDirectory n _ _));
      intros ?; apply emits_copyDirectory; intros; exact I
  | |- emits _ (if ?b then _ else _) => destruct b
  end.

Section AcceptedEntries.

Import Platform Handlebars Postprepare.

Variable env : Env.
Variable version : jsstring.
Variable tempDir : path.
Variable entry : ChecksumEntry.
Variable key : jsstring.

Hypothesis Hmatch : matchArchive (filename entry) = Some key.

Lemma processEntry_unknown :
  accepted (platformNameOf key) = false ->
  processEntry env version tempDir entry
  = log (lit "Skipping unknown platform: " ++ key
         ++ lit " (" ++ filename entry ++ lit ")").
Proof.
  intros A. unfold processEntry. rewrite Hmatch.
  unfold accepted, platformNameOf in A. now rewrite A.
Qed.

Hypothesis Haccepted : accepted (platformNameOf key) = true.

(** The run of an accepted entry starts with the lines of the
    processing. *)
Lemma processEntry_processes (w : World) :
  exists rest,
    console (snd (processEntry env version tempDir entry w))
    = console w ++ Log (lit "Processing " ++ platformNameOf key)
        :: Log (lit "File: " ++ filename entry) :: rest.
Proof.
  unfold processEntry. rewrite Hmatch.
  pose proof Haccepted as A. unfold accepted, platformNameOf in A. rewrite A.
  cbn [negb]. cbv zeta. rewrite !bind_log.
  match goal with
  | |- exists rest, console (snd (?m ?w2)) = _ =>
      assert (P : printing m) by (repeat printing_step);
      destruct (P w2) as [ls E]
  end.
  rewrite E. cbn [console]. exists ls. unfold platformNameOf.
  now rewrite <- !app_assoc.
Qed.

Hypothesis Hzip : endsWith (toString (join tempDir [filename entry])) (lit ".zip") = false.
Hypothesis Htar : endsWith (toString (join tempDir [filename entry])) (lit ".tar.gz") = false.

(** When the path of the staged file ends in neither extension, the
    entry starts no tool. *)
Lemma processEntry_quiet : emits notSpawn (processEntry env version tempDir entry).
Proof.
  unfold processEntry. rewrite Hmatch.
  pose proof Haccepted as A. unfold accepted, platformNameOf in A. rewrite A.
  cbn [negb]. cbv zeta. rewrite (extractFile_copies env _ _ Hzip Htar).
  repeat quiet_step.
Qed.

Lemma in_bind_left {A B} (P : event -> Prop) (m : M A) (k : A -> M B) (e : event)
  (w : World) :
  (forall a, emits P (k a)) ->
  In e (trace (snd (m w))) -> In e (trace (snd (bind m k w))).
Proof.
  intros Hk H. unfold bind. destruct (m w) as [[a|x|c|] w1]; cbn [snd] in *; try exact H.
  destruct (Hk a w1) as (evs & E & _). rewrite E. apply in_or_app. now left.
Qed.

(** And the staged file, once found, is handed to [copyFile]. *)
Lemma processEntry_copy (w : World) (data : jsstring) (t : node) :
  readFile (join tempDir [filename entry]) (fs w) = Some data ->
  mkdirRecursive (segments (platformDirOf env (platformNameOf key))) (fs w) = Some t ->
  In (CopyFile (join tempDir [filename entry])
        (join (platformDirOf env (platformNameOf key))
              [basename (join tempDir [filename entry])]))
     (trace (snd (processEntry env version tempDir entry w))).
Proof.
  intros R D. unfold processEntry. rewrite Hmatch.
  pose proof Haccepted as A. unfold accepted, platformNameOf in A. rewrite A.
  cbn [negb]. cbv zeta. rewrite (extractFile_copies env _ _ Hzip Htar).
  rewrite !bind_log.
  match goal with
  | |- context [bind (tryCatch ?m ?h) ?k ?w2] =>
      rewrite (bind_returns (tryCatch m h) k w2 w2 true (found_run _ h w2 data R))
  end.
  cbn [negb]. unfold platformDirOf, platformNameOf, workingDirectory in D.
  match goal with
  | |- context [bind (mkdirM ?p) ?k ?w2] =>
      rewrite (bind_returns (mkdirM p) k w2 _ tt (mkdirM_run p w2 t D))
  end.
  rewrite bind_log.
  apply (in_bind_left notSpawn); [intros _; repeat quiet_step|].
  unfold copyFileM. rewrite bind_emit. unfold writing. cbn [fs console trace].
  unfold platformDirOf, platformNameOf, workingDirectory.
  match goal with
  | |- context [copyFile ?a ?b ?c] => destruct (copyFile a b c)
  end; cbn [snd trace]; apply in_or_app; right; now left.
Qed.

End AcceptedEntries.

(** C10, as stated, fails in two ways.  The name
    [prefix-hulo_Plan9.zip.bak] holds [hulo_Plan9.zip] and the pattern
    accepts it with the key [Plan9], but the entry is not processed: the
    platform table has no [plan9], and the run skips the entry and
    touches nothing.  The name [hulo_Linux_x86_64.tar.gz/.] is accepted
    and ends in neither extension, but [join] normalizes its path to
    that of the archive, which ends in [.tar.gz]: the staged file is
    extracted by [tar], not copied. *)
Lemma accepted_name_is_skipped_or_extracted :
  (Postprepare.matchArchive plan9Name = Some (lit "Plan9")
   /\ fst plan9Run = Return tt
   /\ In (Log (lit "Skipping unknown platform: Plan9 (prefix-hulo_Plan9.zip.bak)"))
         (console (snd plan9Run))
   /\ trace (snd plan9Run) = []
   /\ fs (snd plan9Run) = plan9Staging)
  /\ (Postprepare.matchArchive dotName = Some (lit "Linux_x86_64")
      /\ endsWith dotName (lit ".zip") = false
      /\ endsWith dotName (lit ".tar.gz") = false
      /\ fst dotRun = Return tt
      /\ hd_error (trace (snd dotRun))
         = Some (Spawn (lit "tar")
                   [lit "-xzf"; lit "/work/temp/hulo_Linux_x86_64.tar.gz";
                    lit "-C"; lit "/work/temp/packages/hulo-linux-x86-64"])
      /\ (forall dest,
            ~ In (CopyFile (join (tempDirOf (hostWith releaseArchive)) [dotName]) dest)
                 (trace (snd dotRun)))
      /\ lookup (packageSegments "linux-x86-64" ["hulo_Linux_x86_64.tar.gz"]%string)
                (fs (snd dotRun)) = None).
Proof.
  split.
  - split; [reflexivity|]. split; [vm_compute; reflexivity|].
    split; [vm_compute; tauto|]. split; vm_compute; reflexivity.
  - split; [reflexivity|]. split; [reflexivity|]. split; [reflexivity|].
    split; [vm_compute; reflexivity|]. split; [vm_compute; reflexivity|].
    split; [|vm_compute; reflexivity].
    intros dest H. vm_compute in H.
    repeat (destruct H as [H|H]; [discriminate H|]). exact H.
Qed.

(** C10, amended: the pattern is not anchored.  A file name that holds
    [hulo_<key>.tar.gz] or [hulo_<key>.zip] anywhere, for a key that is
    not empty, passes the pattern test, and the platform key is the one
    of the lazy match: it follows a [hulo_], an extension follows it, and
    no shorter start of it is followed by an extension.  An entry that
    passes the test is processed when [platformInfo] has a truthy value
    for its normalized key: its run starts with the lines [Processing]
    and [File]; otherwise all it does is log that it skips an unknown
    platform.  When the path of the staged file of a processed entry, as
    [join] gives it, ends in neither [.zip] nor [.tar.gz], the entry
    starts no tool, and once the staged file is found and the output
    directory made, the file is handed to [copyFile], which copies it
    into the output directory under its base name; for a file name of
    one segment the path ends as the file name does. *)
Theorem archive_pattern_is_unanchored :
  (forall before key ext after,
      key <> [] -> noLineTerminator key = true ->
      ext = lit ".tar.gz" \/ ext = lit ".zip" ->
      exists k b a,
        Postprepare.matchArchive (before ++ lit "hulo_" ++ key ++ ext ++ after) = Some k
        /\ before ++ lit "hulo_" ++ key ++ ext ++ after = b ++ lit "hulo_" ++ k ++ a
        /\ k <> [] /\ Postprepare.matchExtension a = true
        /\ (forall k' a', k ++ a = k' ++ a' -> k' <> [] -> length k' < length k ->
              Postprepare.matchExtension a' = false))
  /\ (forall env version tempDir entry k,
        Postprepare.matchArchive (filename entry) = Some k ->
        (accepted (platformNameOf k) = false ->
         Postprepare.processEntry env version tempDir entry
         = log (lit "Skipping unknown platform: " ++ k
                ++ lit " (" ++ filename entry ++ lit ")"))
        /\ (accepted (platformNameOf k) = true ->
            forall w, exists rest,
              console (snd (Postprepare.processEntry env version tempDir entry w))
              = console w ++ Log (lit "Processing " ++ platformNameOf k)
                  :: Log (lit "File: " ++ filename entry) :: rest))
  /\ (forall env version tempDir entry k,
        Postprepare.matchArchive (filename entry) = Some k ->
        accepted (platformNameOf k) = true ->
        endsWith (toString (join tempDir [filename entry])) (lit ".zip") = false ->
        endsWith (toString (join tempDir [filename entry])) (lit ".tar.gz") = false ->
        forall w,
          extends notSpawn w (snd (Postprepare.processEntry env version tempDir entry w))
          /\ (forall data t,
                readFile (join tempDir [filename entry]) (fs w) = Some data ->
                mkdirRecursive (segments (platformDirOf env (platformNameOf k))) (fs w)
                = Some t ->
                In (CopyFile (join tempDir [filename entry])
                      (join (platformDirOf env (platformNameOf k))
                            [basename (join tempDir [filename entry])]))
                   (trace (snd (Postprepare.processEntry env version tempDir entry w)))))
  /\ (forall env filePath extractDir,
        endsWith (toString filePath) (lit ".zip") = false ->
        endsWith (toString filePath) (lit ".tar.gz") = false ->
        forall w w',
          Postprepare.extractFile env filePath extractDir w = (Return tt, w') ->
          (exists data,
              readFile filePath (fs w) = Some data
              /\ readFile (join extractDir [basename filePath]) (fs w') = Some data)
          /\ trace w' = trace w ++ [CopyFile filePath (join extractDir [basename filePath])])
  /\ (forall tempDir name suffix,
        plainName name = true -> length suffix <= length name ->
        endsWith (toString (join tempDir [name])) suffix = endsWith name suffix).
Proof.
  split; [|split; [|split; [|split]]].
  - intros before key ext after Hk Hn He.
    assert (X : Postprepare.matchExtension (ext ++ after) = true).
    { unfold Postprepare.matchExtension.
      destruct He as [-> | ->]; rewrite startsWith_app;
        [reflexivity|apply orb_true_r]. }
    destruct (matchKey_complete key (ext ++ after) Hk Hn X) as [k0 M].
    destruct (matchArchive_complete before _ _ M) as [k Hm].
    destruct (matchArchive_sound _ _ Hm) as (b & r & E & Mr).
    destruct (matchKey_sound _ _ Mr) as (K1 & _ & (a & -> & Xa) & Min).
    exists k, b, a. repeat split; assumption.
  - intros env version tempDir entry k Hm. split.
    + now apply processEntry_unknown.
    + intros A w. now apply processEntry_processes.
  - intros env version tempDir entry k Hm A Z T w. split.
    + now apply (processEntry_quiet env version tempDir entry k).
    + intros data t. now apply processEntry_copy.
  - intros env filePath extractDir Z T w w' H.
    rewrite (extractFile_copies env _ _ Z T) in H. now apply copyFileM_returns.
  - apply endsWith_staged.
Qed.

Lemma archive_pattern_is_unanchored_witness :
  (exists k b a,
      Postprepare.matchArchive sha256Name = Some k
      /\ sha256Name = b ++ lit "hulo_" ++ k ++ a /\ k <> []
      /\ Postprepare.matchExtension a = true)
  /\ Postprepare.processEntry (hostWith releaseArchive) (lit "0.1.0")
       (tempDirOf (hostWith releaseArchive)) plan9Entry
     = log (lit "Skipping unknown platform: " ++ lit "Plan9"
            ++ lit " (" ++ filename plan9Entry ++ lit ")")
  /\ (exists rest,
        console (snd (Postprepare.processEntry (hostWith releaseArchive) (lit "0.1.0")
                        (tempDirOf (hostWith releaseArchive)) sha256Entry
                        (start sha256Staging)))
        = console (start sha256Staging)
            ++ Log (lit "Processing " ++ platformNameOf (lit "Linux_x86_64"))
            :: Log (lit "File: " ++ filename sha256Entry) :: rest)
  /\ In (CopyFile (join (tempDirOf (hostWith releaseArchive)) [filename sha256Entry])
           (join (platformDirOf (hostWith releaseArchive)
                    (platformNameOf (lit "Linux_x86_64")))
                 [basename (join (tempDirOf (hostWith releaseArchive))
                                 [filename sha256Entry])]))
        (trace (snd (Postprepare.processEntry (hostWith releaseArchive) (lit "0.1.0")
                       (tempDirOf (hostWith releaseArchive)) sha256Entry
                       (start sha256Staging))))
  /\ readFile (join (platformDirOf (hostWith releaseArchive) (lit "linux-x86-64"))
                    [sha256Name])
        (fs (snd (Postprepare.extractFile (hostWith releaseArchive)
                    (join (tempDirOf (hostWith releaseArchive)) [sha256Name])
                    (platformDirOf (hostWith releaseArchive) (lit "linux-x86-64"))
                    (start (staged []
                              [ (sha256Name, File (lit "0cc175b9"));
                                (lit "packages",
                                 Dir [(lit "hulo-linux-x86-64", Dir [])]) ])))))
     = Some (lit "0cc175b9")
  /\ endsWith (toString (join (tempDirOf (hostWith releaseArchive)) [sha256Name]))
       (lit ".tar.gz") = false.
Proof.
  destruct archive_pattern_is_unanchored as (T1 & T2 & T3 & T4 & T5).
  assert (M9 : Postprepare.matchArchive (filename plan9Entry) = Some (lit "Plan9"))
    by (vm_compute; reflexivity).
  assert (A9 : accepted (platformNameOf (lit "Plan9")) = false)
    by (vm_compute; reflexivity).
  assert (ML : Postprepare.matchArchive (filename sha256Entry)
               = Some (lit "Linux_x86_64"))
    by (vm_compute; reflexivity).
  assert (AL : accepted (platformNameOf (lit "Linux_x86_64")) = true)
    by (vm_compute; reflexivity).
  assert (Z : endsWith (toString (join (tempDirOf (hostWith releaseArchive))
                                       [filename sha256Entry])) (lit ".zip") = false)
    by (vm_compute; reflexivity).
  assert (G : endsWith (toString (join (tempDirOf (hostWith releaseArchive))
                                       [filename sha256Entry])) (lit ".tar.gz") = false)
    by (vm_compute; reflexivity).
  assert (Z4 : endsWith (toString (join (tempDirOf (hostWith releaseArchive))
                                        [sha256Name])) (lit ".zip") = false)
    by (vm_compute; reflexivity).
  assert (G4 : endsWith (toString (join (tempDirOf (hostWith releaseArchive))
                                        [sha256Name])) (lit ".tar.gz") = false)
    by (vm_compute; reflexivity).
  split; [|split; [|split; [|split; [|split]]]].
  - destruct (T1 [] (lit "Linux_x86_64") (lit ".tar.gz") (lit ".sha256")
                ltac:(discriminate) eq_refl (or_introl eq_refl))
      as (k & b & a & M & E & K & X & _).
    exists k, b, a. split; [exact M|]. split; [exact E|]. split; [exact K|exact X].
  - exact (proj1 (T2 (hostWith releaseArchive) (lit "0.1.0")
                     (tempDirOf (hostWith releaseArchive)) plan9Entry
                     (lit "Plan9") M9) A9).
  - exact (proj2 (T2 (hostWith releaseArchive) (lit "0.1.0")
                     (tempDirOf (hostWith releaseArchive)) sha256Entry
                     (lit "Linux_x86_64") ML) AL (start sha256Staging)).
  - apply (proj2 (T3 (hostWith releaseArchive) (lit "0.1.0")
                     (tempDirOf (hostWith releaseArchive)) sha256Entry
                     (lit "Linux_x86_64") ML AL Z G (start sha256Staging))
                 (lit "0cc175b9")
                 (Dir [ (lit "work",
                         Dir [ (lit "temp",
                                Dir [ (lit "checksums.txt",
                                       File (lit "d41d8cd9  hulo_Linux_x86_64.tar.gz.sha256"));
                                      (sha256Name, File (lit "0cc175b9"));
                                      (lit "packages",
                                       Dir [ (lit "hulo-linux-x86-64", Dir []) ]) ]) ]) ]));
      vm_compute; reflexivity.
  - destruct (T4 (hostWith releaseArchive)
                (join (tempDirOf (hostWith releaseArchive)) [sha256Name])
                (platformDirOf (hostWith releaseArchive) (lit "linux-x86-64"))
                Z4 G4
                (start (staged []
                          [ (sha256Name, File (lit "0cc175b9"));
                            (lit "packages", Dir [(lit "hulo-linux-x86-64", Dir [])]) ]))
                _ (surjective_pairing _)) as [(data & R & R') _].
    rewrite <- R in R'. exact R'.
  - exact G4.
Defined.

(** A checksum file next to the archive: the name is accepted with the
    key [Linux_x86_64], and the file is copied to the output directory,
    where the run then finds no executable. *)
Lemma sha256_file_is_copied :
  Postprepare.matchArchive sha256Name = Some (lit "Linux_x86_64")
  /\ fst sha256Run = Exit 1%N
  /\ lookup (packageSegments "linux-x86-64" ["hulo_Linux_x86_64.tar.gz.sha256"]%string)
            (fs (snd sha256Run)) = Some (File (lit "0cc175b9"))
  /\ (forall cmd args, ~ In (Spawn cmd args) (trace (snd sha256Run))).
Proof.
  split; [reflexivity|]. split; [vm_compute; reflexivity|].
  split; [vm_compute; reflexivity|].
  intros cmd args H. vm_compute in H.
  repeat (destruct H as [H|H]; [discriminate H|]). exact H.
Qed.
(** ** The downloader *)

Section ArrivalFacts.

Import Prepare.

Variable A : Type.
Variable arrivalOf : A -> nat.

Lemma insertByArrival_perm (x : A) (l : list A) :
  Permutation (insertByArrival arrivalOf x l) (x :: l).
Proof.
  induction l as [|y l IH]; simpl; [reflexivity|].
  destruct (arrivalOf x <=? arrivalOf y); [reflexivity|].
  rewrite IH. apply perm_swap.
Qed.

(** The order of arrival is an order of the downloads that were
    started: none is lost, none is added. *)
Lemma byArrival_perm (l : list A) : Permutation (byArrival arrivalOf l) l.
Proof.
  induction l as [|x l IH]; simpl; [reflexivity|].
  rewrite insertByArrival_perm. now constructor.
Qed.

Lemma byArrival_In (x : A) (l : list A) : In x (byArrival arrivalOf l) -> In x l.
Proof. apply Permutation_in, byArrival_perm. Qed.

End ArrivalFacts.

Section PrepareFacts.

Import Prepare.

Variable env : Env.

Lemma main_phases (arg : option jsstring) :
  Prepare.main env arg =
  (log (lit "Clearing temp directory...") ;;
   clearStaging env (tempDirOf env) ;;
   log (lit "Starting Hulo downloader...") ;;
   fetchStaging env (baseUrlOf arg) (tempDirOf env)).
Proof.
  unfold Prepare.main, clearStaging, fetchStaging, baseUrlOf, tempDirOf, workingDirectory.
  reflexivity.
Qed.

Ltac run_monad :=
  cbv beta iota delta [tryCatch bind log print emit writing reading throw ret exit
                       mkdirM readdirM readFileM writeFileM rmSyncM];
  cbn [fs console trace fst snd].

(** The clearing of the staging directory passes, or ends the process
    with code 1 before anything is requested. *)
Lemma clearStaging_run (tempDir : path) (w : World) :
  match cleared env tempDir (fs w) with
  | Some tree =>
      clearStaging env tempDir w
      = (Return tt,
         {| fs := tree;
            console := console w ++ [Log (lit "Temp directory cleared successfully")];
            trace := trace w |})
  | None =>
      fst (clearStaging env tempDir w) = Exit 1%N
      /\ trace (snd (clearStaging env tempDir w)) = trace w
  end.
Proof.
  unfold clearStaging, cleared, listed. run_monad.
  destruct (rmSyncBehaviour env tempDir); run_monad.
  - destruct (remove true tempDir (fs w)) as [tree|]; run_monad; [|now split].
    destruct (readdir tempDir tree) as [[|x xs]|]; run_monad;
      cbn [length Nat.ltb Nat.leb]; run_monad; first [reflexivity | now split].
  - now split.
  - destruct (readdir tempDir (fs w)) as [[|x xs]|]; run_monad;
      cbn [length Nat.ltb Nat.leb]; run_monad; first [reflexivity | now split].
Qed.

End PrepareFacts.
(** C5, on a failing input.  The manifest of the release lists two
    archives.  The archive for Linux arrives.  The response for the
    archive for macOS starts and its transfer breaks after two units:
    the write stream of [downloadFile] neither finishes nor fails, and
    nothing listens to the response, so the promise of this download
    never settles.  The failure is not caught and not recorded: no line
    reports it, the entry has no result, [Promise.all] stays pending and
    the run goes no further, without a summary; the part that arrived is
    left in the staging directory.  The other download was started and
    has come to its end.  When, instead, the request for that archive
    fails, the failure is caught and recorded as the claim says: the
    line [Failed to download] is printed, the summary counts one
    failure, and the run returns. *)
Theorem broken_transfer_is_not_recorded :
  (httpStream brokenServer (releaseUrl "hulo_Darwin_arm64.tar.gz") = Breaks (lit "by")
   /\ fst brokenRun = Pending
   /\ console (snd brokenRun)
      = [ Log (lit "Clearing temp directory...");
          Log (lit "Temp directory cleared successfully");
          Log (lit "Starting Hulo downloader...");
          Log (lit "Fetching checksums...");
          Log (lit "Checksums fetched successfully");
          Log (lit "Found 2 files to download");
          Log (lit "Starting concurrent downloads...");
          Log (lit "Downloading hulo_Darwin_arm64.tar.gz");
          Log (lit "Downloading hulo_Linux_x86_64.tar.gz");
          Log (lit "Downloaded hulo_Linux_x86_64.tar.gz") ]
   /\ lookup (map lit ["work"; "temp"; "hulo_Darwin_arm64.tar.gz"]%string)
             (fs (snd brokenRun)) = Some (File (lit "by"))
   /\ lookup (map lit ["work"; "temp"; "hulo_Linux_x86_64.tar.gz"]%string)
             (fs (snd brokenRun)) = Some (File (lit "bytes")))
  /\ (httpStream halfServer (releaseUrl "hulo_Darwin_arm64.tar.gz") = Refused
      /\ fst halfRun = Return tt
      /\ console (snd halfRun)
         = [ Log (lit "Clearing temp directory...");
             Log (lit "Temp directory cleared successfully");
             Log (lit "Starting Hulo downloader...");
             Log (lit "Fetching checksums...");
             Log (lit "Checksums fetched successfully");
             Log (lit "Found 2 files to download");
             Log (lit "Starting concurrent downloads...");
             Log (lit "Downloading hulo_Darwin_arm64.tar.gz");
             Log (lit "Downloading hulo_Linux_x86_64.tar.gz");
             Log (lit "Downloaded hulo_Linux_x86_64.tar.gz");
             Log (lit "Failed to download hulo_Darwin_arm64.tar.gz");
             Log (lit "Download Summary");
             Log (lit "Successfully downloaded: 1 files");
             Log (lit "Failed to download: 1 files");
             Log (lit "All files downloaded successfully!");
             Log (lit "Check the temp/ directory for downloaded files") ]
      /\ lookup (map lit ["work"; "temp"; "hulo_Darwin_arm64.tar.gz"]%string)
                (fs (snd halfRun)) = None
      /\ lookup (map lit ["work"; "temp"; "hulo_Linux_x86_64.tar.gz"]%string)
                (fs (snd halfRun)) = Some (File (lit "bytes"))).
Proof. vm_compute. repeat split. Qed.

(** ** Trees that differ in one file *)

Section SameFacts.

Lemma sameEntries_nil (om : option (list jsstring)) : sameEntries om [] [] = true.
Proof. reflexivity. Qed.

Lemma sameEntries_cons (om : option (list jsstring)) (ka kb : jsstring) (na nb : node)
  (ra rb : list (jsstring * node)) :
  sameEntries om ((ka, na) :: ra) ((kb, nb) :: rb)
  = str_eqb ka kb && same (below om ka) na nb && sameEntries om ra rb.
Proof. reflexivity. Qed.

Lemma sameEntries_inv (om : option (list jsstring)) (ea eb : list (jsstring * node)) :
  sameEntries om ea eb = true ->
  match ea, eb with
  | [], [] => True
  | (ka, na) :: ra, (kb, nb) :: rb =>
      ka = kb /\ same (below om ka) na nb = true /\ sameEntries om ra rb = true
  | _, _ => False
  end.
Proof.
  destruct ea as [|[ka na] ra], eb as [|[kb nb] rb]; try discriminate; [trivial|].
  rewrite sameEntries_cons. intros H.
  apply andb_true_iff in H as [H H3]. apply andb_true_iff in H as [H1 H2].
  apply str_eqb_eq in H1. auto.
Qed.

Lemma same_Dir (om : option (list jsstring)) (ea eb : list (jsstring * node)) :
  same om (Dir ea) (Dir eb) = sameEntries om ea eb.
Proof. reflexivity. Qed.

Lemma same_refl (n : node) : forall om, same om n n = true.
Proof.
  induction n as [c|es IH] using node_rect'; intros om.
  - simpl. destruct om as [[|]|]; try reflexivity; apply str_eqb_refl.
  - rewrite same_Dir. induction es as [|[k v] es IHes]; [reflexivity|].
    inversion IH as [|? ? Hv Hes]; subst. cbn [snd] in Hv. rewrite sameEntries_cons.
    rewrite str_eqb_refl, (Hv (below om k)), (IHes Hes). reflexivity.
Qed.

Lemma same_None_eq (a : node) : forall b, same None a b = true -> a = b.
Proof.
  induction a as [c|es IH] using node_rect'; intros [c'|es'] H; try discriminate.
  - simpl in H. apply str_eqb_eq in H. now subst.
  - rewrite same_Dir in H. f_equal. revert es' H.
    induction es as [|[k v] es IHes]; intros es' H.
    + apply sameEntries_inv in H. destruct es'; [reflexivity|contradiction].
    + apply sameEntries_inv in H. destruct es' as [|[k' v'] es']; [contradiction|].
      destruct H as (-> & Hv & Hes). inversion IH as [|? ? Pv Pes]; subst.
      cbn [snd below] in Pv, Hv. rewrite (Pv v' Hv), (IHes Pes es' Hes). reflexivity.
Qed.

Lemma same_kind (om : option (list jsstring)) (a b : node) :
  same om a b = true -> isDirectory a = isDirectory b.
Proof. destruct a, b; simpl; intros H; try discriminate; reflexivity. Qed.

Lemma same_getEntry (om : option (list jsstring)) (k : jsstring)
  (ea : list (jsstring * node)) :
  forall eb, sameEntries om ea eb = true ->
             sameOption (below om k) (getEntry k ea) (getEntry k eb).
Proof.
  induction ea as [|[ka na] ra IH]; intros eb H; apply sameEntries_inv in H.
  - destruct eb; [exact I|contradiction].
  - destruct eb as [|[kb nb] rb]; [contradiction|]. destruct H as (-> & Hn & Hr).
    simpl. destruct (str_eqb k kb) eqn:E; [|now apply IH].
    apply str_eqb_eq in E. subst kb. exact Hn.
Qed.

Lemma same_setEntry (om : option (list jsstring)) (k : jsstring) (x y : node)
  (ea : list (jsstring * node)) :
  same (below om k) x y = true ->
  forall eb, sameEntries om ea eb = true ->
             sameEntries om (setEntry k x ea) (setEntry k y eb) = true.
Proof.
  intros Hxy. induction ea as [|[ka na] ra IH]; intros eb H; apply sameEntries_inv in H.
  - destruct eb; [|contradiction]. simpl setEntry. rewrite sameEntries_cons.
    now rewrite str_eqb_refl, Hxy.
  - destruct eb as [|[kb nb] rb]; [contradiction|]. destruct H as (-> & Hn & Hr).
    simpl setEntry. destruct (str_eqb k kb) eqn:E; rewrite sameEntries_cons.
    + apply str_eqb_eq in E. subst kb. now rewrite str_eqb_refl, Hxy, Hr.
    + now rewrite str_eqb_refl, Hn, (IH rb Hr).
Qed.

Lemma same_removeEntry (om : option (list jsstring)) (k : jsstring)
  (ea : list (jsstring * node)) :
  forall eb, sameEntries om ea eb = true ->
             sameEntries om (removeEntry k ea) (removeEntry k eb) = true.
Proof.
  induction ea as [|[ka na] ra IH]; intros eb H; apply sameEntries_inv in H.
  - destruct eb; [reflexivity|contradiction].
  - destruct eb as [|[kb nb] rb]; [contradiction|]. destruct H as (-> & Hn & Hr).
    simpl removeEntry. destruct (str_eqb k kb); [now apply IH|].
    rewrite sameEntries_cons. now rewrite str_eqb_refl, Hn, (IH rb Hr).
Qed.

Lemma same_Dir_inv (om : option (list jsstring)) (a b : node) :
  same om a b = true ->
  match a, b with
  | File _, File _ => True
  | Dir ea, Dir eb => sameEntries om ea eb = true
  | _, _ => False
  end.
Proof. destruct a, b; intros H; try discriminate; [exact I|exact H]. Qed.

(** The nodes at a path are the same, as far as the path leads to the
    file. *)
Lemma same_lookup (p : list jsstring) :
  forall om a b, same om a b = true ->
                 sameOption (belowPath om p) (lookup p a) (lookup p b).
Proof.
  induction p as [|s p IH]; intros om a b H; [exact H|].
  apply same_Dir_inv in H. destruct a as [ca|ea], b as [cb|eb]; try contradiction.
  - exact I.
  - pose proof (same_getEntry om s ea eb H) as G. simpl.
    destruct (getEntry s ea) as [x|], (getEntry s eb) as [y|]; try contradiction.
    + now apply IH.
    + exact I.
Qed.

Lemma belowPath_None (p : list jsstring) : belowPath None p = None.
Proof. induction p as [|s p IH]; [reflexivity|exact IH]. Qed.

Lemma belowPath_app (om : option (list jsstring)) (p q : list jsstring) :
  belowPath om (p ++ q) = belowPath (belowPath om p) q.
Proof. apply fold_left_app. Qed.

Lemma belowPath_prefix (c m p : list jsstring) :
  belowPath (Some (c ++ m)) (c ++ p) = belowPath (Some m) p.
Proof.
  induction c as [|s c IH]; [reflexivity|]. simpl. now rewrite str_eqb_refl.
Qed.

Lemma belowPath_extend (om : option (list jsstring)) (p q : list jsstring) :
  belowPath om p = None -> belowPath om (p ++ q) = None.
Proof. intros H. now rewrite belowPath_app, H, belowPath_None. Qed.

(** Only the path to the file leads to the file. *)
Lemma belowPath_at (p : list jsstring) :
  forall m, belowPath (Some m) p = Some [] -> p = m.
Proof.
  induction p as [|s p IH]; intros m H.
  - simpl in H. now injection H as ->.
  - simpl in H. destruct m as [|t m]; [now rewrite belowPath_None in H|].
    simpl in H. destruct (str_eqb t s) eqn:E; [|now rewrite belowPath_None in H].
    apply str_eqb_eq in E. subst t. f_equal. now apply IH.
Qed.

Lemma same_readdir (om : option (list jsstring)) (p : path) (a b : node) :
  same om a b = true -> readdir p a = readdir p b.
Proof.
  intros H. unfold readdir. pose proof (same_lookup (segments p) om a b H) as L.
  destruct (lookup (segments p) a) as [x|], (lookup (segments p) b) as [y|];
    try contradiction; [|reflexivity].
  apply same_Dir_inv in L. destruct x as [cx|ex], y as [cy|ey]; try contradiction;
    [reflexivity|]. f_equal.
  revert ey L. generalize (belowPath om (segments p)). intros o.
  induction ex as [|[k v] ex IH]; intros ey L; apply sameEntries_inv in L.
  - destruct ey; [reflexivity|contradiction].
  - destruct ey as [|[k' v'] ey]; [contradiction|]. destruct L as (-> & Hv & Hr).
    simpl. rewrite (same_kind _ _ _ Hv), (IH ey Hr). reflexivity.
Qed.

Lemma same_readFile (om : option (list jsstring)) (p : path) (a b : node) :
  same om a b = true -> belowPath om (segments p) <> Some [] ->
  readFile p a = readFile p b.
Proof.
  intros H N. unfold readFile. destruct (trailing p); [reflexivity|].
  pose proof (same_lookup (segments p) om a b H) as L.
  destruct (lookup (segments p) a) as [x|], (lookup (segments p) b) as [y|];
    try contradiction; [|reflexivity].
  destruct x as [cx|ex], y as [cy|ey]; try discriminate L; [|reflexivity].
  simpl in L. destruct (belowPath om (segments p)) as [[|]|]; try congruence;
    apply str_eqb_eq in L; now subst.
Qed.

Lemma same_height (a : node) :
  forall om b, same om a b = true -> height a = height b.
Proof.
  induction a as [c|es IH] using node_rect'; intros om [c'|es'] H; try discriminate;
    [reflexivity|].
  rewrite same_Dir in H. simpl. f_equal. revert es' H.
  induction es as [|[k v] es IHes]; intros es' H; apply sameEntries_inv in H.
  - destruct es'; [reflexivity|contradiction].
  - destruct es' as [|[k' v'] es']; [contradiction|]. destruct H as (-> & Hv & Hr).
    inversion IH as [|? ? Pv Pes]; subst. cbn [snd] in Pv. simpl.
    rewrite (Pv _ _ Hv), (IHes Pes es' Hr). reflexivity.
Qed.

Lemma same_mkdirRecursive (p : list jsstring) :
  forall om a b, same om a b = true ->
                 sameOption om (mkdirRecursive p a) (mkdirRecursive p b).
Proof.
  induction p as [|s p IH]; intros om a b H.
  - pose proof (same_Dir_inv om a b H) as D.
    destruct a, b; try contradiction; [exact I|exact H].
  - pose proof (same_Dir_inv om a b H) as D.
    destruct a as [ca|ea], b as [cb|eb]; try contradiction; [exact I|].
    pose proof (same_getEntry om s ea eb D) as G. simpl.
    assert (C : same (below om s)
                  (match getEntry s ea with Some c => c | None => Dir [] end)
                  (match getEntry s eb with Some c => c | None => Dir [] end) = true).
    { destruct (getEntry s ea), (getEntry s eb); try contradiction;
        [exact G|reflexivity]. }
    specialize (IH _ _ _ C).
    destruct (mkdirRecursive p _) as [x|], (mkdirRecursive p _) as [y|];
      try contradiction; [|exact I].
    simpl. apply (same_setEntry om s x y ea IH eb D).
Qed.

Lemma sameOption_kind (om : option (list jsstring)) (oa ob : option node) :
  sameOption om oa ob -> sameKind oa ob.
Proof.
  destruct oa, ob; simpl; try contradiction; [apply same_kind|trivial].
Qed.

(** A change that only looks at the kind of the entry it replaces. *)
Lemma same_alter (f : option node -> option (option node)) (p : list jsstring) :
  (forall oa ob, sameKind oa ob -> f oa = f ob) ->
  forall om a b, same om a b = true -> sameOption om (alter f p a) (alter f p b).
Proof.
  intros Hf. induction p as [|s p IH]; intros om a b H;
    pose proof (same_Dir_inv om a b H) as D;
    destruct a as [ca|ea], b as [cb|eb]; try contradiction; try exact I.
  pose proof (same_getEntry om s ea eb D) as G. simpl. destruct p as [|t p].
  - rewrite (Hf _ _ (sameOption_kind _ _ _ G)).
    destruct (f (getEntry s eb)) as [[x|]|]; [| |exact I].
    + simpl. apply same_setEntry; [apply same_refl|exact D].
    + simpl. now apply same_removeEntry.
  - destruct (getEntry s ea) as [x|], (getEntry s eb) as [y|]; try contradiction;
      [|exact I].
    specialize (IH _ _ _ G).
    destruct (alter f (t :: p) x) as [x'|], (alter f (t :: p) y) as [y'|];
      try contradiction; [|exact I].
    simpl. apply (same_setEntry om s x' y' ea IH eb D).
Qed.

Lemma same_writeFile (om : option (list jsstring)) (p : path) (data : jsstring)
  (a b : node) :
  same om a b = true -> sameOption om (writeFile p data a) (writeFile p data b).
Proof.
  intros H. unfold writeFile. destruct (trailing p); [exact I|].
  apply same_alter; [|exact H].
  intros [[|]|] [[|]|]; simpl; intros K; try discriminate; try contradiction;
    reflexivity.
Qed.

Lemma same_remove (om : option (list jsstring)) (recursive : bool) (p : path)
  (a b : node) :
  same om a b = true -> sameOption om (remove recursive p a) (remove recursive p b).
Proof.
  intros H. unfold remove. pose proof (same_lookup (segments p) om a b H) as L.
  destruct (lookup (segments p) a) as [x|], (lookup (segments p) b) as [y|];
    try contradiction; [|exact H].
  rewrite (same_kind _ _ _ L). destruct (isDirectory y && negb recursive); [exact I|].
  apply same_alter; [reflexivity|exact H].
Qed.

Lemma same_copyFile (om : option (list jsstring)) (src dest : path) (a b : node) :
  same om a b = true -> belowPath om (segments src) <> Some [] ->
  sameOption om (copyFile src dest a) (copyFile src dest b).
Proof.
  intros H N. unfold copyFile. rewrite (same_readFile om src a b H N).
  destruct (readFile src b); [now apply same_writeFile|exact I].
Qed.

Lemma same_setDirectory (es : list (jsstring * node)) (p : list jsstring) :
  forall om a b, same om a b = true ->
                 sameOption om (setDirectory p es a) (setDirectory p es b).
Proof.
  induction p as [|s p IH]; intros om a b H;
    pose proof (same_Dir_inv om a b H) as D;
    destruct a as [ca|ea], b as [cb|eb]; try contradiction; try exact I.
  - exact (same_refl (Dir es) om).
  - pose proof (same_getEntry om s ea eb D) as G. simpl.
    destruct (getEntry s ea) as [x|], (getEntry s eb) as [y|]; try contradiction;
      [|exact I].
    specialize (IH _ _ _ G).
    destruct (setDirectory p es x) as [x'|], (setDirectory p es y) as [y'|];
      try contradiction; [|exact I].
    simpl. apply (same_setEntry om s x' y' ea IH eb D).
Qed.

(** Away from the file, the trees are equal. *)
Lemma same_lookup_away (om : option (list jsstring)) (p : list jsstring) (a b : node) :
  same om a b = true -> belowPath om p = None -> lookup p a = lookup p b.
Proof.
  intros H N. pose proof (same_lookup p om a b H) as L. rewrite N in L.
  destruct (lookup p a), (lookup p b); try contradiction; [|reflexivity].
  f_equal. now apply same_None_eq.
Qed.

End SameFacts.

(** ** Computations that do not see the file *)

Section RespectsFacts.

Import Postprepare.

Variable om : option (list jsstring).

Lemma sameWorld_with (wa wb : World) (a b : node) :
  sameWorld om wa wb -> same om a b = true ->
  sameWorld om {| fs := a; console := console wa; trace := trace wa |}
               {| fs := b; console := console wb; trace := trace wb |}.
Proof. intros (_ & C & T) H. repeat split; assumption. Qed.

Lemma respects_ret {A} (a : A) : respects om (ret a).
Proof. intros wa wb H. split; [reflexivity|exact H]. Qed.

Lemma respects_throw {A} (e : error) : respects om (@throw A e).
Proof. intros wa wb H. split; [reflexivity|exact H]. Qed.

Lemma respects_exit {A} (c : N) : respects om (@exit A c).
Proof. intros wa wb H. split; [reflexivity|exact H]. Qed.

Lemma respects_print (l : line) : respects om (print l).
Proof.
  intros wa wb (F & C & T). split; [reflexivity|].
  unfold print. cbn [snd fs console trace]. repeat split; [exact F| |exact T].
  now rewrite C.
Qed.

Lemma respects_log (text : jsstring) : respects om (log text).
Proof. apply respects_print. Qed.

Lemma respects_emit (e : event) : respects om (emit e).
Proof.
  intros wa wb (F & C & T). split; [reflexivity|].
  unfold emit. cbn [snd fs console trace]. repeat split; [exact F|exact C|].
  now rewrite T.
Qed.

Lemma respects_bind {A B} (m : M A) (k : A -> M B) :
  respects om m -> (forall a, respects om (k a)) -> respects om (bind m k).
Proof.
  intros Hm Hk wa wb H. unfold bind. destruct (Hm wa wb H) as [E W].
  destruct (m wa) as [[a|e|c|] wa'], (m wb) as [[b|e'|c'|] wb']; cbn [fst snd] in *;
    try discriminate.
  - injection E as <-. now apply Hk.
  - injection E as <-. split; [reflexivity|exact W].
  - injection E as <-. split; [reflexivity|exact W].
  - split; [reflexivity|exact W].
Qed.

Lemma respects_tryCatch {A} (m : M A) (h : error -> M A) :
  respects om m -> (forall e, respects om (h e)) -> respects om (tryCatch m h).
Proof.
  intros Hm Hh wa wb H. unfold tryCatch. destruct (Hm wa wb H) as [E W].
  destruct (m wa) as [[a|e|c|] wa'], (m wb) as [[b|e'|c'|] wb']; cbn [fst snd] in *;
    try discriminate.
  - split; [exact E|exact W].
  - injection E as <-. now apply Hh.
  - split; [exact E|exact W].
  - split; [exact E|exact W].
Qed.

Lemma respects_reading {A} (syscall : string) (p : path) (f : node -> option A) :
  (forall a b, same om a b = true -> f a = f b) -> respects om (reading syscall p f).
Proof.
  intros Hf wa wb H. unfold reading. rewrite (Hf _ _ (proj1 H)).
  destruct (f (fs wb)); (split; [reflexivity|exact H]).
Qed.

Lemma respects_writing (syscall : string) (p : path) (f : node -> option node) :
  (forall a b, same om a b = true -> sameOption om (f a) (f b)) ->
  respects om (writing syscall p f).
Proof.
  intros Hf wa wb H. unfold writing. pose proof (Hf _ _ (proj1 H)) as S.
  destruct (f (fs wa)) as [a|], (f (fs wb)) as [b|]; try contradiction.
  - split; [reflexivity|]. now apply sameWorld_with.
  - split; [reflexivity|exact H].
Qed.

Lemma respects_readdirM (p : path) : respects om (readdirM p).
Proof. apply respects_reading. intros a b H. exact (same_readdir om p a b H). Qed.

Lemma respects_readFileM (p : path) :
  belowPath om (segments p) <> Some [] -> respects om (readFileM p).
Proof.
  intros N. apply respects_reading. intros a b H. exact (same_readFile om p a b H N).
Qed.

Lemma respects_mkdirM (p : path) : respects om (mkdirM p).
Proof.
  apply respects_writing. intros a b H. exact (same_mkdirRecursive (segments p) om a b H).
Qed.

Lemma respects_writeFileM (p : path) (data : jsstring) : respects om (writeFileM p data).
Proof.
  apply respects_bind; [apply respects_emit|intros _].
  apply respects_writing. intros a b H. exact (same_writeFile om p data a b H).
Qed.

Lemma respects_copyFileM (src dest : path) :
  belowPath om (segments src) <> Some [] -> respects om (copyFileM src dest).
Proof.
  intros N. apply respects_bind; [apply respects_emit|intros _].
  apply respects_writing. intros a b H. exact (same_copyFile om src dest a b H N).
Qed.

Lemma respects_rmSyncM (env : Env) (recursive : bool) (p : path) :
  respects om (rmSyncM env recursive p).
Proof.
  unfold rmSyncM. destruct (rmSyncBehaviour env p).
  - apply respects_writing. intros a b H. exact (same_remove om recursive p a b H).
  - apply respects_throw.
  - apply respects_ret.
Qed.

Lemma respects_spawnM (env : Env) (t : tool) (cmd : jsstring) (args : list jsstring)
  (archive dir : path) :
  belowPath om (segments archive) <> Some [] ->
  belowPath om (segments dir) = None ->
  respects om (spawnM env t cmd args archive dir).
Proof.
  intros Na Nd. apply respects_bind; [apply respects_emit|intros _].
  intros wa wb H. destruct H as (F & C & T).
  rewrite (same_readFile om archive _ _ F Na).
  rewrite (same_lookup_away om (segments dir) _ _ F Nd).
  destruct (readFile archive (fs wb)) as [bytes|];
    [|split; [reflexivity|repeat split; assumption]].
  destruct (lookup (segments dir) (fs wb)) as [[c|es]|];
    try (split; [reflexivity|repeat split; assumption]).
  destruct (extract env t bytes es) as [es'|];
    [|split; [reflexivity|repeat split; assumption]].
  pose proof (same_setDirectory es' (segments dir) om _ _ F) as S.
  destruct (setDirectory (segments dir) es' (fs wa)) as [a|],
           (setDirectory (segments dir) es' (fs wb)) as [b|]; try contradiction.
  - split; [reflexivity|]. repeat split; assumption.
  - split; [reflexivity|repeat split; assumption].
Qed.

Lemma respects_forOf {A} (l : list A) (body : A -> M unit) :
  (forall x, In x l -> respects om (body x)) -> respects om (forOf l body).
Proof.
  induction l as [|x l IH]; intros H; simpl; [apply respects_ret|].
  apply respects_bind; [apply H; now left|intros _].
  apply IH. intros y I. apply H. now right.
Qed.

Lemma respects_copyDirectory (fuel : nat) :
  forall source target,
    belowPath om (segments source) = None ->
    respects om (copyDirectory fuel source target).
Proof.
  induction fuel as [|fuel IH]; intros source target N; simpl.
  - apply respects_throw.
  - apply respects_bind; [apply respects_readdirM|intros entries].
    apply respects_forOf. intros [name isDir] _. cbn [fst snd].
    assert (Nc : belowPath om (segments (child source name)) = None)
      by (apply belowPath_extend; exact N).
    destruct isDir.
    + apply respects_bind; [apply respects_mkdirM|intros _]. now apply IH.
    + apply respects_copyFileM. now rewrite Nc.
Qed.

Lemma respects_height {A} (m : nat -> M A) :
  (forall n, respects om (m n)) -> respects om (fun w => m (height (fs w)) w).
Proof.
  intros H wa wb S. rewrite (same_height _ _ _ (proj1 S)). now apply H.
Qed.

End RespectsFacts.

(** ** The post-processor and the text of the manifest *)

Section HashFacts.

Import Platform Handlebars Postprepare.

Variable env : Env.

Let om : option (list jsstring) := Some (segments (manifestPathOf env)).

Lemma tempDirOf_child : tempDirOf env = child (workingDirectory env) (lit "temp").
Proof. unfold tempDirOf. now apply join_plain. Qed.

Lemma manifestPathOf_segments :
  segments (manifestPathOf env) = cwd env ++ [lit "temp"; lit "checksums.txt"].
Proof.
  unfold manifestPathOf. rewrite join_plain by reflexivity. rewrite tempDirOf_child.
  cbn [child segments workingDirectory]. now rewrite <- app_assoc.
Qed.

(** The directory of a platform is away from the manifest. *)
Lemma platformDir_away (k : jsstring) :
  accepted k = true -> belowPath om (segments (platformDirOf env k)) = None.
Proof.
  intros H. unfold om. rewrite manifestPathOf_segments, (platformDirOf_child env k H).
  cbn [child segments workingDirectory]. rewrite <- !app_assoc.
  rewrite belowPath_prefix.
  rewrite (app_assoc [lit "temp"]).
  apply belowPath_extend. vm_compute. reflexivity.
Qed.

Lemma child_away (p : path) (name : jsstring) :
  belowPath om (segments p) = None -> belowPath om (segments (child p name)) = None.
Proof. intros H. now apply belowPath_extend. Qed.

Lemma away_not_at (p : list jsstring) : belowPath om p = None -> belowPath om p <> Some [].
Proof. now intros ->. Qed.

Lemma not_manifest (p : path) :
  segments p <> segments (manifestPathOf env) -> belowPath om (segments p) <> Some [].
Proof. intros N H. apply N. now apply belowPath_at. Qed.

Lemma respects_extractFile (filePath extractDir : path) :
  belowPath om (segments filePath) <> Some [] ->
  belowPath om (segments extractDir) = None ->
  respects om (extractFile env filePath extractDir).
Proof.
  intros Nf Nd. unfold extractFile.
  destruct (negb _ && negb _); [now apply respects_copyFileM|].
  destruct (endsWith _ _); [destruct (isWin32 env)|]; now apply respects_spawnM.
Qed.

Ltac resp_step :=
  lazymatch goal with
  | |- respects _ (bind _ _) => apply respects_bind; [|intros ?]
  | |- respects _ (tryCatch _ _) => apply respects_tryCatch; [|intros ?]
  | |- respects _ (ret _) => apply respects_ret
  | |- respects _ (log _) => apply respects_log
  | |- respects _ (print _) => apply respects_print
  | |- respects _ (exit _) => apply respects_exit
  | |- respects _ (throw _) => apply respects_throw
  | |- respects _ (readdirM _) => apply respects_readdirM
  | |- respects _ (mkdirM _) => apply respects_mkdirM
  | |- respects _ (writeFileM _ _) => apply respects_writeFileM
  | |- respects _ (rmSyncM _ _ _) => apply respects_rmSyncM
  end.

(** An iteration of the loop does not see the text of the manifest,
    unless the entry names the manifest itself. *)
Lemma respects_processEntry (version : jsstring) (entry : ChecksumEntry) :
  segments (join (tempDirOf env) [filename entry]) <> segments (manifestPathOf env) ->
  respects om (processEntry env version (tempDirOf env) entry).
Proof.
  intros N. apply not_manifest in N. unfold processEntry.
  destruct (matchArchive (filename entry)) as [platformKey|]; [|apply respects_log].
  set (platformName := replaceUnderscores (toLowerCase platformKey)).
  destruct (propertyTruthy (getProperty platformName)) eqn:Hacc; simpl negb; cbv iota;
    [|apply respects_log].
  cbv zeta.
  change (join {| segments := cwd env; trailing := false |}
               [lit "temp"; lit "packages"; lit "hulo-" ++ platformName])
    with (platformDirOf env platformName).
  pose proof (platformDir_away platformName Hacc) as Dd.
  set (D := platformDirOf env platformName) in *.
  rewrite !(join_plain D (lit "bin")) by reflexivity.
  rewrite !(join_plain D (lit "std")) by reflexivity.
  rewrite !(join_plain (child D (lit "bin")) (lit "std")) by reflexivity.
  assert (Hb : forall p : path,
             join p [if startsWith platformName (lit "windows")
                     then lit "hulo.exe" else lit "hulo"]
             = child p (if startsWith platformName (lit "windows")
                        then lit "hulo.exe" else lit "hulo")).
  { intros p. apply join_plain. destruct (startsWith _ _); reflexivity. }
  rewrite !Hb.
  do 2 (resp_step; [resp_step|]).
  resp_step.
  { resp_step; [|resp_step; [resp_step|resp_step]].
    resp_step; [now apply respects_readFileM|resp_step]. }
  destruct a1; simpl negb; cbv iota; [|apply respects_ret].
  resp_step; [resp_step|]. resp_step; [resp_step|].
  resp_step; [now apply respects_extractFile|].
  resp_step; [resp_step|]. resp_step; [resp_step|]. resp_step; [resp_step|].
  resp_step; [apply respects_copyFileM, away_not_at, child_away, Dd|].
  resp_step; [resp_step|].
  resp_step.
  { apply (respects_height om (fun n => copyDirectory n _ _)). intros n.
    apply respects_copyDirectory, child_away, Dd. }
  repeat (resp_step; [resp_step|]). resp_step.
Qed.

(** The loop only reads the file names of the entries. *)
Lemma processEntry_filename (version : jsstring) (tempDir : path) (e1 e2 : ChecksumEntry) :
  filename e1 = filename e2 ->
  processEntry env version tempDir e1 = processEntry env version tempDir e2.
Proof. intros H. unfold processEntry. now rewrite H. Qed.

Lemma forOf_filename (version : jsstring) (tempDir : path) (l1 : list ChecksumEntry) :
  forall l2, map filename l1 = map filename l2 ->
             forOf l1 (processEntry env version tempDir)
             = forOf l2 (processEntry env version tempDir).
Proof.
  induction l1 as [|e1 l1 IH]; intros [|e2 l2] H; try discriminate; [reflexivity|].
  injection H as H1 H2. simpl. now rewrite (processEntry_filename _ _ _ _ H1), (IH l2 H2).
Qed.

Lemma installFrom_filename (version : jsstring) (tempDir : path)
  (l1 l2 : list ChecksumEntry) :
  map filename l1 = map filename l2 ->
  installFrom env version tempDir l1 = installFrom env version tempDir l2.
Proof.
  intros H. unfold installFrom. rewrite (forOf_filename version tempDir l1 l2 H).
  replace (length l1) with (length l2); [reflexivity|].
  now rewrite <- (length_map filename l2), <- H, length_map.
Qed.

Lemma respects_installFrom (version : jsstring) (l : list ChecksumEntry) :
  (forall e, In e l ->
             segments (join (tempDirOf env) [filename e]) <> segments (manifestPathOf env)) ->
  respects om (installFrom env version (tempDirOf env) l).
Proof.
  intros H. unfold installFrom.
  resp_step; [resp_step|]. resp_step; [resp_step|]. resp_step; [resp_step|].
  resp_step; [|resp_step; [resp_step|resp_step]].
  apply respects_forOf. intros e I. now apply respects_processEntry, H.
Qed.

Lemma respects_mainWith (arg : option jsstring) (text : jsstring) :
  (forall e, In e (parseChecksums text) ->
             segments (join (tempDirOf env) [filename e]) <> segments (manifestPathOf env)) ->
  respects om (mainWith env arg text).
Proof.
  intros H. unfold mainWith.
  resp_step; [resp_step|].
  resp_step; [|resp_step; [resp_step|resp_step]].
  resp_step; [|now apply respects_installFrom].
  resp_step; [resp_step; [resp_step|resp_step]|resp_step; [resp_step|resp_step]].
Qed.

End HashFacts.

(** ** The text of the manifest in [main] *)

Lemma segments_eqb_eq (p : list jsstring) :
  forall q, segments_eqb p q = true <-> p = q.
Proof.
  induction p as [|a p IH]; intros [|b q]; simpl; split; try congruence; try discriminate.
  - intros H. apply andb_true_iff in H as [H1 H2].
    apply str_eqb_eq in H1. apply IH in H2. now subst.
  - intros H. injection H as -> ->. rewrite str_eqb_refl. now apply IH.
Qed.

Lemma sameButHash_entries (la lb : jsstring) :
  sameButHash la lb = true ->
  wellFormed la = wellFormed lb
  /\ filename (lineEntry la) = filename (lineEntry lb).
Proof.
  unfold sameButHash, wellFormed, lineEntry. intros H.
  apply andb_true_iff in H as [H1 H2]. apply Nat.eqb_eq in H1.
  apply segments_eqb_eq in H2. cbn [filename]. now rewrite H1, H2.
Qed.

Lemma forall2b_filenames (la : list jsstring) :
  forall lb, forall2b sameButHash la lb = true ->
             map filename (map lineEntry (filter wellFormed la))
             = map filename (map lineEntry (filter wellFormed lb)).
Proof.
  induction la as [|a la IH]; intros [|b lb] H; simpl in H; try discriminate; [reflexivity|].
  apply andb_true_iff in H as [H1 H2]. apply sameButHash_entries in H1 as [W F].
  cbn [filter]. rewrite <- W. destruct (wellFormed a); cbn [map]; [f_equal; [exact F|]|];
    now apply IH.
Qed.

(** Manifests that differ only in the hashes list the same names. *)
Lemma differOnlyInHash_filenames (ta tb : jsstring) :
  differOnlyInHash ta tb = true ->
  map filename (parseChecksums ta) = map filename (parseChecksums tb).
Proof. intros H. rewrite !parseChecksums_split. now apply forall2b_filenames. Qed.

Lemma differOnlyInHash_refl (t : jsstring) : differOnlyInHash t t = true.
Proof.
  unfold differOnlyInHash. induction (split 10%N t) as [|l ls IH]; [reflexivity|].
  simpl. rewrite IH, andb_true_r. unfold sameButHash. rewrite Nat.eqb_refl. simpl.
  now apply segments_eqb_eq.
Qed.

Lemma probe_keeps_fs (env : Env) (w : World) :
  let probe := tryCatch (readdirM (tempDirOf env) ;; ret tt)
       (fun _ =>
          log (lit "Error: temp directory not found. Please run prepare.ts first.") ;;
          exit 1%N) in
  fs (snd (probe w)) = fs w.
Proof.
  cbv zeta. unfold tryCatch, bind, readdirM, reading, ret, log, print, exit.
  destruct (NodeFs.readdir (tempDirOf env) (fs w)); reflexivity.
Qed.

Lemma bind_then_read {B} (pre : M unit) (k : jsstring -> M B) (p : path)
  (t : jsstring) (w : World) :
  fs (snd (pre w)) = fs w -> NodeFs.readFile p (fs w) = Some t ->
  bind pre (fun _ => bind (readFileM p) k) w = bind pre (fun _ => k t) w.
Proof.
  intros F R. unfold bind at 1 3. destruct (pre w) as [[[]|e|c|] w']; try reflexivity.
  cbn [snd] in F. unfold bind, readFileM, reading. now rewrite F, R.
Qed.

Lemma tryCatch_ext {A} (m m' : M A) (h : error -> M A) (w : World) :
  m w = m' w -> tryCatch m h w = tryCatch m' h w.
Proof. unfold tryCatch. now intros ->. Qed.

(** [main] reads the manifest once, after the probe of the staging
    directory. *)
Lemma main_with_manifest (env : Env) (arg : option jsstring) (t : jsstring) (w : World) :
  NodeFs.readFile (manifestPathOf env) (fs w) = Some t ->
  Postprepare.main env arg w = mainWith env arg t w.
Proof.
  intros R. unfold Postprepare.main, mainWith. cbv zeta.
  rewrite !bind_log. apply tryCatch_ext.
  change (join {| segments := cwd env; trailing := false |} [lit "temp"])
    with (tempDirOf env).
  change (join (tempDirOf env) [lit "checksums.txt"]) with (manifestPathOf env).
  rewrite (bind_then_read _ _ (manifestPathOf env) t).
  - reflexivity.
  - apply probe_keeps_fs.
  - exact R.
Qed.

Lemma packagesDir_away (env : Env) :
  belowPath (Some (segments (manifestPathOf env))) (packagesDirOf env) = None.
Proof.
  rewrite manifestPathOf_segments. unfold packagesDirOf.
  rewrite belowPath_prefix. vm_compute. reflexivity.
Qed.

Lemma sameDownload_combine (l1 : list ChecksumEntry) :
  forall l2 a,
    map filename l1 = map filename l2 ->
    Forall2 sameDownload (combine (seq a (length l1)) l1) (combine (seq a (length l2)) l2).
Proof.
  induction l1 as [|e1 l1 IH]; intros [|e2 l2] a H; try discriminate; [constructor|].
  injection H as H1 H2. simpl. constructor; [now split|]. now apply IH.
Qed.

Lemma sameDownload_insert (arrivalOf : nat * ChecksumEntry -> nat)
  (x y : nat * ChecksumEntry) (l l' : list (nat * ChecksumEntry)) :
  (forall d1 d2, sameDownload d1 d2 -> arrivalOf d1 = arrivalOf d2) ->
  sameDownload x y -> Forall2 sameDownload l l' ->
  Forall2 sameDownload (Prepare.insertByArrival arrivalOf x l)
                       (Prepare.insertByArrival arrivalOf y l').
Proof.
  intros K Hxy H. induction H as [|a b l l' Hab H IH]; simpl.
  - constructor; [exact Hxy|constructor].
  - rewrite (K x y Hxy), (K a b Hab).
    destruct (arrivalOf y <=? arrivalOf b); constructor; try assumption.
    now constructor.
Qed.

Lemma sameDownload_byArrival (arrivalOf : nat * ChecksumEntry -> nat)
  (l l' : list (nat * ChecksumEntry)) :
  (forall d1 d2, sameDownload d1 d2 -> arrivalOf d1 = arrivalOf d2) ->
  Forall2 sameDownload l l' ->
  Forall2 sameDownload (Prepare.byArrival arrivalOf l) (Prepare.byArrival arrivalOf l').
Proof.
  intros K H. induction H as [|a b l l' Hab H IH]; simpl; [constructor|].
  now apply sameDownload_insert.
Qed.

Lemma mapM_Forall2 {A B} (R : A -> A -> Prop) (f : A -> M B) (l l' : list A) :
  (forall a b, R a b -> f a = f b) -> Forall2 R l l' -> mapM f l = mapM f l'.
Proof.
  intros Hf H. induction H as [|a b l l' Hab H IH]; simpl; [reflexivity|].
  now rewrite (Hf a b Hab), IH.
Qed.

Lemma forOf_same_names (f : ChecksumEntry -> M unit) (l1 : list ChecksumEntry) :
  (forall e1 e2, filename e1 = filename e2 -> f e1 = f e2) ->
  forall l2, map filename l1 = map filename l2 -> forOf l1 f = forOf l2 f.
Proof.
  intros Hf. induction l1 as [|e1 l1 IH]; intros [|e2 l2] H; try discriminate;
    [reflexivity|].
  injection H as H1 H2. simpl. now rewrite (Hf e1 e2 H1), (IH l2 H2).
Qed.

Lemma downloadAll_filename (env : Env) (baseUrl : jsstring) (tempDir : path)
  (l1 : list ChecksumEntry) :
  forall l2, map filename l1 = map filename l2 ->
             Prepare.downloadAll env baseUrl tempDir l1
             = Prepare.downloadAll env baseUrl tempDir l2.
Proof.
  intros l2 H. unfold Prepare.downloadAll. cbv zeta.
  assert (L : length l1 = length l2).
  { rewrite <- (length_map filename l1), H. apply length_map. }
  rewrite (forOf_same_names (Prepare.startDownload baseUrl tempDir) l1
             ltac:(intros e1 e2 E; unfold Prepare.startDownload; now rewrite E) l2 H).
  set (arrivalOf := fun download : nat * ChecksumEntry =>
                      arrival env (baseUrl ++ lit "/" ++ filename (snd download))).
  set (f := fun download : nat * ChecksumEntry =>
              bind (Prepare.downloadEntry env baseUrl tempDir (snd download))
                   (fun result => ret (fst download, result))).
  rewrite (mapM_Forall2 sameDownload f
             (Prepare.byArrival arrivalOf (combine (seq 0 (length l1)) l1))
             (Prepare.byArrival arrivalOf (combine (seq 0 (length l2)) l2))).
  - now rewrite L.
  - intros [i e1] [j e2] [E1 E2]. cbn [fst snd] in *. subst j f. cbn [fst snd].
    unfold Prepare.downloadEntry. now rewrite E2.
  - apply sameDownload_byArrival; [|now apply sameDownload_combine].
    intros [i e1] [j e2] [_ E]. subst arrivalOf. cbn [snd] in *. now rewrite E.
Qed.

Lemma no_manifest_entry (env : Env) (l : list ChecksumEntry) :
  forallb (fun e => negb (namesManifest env e)) l = true ->
  forall e, In e l ->
            segments (join (tempDirOf env) [filename e]) <> segments (manifestPathOf env).
Proof.
  intros H e I E. rewrite forallb_forall in H. specialize (H e I).
  apply negb_true_iff in H. unfold namesManifest in H.
  apply segments_eqb_eq in E. congruence.
Qed.

(** ** The hash of a manifest line *)

(** C4, as stated, fails: a manifest line may name the manifest itself
    behind the name of an archive ([hulo_Linux_x86_64.tar.gz/../checksums.txt]).
    The post-processor then copies the manifest, hashes included, into the
    package directory: two manifests that differ only in the hash give
    different package outputs. *)
Lemma hash_reaches_package_output :
  differOnlyInHash (selfManifest "aaaa") (selfManifest "bbbb") = true
  /\ NodeFs.lookup (packageSegments "linux-x86-64" ["checksums.txt"%string])
                   (fs (snd (selfRun "aaaa")))
     = Some (File (selfManifest "aaaa"))
  /\ NodeFs.lookup (packageSegments "linux-x86-64" ["checksums.txt"%string])
                   (fs (snd (selfRun "bbbb")))
     = Some (File (selfManifest "bbbb"))
  /\ NodeFs.lookup (packagesDirOf (hostWith releaseArchive)) (fs (snd (selfRun "aaaa")))
     <> NodeFs.lookup (packagesDirOf (hostWith releaseArchive)) (fs (snd (selfRun "bbbb"))).
Proof.
  split; [vm_compute; reflexivity|].
  split; [vm_compute; reflexivity|].
  split; [vm_compute; reflexivity|].
  vm_compute. discriminate.
Qed.

(** C4, amended: for two manifest texts that are equal except for the hash
    of each line, the download phase of the Fetcher is the same computation
    (the same requests, for the same URLs and destination paths, with the
    same results), and, when no entry names the manifest file itself, the
    Installer run on two staging trees that differ only in the text of the
    manifest ends with the same outcome, the same console output, the same
    trace of extractions, copies and written files, and the same packages
    directory. *)
Theorem hash_never_influences (env : Env) (arg : option jsstring) (baseUrl : jsstring)
  (wA wB : World) (tA tB : jsstring) :
  differOnlyInHash tA tB = true ->
  sameWorld (Some (segments (manifestPathOf env))) wA wB ->
  NodeFs.readFile (manifestPathOf env) (fs wA) = Some tA ->
  NodeFs.readFile (manifestPathOf env) (fs wB) = Some tB ->
  forallb (fun e => negb (namesManifest env e)) (parseChecksums tA) = true ->
  Prepare.downloadAll env baseUrl (tempDirOf env) (parseChecksums tA)
  = Prepare.downloadAll env baseUrl (tempDirOf env) (parseChecksums tB)
  /\ fst (Postprepare.main env arg wA) = fst (Postprepare.main env arg wB)
  /\ console (snd (Postprepare.main env arg wA)) = console (snd (Postprepare.main env arg wB))
  /\ trace (snd (Postprepare.main env arg wA)) = trace (snd (Postprepare.main env arg wB))
  /\ NodeFs.lookup (packagesDirOf env) (fs (snd (Postprepare.main env arg wA)))
     = NodeFs.lookup (packagesDirOf env) (fs (snd (Postprepare.main env arg wB))).
Proof.
  intros D W RA RB N.
  pose proof (differOnlyInHash_filenames tA tB D) as F.
  split; [now apply downloadAll_filename|].
  rewrite (main_with_manifest env arg tA wA RA), (main_with_manifest env arg tB wB RB).
  assert (E : mainWith env arg tB = mainWith env arg tA).
  { unfold mainWith.
    now rewrite (installFrom_filename env _ _ _ _ F). }
  rewrite E.
  destruct (respects_mainWith env arg tA (no_manifest_entry env _ N) wA wB W)
    as [O [S [C T]]].
  repeat split; try assumption.
  exact (same_lookup_away _ _ _ _ S (packagesDir_away env)).
Qed.

Lemma hash_never_influences_witness :
  Prepare.downloadAll (hostWith releaseArchive) (lit "https://example.org")
    (tempDirOf (hostWith releaseArchive)) (parseChecksums (linuxManifest "aaaa"))
  = Prepare.downloadAll (hostWith releaseArchive) (lit "https://example.org")
      (tempDirOf (hostWith releaseArchive)) (parseChecksums (linuxManifest "bbbb"))
  /\ fst (Postprepare.main (hostWith releaseArchive) None (linuxStaged "aaaa"))
     = fst (Postprepare.main (hostWith releaseArchive) None (linuxStaged "bbbb"))
  /\ console (snd (Postprepare.main (hostWith releaseArchive) None (linuxStaged "aaaa")))
     = console (snd (Postprepare.main (hostWith releaseArchive) None (linuxStaged "bbbb")))
  /\ trace (snd (Postprepare.main (hostWith releaseArchive) None (linuxStaged "aaaa")))
     = trace (snd (Postprepare.main (hostWith releaseArchive) None (linuxStaged "bbbb")))
  /\ NodeFs.lookup (packagesDirOf (hostWith releaseArchive))
       (fs (snd (Postprepare.main (hostWith releaseArchive) None (linuxStaged "aaaa"))))
     = NodeFs.lookup (packagesDirOf (hostWith releaseArchive))
         (fs (snd (Postprepare.main (hostWith releaseArchive) None (linuxStaged "bbbb")))).
Proof.
  apply (hash_never_influences (hostWith releaseArchive) None (lit "https://example.org")
           (linuxStaged "aaaa") (linuxStaged "bbbb")
           (linuxManifest "aaaa") (linuxManifest "bbbb")).
  - vm_compute. reflexivity.
  - repeat split; vm_compute; reflexivity.
  - vm_compute. reflexivity.
  - vm_compute. reflexivity.
  - vm_compute. reflexivity.
Defined.

(** * Further properties of the scripts *)

(** ** The parser of the manifest *)

Section ManifestExtra.

Lemma noLineFeed_In (l : jsstring) : noLineFeed l = true -> ~ In 10%N l.
Proof.
  unfold noLineFeed. intros H I. rewrite forallb_forall in H.
  specialize (H _ I). now rewrite N.eqb_refl in H.
Qed.

Lemma noLineFeed_Forall (ls : list jsstring) :
  forallb noLineFeed ls = true -> Forall (fun l => ~ In 10%N l) ls.
Proof.
  intros H. apply Forall_forall. intros l I. apply noLineFeed_In.
  rewrite forallb_forall in H. now apply H.
Qed.

Lemma trimStart_allSpace (s : jsstring) : allSpace s = true -> trimStart s = [].
Proof.
  intros H. rewrite <- (app_nil_r s). now rewrite (trimStart_spaces _ _ H).
Qed.

Lemma allSpace_rev (s : jsstring) : allSpace (rev s) = allSpace s.
Proof.
  unfold allSpace. induction s as [|c s IH]; [reflexivity|].
  simpl. rewrite forallb_app, IH. simpl. rewrite andb_true_r. apply andb_comm.
Qed.

(** [trim] is the middle of the only decomposition of the string into
    white space, a text that neither starts nor ends in white space, and
    white space. *)
Lemma trim_unique (a m b : jsstring) :
  allSpace a = true -> allSpace b = true ->
  startsInSpace m = false -> endsInSpace m = false ->
  trim (a ++ m ++ b) = m.
Proof.
  intros Ha Hb Hs He. unfold trim. rewrite (trimStart_spaces _ _ Ha).
  destruct m as [|c m].
  - simpl. rewrite (trimStart_allSpace _ Hb). reflexivity.
  - rewrite trimStart_id by exact Hs. unfold trimEnd.
    rewrite rev_app_distr, trimStart_spaces by now rewrite allSpace_rev.
    rewrite trimStart_id; [apply rev_involutive|].
    now rewrite startsInSpace_rev.
Qed.

Lemma trim_decompose (s : jsstring) :
  exists a b, s = a ++ trim s ++ b /\ allSpace a = true /\ allSpace b = true.
Proof.
  destruct (trimStart_decompose s) as (a & Ea & Ha).
  destruct (trimStart_decompose (rev (trimStart s))) as (b & Eb & Hb).
  exists a, (rev b). split; [|split; [exact Ha|now rewrite allSpace_rev]].
  unfold trim, trimEnd. rewrite <- rev_app_distr, <- Eb, rev_involutive. exact Ea.
Qed.

Lemma trim_app_spaces (s ws : jsstring) : allSpace ws = true -> trim (s ++ ws) = trim s.
Proof.
  intros H. destruct (trim_decompose s) as (a & b & E & Ha & Hb).
  rewrite E at 1. rewrite <- !app_assoc.
  apply trim_unique; [exact Ha| |apply trim_starts|apply trim_ends].
  unfold allSpace in *. rewrite forallb_app. now rewrite Hb, H.
Qed.

Lemma split_pieces_allSpace (t : jsstring) :
  allSpace t = true -> forallb allSpace (split 10%N t) = true.
Proof.
  induction t as [|c t IH]; [reflexivity|]. simpl. intros H.
  apply andb_true_iff in H as [Hc H]. specialize (IH H).
  destruct (c =? 10)%N; [exact IH|].
  destruct (split 10%N t) as [|p ps]; simpl in *; [now rewrite Hc|].
  now rewrite Hc.
Qed.

Lemma wellFormed_allSpace (l : jsstring) : allSpace l = true -> wellFormed l = false.
Proof.
  intros H. unfold wellFormed, tokens.
  replace (trim l) with (@nil char); [reflexivity|].
  symmetry. exact (trim_unique [] [] l eq_refl H eq_refl eq_refl).
Qed.

Lemma split_space_from_noSpace (s : jsstring) :
  forall b, forallb (forallb (fun c => negb (isSpace c))) (split_space_from b s) = true.
Proof.
  induction s as [|c s IH]; intros b; [reflexivity|]. simpl.
  destruct (isSpace c) eqn:Hc.
  - destruct b; [apply IH|simpl; apply IH].
  - specialize (IH false). destruct (split_space_from false s) as [|p ps]; simpl in *.
    + now rewrite Hc.
    + now rewrite Hc.
Qed.

Lemma tokens_are_tokens (line : jsstring) : forallb isToken (tokens line) = true.
Proof.
  unfold tokens, split_space.
  pose proof (split_space_from_noSpace (trim line) false) as H.
  induction (split_space_from false (trim line)) as [|p ps IH]; [reflexivity|].
  simpl in H. apply andb_true_iff in H as [Hp H]. simpl.
  destruct (truthy p) eqn:T; [|now apply IH]. simpl.
  rewrite (IH H), andb_true_r. unfold isToken. now rewrite T, Hp.
Qed.

Lemma token_spacesOnly (t : jsstring) : isToken t = true -> spacesOnly t = true.
Proof.
  unfold isToken, spacesOnly. intros H. apply andb_true_iff in H as [_ H].
  induction t as [|c t IH]; [reflexivity|]. simpl in *.
  apply andb_true_iff in H as [Hc H]. now rewrite Hc, IH.
Qed.

Lemma join_tokens_spacesOnly (ns : list jsstring) :
  forallb isToken ns = true -> spacesOnly (JsString.join (lit " ") ns) = true.
Proof.
  induction ns as [|n ns IH]; [reflexivity|]. intros H. simpl in H.
  apply andb_true_iff in H as [Hn H]. destruct ns as [|n' ns].
  - now apply token_spacesOnly.
  - change (JsString.join (lit " ") (n :: n' :: ns))
      with (n ++ lit " " ++ JsString.join (lit " ") (n' :: ns)).
    pose proof (token_spacesOnly _ Hn) as Sn. pose proof (IH H) as Sr.
    unfold spacesOnly in *. rewrite !forallb_app.
    rewrite Sn, Sr. reflexivity.
Qed.

Lemma join_tokens_start (ns : list jsstring) :
  ns <> [] -> forallb isToken ns = true ->
  startsInSpace (JsString.join (lit " ") ns) = false.
Proof.
  destruct ns as [|n ns]; [congruence|]. intros _ H. simpl in H.
  apply andb_true_iff in H as [Hn _].
  destruct ns; [rewrite <- (app_nil_r n)|]; now apply token_starts.
Qed.

Lemma noSpaceRun_token_app (t s : jsstring) :
  forallb (fun c => negb (isSpace c)) t = true -> noSpaceRun s = true ->
  noSpaceRun (t ++ s) = true.
Proof.
  intros T S. induction t as [|c t IH]; [exact S|].
  simpl in T. apply andb_true_iff in T as [Hc T]. apply negb_true_iff in Hc.
  specialize (IH T). change ((c :: t) ++ s) with (c :: (t ++ s)).
  cbn [noSpaceRun]. destruct (t ++ s); [reflexivity|]. now rewrite Hc, IH.
Qed.

Lemma join_tokens_noSpaceRun (ns : list jsstring) :
  forallb isToken ns = true -> noSpaceRun (JsString.join (lit " ") ns) = true.
Proof.
  induction ns as [|n ns IH]; [reflexivity|]. intros H. simpl in H.
  apply andb_true_iff in H as [Hn H]. pose proof Hn as Tn.
  unfold isToken in Tn. apply andb_true_iff in Tn as [_ Tn].
  destruct ns as [|n' ns].
  - cbn [JsString.join]. rewrite <- (app_nil_r n). now apply noSpaceRun_token_app.
  - change (JsString.join (lit " ") (n :: n' :: ns))
      with (n ++ lit " " ++ JsString.join (lit " ") (n' :: ns)).
    apply noSpaceRun_token_app; [exact Tn|].
    pose proof (join_tokens_start (n' :: ns) ltac:(discriminate) H) as St.
    specialize (IH H). change (lit " " ++ ?x) with (32%N :: x).
    cbn [noSpaceRun]. destruct (JsString.join (lit " ") (n' :: ns)) as [|d r];
      [reflexivity|].
    simpl in St. rewrite St. now rewrite andb_false_r, IH.
Qed.

End ManifestExtra.

(** X1: the parser works line by line: the entries of two texts joined
    by a line feed are the entries of the first text followed by those
    of the second. *)
Theorem parseChecksums_app (a b : jsstring) :
  parseChecksums (a ++ newline ++ b) = parseChecksums a ++ parseChecksums b.
Proof.
  rewrite !parseChecksums_split. change (a ++ newline ++ b) with (a ++ 10%N :: b).
  now rewrite split_app_newline, filter_app, map_app.
Qed.

(** X2: a text of white space only (the empty text, blank lines, a
    final line feed) has no entry. *)
Theorem parseChecksums_blank (content : jsstring) :
  allSpace content = true -> parseChecksums content = [].
Proof.
  intros H. rewrite parseChecksums_split.
  pose proof (split_pieces_allSpace content H) as P.
  induction (split 10%N content) as [|l ls IH]; [reflexivity|].
  simpl in P. apply andb_true_iff in P as [Hl P]. simpl.
  rewrite (wellFormed_allSpace l Hl). now apply IH.
Qed.

Lemma parseChecksums_blank_witness :
  parseChecksums (newline ++ lit "   " ++ newline) = [].
Proof. apply parseChecksums_blank. vm_compute. reflexivity. Defined.

(** X3: a manifest with the line ends of Windows gives the entries of
    the manifest without the carriage returns: white space at the end
    of a line, a carriage return included, is no part of a file name. *)
Theorem parseChecksums_carriage_return (ls : list jsstring) :
  forallb noLineFeed ls = true ->
  parseChecksums (JsString.join newline (map withCarriageReturn ls))
  = parseChecksums (JsString.join newline ls).
Proof.
  intros H. rewrite !parseChecksums_join.
  - clear H. induction ls as [|l ls IH]; [reflexivity|].
    assert (T : tokens (withCarriageReturn l) = tokens l).
    { unfold tokens, withCarriageReturn. now rewrite trim_app_spaces. }
    assert (W : wellFormed (withCarriageReturn l) = wellFormed l)
      by (unfold wellFormed; now rewrite T).
    assert (E : lineEntry (withCarriageReturn l) = lineEntry l)
      by (unfold lineEntry; now rewrite T).
    cbn [map filter]. rewrite W.
    destruct (wellFormed l); cbn [map]; [|exact IH]. now rewrite E, IH.
  - now apply noLineFeed_Forall.
  - apply Forall_forall. intros l I. apply in_map_iff in I as (l0 & <- & I).
    intros J. unfold withCarriageReturn in J.
    apply in_app_or in J as [J|[J|[]]]; [|discriminate].
    rewrite forallb_forall in H. exact (noLineFeed_In _ (H _ I) J).
Qed.

Lemma parseChecksums_carriage_return_witness :
  parseChecksums (JsString.join newline
                    (map withCarriageReturn
                       [lit "d41d8cd9  hulo_Linux_x86_64.tar.gz"; lit "0cc175b9  hulo_Darwin_arm64.tar.gz"]))
  = parseChecksums (JsString.join newline
                      [lit "d41d8cd9  hulo_Linux_x86_64.tar.gz"; lit "0cc175b9  hulo_Darwin_arm64.tar.gz"]).
Proof. apply parseChecksums_carriage_return. vm_compute. reflexivity. Defined.

(** X4: writing and parsing a manifest is a round trip: from the lines
    [hash  name], where the hash is a token and the name consists of
    tokens separated by single spaces, the parser gives back the hashes
    and the names, in order. *)
Theorem parseChecksums_manifestLines (rs : list (jsstring * list jsstring)) :
  forallb wellTokenized rs = true ->
  parseChecksums (JsString.join newline (map manifestLine rs)) = map manifestEntry rs.
Proof.
  intros H.
  assert (L : forall r, In r rs ->
                        tokens (manifestLine r) = fst r :: snd r /\ snd r <> []).
  { intros [h ns] I. rewrite forallb_forall in H. specialize (H _ I).
    unfold wellTokenized in H. cbn [fst snd] in *.
    apply andb_true_iff in H as [H Ht]. apply andb_true_iff in H as [Hh Hn].
    assert (N : ns <> []) by (destruct ns; [discriminate|discriminate]).
    split; [|exact N].
    exact (proj1 (tokens_hash_words h (lit "  ") ns Hh eq_refl ltac:(discriminate) N Ht)). }
  rewrite parseChecksums_join.
  - clear H. induction rs as [|r rs IH]; [reflexivity|].
    destruct (L r (or_introl eq_refl)) as [T N].
    assert (W : wellFormed (manifestLine r) = true).
    { unfold wellFormed. rewrite T. destruct (snd r); [congruence|reflexivity]. }
    assert (E : lineEntry (manifestLine r) = manifestEntry r).
    { unfold lineEntry, manifestEntry. rewrite T. reflexivity. }
    cbn [map filter]. rewrite W. cbn [map]. rewrite E. f_equal.
    apply IH. intros r' I. apply L. now right.
  - apply Forall_forall. intros l I. apply in_map_iff in I as (r & <- & I).
    destruct (L r I) as [T N]. intros J.
    pose proof (tokens_are_tokens (manifestLine r)) as K. rewrite T in K.
    rewrite forallb_forall in H. specialize (H _ I). unfold wellTokenized in H.
    apply andb_true_iff in H as [H Ht]. apply andb_true_iff in H as [Hh _].
    unfold manifestLine in J. apply in_app_or in J as [J|J].
    + apply token_spacesOnly in Hh. unfold spacesOnly in Hh.
      rewrite forallb_forall in Hh. specialize (Hh _ J). discriminate.
    + apply in_app_or in J as [J|J]; [vm_compute in J; intuition discriminate|].
      pose proof (join_tokens_spacesOnly _ Ht) as S. unfold spacesOnly in S.
      rewrite forallb_forall in S. specialize (S _ J). discriminate.
Qed.

Lemma parseChecksums_manifestLines_witness :
  parseChecksums (JsString.join newline
                    (map manifestLine
                       [ (lit "d41d8cd9", [lit "hulo_Linux_x86_64.tar.gz"]);
                         (lit "0cc175b9", [lit "release"; lit "notes.txt"]) ]))
  = map manifestEntry
      [ (lit "d41d8cd9", [lit "hulo_Linux_x86_64.tar.gz"]);
        (lit "0cc175b9", [lit "release"; lit "notes.txt"]) ].
Proof. apply parseChecksums_manifestLines. vm_compute. reflexivity. Defined.

(** X5: in every entry of the parser the hash is a single token, without
    white space, and the file name neither starts nor ends in white
    space, has no white space but the unit U+0020 (no tab, no line
    break) and has no two units of white space in a row: its spaces are
    single spaces. *)
Theorem parseChecksums_entries_tokens (content : jsstring) (e : ChecksumEntry) :
  In e (parseChecksums content) ->
  isToken (hash e) = true
  /\ startsInSpace (filename e) = false
  /\ endsInSpace (filename e) = false
  /\ spacesOnly (filename e) = true
  /\ noSpaceRun (filename e) = true.
Proof.
  intros H. rewrite parseChecksums_split in H.
  apply in_map_iff in H as (line & <- & H). apply filter_In in H as [_ W].
  unfold wellFormed in W. pose proof (tokens_are_tokens line) as T.
  unfold lineEntry. cbn [hash filename].
  destruct (tokens line) as [|h [|n ns]]; try discriminate.
  simpl in T. apply andb_true_iff in T as [Hh T]. cbn [nth skipn].
  split; [exact Hh|]. split; [now apply join_tokens_start|].
  split; [|split; [now apply join_tokens_spacesOnly|now apply join_tokens_noSpaceRun]].
  rewrite <- (app_nil_l (JsString.join _ _)). now apply join_tokens_end.
Qed.

Lemma parseChecksums_entries_tokens_witness :
  isToken (lit "d41d8cd9") = true
  /\ startsInSpace (lit "my file.tar.gz") = false
  /\ endsInSpace (lit "my file.tar.gz") = false
  /\ spacesOnly (lit "my file.tar.gz") = true
  /\ noSpaceRun (lit "my file.tar.gz") = true.
Proof.
  apply (parseChecksums_entries_tokens
           ([9%N] ++ lit "d41d8cd9 " ++ [9%N] ++ lit " my   file.tar.gz  ")
           {| hash := lit "d41d8cd9"; filename := lit "my file.tar.gz" |}).
  vm_compute. left. reflexivity.
Defined.

(** ** The installer of the platform package and the platform table *)

Section InstallExtra.

Import Platform.

Lemma getPlatform_hostOf (o : OS) (c : CPU) (run : jsstring -> option jsstring) :
  exists k, Install.getPlatform (hostOf o c run) = Some k.
Proof. destruct o, c; eexists; vm_compute; reflexivity. Qed.

Lemma getPlatform_entry (k : jsstring) (d : PlatformData) (run : jsstring -> option jsstring) :
  In (k, d) platformInfo -> Install.getPlatform (hostOf (os d) (arch d) run) = Some k.
Proof.
  intros H. unfold platformInfo in H.
  repeat (destruct H as [H|H]; [injection H as <- <-; vm_compute; reflexivity|]).
  destruct H.
Qed.

Lemma getPlatform_foreign (o : OS) (c : CPU) (run : jsstring -> option jsstring)
  (k : jsstring) (d : PlatformData) :
  Install.getPlatform (hostOf o c run) = Some k -> assoc k platformInfo = Some d ->
  os d = o /\ arch d = c.
Proof.
  intros G A.
  destruct o, c; vm_compute in G; injection G as <-; vm_compute in A;
    first [discriminate A | injection A as <-; split; reflexivity].
Qed.

Lemma bind_execM {B} (h : Install.Host) (command : jsstring)
  (k : option jsstring -> M B) (w : World) :
  bind (Install.execM h command) k w
  = k (fst (Install.exec h command (fs w)))
      {| fs := snd (Install.exec h command (fs w));
         console := console w; trace := trace w |}.
Proof. reflexivity. Qed.

End InstallExtra.

(** X6: on a host whose platform and architecture are those of an entry
    of the platform table of the post-processor, [getPlatform] gives the
    key of that entry, and the package descriptor that the
    post-processor generates for the key declares, as [os] and [cpu],
    the platform and the architecture of the host. *)
Theorem install_requests_table_package (k : jsstring) (d : Platform.PlatformData)
  (run : jsstring -> option jsstring) (version : jsstring) :
  In (k, d) Platform.platformInfo ->
  Install.getPlatform (hostOf (Platform.os d) (Platform.arch d) run) = Some k
  /\ hasLine (packageJsonOf version k)
             (arrayField "os" (Install.platform (hostOf (Platform.os d) (Platform.arch d) run)))
  /\ hasLine (packageJsonOf version k)
             (arrayField "cpu" (Install.arch (hostOf (Platform.os d) (Platform.arch d) run))).
Proof.
  intros H. split; [now apply getPlatform_entry|].
  apply packageJson_os_cpu. now apply platformInfo_getProperty.
Qed.

Lemma install_requests_table_package_witness :
  Install.getPlatform (hostOf Platform.win32 Platform.x64 (fun _ => None))
  = Some (lit "windows-x86-64").
Proof.
  refine (proj1 (install_requests_table_package (lit "windows-x86-64")
                   {| Platform.os := Platform.win32; Platform.arch := Platform.x64;
                      Platform.description := lit "Hulo compiler for Windows (64-bit)";
                      Platform.keywords :=
                        map lit ["hulo"; "compiler"; "windows"; "x86_64"; "64bit"]%string |}
                   (fun _ => None) (lit "0.1.0") _)).
  vm_compute. tauto.
Defined.

(** X7: on every host whose platform and architecture are values of the
    types [OS] and [CPU], [getPlatform] gives a name; when that name is
    a key of the platform table, the entry of the key has the platform
    and the architecture of the host: the installer never asks for a
    package that was built for another platform. *)
Theorem install_never_requests_foreign_package (o : Platform.OS) (c : Platform.CPU)
  (run : jsstring -> option jsstring) :
  (exists k, Install.getPlatform (hostOf o c run) = Some k)
  /\ (forall k d,
        Install.getPlatform (hostOf o c run) = Some k ->
        Platform.assoc k Platform.platformInfo = Some d ->
        Platform.os d = o /\ Platform.arch d = c).
Proof.
  split; [apply getPlatform_hostOf|]. intros k d. apply getPlatform_foreign.
Qed.

(** X8: on a host of an entry of the platform table, [main] of the
    installer runs the command [npm install -g @hulo/<key>] on the file
    tree and leaves the tree that the command leaves; it exits with
    code 1 when the command fails and returns when it succeeds, and in
    both cases it first logs the name of the package. *)
Theorem install_runs_npm (k : jsstring) (d : Platform.PlatformData)
  (command : jsstring -> node -> option jsstring * node) (w : World) :
  In (k, d) Platform.platformInfo ->
  exists m,
    Install.main (hostRunning (Platform.os d) (Platform.arch d) command) = Some m
    /\ fs (snd (m w)) = snd (command (installCommandOf k) (fs w))
    /\ trace (snd (m w)) = trace w
    /\ match fst (command (installCommandOf k) (fs w)) with
       | Some message =>
           fst (m w) = Exit 1%N
           /\ console (snd (m w))
              = console w ++ [Log (lit "Installing @hulo/" ++ k ++ lit "...");
                              Log (lit "Error: Failed to install @hulo/" ++ k
                                   ++ lit ": " ++ message)]
       | None =>
           fst (m w) = Return tt
           /\ console (snd (m w))
              = console w ++ [Log (lit "Installing @hulo/" ++ k ++ lit "...");
                              Log (lit "Successfully installed @hulo/" ++ k)]
       end.
Proof.
  intros H. unfold Install.main.
  assert (G : Install.getPlatform (hostRunning (Platform.os d) (Platform.arch d) command)
              = Some k) by exact (getPlatform_entry k d (fun _ => None) H).
  rewrite G. cbv zeta. eexists. split; [reflexivity|].
  rewrite bind_log, bind_execM. cbn [fs console trace].
  change (Install.exec (hostRunning (Platform.os d) (Platform.arch d) command))
    with command.
  change (lit "npm install -g " ++ lit "@hulo/" ++ k) with (installCommandOf k).
  destruct (command (installCommandOf k) (fs w)) as [[message|] t]; cbn [fst snd].
  - rewrite bind_log. unfold exit. cbn [fst snd fs console trace].
    rewrite <- !app_assoc. repeat split.
  - unfold log, print. cbn [fst snd fs console trace].
    rewrite <- !app_assoc. repeat split.
Qed.

Lemma install_runs_npm_witness :
  exists m,
    Install.main (hostRunning Platform.linux Platform.arm64
                    (fun _ tree => (Some (lit "E404"), tree))) = Some m
    /\ fst (m (start (Dir []))) = Exit 1%N.
Proof.
  destruct (install_runs_npm (lit "linux-arm64")
              {| Platform.os := Platform.linux; Platform.arch := Platform.arm64;
                 Platform.description := lit "Hulo compiler for Linux (ARM64)";
                 Platform.keywords :=
                   map lit ["hulo"; "compiler"; "linux"; "arm64"; "aarch64"]%string |}
              (fun _ tree => (Some (lit "E404"), tree)) (start (Dir [])))
    as (m & E & _ & _ & O).
  - vm_compute. tauto.
  - exists m. split; [exact E|]. exact (proj1 O).
Defined.

(** ** The generated texts *)

Section ArtifactsExtra.

Import Platform Handlebars Postprepare.

Lemma escapeChar_htmlSafe (c : char) : isHtmlSpecial c = false -> escapeChar c = [c].
Proof.
  unfold isHtmlSpecial, escapeChar. intros H.
  repeat (apply orb_false_iff in H as [H ?]).
  repeat match goal with E : (_ =? _)%N = false |- _ => rewrite E; clear E end.
  reflexivity.
Qed.

Lemma escapeExpression_htmlSafe (s : jsstring) :
  htmlSafe s = true -> escapeExpression s = s.
Proof.
  unfold htmlSafe, escapeExpression. induction s as [|c s IH]; [reflexivity|].
  simpl. intros H. apply andb_true_iff in H as [Hc H].
  apply negb_true_iff in Hc. now rewrite (escapeChar_htmlSafe _ Hc), (IH H).
Qed.

Lemma escapeChar_noQuote (c : char) : noQuote (escapeChar c) = true.
Proof.
  unfold escapeChar.
  repeat match goal with
         | |- context [if (c =? ?k)%N then _ else _] =>
             destruct (c =? k)%N eqn:?; [reflexivity|]
         end.
  unfold noQuote. simpl. now rewrite Heqb2.
Qed.

Lemma escapeExpression_noQuote (s : jsstring) : noQuote (escapeExpression s) = true.
Proof.
  unfold escapeExpression. induction s as [|c s IH]; [reflexivity|].
  simpl. unfold noQuote. rewrite forallb_app. apply andb_true_intro. split.
  - apply escapeChar_noQuote.
  - exact IH.
Qed.

Lemma escapeChar_noLineFeed (c : char) :
  (c =? 10)%N = false -> noLineFeed (escapeChar c) = true.
Proof.
  intros H. unfold escapeChar.
  repeat match goal with
         | |- context [if (c =? ?k)%N then _ else _] =>
             destruct (c =? k)%N; [reflexivity|]
         end.
  unfold noLineFeed. simpl. now rewrite H.
Qed.

Lemma escapeExpression_noLineFeed (s : jsstring) :
  noLineFeed s = true -> noLineFeed (escapeExpression s) = true.
Proof.
  unfold escapeExpression. induction s as [|c s IH]; [reflexivity|].
  intros H. simpl in H. apply andb_true_iff in H as [Hc H]. apply negb_true_iff in Hc.
  simpl. unfold noLineFeed. rewrite forallb_app. apply andb_true_intro. split.
  - now apply escapeChar_noLineFeed.
  - exact (IH H).
Qed.

Lemma accepted_noLineFeed (k : jsstring) :
  accepted k = true -> noLineFeed (escapeExpression k) = true.
Proof.
  intros H. apply accepted_In in H. vm_compute in H.
  repeat (destruct H as [<-|H]; [reflexivity|]). destruct H.
Qed.

(** What a run of [main] writes to a file of an accepted platform. *)
Lemma main_writes_artifact (env : Env) (arg : option jsstring) (w : World)
  (key : jsstring) (p : path) (data text : jsstring) :
  trace w = [] -> accepted key = true ->
  In (p, text) (artifacts env (argOr arg (lit "0.1.0")) key) ->
  In (WriteFile p data) (trace (snd (Postprepare.main env arg w))) ->
  data = text.
Proof.
  intros T A J I. destruct (main_writes env arg w _ _ T I) as (k & Hk & Ik).
  exact (proj2 (artifacts_functional env env _ k key _ _ _ eq_refl Hk A Ik J)).
Qed.

Lemma binaryNameOf_entry (k : jsstring) (d : PlatformData) :
  In (k, d) platformInfo ->
  binaryNameOf k = if isWindows (os d) then lit "hulo.exe" else lit "hulo".
Proof.
  intros H. unfold platformInfo in H.
  repeat (destruct H as [H|H]; [injection H as <- <-; reflexivity|]). destruct H.
Qed.

Ltac find_line := simpl; repeat first [left; reflexivity | right].

Lemma packageJson_bin (version k : jsstring) (d : PlatformData) :
  In (k, d) platformInfo ->
  hasLine (packageJsonOf version k) (binField (binaryNameOf k)).
Proof.
  intros H. unfold packageJsonOf, packageJsonTemplate.
  apply (hasLine_rendered _ _
           [T "        "; S' "hulo"; T ": "; Q; T "./bin/"; V "binaryName"; Q]);
    [find_line| |]; unfold platformInfo in H;
    repeat (destruct H as [H|H]; [injection H as <- <-; vm_compute; reflexivity|]);
    destruct H.
Qed.

Lemma indexJs_exePath (k : jsstring) (d : PlatformData) :
  In (k, d) platformInfo -> hasLine (indexJsOf k) (exePathLine (binaryNameOf k)).
Proof.
  intros H. unfold platformInfo in H. unfold hasLine.
  repeat (destruct H as [H|H];
          [injection H as <- <-; vm_compute; do 6 right; left; reflexivity|]).
  destruct H.
Qed.

Lemma readme_lines (k : jsstring) (d : PlatformData) :
  In (k, d) platformInfo -> Forall (hasLine (readmeOf k)) (readmeLines k d).
Proof.
  intros H. unfold platformInfo in H. unfold hasLine, readmeLines.
  repeat (destruct H as [H|H];
          [injection H as <- <-;
           apply Forall_cons; [vm_compute; left; reflexivity|];
           apply Forall_cons; [vm_compute; do 2 right; left; reflexivity|];
           apply Forall_cons; [vm_compute; do 7 right; left; reflexivity|];
           apply Forall_cons; [vm_compute; do 13 right; left; reflexivity|];
           apply Forall_cons; [vm_compute; do 18 right; left; reflexivity|];
           apply Forall_cons; [vm_compute; do 19 right; left; reflexivity|];
           apply Forall_nil|]).
  destruct H.
Qed.

End ArtifactsExtra.

(** X9: the version reaches the package descriptor through
    [escapeExpression]: the descriptor that a run writes for a platform
    declares the escaped version, in which no double quote is left, so
    that a version cannot end the string it is written in; a version
    without the units that are replaced (ampersand, angle brackets,
    quotes, back quote and equals sign) is declared as it is. *)
Theorem descriptor_version_is_escaped (env : Env) (arg : option jsstring) (w : World)
  (key data : jsstring) :
  trace w = [] -> accepted key = true ->
  noLineFeed (argOr arg (lit "0.1.0")) = true ->
  In (WriteFile (join (platformDirOf env key) [lit "package.json"]) data)
     (trace (snd (Postprepare.main env arg w))) ->
  hasLine data (stringField "version"
                  (Handlebars.escapeExpression (argOr arg (lit "0.1.0"))))
  /\ noQuote (Handlebars.escapeExpression (argOr arg (lit "0.1.0"))) = true
  /\ (htmlSafe (argOr arg (lit "0.1.0")) = true ->
      hasLine data (stringField "version" (argOr arg (lit "0.1.0")))).
Proof.
  intros T A N I. apply main_writes_packageJson in I; [|exact T|exact A]. subst data.
  pose proof (packageJson_name_version (argOr arg (lit "0.1.0")) key
                (accepted_noLineFeed key A) (escapeExpression_noLineFeed _ N)) as [_ V].
  split; [exact V|]. split; [apply escapeExpression_noQuote|].
  intros S. now rewrite (escapeExpression_htmlSafe _ S) in V.
Qed.

Lemma descriptor_version_is_escaped_witness :
  exists data,
    hasLine data (stringField "version" (lit "1.0&quot;,&quot;x"))
    /\ noQuote (lit "1.0&quot;,&quot;x") = true.
Proof.
  eexists.
  refine ((fun H => conj (proj1 H) (proj1 (proj2 H)))
            (descriptor_version_is_escaped (hostWith releaseArchive)
               (Some (lit "1.0" ++ quote ++ lit "," ++ quote ++ lit "x"))
               (start linuxStaging) (lit "linux-x86-64") _ eq_refl eq_refl eq_refl _)).
  vm_compute. do 3 right. left. reflexivity.
Defined.

(** X10: for every entry of the platform table, the package descriptor
    and the launcher that a run writes name the same executable in
    [bin/], and it is [hulo.exe] exactly for the entries whose [os] is
    [win32], [hulo] for the others. *)
Theorem descriptor_and_launcher_name_the_binary (env : Env) (arg : option jsstring)
  (w : World) (k : jsstring) (d : Platform.PlatformData) :
  In (k, d) Platform.platformInfo -> trace w = [] ->
  binaryNameOf k = (if isWindows (Platform.os d) then lit "hulo.exe" else lit "hulo")
  /\ (forall data,
        In (WriteFile (join (platformDirOf env k) [lit "package.json"]) data)
           (trace (snd (Postprepare.main env arg w))) ->
        hasLine data (binField (binaryNameOf k)))
  /\ (forall data,
        In (WriteFile (join (platformDirOf env k) [lit "index.js"]) data)
           (trace (snd (Postprepare.main env arg w))) ->
        hasLine data (exePathLine (binaryNameOf k))).
Proof.
  intros H T. pose proof (getProperty_accepted _ _ (platformInfo_getProperty _ _ H)) as A.
  split; [now apply binaryNameOf_entry|]. split; intros data I.
  - apply main_writes_packageJson in I; [|exact T|exact A]. subst data.
    now apply (packageJson_bin _ k d).
  - rewrite (main_writes_artifact env arg w k _ data (indexJsOf k) T A) by
      (try exact I; right; left; reflexivity).
    now apply (indexJs_exePath k d).
Qed.

Lemma descriptor_and_launcher_name_the_binary_witness :
  binaryNameOf (lit "linux-x86-64") = lit "hulo"
  /\ exists data,
       In (WriteFile (join (platformDirOf (hostWith releaseArchive) (lit "linux-x86-64"))
                        [lit "index.js"]) data)
          (trace (snd (Postprepare.main (hostWith releaseArchive) None (start linuxStaging))))
       /\ hasLine data (exePathLine (lit "hulo")).
Proof.
  destruct (descriptor_and_launcher_name_the_binary (hostWith releaseArchive) None
              (start linuxStaging) (lit "linux-x86-64")
              {| Platform.os := Platform.linux; Platform.arch := Platform.x64;
                 Platform.description := lit "Hulo compiler for Linux (64-bit)";
                 Platform.keywords :=
                   map lit ["hulo"; "compiler"; "linux"; "x86_64"; "64bit"]%string |})
    as (B & _ & L); [vm_compute; tauto|reflexivity|].
  split; [exact B|]. eexists. split.
  - vm_compute. do 4 right. left. reflexivity.
  - apply L. vm_compute. do 4 right. left. reflexivity.
Defined.

(** X11: for every entry of the platform table, the readme that a run
    writes names the package [@hulo/<key>] in its title and in its
    install and usage commands, and shows the description, the [os] and
    the [arch] of the entry. *)
Theorem readme_shows_table_entry (env : Env) (arg : option jsstring) (w : World)
  (k data : jsstring) (d : Platform.PlatformData) :
  In (k, d) Platform.platformInfo -> trace w = [] ->
  In (WriteFile (join (platformDirOf env k) [lit "README.md"]) data)
     (trace (snd (Postprepare.main env arg w))) ->
  Forall (hasLine data) (readmeLines k d).
Proof.
  intros H T I.
  pose proof (getProperty_accepted _ _ (platformInfo_getProperty _ _ H)) as A.
  rewrite (main_writes_artifact env arg w k _ data (readmeOf k) T A) by
    (try exact I; do 2 right; left; reflexivity).
  now apply readme_lines.
Qed.

Lemma readme_shows_table_entry_witness :
  exists data, Forall (hasLine data) (readmeLines (lit "linux-x86-64") linuxData).
Proof.
  eexists.
  apply (readme_shows_table_entry (hostWith releaseArchive) None (start linuxStaging)
           (lit "linux-x86-64") _ linuxData).
  - vm_compute. tauto.
  - reflexivity.
  - vm_compute. do 5 right. left. reflexivity.
Defined.

(** ** The pattern of the post-processor *)

Section PatternExtra.

Import Postprepare.

Lemma matchExtension_dot (s : jsstring) :
  matchExtension s = true -> exists r, s = 46%N :: r.
Proof.
  unfold matchExtension. intros H. apply orb_true_iff in H as [H|H];
    apply startsWith_prefix in H as [r ->]; eexists; reflexivity.
Qed.

Lemma matchKey_noDot (key rest : jsstring) :
  key <> [] -> noLineTerminator key = true -> noDot key = true ->
  matchExtension rest = true -> matchKey (key ++ rest) = Some key.
Proof.
  induction key as [|c key IH]; [congruence|]. intros _ N D X.
  simpl in N. apply andb_true_iff in N as [Nc N]. apply negb_true_iff in Nc.
  simpl in D. apply andb_true_iff in D as [_ D].
  simpl. rewrite Nc. destruct key as [|d key].
  - simpl. now rewrite X.
  - assert (E : matchExtension ((d :: key) ++ rest) = false).
    { destruct (matchExtension ((d :: key) ++ rest)) eqn:E; [|reflexivity].
      apply matchExtension_dot in E as [r E]. injection E as -> _.
      simpl in D. discriminate. }
    rewrite E, IH by (assumption || discriminate). reflexivity.
Qed.

End PatternExtra.

(** X12: the pattern of the post-processor rejects a file name exactly
    when the name holds no [hulo_] that is followed by a key (one or more
    units other than line terminators) and [.tar.gz] or [.zip]. *)
Theorem archive_pattern_rejects (s : jsstring) :
  Postprepare.matchArchive s = None <-> ~ holdsArchiveName s.
Proof.
  split.
  - intros H (before & key & after & -> & K & N & X).
    destruct (matchKey_complete key after K N X) as [k0 M].
    destruct (matchArchive_complete before _ _ M) as [k E].
    rewrite E in H. discriminate.
  - intros H. destruct (Postprepare.matchArchive s) as [k|] eqn:E; [|reflexivity].
    exfalso. apply H. apply matchArchive_sound in E as (before & r & -> & M).
    apply matchKey_sound in M as (K & N & (after & -> & X) & _).
    now exists before, k, after.
Qed.

(** X13: an archive that is named as the releases are, [hulo_<key>.tar.gz]
    or [hulo_<key>.zip] with a key without dots, gives back its key,
    whatever follows the extension. *)
Theorem archive_name_gives_key (key ext after : jsstring) :
  key <> [] -> noLineTerminator key = true -> noDot key = true ->
  ext = lit ".tar.gz" \/ ext = lit ".zip" ->
  Postprepare.matchArchive (lit "hulo_" ++ key ++ ext ++ after) = Some key.
Proof.
  intros K N D E. apply matchArchive_here. apply matchKey_noDot; try assumption.
  unfold Postprepare.matchExtension.
  destruct E as [-> | ->]; rewrite startsWith_app; [reflexivity|apply orb_true_r].
Qed.

Lemma archive_name_gives_key_witness :
  Postprepare.matchArchive (lit "hulo_" ++ lit "Darwin_arm64" ++ lit ".tar.gz" ++ lit ".sha256")
  = Some (lit "Darwin_arm64").
Proof.
  apply archive_name_gives_key;
    [discriminate|reflexivity|reflexivity|left; reflexivity].
Defined.

(** ** Runs of the post-processor that change nothing *)

Section CalmFacts.

Import Platform Handlebars Postprepare.

Variable tree : node.

Lemma calmOn_ret {A} (a : A) : calmOn tree (ret a).
Proof. intros w H. repeat split; [now exists a|exact H]. Qed.

Lemma calmOn_print (l : line) : calmOn tree (print l).
Proof. intros w H. repeat split; [now exists tt|exact H]. Qed.

Lemma calmOn_log (text : jsstring) : calmOn tree (log text).
Proof. apply calmOn_print. Qed.

Lemma calmOn_bind {A B} (m : M A) (k : A -> M B) :
  calmOn tree m -> (forall a, calmOn tree (k a)) -> calmOn tree (bind m k).
Proof.
  intros Hm Hk w H. destruct (Hm w H) as ([a Ea] & F & T). unfold bind.
  destruct (m w) as [[a'|e|c|] w1]; cbn [fst snd] in *; try discriminate.
  destruct (Hk a' w1 F) as (R & F' & T'). now rewrite T' , T.
Qed.

Lemma calmOn_reading {A} (syscall : string) (p : path) (f : node -> option A) (a : A) :
  f tree = Some a -> calmOn tree (reading syscall p f).
Proof.
  intros E w H. unfold reading. rewrite H, E. repeat split; [now exists a|exact H].
Qed.

Lemma calmOn_tryCatch {A} (m : M A) (h : error -> M A) :
  calmOn tree m -> calmOn tree (tryCatch m h).
Proof.
  intros Hm w H. destruct (Hm w H) as ([a Ea] & F & T). unfold tryCatch.
  destruct (m w) as [[a'|e|c|] w1]; cbn [fst snd] in *; try discriminate.
  repeat split; [now exists a'|exact F|exact T].
Qed.

Lemma calmOn_forOf {A} (l : list A) (body : A -> M unit) :
  (forall x, In x l -> calmOn tree (body x)) -> calmOn tree (forOf l body).
Proof.
  induction l as [|x l IH]; intros H; [apply calmOn_ret|].
  simpl. apply calmOn_bind; [apply H; now left|].
  intros _. apply IH. intros y I. apply H. now right.
Qed.

(** An iteration of the loop on an entry that is passed over. *)
Lemma calmOn_processEntry (env : Env) (version : jsstring) (entry : ChecksumEntry) :
  passedOver env tree entry = true ->
  calmOn tree (processEntry env version (tempDirOf env) entry).
Proof.
  unfold passedOver, processEntry, accepted, platformNameOf.
  destruct (matchArchive (filename entry)) as [platformKey|]; [|intros _; apply calmOn_log].
  set (platformName := replaceUnderscores (toLowerCase platformKey)).
  destruct (propertyTruthy (getProperty platformName)); cbn [negb orb]; cbv iota;
    [|intros _; apply calmOn_log].
  cbv zeta. intros R. apply negb_true_iff in R.
  apply calmOn_bind; [apply calmOn_log|intros _].
  apply calmOn_bind; [apply calmOn_log|intros _].
  intros w H.
  match goal with
  | |- context [bind (tryCatch ?m ?h) ?k w] =>
      assert (E : tryCatch m h w
                  = (Return false,
                     {| fs := fs w;
                        console := console w
                                   ++ [Log (lit "File not found: " ++ filename entry)];
                        trace := trace w |}));
      [|rewrite (bind_returns (tryCatch m h) k w _ false E)]
  end.
  - unfold tryCatch, bind, readFileM, reading, log, print, ret. rewrite <- H in R.
    destruct (readFile (join (tempDirOf env) [filename entry]) (fs w));
      [discriminate R|reflexivity].
  - cbn [negb]. unfold ret. cbn [fst snd fs trace]. repeat split; [now exists tt|exact H].
Qed.

Lemma manifest_in_directory (p : list jsstring) (name : jsstring) :
  forall n c, lookup (p ++ [name]) n = Some c -> exists es, lookup p n = Some (Dir es).
Proof.
  induction p as [|s p IH]; intros n c H.
  - destruct n as [x|es]; [discriminate|]. now exists es.
  - simpl in *. destruct n as [x|es]; [discriminate|].
    destruct (getEntry s es) as [n'|]; [|discriminate]. exact (IH n' c H).
Qed.

Lemma staged_manifest_readdir (env : Env) (text : jsstring) :
  readFile (manifestPathOf env) tree = Some text ->
  exists l, readdir (tempDirOf env) tree = Some l.
Proof.
  unfold readFile. destruct (trailing _); [discriminate|].
  rewrite manifestPathOf_segments.
  destruct (lookup (cwd env ++ [lit "temp"; lit "checksums.txt"]) tree) as [n|] eqn:L;
    [|discriminate].
  intros _. change [lit "temp"; lit "checksums.txt"] with ([lit "temp"] ++ [lit "checksums.txt"]) in L.
  rewrite app_assoc in L. apply manifest_in_directory in L as [es L].
  unfold readdir. rewrite tempDirOf_child. cbn [child segments workingDirectory].
  rewrite L. now eexists.
Qed.

Lemma calmOn_mainWith (env : Env) (arg : option jsstring) (text : jsstring) :
  readFile (manifestPathOf env) tree = Some text ->
  forallb (passedOver env tree) (parseChecksums text) = true ->
  calmOn tree (mainWith env arg text).
Proof.
  intros R P. destruct (staged_manifest_readdir env text R) as [l D].
  unfold mainWith. apply calmOn_bind; [apply calmOn_log|intros _].
  apply calmOn_tryCatch. apply calmOn_bind.
  - apply calmOn_tryCatch. apply calmOn_bind; [|intros _; apply calmOn_ret].
    now apply (calmOn_reading _ _ _ l).
  - intros _. unfold installFrom.
    apply calmOn_bind; [apply calmOn_log|intros _].
    apply calmOn_bind; [now apply (calmOn_reading _ _ _ l)|intros tempFiles].
    apply calmOn_bind; [apply calmOn_log|intros _].
    apply calmOn_bind; [|intros _; apply calmOn_bind; [apply calmOn_log|intros _; apply calmOn_log]].
    apply calmOn_forOf. intros e I. apply calmOn_processEntry.
    rewrite forallb_forall in P. now apply P.
Qed.

End CalmFacts.

(** X14: without a manifest in the staging directory (in particular
    without a staging directory) the post-processor ends with code 1;
    it has changed nothing and has run no tool. *)
Theorem main_without_manifest (env : Env) (arg : option jsstring) (w : World) :
  readFile (manifestPathOf env) (fs w) = None ->
  fst (Postprepare.main env arg w) = Exit 1%N
  /\ fs (snd (Postprepare.main env arg w)) = fs w
  /\ trace (snd (Postprepare.main env arg w)) = trace w.
Proof.
  intros R.
  assert (E : exists w', Postprepare.main env arg w = (Exit 1%N, w')
                         /\ fs w' = fs w /\ trace w' = trace w).
  { unfold Postprepare.main. cbv zeta. rewrite bind_log.
    change (join {| segments := cwd env; trailing := false |} [lit "temp"])
      with (tempDirOf env).
    change (join (tempDirOf env) [lit "checksums.txt"]) with (manifestPathOf env).
    unfold tryCatch at 1. unfold bind at 1. unfold tryCatch at 1. unfold bind at 1.
    unfold readdirM at 1. unfold reading at 1. cbn [fs].
    destruct (readdir (tempDirOf env) (fs w)) as [l|].
    - unfold ret at 1. cbv beta iota. unfold bind at 1. unfold readFileM, reading.
      cbn [fs]. rewrite R. cbv beta iota. unfold bind, print, exit.
      eexists. split; [reflexivity|]. split; reflexivity.
    - cbv beta iota. unfold bind, log, print, exit.
      eexists. split; [reflexivity|]. split; reflexivity. }
  destruct E as (w' & -> & F & T). repeat split; assumption.
Qed.

Lemma main_without_manifest_witness :
  fst (Postprepare.main (hostWith releaseArchive) None (start (Dir []))) = Exit 1%N.
Proof.
  apply (main_without_manifest (hostWith releaseArchive) None (start (Dir []))).
  reflexivity.
Defined.

(** X15: when every entry of the manifest is passed over (its name does
    not match the pattern, its key is not known, or its file is not in
    the staging directory), the post-processor returns, with exit code
    0; it has changed nothing and has run no tool. *)
Theorem main_passes_over (env : Env) (arg : option jsstring) (w : World)
  (text : jsstring) :
  readFile (manifestPathOf env) (fs w) = Some text ->
  forallb (passedOver env (fs w)) (parseChecksums text) = true ->
  fst (Postprepare.main env arg w) = Return tt
  /\ fs (snd (Postprepare.main env arg w)) = fs w
  /\ trace (snd (Postprepare.main env arg w)) = trace w.
Proof.
  intros R P. rewrite (main_with_manifest env arg text w R).
  destruct (calmOn_mainWith (fs w) env arg text R P w eq_refl) as ([[] E] & F & T).
  repeat split; assumption.
Qed.

Lemma main_passes_over_witness :
  fst (Postprepare.main (hostWith releaseArchive) None
         (start (staged (lit "aa  notes.txt" ++ newline ++ lit "bb  hulo_Plan9_x86.zip"
                         ++ newline ++ lit "cc  hulo_Linux_x86_64.tar.gz") [])))
  = Return tt.
Proof.
  refine (proj1 (main_passes_over (hostWith releaseArchive) None _
                   (lit "aa  notes.txt" ++ newline ++ lit "bb  hulo_Plan9_x86.zip"
                    ++ newline ++ lit "cc  hulo_Linux_x86_64.tar.gz") _ _)).
  - vm_compute. reflexivity.
  - vm_compute. reflexivity.
Defined.

(** ** Changes of the tree, away from a path *)

Section FrameFacts.

Lemma diverge_app (p q r : list jsstring) :
  diverge p q = true -> diverge (p ++ r) q = true.
Proof.
  revert q; induction p as [|a p IH]; intros [|b q]; simpl; try discriminate.
  destruct (str_eqb a b); [apply IH|reflexivity].
Qed.

Lemma diverge_cons (s b : jsstring) (p q : list jsstring) :
  diverge (s :: p) (b :: q) = true -> (s = b /\ diverge p q = true) \/ s <> b.
Proof.
  simpl. destruct (str_eqb s b) eqn:E.
  - apply str_eqb_eq in E. now left.
  - apply str_eqb_neq in E. now right.
Qed.

Lemma lookup_cons (s : jsstring) (p : list jsstring) (es : list (jsstring * node)) :
  lookup (s :: p) (Dir es)
  = match getEntry s es with Some c => lookup p c | None => None end.
Proof. reflexivity. Qed.

Lemma frame_alter (f : option node -> option (option node)) (p : list jsstring) :
  forall q n n', diverge p q = true -> alter f p n = Some n' -> lookup q n' = lookup q n.
Proof.
  induction p as [|s p IH]; intros q n n' D H; [discriminate|].
  destruct q as [|b q]; [discriminate|].
  destruct n as [|es]; [discriminate|]. simpl in H. destruct p as [|t p].
  - destruct (f (getEntry s es)) as [r|]; [|discriminate]. injection H as <-.
    apply diverge_cons in D as [[_ D]|D]; [discriminate|].
    rewrite !lookup_cons. now rewrite getEntry_putEntry_other.
  - destruct (getEntry s es) as [c|] eqn:G; [|discriminate].
    destruct (alter f (t :: p) c) as [c'|] eqn:A; [|discriminate].
    injection H as <-. rewrite !lookup_cons.
    apply diverge_cons in D as [[<- D]|D].
    + rewrite getEntry_setEntry, G. exact (IH q c c' D A).
    + now rewrite getEntry_setEntry_other.
Qed.

Lemma frame_mkdirRecursive (p : list jsstring) :
  forall q n n', diverge p q = true -> mkdirRecursive p n = Some n' ->
                 lookup q n' = lookup q n.
Proof.
  induction p as [|s p IH]; intros q n n' D H; [discriminate|].
  destruct q as [|b q]; [discriminate|].
  destruct n as [|es]; [discriminate|]. simpl in H.
  destruct (mkdirRecursive p match getEntry s es with Some c => c | None => Dir [] end)
    as [c'|] eqn:M; [|discriminate].
  injection H as <-. rewrite !lookup_cons.
  apply diverge_cons in D as [[<- D]|D].
  - rewrite getEntry_setEntry. rewrite (IH q _ c' D M).
    destruct (getEntry s es); [reflexivity|].
    destruct q as [|b q]; [destruct p; discriminate|reflexivity].
  - now rewrite getEntry_setEntry_other.
Qed.

Lemma frame_setDirectory (es' : list (jsstring * node)) (p : list jsstring) :
  forall q n n', diverge p q = true -> setDirectory p es' n = Some n' ->
                 lookup q n' = lookup q n.
Proof.
  induction p as [|s p IH]; intros q n n' D H; [discriminate|].
  destruct q as [|b q]; [discriminate|].
  destruct n as [|es]; [discriminate|]. simpl in H.
  destruct (getEntry s es) as [c|] eqn:G; [|discriminate].
  destruct (setDirectory p es' c) as [c'|] eqn:A; [|discriminate].
  injection H as <-. rewrite !lookup_cons.
  apply diverge_cons in D as [[<- D]|D].
  - rewrite getEntry_setEntry, G. exact (IH q c c' D A).
  - now rewrite getEntry_setEntry_other.
Qed.

Lemma frame_writeFile (p : path) (data : jsstring) (q : list jsstring) (n n' : node) :
  diverge (segments p) q = true -> writeFile p data n = Some n' ->
  lookup q n' = lookup q n.
Proof.
  unfold writeFile. destruct (trailing p); [discriminate|]. apply frame_alter.
Qed.

Lemma frame_copyFile (src dest : path) (q : list jsstring) (n n' : node) :
  diverge (segments dest) q = true -> copyFile src dest n = Some n' ->
  lookup q n' = lookup q n.
Proof.
  unfold copyFile. destruct (readFile src n); [|discriminate]. apply frame_writeFile.
Qed.

Lemma frame_remove (recursive : bool) (p : path) (q : list jsstring) (n n' : node) :
  diverge (segments p) q = true -> remove recursive p n = Some n' ->
  lookup q n' = lookup q n.
Proof.
  unfold remove. intros D. destruct (lookup (segments p) n) as [x|].
  - destruct (isDirectory x && negb recursive); [discriminate|]. now apply frame_alter.
  - now intros [= <-].
Qed.

Variable q : list jsstring.

Lemma keeps_ret {A} (a : A) : keeps q (ret a).
Proof. intros w. reflexivity. Qed.

Lemma keeps_throw {A} (e : error) : keeps q (throw (A := A) e).
Proof. intros w. reflexivity. Qed.

Lemma keeps_exit {A} (c : N) : keeps q (exit (A := A) c).
Proof. intros w. reflexivity. Qed.

Lemma keeps_pending {A} : keeps q (pending (A := A)).
Proof. intros w. reflexivity. Qed.

Lemma keeps_print (l : line) : keeps q (print l).
Proof. intros w. reflexivity. Qed.

Lemma keeps_log (text : jsstring) : keeps q (log text).
Proof. intros w. reflexivity. Qed.

Lemma keeps_emit (e : event) : keeps q (emit e).
Proof. intros w. reflexivity. Qed.

Lemma keeps_bind {A B} (m : M A) (k : A -> M B) :
  keeps q m -> (forall a, keeps q (k a)) -> keeps q (bind m k).
Proof.
  intros Hm Hk w. specialize (Hm w). unfold bind.
  destruct (m w) as [[a|e|c|] w1]; cbn [snd] in *; [|exact Hm|exact Hm|exact Hm].
  now rewrite (Hk a w1).
Qed.

Lemma keeps_tryCatch {A} (m : M A) (h : error -> M A) :
  keeps q m -> (forall e, keeps q (h e)) -> keeps q (tryCatch m h).
Proof.
  intros Hm Hh w. specialize (Hm w). unfold tryCatch.
  destruct (m w) as [[a|e|c|] w1]; cbn [snd] in *; [exact Hm| |exact Hm|exact Hm].
  now rewrite (Hh e w1).
Qed.

Lemma keeps_reading {A} (syscall : string) (p : path) (f : node -> option A) :
  keeps q (reading syscall p f).
Proof. intros w. unfold reading. now destruct (f (fs w)). Qed.

Lemma keeps_writing (syscall : string) (p : path) (f : node -> option node) :
  (forall n n', f n = Some n' -> lookup q n' = lookup q n) ->
  keeps q (writing syscall p f).
Proof.
  intros H w. unfold writing. destruct (f (fs w)) as [n'|] eqn:E; [|reflexivity].
  cbn [snd fs]. now apply H.
Qed.

Lemma keeps_readdirM (p : path) : keeps q (readdirM p).
Proof. apply keeps_reading. Qed.

Lemma keeps_readFileM (p : path) : keeps q (readFileM p).
Proof. apply keeps_reading. Qed.

Lemma keeps_mkdirM (p : path) : diverge (segments p) q = true -> keeps q (mkdirM p).
Proof. intros D. apply keeps_writing. intros n n'. now apply frame_mkdirRecursive. Qed.

Lemma keeps_writeFileM (p : path) (data : jsstring) :
  diverge (segments p) q = true -> keeps q (writeFileM p data).
Proof.
  intros D. apply keeps_bind; [apply keeps_emit|intros _].
  apply keeps_writing. intros n n'. now apply frame_writeFile.
Qed.

Lemma keeps_copyFileM (src dest : path) :
  diverge (segments dest) q = true -> keeps q (copyFileM src dest).
Proof.
  intros D. apply keeps_bind; [apply keeps_emit|intros _].
  apply keeps_writing. intros n n'. now apply frame_copyFile.
Qed.

Lemma keeps_rmSyncM (env : Env) (recursive : bool) (p : path) :
  diverge (segments p) q = true -> keeps q (rmSyncM env recursive p).
Proof.
  intros D. unfold rmSyncM. destruct (rmSyncBehaviour env p).
  - apply keeps_writing. intros n n'. now apply frame_remove.
  - apply keeps_throw.
  - apply keeps_ret.
Qed.

Lemma keeps_spawnM (env : Env) (t : tool) (cmd : jsstring) (args : list jsstring)
  (archive dir : path) :
  diverge (segments dir) q = true -> keeps q (spawnM env t cmd args archive dir).
Proof.
  intros D. apply keeps_bind; [apply keeps_emit|intros _]. intros w.
  destruct (readFile archive (fs w)) as [bytes|]; [|reflexivity].
  destruct (lookup (segments dir) (fs w)) as [[c|es]|]; try reflexivity.
  destruct (extract env t bytes es) as [es'|]; [|reflexivity].
  destruct (setDirectory (segments dir) es' (fs w)) as [n'|] eqn:E; [|reflexivity].
  cbn [snd fs]. exact (frame_setDirectory es' (segments dir) q (fs w) n' D E).
Qed.

Lemma keeps_forOf {A} (l : list A) (body : A -> M unit) :
  (forall x, In x l -> keeps q (body x)) -> keeps q (forOf l body).
Proof.
  induction l as [|x l IH]; intros H; [apply keeps_ret|].
  simpl. apply keeps_bind; [apply H; now left|].
  intros _. apply IH. intros y I. apply H. now right.
Qed.

Lemma keeps_mapM {A B} (f : A -> M B) (l : list A) :
  (forall x, In x l -> keeps q (f x)) -> keeps q (mapM f l).
Proof.
  induction l as [|x l IH]; intros H; [apply keeps_ret|].
  simpl. apply keeps_bind; [apply H; now left|]. intros y.
  apply keeps_bind; [|intros ys; apply keeps_ret].
  apply IH. intros z I. apply H. now right.
Qed.

Lemma keeps_copyDirectory (fuel : nat) :
  forall source target,
    diverge (segments target) q = true ->
    keeps q (Postprepare.copyDirectory fuel source target).
Proof.
  induction fuel as [|fuel IH]; intros source target D; simpl; [apply keeps_throw|].
  apply keeps_bind; [apply keeps_readdirM|intros entries].
  apply keeps_forOf. intros [name isDir] _. cbn [fst snd].
  assert (Dc : diverge (segments (child target name)) q = true)
    by (cbn [child segments]; now apply diverge_app).
  destruct isDir.
  - apply keeps_bind; [now apply keeps_mkdirM|intros _]. now apply IH.
  - now apply keeps_copyFileM.
Qed.

End FrameFacts.

(** ** What the scripts leave as it is *)

Section ScriptFrames.

Import Platform Handlebars Postprepare.

Lemma split_pieces_without (sep : char) (s : jsstring) :
  forallb (forallb (fun c => negb (c =? sep)%N)) (split sep s) = true.
Proof.
  induction s as [|c s IH]; [reflexivity|]. simpl.
  destruct (c =? sep)%N eqn:E; [exact IH|].
  destruct (split sep s) as [|p ps]; simpl in *; now rewrite E.
Qed.

Lemma plainSegments_removelast (p : list jsstring) :
  plainSegments p = true -> plainSegments (removelast p) = true.
Proof.
  unfold plainSegments. induction p as [|s p IH]; [reflexivity|].
  intros H. simpl in H. apply andb_true_iff in H as [Hs H].
  destruct p as [|t p]; [reflexivity|].
  change (removelast (s :: t :: p)) with (s :: removelast (t :: p)).
  change (forallb plainName (s :: removelast (t :: p)))
    with (plainName s && forallb plainName (removelast (t :: p))).
  apply andb_true_intro. split; [exact Hs|exact (IH H)].
Qed.

Lemma plainSegments_pushSegment (stack : list jsstring) (seg : jsstring) :
  plainSegments stack = true -> forallb (fun c => negb (c =? 47)%N) seg = true ->
  plainSegments (pushSegment stack seg) = true.
Proof.
  intros Hp Hs. unfold pushSegment.
  destruct (str_eqb seg []) eqn:E1; [exact Hp|].
  destruct (str_eqb seg (lit ".")) eqn:E2; [exact Hp|]. cbn [orb].
  destruct (str_eqb seg (lit "..")) eqn:E3; [now apply plainSegments_removelast|].
  unfold plainSegments in *. rewrite forallb_app, Hp. simpl.
  unfold plainName. rewrite E2, E3, Hs.
  destruct seg; [discriminate|reflexivity].
Qed.

Lemma plainSegments_fold (pieces : list jsstring) :
  forall stack,
    plainSegments stack = true ->
    forallb (forallb (fun c => negb (c =? 47)%N)) pieces = true ->
    plainSegments (fold_left pushSegment pieces stack) = true.
Proof.
  induction pieces as [|x pieces IH]; intros stack Hp H; [exact Hp|].
  simpl in H. apply andb_true_iff in H as [Hx H]. simpl.
  apply IH; [now apply plainSegments_pushSegment|exact H].
Qed.

Lemma plainSegments_join1 (p : path) (arg : jsstring) :
  plainSegments (segments p) = true -> plainSegments (segments (join1 p arg)) = true.
Proof.
  intros H. unfold join1. destruct arg as [|c arg]; [exact H|].
  cbn [segments]. apply plainSegments_fold; [exact H|apply split_pieces_without].
Qed.

Lemma plainSegments_last (p : list jsstring) :
  plainSegments p = true -> p <> [] -> plainName (last p []) = true.
Proof.
  unfold plainSegments. induction p as [|s p IH]; [congruence|].
  intros H _. simpl in H. apply andb_true_iff in H as [Hs H].
  destruct p as [|t p]; [exact Hs|]. now apply IH.
Qed.

(** The file that [extractFile] copies to lies in the directory it
    extracts to, or is that directory. *)
Lemma join_basename (extractDir filePath : path) :
  plainSegments (segments filePath) = true ->
  exists r, segments (join extractDir [basename filePath]) = segments extractDir ++ r.
Proof.
  intros H. unfold basename. destruct (segments filePath) as [|s p] eqn:E.
  - exists []. simpl. now rewrite app_nil_r.
  - rewrite join_plain by (apply plainSegments_last; [exact H|discriminate]).
    now eexists.
Qed.

Variable env : Env.
Variable q : list jsstring.
Hypothesis cwd_plain : plainSegments (cwd env) = true.
Hypothesis q_away : diverge (packagesDirOf env) q = true.

Lemma platformDir_diverges (k : jsstring) :
  accepted k = true -> diverge (segments (platformDirOf env k)) q = true.
Proof.
  intros H. rewrite (platformDirOf_child env k H).
  cbn [child segments workingDirectory]. rewrite <- !app_assoc.
  change (cwd env ++ [lit "temp"] ++ [lit "packages"] ++ [lit "hulo-" ++ k])
    with (cwd env ++ [lit "temp"; lit "packages"] ++ [lit "hulo-" ++ k]).
  rewrite app_assoc. apply diverge_app. exact q_away.
Qed.

Lemma child_diverges (p : path) (name : jsstring) :
  diverge (segments p) q = true -> diverge (segments (child p name)) q = true.
Proof. intros H. cbn [child segments]. now apply diverge_app. Qed.

Lemma tempDir_plain : plainSegments (segments (tempDirOf env)) = true.
Proof.
  rewrite tempDirOf_child. cbn [child segments workingDirectory].
  unfold plainSegments in *. rewrite forallb_app, cwd_plain. reflexivity.
Qed.

Lemma keeps_extractFile (filePath extractDir : path) :
  plainSegments (segments filePath) = true ->
  diverge (segments extractDir) q = true ->
  keeps q (extractFile env filePath extractDir).
Proof.
  intros Hf Hd. unfold extractFile.
  destruct (negb _ && negb _).
  - apply keeps_copyFileM. destruct (join_basename extractDir filePath Hf) as [r ->].
    now apply diverge_app.
  - destruct (endsWith _ _); [destruct (isWin32 env)|]; now apply keeps_spawnM.
Qed.

Ltac keep_step :=
  lazymatch goal with
  | |- keeps _ (bind _ _) => apply keeps_bind; [|intros ?]
  | |- keeps _ (tryCatch _ _) => apply keeps_tryCatch; [|intros ?]
  | |- keeps _ (ret _) => apply keeps_ret
  | |- keeps _ (log _) => apply keeps_log
  | |- keeps _ (print _) => apply keeps_print
  | |- keeps _ (exit _) => apply keeps_exit
  | |- keeps _ (throw _) => apply keeps_throw
  | |- keeps _ (readdirM _) => apply keeps_readdirM
  | |- keeps _ (readFileM _) => apply keeps_readFileM
  end.

Lemma keeps_processEntry (version : jsstring) (entry : ChecksumEntry) :
  keeps q (processEntry env version (tempDirOf env) entry).
Proof.
  unfold processEntry.
  destruct (matchArchive (filename entry)) as [platformKey|]; [|apply keeps_log].
  set (platformName := replaceUnderscores (toLowerCase platformKey)).
  destruct (propertyTruthy (getProperty platformName)) eqn:Hacc; simpl negb; cbv iota;
    [|apply keeps_log].
  cbv zeta.
  change (join {| segments := cwd env; trailing := false |}
               [lit "temp"; lit "packages"; lit "hulo-" ++ platformName])
    with (platformDirOf env platformName).
  pose proof (platformDir_diverges platformName Hacc) as Dd.
  set (D := platformDirOf env platformName) in *.
  rewrite !(join_plain D (lit "bin")) by reflexivity.
  rewrite !(join_plain D (lit "std")) by reflexivity.
  rewrite !(join_plain D (lit "package.json")) by reflexivity.
  rewrite !(join_plain D (lit "index.js")) by reflexivity.
  rewrite !(join_plain D (lit "README.md")) by reflexivity.
  rewrite !(join_plain (child D (lit "bin")) (lit "std")) by reflexivity.
  assert (Hb : forall p : path,
             join p [if startsWith platformName (lit "windows")
                     then lit "hulo.exe" else lit "hulo"]
             = child p (if startsWith platformName (lit "windows")
                        then lit "hulo.exe" else lit "hulo")).
  { intros p. apply join_plain. destruct (startsWith _ _); reflexivity. }
  rewrite !Hb.
  do 2 (keep_step; [keep_step|]).
  keep_step.
  { keep_step; [|keep_step; [keep_step|keep_step]].
    keep_step; [keep_step|keep_step]. }
  destruct a1; simpl negb; cbv iota; [|apply keeps_ret].
  keep_step; [now apply keeps_mkdirM|]. keep_step; [keep_step|].
  keep_step.
  { apply keeps_extractFile; [|exact Dd].
    apply plainSegments_join1. apply tempDir_plain. }
  keep_step; [keep_step|].
  keep_step; [apply keeps_mkdirM; now apply child_diverges|].
  keep_step; [keep_step|].
  keep_step; [apply keeps_copyFileM; now do 2 apply child_diverges|].
  keep_step; [keep_step|].
  keep_step.
  { intros w. apply keeps_copyDirectory. now do 2 apply child_diverges. }
  keep_step; [apply keeps_rmSyncM; now apply child_diverges|].
  keep_step; [apply keeps_rmSyncM; now apply child_diverges|].
  keep_step; [apply keeps_writeFileM; now apply child_diverges|].
  keep_step; [apply keeps_writeFileM; now apply child_diverges|].
  keep_step; [apply keeps_writeFileM; now apply child_diverges|].
  keep_step.
Qed.

Lemma keeps_main (arg : option jsstring) : keeps q (Postprepare.main env arg).
Proof.
  unfold Postprepare.main. cbv zeta.
  change (join {| segments := cwd env; trailing := false |} [lit "temp"])
    with (tempDirOf env).
  keep_step; [keep_step|].
  keep_step; [|keep_step; [keep_step|keep_step]].
  keep_step.
  { keep_step; [keep_step; [keep_step|keep_step]|keep_step; [keep_step|keep_step]]. }
  keep_step; [keep_step|].
  keep_step; [keep_step|]. keep_step; [keep_step|]. keep_step; [keep_step|].
  keep_step; [|keep_step; [keep_step|keep_step]].
  apply keeps_forOf. intros e _. apply keeps_processEntry.
Qed.

End ScriptFrames.

Section FetcherFrame.

Import Prepare.

Variable env : Env.
Variable arg : option jsstring.
Variable q : list jsstring.

(** [q] is not touched by the creation of the staging directory, and
    neither the manifest nor a download is written on the way to it. *)
Hypothesis q_mkdir : keeps q (mkdirM (tempDirOf env)).
Hypothesis q_manifest : diverge (segments (manifestPathOf env)) q = true.
Hypothesis q_entries :
  forall text e,
    manifestOf env arg = Some text -> In e (parseChecksums text) ->
    diverge (segments (join (tempDirOf env) [filename e])) q = true.

Lemma keeps_startDownload (baseUrl : jsstring) (entry : ChecksumEntry) :
  keeps q (startDownload baseUrl (tempDirOf env) entry).
Proof.
  unfold startDownload, requestFile. cbv zeta.
  apply keeps_bind; [apply keeps_log|intros _; apply keeps_emit].
Qed.

Lemma keeps_downloadEntry (baseUrl : jsstring) (entry : ChecksumEntry) :
  diverge (segments (join (tempDirOf env) [filename entry])) q = true ->
  keeps q (downloadEntry env baseUrl (tempDirOf env) entry).
Proof.
  intros P. unfold downloadEntry. cbv zeta.
  apply keeps_tryCatch.
  - apply keeps_bind.
    + unfold downloadFile.
      destruct (httpStream env (baseUrl ++ lit "/" ++ filename entry));
        [apply keeps_throw| |];
        (apply keeps_bind; [|intros _; apply keeps_ret]);
        apply keeps_writing; intros n n'; now apply frame_writeFile.
    + intros [|]; [|apply keeps_ret].
      apply keeps_bind; [apply keeps_log|intros _; apply keeps_ret].
  - intros _. apply keeps_bind; [apply keeps_log|intros _; apply keeps_ret].
Qed.

Lemma keeps_downloadAll (baseUrl : jsstring) (entries : list ChecksumEntry) :
  (forall e, In e entries ->
             diverge (segments (join (tempDirOf env) [filename e])) q = true) ->
  keeps q (downloadAll env baseUrl (tempDirOf env) entries).
Proof.
  intros H. unfold downloadAll. cbv zeta.
  apply keeps_bind; [apply keeps_forOf; intros e _; apply keeps_startDownload|intros _].
  apply keeps_bind.
  - apply keeps_mapM. intros [i e] I. cbn [fst snd].
    apply keeps_bind; [|intros r; apply keeps_ret].
    apply keeps_downloadEntry. apply H.
    apply byArrival_In in I. now apply in_combine_r in I.
  - intros settled. destruct (promiseAll _); [apply keeps_ret|apply keeps_pending].
Qed.

(** What [downloadText] returns is what the server has. *)
Lemma keeps_after_downloadText {B} (url : jsstring) (k : data -> M B) :
  (forall content, dataOf env url = Some content -> keeps q (k content)) ->
  keeps q (bind (downloadText env url) k).
Proof.
  intros H w. unfold bind at 1. unfold downloadText, bind, emit.
  unfold dataOf in H.
  destruct (httpGet env url) as [body|] eqn:G; unfold ret, throw; cbn [snd fs].
  - destruct (jsonParse env body) as [value|]; cbn [snd fs]; now rewrite (H _ eq_refl).
  - reflexivity.
Qed.

Lemma keeps_fetchStaging :
  keeps q (fetchStaging env (baseUrlOf arg) (tempDirOf env)).
Proof.
  unfold fetchStaging. apply keeps_tryCatch.
  - apply keeps_bind; [exact q_mkdir|intros _].
    apply keeps_bind; [apply keeps_log|intros _].
    apply keeps_after_downloadText. intros content G.
    apply keeps_bind; [apply keeps_log|intros _].
    destruct content as [text|]; [|apply keeps_throw]. cbv zeta.
    assert (Mf : manifestOf env arg = Some text).
    { unfold manifestOf, manifestUrlOf. now rewrite G. }
    apply keeps_bind; [apply keeps_log|intros _].
    apply keeps_bind; [now apply keeps_writeFileM|intros _].
    apply keeps_bind; [apply keeps_log|intros _].
    apply keeps_bind.
    { apply keeps_downloadAll. intros e I. exact (q_entries text e Mf I). }
    intros results.
    apply keeps_bind; [apply keeps_log|intros _].
    apply keeps_bind; [apply keeps_log|intros _].
    apply keeps_bind; [destruct (0 <? _); [apply keeps_log|apply keeps_ret]|intros _].
    apply keeps_bind; [apply keeps_log|intros _; apply keeps_log].
  - intros e. apply keeps_bind; [apply keeps_print|intros _; apply keeps_exit].
Qed.

End FetcherFrame.

Section StagingFrame.

Import Prepare.

Variable env : Env.
Variable q : list jsstring.
Hypothesis q_away : diverge (segments (tempDirOf env)) q = true.

Lemma keeps_clearStaging : keeps q (clearStaging env (tempDirOf env)).
Proof.
  unfold clearStaging. apply keeps_tryCatch.
  - apply keeps_bind; [now apply keeps_rmSyncM|intros _].
    apply keeps_bind; [|intros _; apply keeps_log].
    apply keeps_tryCatch; [|intros _; apply keeps_ret].
    apply keeps_bind; [apply keeps_readdirM|intros remainingFiles].
    destruct (0 <? _); [|apply keeps_ret].
    apply keeps_bind; [apply keeps_log|intros _; apply keeps_exit].
  - intros e. apply keeps_bind; [apply keeps_print|intros _; apply keeps_exit].
Qed.

Lemma keeps_fetchStaging_away (arg : option jsstring) :
  servesPlainNames env arg ->
  keeps q (fetchStaging env (baseUrlOf arg) (tempDirOf env)).
Proof.
  intros S. apply keeps_fetchStaging.
  - now apply keeps_mkdirM.
  - unfold manifestPathOf. rewrite join_plain by reflexivity.
    cbn [child segments]. now apply diverge_app.
  - intros text e G I. specialize (S text G). rewrite forallb_forall in S.
    rewrite (join_plain _ _ (S e I)). cbn [child segments]. now apply diverge_app.
Qed.

End StagingFrame.

Section CopyFacts.

Import Postprepare.

Lemma alter_missing_parent (f : option node -> option (option node)) (s : jsstring)
  (p : list jsstring) :
  forall n, lookup p n = None -> alter f (p ++ [s]) n = None.
Proof.
  induction p as [|a p IH]; intros n H; [discriminate|].
  destruct n as [c|es]; [reflexivity|].
  rewrite lookup_cons in H. simpl.
  destruct (p ++ [s]) as [|t r] eqn:E; [now destruct p|].
  destruct (getEntry a es) as [c|]; [|reflexivity].
  now rewrite (IH c H).
Qed.

Lemma copyFile_missing_target (src target : path) (name : jsstring) (n : node) :
  lookup (segments target) n = None -> copyFile src (child target name) n = None.
Proof.
  intros H. unfold copyFile, writeFile. destruct (readFile src n); [|reflexivity].
  cbn [child trailing segments]. now apply alter_missing_parent.
Qed.

End CopyFacts.

(** X19: the post-processor only changes the tree below [temp/packages]:
    whatever is at a path that leaves the path of that directory (the
    staged archives, the manifest, the rest of the working directory) is
    after the run what it was before. *)
Theorem installer_touches_only_packages (env : Env) (arg : option jsstring) (w : World)
  (q : list jsstring) :
  plainSegments (cwd env) = true -> diverge (packagesDirOf env) q = true ->
  lookup q (fs (snd (Postprepare.main env arg w))) = lookup q (fs w).
Proof. intros P D. now apply keeps_main. Qed.

Lemma installer_touches_only_packages_witness :
  lookup [lit "work"; lit "temp"; linuxArchiveName]
         (fs (snd (Postprepare.main (hostWith releaseArchive) None (start linuxStaging))))
  = lookup [lit "work"; lit "temp"; linuxArchiveName] (fs (start linuxStaging)).
Proof.
  apply (installer_touches_only_packages (hostWith releaseArchive) None
           (start linuxStaging) [lit "work"; lit "temp"; linuxArchiveName]).
  - vm_compute. reflexivity.
  - vm_compute. reflexivity.
Defined.

(** X20: when the manifest of the release only lists names of one
    segment, the downloader only changes the tree below [temp]: whatever
    is at a path that leaves the path of the staging directory is after
    the run what it was before. *)
Theorem downloader_touches_only_staging (env : Env) (arg : option jsstring) (w : World)
  (q : list jsstring) :
  servesPlainNames env arg -> diverge (segments (tempDirOf env)) q = true ->
  lookup q (fs (snd (Prepare.main env arg w))) = lookup q (fs w).
Proof.
  intros S D. rewrite main_phases. revert w.
  change (keeps q (log (lit "Clearing temp directory...") ;;
                   clearStaging env (tempDirOf env) ;;
                   log (lit "Starting Hulo downloader...") ;;
                   fetchStaging env (baseUrlOf arg) (tempDirOf env))%js).
  apply keeps_bind; [apply keeps_log|intros _].
  apply keeps_bind; [now apply keeps_clearStaging|intros _].
  apply keeps_bind; [apply keeps_log|intros _].
  now apply keeps_fetchStaging_away.
Qed.

Lemma downloader_touches_only_staging_witness :
  lookup [lit "work"; lit "package.json"]
         (fs (snd (Prepare.main fullServer None (start projectTree))))
  = lookup [lit "work"; lit "package.json"] (fs (start projectTree)).
Proof.
  apply (downloader_touches_only_staging fullServer None (start projectTree)
           [lit "work"; lit "package.json"]).
  - intros text H. vm_compute in H. injection H as <-. vm_compute. reflexivity.
  - vm_compute. reflexivity.
Defined.

(** X21: [copyDirectory] only changes the tree below its target:
    whatever is at a path that leaves the path of the target is after
    the copy what it was before; so is the source, when its path leaves
    that of the target. *)
Theorem copyDirectory_touches_only_target (fuel : nat) (source target : path) (w : World) :
  (forall q, diverge (segments target) q = true ->
             lookup q (fs (snd (Postprepare.copyDirectory fuel source target w)))
             = lookup q (fs w))
  /\ (diverge (segments target) (segments source) = true ->
      lookup (segments source) (fs (snd (Postprepare.copyDirectory fuel source target w)))
      = lookup (segments source) (fs w)).
Proof.
  split; [intros q D|intros D]; now apply keeps_copyDirectory.
Qed.

(** X22: [copyDirectory] does not create its target: when the target
    does not exist and the listing of the source does not start with a
    directory, the copy leaves the tree as it is; it returns when the
    source is empty and fails at the first file otherwise. *)
Theorem copyDirectory_needs_its_target (fuel : nat) (source target : path) (w : World)
  (entries : list (jsstring * bool)) :
  lookup (segments target) (fs w) = None ->
  readdir source (fs w) = Some entries ->
  leadsWithDirectory entries = false ->
  fs (snd (Postprepare.copyDirectory (S fuel) source target w)) = fs w
  /\ fst (Postprepare.copyDirectory (S fuel) source target w)
     = match entries with
       | [] => Return tt
       | e :: _ => Throw (FsError "copyfile" (child source (fst e)))
       end.
Proof.
  intros T R F. cbn [Postprepare.copyDirectory].
  unfold bind at 1 3. unfold readdirM, reading. rewrite R.
  destruct entries as [|[name isDir] rest]; [split; reflexivity|].
  destruct isDir; [discriminate F|].
  cbn [forOf fst snd]. unfold bind, copyFileM, bind, emit, writing. cbn [fs].
  rewrite (copyFile_missing_target _ _ _ _ T). split; reflexivity.
Qed.

Lemma copyDirectory_needs_its_target_witness :
  fst (Postprepare.copyDirectory 1
         {| segments := [lit "std"]; trailing := false |}
         {| segments := [lit "bin"; lit "std"]; trailing := false |}
         (start (Dir [ (lit "std", Dir [ (lit "prelude.hl", File (lit "use core")) ]);
                       (lit "bin", Dir []) ])))
  = Throw (FsError "copyfile"
             (child {| segments := [lit "std"]; trailing := false |} (lit "prelude.hl"))).
Proof.
  refine (proj2 (copyDirectory_needs_its_target 0 _ _ _
                   [(lit "prelude.hl", false)] _ _ _)); reflexivity.
Defined.
Section WritableFacts.

(** The change that [writeFile] makes at the end of a path. *)
Lemma alter_Dir (f : option node -> option (option node)) (p : list jsstring)
  (n n' : node) :
  alter f p n = Some n' -> isDirectory n = true /\ isDirectory n' = true.
Proof.
  destruct n as [c|es]; [destruct p; discriminate|].
  destruct p as [|s p]; intros H; simpl in H; [discriminate|].
  destruct p as [|t p].
  - destruct (f (getEntry s es)); [|discriminate]. now injection H as <-.
  - destruct (getEntry s es) as [c|]; [|discriminate].
    destruct (alter f (t :: p) c); [|discriminate]. now injection H as <-.
Qed.

Lemma isSome_alter (f : option node -> option (option node)) (s : jsstring)
  (p : list jsstring) (es : list (jsstring * node)) :
  isSome (alter f (s :: p) (Dir es))
  = match p with
    | [] => isSome (f (getEntry s es))
    | _ :: _ =>
        match getEntry s es with
        | Some c => isSome (alter f p c)
        | None => false
        end
    end.
Proof.
  simpl. destruct p as [|t p].
  - now destruct (f (getEntry s es)).
  - destruct (getEntry s es) as [c|]; [|reflexivity].
    now destruct (alter f (t :: p) c).
Qed.

Lemma isSome_fileWriter (d d' : jsstring) (p : list jsstring) :
  forall n, isSome (alter (fileWriter d) p n) = isSome (alter (fileWriter d') p n).
Proof.
  induction p as [|s p IH]; intros n; [now destruct n|].
  destruct n as [c|es]; [reflexivity|]. rewrite !isSome_alter.
  destruct p as [|t p].
  - now destruct (getEntry s es) as [[c|l]|].
  - destruct (getEntry s es) as [c|]; [apply IH|reflexivity].
Qed.

(** A file that is written makes no directory and removes none: it
    does not change where files can be written. *)
Lemma isSome_alter_after (d d' : jsstring) (p : list jsstring) :
  forall q n n',
    alter (fileWriter d) q n = Some n' ->
    isSome (alter (fileWriter d') p n') = isSome (alter (fileWriter d') p n).
Proof.
  induction p as [|s p IH]; intros q n n' H.
  - destruct (alter_Dir _ _ _ _ H) as [D D']. destruct n, n'; try discriminate.
    reflexivity.
  - destruct n as [c|es]; [destruct q; discriminate|].
    destruct q as [|s' q]; [discriminate|].
    assert (X : exists x, n' = Dir (setEntry s' x es)
                          /\ match q with
                             | [] => isDirectory x = false
                                     /\ match getEntry s' es with
                                        | Some (Dir _) => False
                                        | _ => True
                                        end
                             | _ :: _ => exists c, getEntry s' es = Some c
                                                   /\ alter (fileWriter d) q c = Some x
                             end).
    { simpl in H. destruct q as [|t q].
      - unfold fileWriter in H at 1.
        destruct (getEntry s' es) as [[c|l]|]; try discriminate;
          injection H as <-; exists (File d); repeat split.
      - destruct (getEntry s' es) as [c|]; [|discriminate].
        destruct (alter (fileWriter d) (t :: q) c) as [c'|] eqn:A; [|discriminate].
        injection H as <-. exists c'. split; [reflexivity|]. now exists c. }
    destruct X as (x & -> & X). rewrite !isSome_alter.
    destruct (str_eqb s' s) eqn:E.
    + apply str_eqb_eq in E. subst s'. rewrite getEntry_setEntry.
      destruct q as [|t q].
      * destruct X as [Dx G]. destruct x as [c|l]; [|discriminate].
        destruct p as [|u p]; [now destruct (getEntry s es) as [[c0|l0]|]|].
        destruct (getEntry s es) as [[c0|l0]|]; try reflexivity. contradiction.
      * destruct X as (c & G & A). rewrite G.
        destruct (alter_Dir _ _ _ _ A) as [Dc Dx].
        destruct p as [|u p]; [destruct c, x; try discriminate; reflexivity|].
        exact (IH _ _ _ A).
    + apply str_eqb_neq in E. now rewrite (getEntry_setEntry_other _ _ _ _ E).
Qed.

Lemma isSome_writeFile (p : path) (d : jsstring) (tree : node) :
  isSome (writeFile p d tree) = writable p tree.
Proof.
  unfold writable, writeFile. destruct (trailing p); [reflexivity|].
  apply isSome_fileWriter.
Qed.

Lemma writable_writeFile (p q : path) (d : jsstring) (tree tree' : node) :
  writeFile q d tree = Some tree' -> writable p tree' = writable p tree.
Proof.
  unfold writable, writeFile. destruct (trailing q); [discriminate|].
  destruct (trailing p); [reflexivity|]. apply isSome_alter_after.
Qed.

End WritableFacts.
Section DownloadFacts.

Import Prepare.

Variable env : Env.
Variable baseUrl : jsstring.
Variable tempDir : path.

Lemma sameWritable_store (tree : node) (entry : ChecksumEntry) :
  sameWritable (store env baseUrl tempDir tree entry) tree.
Proof.
  intros p. unfold store.
  destruct (httpStream env (baseUrl ++ lit "/" ++ filename entry)) as [|body|part];
    [reflexivity| |];
    (destruct (writeFile (join tempDir [filename entry]) _ tree) as [t|] eqn:W;
     [exact (writable_writeFile p _ _ _ _ W)|reflexivity]).
Qed.

Lemma sameWritable_trans (a b c : node) :
  sameWritable a b -> sameWritable b c -> sameWritable a c.
Proof. intros H1 H2 p. now rewrite H1. Qed.

Lemma hangs_sameWritable (a b : node) (entry : ChecksumEntry) :
  sameWritable a b ->
  hangs env baseUrl tempDir a entry = hangs env baseUrl tempDir b entry.
Proof. intros H. unfold hangs. now rewrite H. Qed.

Lemma succeeds_sameWritable (a b : node) (entry : ChecksumEntry) :
  sameWritable a b ->
  succeeds env baseUrl tempDir a entry = succeeds env baseUrl tempDir b entry.
Proof. intros H. unfold succeeds. now rewrite H. Qed.

Lemma promiseFor_sameWritable (a b : node) (entry : ChecksumEntry) :
  sameWritable a b ->
  promiseFor env baseUrl tempDir a entry = promiseFor env baseUrl tempDir b entry.
Proof.
  intros H. unfold promiseFor, resultOf.
  now rewrite (hangs_sameWritable a b entry H), (succeeds_sameWritable a b entry H).
Qed.

Lemma settleLine_sameWritable (a b : node) (entry : ChecksumEntry) :
  sameWritable a b ->
  settleLine env baseUrl tempDir a entry = settleLine env baseUrl tempDir b entry.
Proof.
  intros H. unfold settleLine.
  now rewrite (hangs_sameWritable a b entry H), (succeeds_sameWritable a b entry H).
Qed.

(** The callback, from the end of its request on. *)
Lemma downloadEntry_run (entry : ChecksumEntry) (w : World) :
  downloadEntry env baseUrl tempDir entry w
  = (Return (promiseFor env baseUrl tempDir (fs w) entry),
     {| fs := store env baseUrl tempDir (fs w) entry;
        console := console w ++ settleLine env baseUrl tempDir (fs w) entry;
        trace := trace w |}).
Proof.
  unfold downloadEntry, downloadFile, promiseFor, resultOf, settleLine, hangs, succeeds,
    store.
  cbv zeta.
  destruct (httpStream env (baseUrl ++ lit "/" ++ filename entry)) as [|body|part].
  - reflexivity.
  - rewrite <- (isSome_writeFile _ body).
    unfold tryCatch, bind at 1 2, writing.
    destruct (writeFile (join tempDir [filename entry]) body (fs w)) as [t|];
      reflexivity.
  - rewrite <- (isSome_writeFile _ part).
    unfold tryCatch, bind at 1 2, writing.
    destruct (writeFile (join tempDir [filename entry]) part (fs w)) as [t|];
      cbn [isSome]; [|reflexivity].
    unfold ret. now rewrite app_nil_r.
Qed.

(** The callbacks, in the order in which their requests end. *)
Lemma settle_run (tree0 : node) (l : list (nat * ChecksumEntry)) :
  forall w,
    sameWritable (fs w) tree0 ->
    mapM (fun download =>
            bind (downloadEntry env baseUrl tempDir (snd download))
                 (fun result => ret (fst download, result))) l w
    = (Return (map (fun download =>
                      (fst download, promiseFor env baseUrl tempDir tree0 (snd download)))
                   l),
       {| fs := fold_left (store env baseUrl tempDir) (map snd l) (fs w);
          console := console w
                     ++ flat_map (settleLine env baseUrl tempDir tree0) (map snd l);
          trace := trace w |}).
Proof.
  induction l as [|[i e] l IH]; intros w S.
  - cbn. rewrite app_nil_r. now destruct w.
  - cbn [mapM map fst snd flat_map fold_left].
    unfold bind at 1. unfold bind at 1. rewrite downloadEntry_run. unfold ret at 1.
    unfold bind at 1. rewrite IH.
    + cbn [fs console trace]. unfold ret.
      rewrite (promiseFor_sameWritable _ _ e S), (settleLine_sameWritable _ _ e S).
      now rewrite <- app_assoc.
    + cbn [fs]. exact (sameWritable_trans _ _ _ (sameWritable_store _ _) S).
Qed.

(** The callbacks, up to their first [await]: every download is
    announced and requested, in the order of the manifest. *)
Lemma start_run (entries : list ChecksumEntry) :
  forall w,
    forOf entries (startDownload baseUrl tempDir) w
    = (Return tt,
       {| fs := fs w;
          console := console w
                     ++ map (fun entry => Log (lit "Downloading " ++ filename entry))
                            entries;
          trace := trace w ++ map (requestOf baseUrl tempDir) entries |}).
Proof.
  induction entries as [|e es IH]; intros w.
  - cbn. rewrite !app_nil_r. now destruct w.
  - cbn [forOf map]. unfold bind at 1. unfold startDownload at 1, requestFile.
    cbv zeta. rewrite bind_log. unfold emit. rewrite IH. cbn [fs console trace].
    unfold requestOf. now rewrite <- !app_assoc.
Qed.

End DownloadFacts.

Lemma map_fst_indexed {A B} (f : nat -> B) (l : list A) :
  forall a, map (fun d => f (fst d)) (combine (seq a (length l)) l)
            = map f (seq a (length l)).
Proof. induction l as [|x l IH]; intros a; cbn; [reflexivity|]. now rewrite IH. Qed.

Lemma map_snd_indexed {A B} (f : A -> B) (l : list A) :
  forall a, map (fun d => f (snd d)) (combine (seq a (length l)) l) = map f l.
Proof. induction l as [|x l IH]; intros a; cbn; [reflexivity|]. now rewrite IH. Qed.

Section PromiseFacts.

Import Prepare.

Variables A B : Type.

Lemma promiseOf_settled (g : A -> option B) (l : list (nat * A)) (i : nat) (a : A) :
  NoDup (map fst l) -> In (i, a) l ->
  promiseOf i (map (fun d => (fst d, g (snd d))) l) = g a.
Proof.
  induction l as [|[j b] l IH]; [intros _ []|].
  cbn [map fst snd promiseOf]. intros N I. inversion N as [|x xs Nj N']. subst.
  destruct I as [I|I].
  - injection I as -> ->. now rewrite Nat.eqb_refl.
  - destruct (Nat.eqb_spec i j) as [->|_]; [|now apply IH].
    exfalso. apply Nj. now apply (in_map fst l (j, a)).
Qed.

Lemma indexed_NoDup (l : list A) (a : nat) :
  NoDup (map fst (combine (seq a (length l)) l)).
Proof.
  replace (map fst (combine (seq a (length l)) l)) with (seq a (length l));
    [apply seq_NoDup|].
  revert a. induction l as [|x l IH]; intros a; cbn; [reflexivity|]. now rewrite <- IH.
Qed.

(** [Promise.all] gives the results in the order of the promises,
    whatever the order in which they were settled. *)
Lemma promises_in_order (arrivalOf : nat * A -> nat) (g : A -> option B) (l : list A) :
  map (fun i => promiseOf i (map (fun d => (fst d, g (snd d)))
                                 (byArrival arrivalOf (combine (seq 0 (length l)) l))))
      (seq 0 (length l))
  = map g l.
Proof.
  rewrite <- (map_fst_indexed
                (fun i => promiseOf i (map (fun d => (fst d, g (snd d)))
                                           (byArrival arrivalOf
                                              (combine (seq 0 (length l)) l))))
                l 0).
  rewrite <- (map_snd_indexed g l 0). apply map_ext_in. intros [i a] I. cbn [fst snd].
  apply promiseOf_settled.
  - apply (Permutation_NoDup (l := map fst (combine (seq 0 (length l)) l))).
    + apply Permutation_map. symmetry. apply byArrival_perm.
    + apply indexed_NoDup.
  - apply (Permutation_in (l := combine (seq 0 (length l)) l)); [|exact I].
    symmetry. apply byArrival_perm.
Qed.

Lemma promiseAll_map (h : A -> bool) (r : A -> B) (l : list A) :
  promiseAll (map (fun a => if h a then None else Some (r a)) l)
  = if existsb h l then None else Some (map r l).
Proof.
  induction l as [|a l IH]; [reflexivity|]. cbn [map promiseAll existsb].
  destruct (h a); [reflexivity|]. rewrite IH. cbn [orb]. now destruct (existsb h l).
Qed.

End PromiseFacts.

Section DownloadAllFacts.

Import Prepare.

Variable env : Env.
Variable baseUrl : jsstring.
Variable tempDir : path.

(** The downloads of a manifest. *)
Lemma downloadAll_run (entries : list ChecksumEntry) (w : World) :
  downloadAll env baseUrl tempDir entries w
  = ((if existsb (hangs env baseUrl tempDir (fs w)) entries then Pending
      else Return (map (resultOf env baseUrl tempDir (fs w)) entries)),
     {| fs := fold_left (store env baseUrl tempDir) (settleOrder env baseUrl entries) (fs w);
        console := console w ++ downloadLog env baseUrl tempDir entries (fs w);
        trace := trace w ++ map (requestOf baseUrl tempDir) entries |}).
Proof.
  unfold downloadAll. cbv zeta. unfold bind at 1. rewrite start_run.
  unfold bind at 1. rewrite (settle_run env baseUrl tempDir (fs w));
    [|intros p; reflexivity].
  cbn [fs console trace].
  rewrite (promises_in_order _ _ _ (promiseFor env baseUrl tempDir (fs w)) entries).
  unfold promiseFor. rewrite promiseAll_map.
  unfold downloadLog, settleOrder. rewrite <- app_assoc.
  now destruct (existsb (hangs env baseUrl tempDir (fs w)) entries).
Qed.

End DownloadAllFacts.
Section FetchFacts.

Import Prepare.

Variable env : Env.

Lemma downloadText_run (url : jsstring) (w : World) :
  downloadText env url w
  = (match dataOf env url with
     | Some content => Return content
     | None => Throw (HttpError url)
     end,
     {| fs := fs w; console := console w; trace := trace w ++ [DownloadText url] |}).
Proof.
  unfold downloadText, dataOf. rewrite bind_emit.
  destruct (httpGet env url) as [body|]; [|reflexivity].
  now destruct (jsonParse env body).
Qed.

(** The second [try] block of [main], when the manifest arrives as a
    text and is saved. *)
Lemma fetchStaging_run (baseUrl : jsstring) (tempDir : path) (w : World)
  (t2 t3 : node) (text : jsstring) :
  mkdirRecursive (segments tempDir) (fs w) = Some t2 ->
  dataOf env (baseUrl ++ lit "/checksums.txt") = Some (StringData text) ->
  writeFile (join tempDir [lit "checksums.txt"]) text t2 = Some t3 ->
  fetchStaging env baseUrl tempDir w
  = ((if existsb (hangs env baseUrl tempDir t3) (parseChecksums text) then Pending
      else Return tt),
     {| fs := fold_left (store env baseUrl tempDir)
                (settleOrder env baseUrl (parseChecksums text)) t3;
        console :=
          console w
          ++ [ Log (lit "Fetching checksums...");
               Log (lit "Checksums fetched successfully");
               Log (lit "Found " ++ numberToString (length (parseChecksums text))
                    ++ lit " files to download");
               Log (lit "Starting concurrent downloads...") ]
          ++ downloadLog env baseUrl tempDir (parseChecksums text) t3
          ++ (if existsb (hangs env baseUrl tempDir t3) (parseChecksums text) then []
              else summaryLines (map (resultOf env baseUrl tempDir t3)
                                     (parseChecksums text)));
        trace := trace w ++ DownloadText (baseUrl ++ lit "/checksums.txt")
                   :: WriteFile (join tempDir [lit "checksums.txt"]) text
                   :: map (requestOf baseUrl tempDir) (parseChecksums text) |}).
Proof.
  intros Hm Hd Hw. unfold fetchStaging, tryCatch.
  rewrite (bind_returns _ _ _ _ _ (mkdirM_run _ _ _ Hm)), bind_log.
  unfold bind at 1. rewrite downloadText_run, Hd. rewrite bind_log. cbv zeta.
  rewrite bind_log. unfold writeFileM. unfold bind at 1. rewrite bind_emit.
  unfold writing. cbn [fs console trace]. rewrite Hw. rewrite bind_log.
  unfold bind at 1. rewrite downloadAll_run. cbn [fs console trace].
  destruct (existsb (hangs env baseUrl tempDir t3) (parseChecksums text)).
  - rewrite app_nil_r, <- !app_assoc. reflexivity.
  - rewrite !bind_log. unfold summaryLines.
    destruct (0 <? _).
    + rewrite !bind_log. unfold log, print. cbn [fs console trace].
      rewrite <- !app_assoc. reflexivity.
    + unfold bind at 1, ret. rewrite !bind_log. unfold log, print.
      cbn [fs console trace]. rewrite <- !app_assoc. reflexivity.
Qed.

End FetchFacts.
Section MainFacts.

Import Prepare.

Variable env : Env.
Variable arg : option jsstring.

(** A run of the downloader in which the staging directory is cleared
    and the manifest arrives as a text and is saved. *)
Lemma main_run (w : World) (t1 t2 t3 : node) (text : jsstring) :
  cleared env (tempDirOf env) (fs w) = Some t1 ->
  mkdirRecursive (segments (tempDirOf env)) t1 = Some t2 ->
  manifestOf env arg = Some text ->
  writeFile (manifestPathOf env) text t2 = Some t3 ->
  Prepare.main env arg w
  = ((if existsb (hangs env (baseUrlOf arg) (tempDirOf env) t3) (parseChecksums text)
      then Pending else Return tt),
     {| fs := fold_left (store env (baseUrlOf arg) (tempDirOf env))
                (settleOrder env (baseUrlOf arg) (parseChecksums text)) t3;
        console :=
          console w
          ++ preambleLines (length (parseChecksums text))
          ++ downloadLog env (baseUrlOf arg) (tempDirOf env) (parseChecksums text) t3
          ++ (if existsb (hangs env (baseUrlOf arg) (tempDirOf env) t3)
                         (parseChecksums text)
              then []
              else summaryLines (map (resultOf env (baseUrlOf arg) (tempDirOf env) t3)
                                     (parseChecksums text)));
        trace := trace w ++ DownloadText (manifestUrlOf arg)
                   :: WriteFile (manifestPathOf env) text
                   :: map (requestOf (baseUrlOf arg) (tempDirOf env))
                          (parseChecksums text) |}).
Proof.
  unfold manifestOf, manifestUrlOf, manifestPathOf. intros Hc Hm Hd Hw.
  assert (D : dataOf env (baseUrlOf arg ++ lit "/checksums.txt")
              = Some (StringData text)).
  { destruct (dataOf env (baseUrlOf arg ++ lit "/checksums.txt")) as [[t|]|];
      try discriminate. now injection Hd as ->. }
  rewrite main_phases, bind_log.
  pose proof (clearStaging_run env (tempDirOf env)
                {| fs := fs w;
                   console := console w ++ [Log (lit "Clearing temp directory...")];
                   trace := trace w |}) as C.
  change (fs {| fs := fs w;
                console := console w ++ [Log (lit "Clearing temp directory...")];
                trace := trace w |}) with (fs w) in C.
  rewrite Hc in C. rewrite (bind_returns _ _ _ _ _ C), bind_log.
  match goal with
  | |- context [fetchStaging env _ _ ?w0] =>
      rewrite (fetchStaging_run env (baseUrlOf arg) (tempDirOf env) w0 t2 t3 text Hm D Hw)
  end.
  cbn [fs console trace]. unfold preambleLines. rewrite <- !app_assoc. reflexivity.
Qed.

End MainFacts.

Lemma settleOrder_perm (env : Env) (baseUrl : jsstring) (entries : list ChecksumEntry) :
  Permutation (settleOrder env baseUrl entries) entries.
Proof.
  unfold settleOrder.
  assert (E : map snd (combine (seq 0 (length entries)) entries) = entries).
  { pose proof (map_snd_indexed (fun e : ChecksumEntry => e) entries 0) as E.
    rewrite map_id in E. exact E. }
  eapply Permutation_trans; [apply Permutation_map, byArrival_perm|].
  rewrite E. reflexivity.
Qed.

(** X17: the downloads of a manifest.  Every entry is announced and
    requested, in the order of the manifest, before a download ends;
    then each download that ends is reported, in the order of arrival.
    The promise of an entry stays pending when its transfer breaks while
    its file is written, and then [Promise.all] stays pending; when no
    entry hangs, the results come in the order of the manifest, whatever
    the order of arrival.  An entry succeeds when its body arrives in
    full and its file can be written in the tree as it was when the
    downloads were started: no download changes where files can be
    written. *)
Theorem downloadAll_settles (env : Env) (baseUrl : jsstring) (tempDir : path)
  (entries : list ChecksumEntry) (w : World) :
  fst (Prepare.downloadAll env baseUrl tempDir entries w)
  = (if existsb (hangs env baseUrl tempDir (fs w)) entries then Pending
     else Return (map (resultOf env baseUrl tempDir (fs w)) entries))
  /\ trace (snd (Prepare.downloadAll env baseUrl tempDir entries w))
     = trace w ++ map (requestOf baseUrl tempDir) entries
  /\ console (snd (Prepare.downloadAll env baseUrl tempDir entries w))
     = console w
       ++ map (fun entry => Log (lit "Downloading " ++ filename entry)) entries
       ++ flat_map (settleLine env baseUrl tempDir (fs w)) (settleOrder env baseUrl entries)
  /\ fs (snd (Prepare.downloadAll env baseUrl tempDir entries w))
     = fold_left (store env baseUrl tempDir) (settleOrder env baseUrl entries) (fs w)
  /\ Permutation (settleOrder env baseUrl entries) entries
  /\ (forall p entry,
        writable p (store env baseUrl tempDir (fs w) entry) = writable p (fs w)).
Proof.
  rewrite downloadAll_run. cbn [fst snd fs console trace].
  split; [reflexivity|]. split; [reflexivity|]. split; [reflexivity|].
  split; [reflexivity|]. split.
  - apply settleOrder_perm.
  - intros p entry. apply sameWritable_store.
Qed.

(** X18: the console of a run of the downloader in which the staging
    directory is cleared and the manifest arrives as a text and is
    saved: the lines before the downloads, the announcement of every
    download, in the order of the manifest, then one line for each
    download that ends, in the order of arrival, and, unless a download
    hangs, the summary with the numbers of downloads that succeeded and
    failed and, whatever these numbers are, the line [All files
    downloaded successfully!].  When a download hangs the run stays
    pending, without a summary; otherwise it returns. *)
Theorem downloader_reports (env : Env) (arg : option jsstring) (w : World)
  (t1 t2 t3 : node) (text : jsstring) :
  cleared env (tempDirOf env) (fs w) = Some t1 ->
  mkdirRecursive (segments (tempDirOf env)) t1 = Some t2 ->
  manifestOf env arg = Some text ->
  writeFile (manifestPathOf env) text t2 = Some t3 ->
  fst (Prepare.main env arg w)
  = (if existsb (hangs env (baseUrlOf arg) (tempDirOf env) t3) (parseChecksums text)
     then Pending else Return tt)
  /\ console (snd (Prepare.main env arg w))
     = console w
       ++ preambleLines (length (parseChecksums text))
       ++ map (fun entry => Log (lit "Downloading " ++ filename entry))
              (parseChecksums text)
       ++ flat_map (settleLine env (baseUrlOf arg) (tempDirOf env) t3)
                   (settleOrder env (baseUrlOf arg) (parseChecksums text))
       ++ (if existsb (hangs env (baseUrlOf arg) (tempDirOf env) t3) (parseChecksums text)
           then []
           else summaryLines (map (resultOf env (baseUrlOf arg) (tempDirOf env) t3)
                                  (parseChecksums text))).
Proof.
  intros Hc Hm Hd Hw. rewrite (main_run env arg w t1 t2 t3 text Hc Hm Hd Hw).
  cbn [fst snd console]. split; [reflexivity|].
  unfold downloadLog. now rewrite <- !app_assoc.
Qed.

Lemma downloader_reports_witness :
  console (snd halfRun)
  = console (start staleTree)
    ++ preambleLines 2
    ++ [ Log (lit "Downloading hulo_Darwin_arm64.tar.gz");
         Log (lit "Downloading hulo_Linux_x86_64.tar.gz");
         Log (lit "Downloaded hulo_Linux_x86_64.tar.gz");
         Log (lit "Failed to download hulo_Darwin_arm64.tar.gz");
         Log (lit "Download Summary");
         Log (lit "Successfully downloaded: 1 files");
         Log (lit "Failed to download: 1 files");
         Log (lit "All files downloaded successfully!");
         Log (lit "Check the temp/ directory for downloaded files") ].
Proof.
  assert (H1 : cleared halfServer (tempDirOf halfServer) (fs (start staleTree))
               = Some (Dir [ (lit "work", Dir []) ])) by (vm_compute; reflexivity).
  assert (H2 : mkdirRecursive (segments (tempDirOf halfServer))
                 (Dir [ (lit "work", Dir []) ])
               = Some (Dir [ (lit "work", Dir [ (lit "temp", Dir []) ]) ]))
    by (vm_compute; reflexivity).
  assert (H3 : manifestOf halfServer (Some (lit "v1.2.3")) = Some twoArchives)
    by (vm_compute; reflexivity).
  assert (H4 : writeFile (manifestPathOf halfServer) twoArchives
                 (Dir [ (lit "work", Dir [ (lit "temp", Dir []) ]) ])
               = Some (Dir [ (lit "work",
                              Dir [ (lit "temp",
                                     Dir [ (lit "checksums.txt", File twoArchives) ]) ]) ]))
    by (vm_compute; reflexivity).
  destruct (downloader_reports halfServer (Some (lit "v1.2.3")) (start staleTree)
              _ _ _ _ H1 H2 H3 H4) as [_ C].
  unfold halfRun. rewrite C. vm_compute. reflexivity.
Defined.
Section StagedFacts.

Import Prepare.

(** A file that is written elsewhere leaves the files as they are. *)
Lemma lookup_file_alter (d c : jsstring) (p : list jsstring) :
  forall q n n',
    alter (fileWriter d) q n = Some n' -> q <> p ->
    lookup p n = Some (File c) -> lookup p n' = Some (File c).
Proof.
  induction p as [|s p IH]; intros q n n' H Hq L.
  - injection L as ->. destruct q; discriminate.
  - destruct n as [x|es]; [discriminate|].
    destruct q as [|s' q]; [discriminate|]. rewrite lookup_cons in L.
    simpl in H. destruct q as [|t q].
    + destruct (fileWriter d (getEntry s' es)) as [r|] eqn:F; [|discriminate].
      injection H as <-. rewrite lookup_cons.
      destruct (str_eqb s' s) eqn:E.
      * apply str_eqb_eq in E. subst s'. exfalso.
        destruct p as [|u p]; [now apply Hq|].
        unfold fileWriter in F.
        destruct (getEntry s es) as [[x|l]|]; try discriminate.
      * apply str_eqb_neq in E. now rewrite (getEntry_putEntry_other _ _ _ _ E).
    + destruct (getEntry s' es) as [c0|] eqn:G; [|discriminate].
      destruct (alter (fileWriter d) (t :: q) c0) as [c0'|] eqn:A; [|discriminate].
      injection H as <-. rewrite lookup_cons.
      destruct (str_eqb s' s) eqn:E.
      * apply str_eqb_eq in E. subst s'. rewrite getEntry_setEntry. rewrite G in L.
        apply (IH (t :: q) c0 c0' A); [|exact L]. intros X. apply Hq. now rewrite X.
      * apply str_eqb_neq in E. now rewrite (getEntry_setEntry_other _ _ _ _ E).
Qed.

Lemma readFile_writeFile_other (p q : path) (d c : jsstring) (tree tree' : node) :
  writeFile q d tree = Some tree' -> segments q <> segments p ->
  readFile p tree = Some c -> readFile p tree' = Some c.
Proof.
  unfold writeFile, readFile. destruct (trailing q); [discriminate|].
  destruct (trailing p); [discriminate|]. intros H Hq R.
  destruct (lookup (segments p) tree) as [[x|l]|] eqn:L; try discriminate.
  injection R as ->.
  now rewrite (lookup_file_alter d c (segments p) (segments q) tree tree' H Hq L).
Qed.

Variable env : Env.
Variable baseUrl : jsstring.
Variable tempDir : path.
Variable entry : ChecksumEntry.
Variable body : jsstring.

Hypothesis delivered :
  httpStream env (baseUrl ++ lit "/" ++ filename entry) = Delivers body.

Lemma store_keeps (tree : node) (other : ChecksumEntry) :
  (segments (join tempDir [filename other]) = segments (join tempDir [filename entry]) ->
   filename other = filename entry) ->
  readFile (join tempDir [filename entry]) tree = Some body ->
  readFile (join tempDir [filename entry]) (store env baseUrl tempDir tree other)
  = Some body.
Proof.
  intros A R. unfold store.
  destruct (list_eq_dec (list_eq_dec N.eq_dec)
              (segments (join tempDir [filename other]))
              (segments (join tempDir [filename entry]))) as [E|E].
  - rewrite (A E), delivered.
    destruct (writeFile (join tempDir [filename entry]) body tree) as [t|] eqn:W;
      [exact (readFile_writeFile _ _ _ _ W)|exact R].
  - destruct (httpStream env (baseUrl ++ lit "/" ++ filename other)) as [|c|c];
      [exact R| |];
      (destruct (writeFile (join tempDir [filename other]) c tree) as [t|] eqn:W;
       [exact (readFile_writeFile_other _ _ _ _ _ _ W E R)|exact R]).
Qed.

Lemma stores_keep (l : list ChecksumEntry) :
  forall tree,
    goesAlone tempDir entry l ->
    readFile (join tempDir [filename entry]) tree = Some body ->
    readFile (join tempDir [filename entry])
             (fold_left (store env baseUrl tempDir) l tree) = Some body.
Proof.
  induction l as [|e l IH]; intros tree A R; [exact R|]. cbn [fold_left].
  apply IH.
  - intros other I. apply A. now right.
  - apply store_keeps; [|exact R]. apply A. now left.
Qed.

Lemma stores_write (l : list ChecksumEntry) :
  forall tree,
    In entry l -> goesAlone tempDir entry l ->
    writable (join tempDir [filename entry]) tree = true ->
    readFile (join tempDir [filename entry])
             (fold_left (store env baseUrl tempDir) l tree) = Some body.
Proof.
  induction l as [|e l IH]; intros tree I A Wr; [destruct I|]. cbn [fold_left].
  assert (Al : goesAlone tempDir entry l) by (intros other Io; apply A; now right).
  destruct (str_eqb (filename e) (filename entry)) eqn:E.
  - apply str_eqb_eq in E. apply stores_keep; [exact Al|].
    unfold store. rewrite E, delivered.
    rewrite <- (isSome_writeFile _ body) in Wr.
    destruct (writeFile (join tempDir [filename entry]) body tree) as [t|] eqn:W;
      [exact (readFile_writeFile _ _ _ _ W)|discriminate Wr].
  - apply str_eqb_neq in E. apply IH; [|exact Al|].
    + destruct I as [->|I]; [now contradiction E|exact I].
    + now rewrite sameWritable_store.
Qed.

End StagedFacts.

(** X16: an archive that arrives is staged, whatever becomes of the
    other downloads.  When the body of an entry of the manifest arrives
    in full and its file can be written, then after the downloads the
    file holds the body, whether the other downloads succeed, fail or
    hang and in whatever order they end, provided that no entry of
    another name is written to the same path. *)
Theorem delivered_archive_is_staged (env : Env) (baseUrl : jsstring) (tempDir : path)
  (entries : list ChecksumEntry) (w : World) (entry : ChecksumEntry) (body : jsstring) :
  In entry entries ->
  httpStream env (baseUrl ++ lit "/" ++ filename entry) = Delivers body ->
  writable (join tempDir [filename entry]) (fs w) = true ->
  goesAlone tempDir entry entries ->
  readFile (join tempDir [filename entry])
           (fs (snd (Prepare.downloadAll env baseUrl tempDir entries w)))
  = Some body.
Proof.
  intros I D Wr A. rewrite downloadAll_run. cbn [snd fs].
  pose proof (settleOrder_perm env baseUrl entries) as P.
  apply (stores_write env baseUrl tempDir entry body D).
  - apply (Permutation_in (l := entries)); [now symmetry|exact I].
  - intros other Io. apply A. apply (Permutation_in (l := settleOrder env baseUrl entries));
      assumption.
  - exact Wr.
Qed.

Lemma delivered_archive_is_staged_witness :
  readFile (join (tempDirOf brokenServer) [lit "hulo_Linux_x86_64.tar.gz"])
    (fs (snd (Prepare.downloadAll brokenServer (baseUrlOf (Some (lit "v1.2.3")))
                (tempDirOf brokenServer) (parseChecksums twoArchives)
                (start (Dir [ (lit "work", Dir [ (lit "temp", Dir []) ]) ])))))
  = Some (lit "bytes").
Proof.
  apply (delivered_archive_is_staged brokenServer (baseUrlOf (Some (lit "v1.2.3")))
           (tempDirOf brokenServer) (parseChecksums twoArchives)
           (start (Dir [ (lit "work", Dir [ (lit "temp", Dir []) ]) ]))
           {| hash := lit "0cc175b9"; filename := lit "hulo_Linux_x86_64.tar.gz" |}
           (lit "bytes")).
  - vm_compute. right. left. reflexivity.
  - vm_compute. reflexivity.
  - vm_compute. reflexivity.
  - intros other I. vm_compute in I. destruct I as [<-|[<-|[]]].
    + vm_compute. intros H. discriminate H.
    + reflexivity.
Defined.
Section FatalFacts.

Import Prepare.

Variable env : Env.

(** Without a text of the manifest the second [try] block of [main]
    ends the process with code 1; the manifest has been requested and
    nothing else. *)
Lemma fetchStaging_no_manifest (baseUrl : jsstring) (tempDir : path) (w : World)
  (t2 : node) :
  mkdirRecursive (segments tempDir) (fs w) = Some t2 ->
  match dataOf env (baseUrl ++ lit "/checksums.txt") with
  | Some (StringData _) => False
  | _ => True
  end ->
  fst (fetchStaging env baseUrl tempDir w) = Exit 1%N
  /\ trace (snd (fetchStaging env baseUrl tempDir w))
     = trace w ++ [DownloadText (baseUrl ++ lit "/checksums.txt")]
  /\ fs (snd (fetchStaging env baseUrl tempDir w)) = t2.
Proof.
  intros Hm Hd.
  assert (E : exists c,
             fetchStaging env baseUrl tempDir w
             = (Exit 1%N,
                {| fs := t2; console := c;
                   trace := trace w ++ [DownloadText (baseUrl ++ lit "/checksums.txt")] |})).
  { unfold fetchStaging, tryCatch.
    rewrite (bind_returns _ _ _ _ _ (mkdirM_run _ _ _ Hm)), bind_log.
    unfold bind at 1. rewrite downloadText_run.
    destruct (dataOf env (baseUrl ++ lit "/checksums.txt")) as [[text|]|];
      [contradiction| |]; cbv beta iota; try rewrite bind_log;
      unfold throw, bind, print, exit; cbn [fst snd fs trace console]; now eexists. }
  destruct E as [c ->]. repeat split.
Qed.

End FatalFacts.

(** X28: failures before the downloads are fatal.  When the staging
    directory is not cleared, the run ends with code 1 and has requested
    nothing.  When it is cleared and made, and the manifest does not
    arrive as a text (the request fails, or the body is JSON for a value
    that is not a string, which [parseChecksums] cannot split), the run
    ends with code 1: it has requested the manifest and nothing else,
    and has written nothing into the staging directory. *)
Theorem failures_before_downloads_are_fatal (env : Env) (arg : option jsstring)
  (w : World) :
  (cleared env (tempDirOf env) (fs w) = None ->
   fst (Prepare.main env arg w) = Exit 1%N
   /\ trace (snd (Prepare.main env arg w)) = trace w)
  /\ (forall t1 t2,
        cleared env (tempDirOf env) (fs w) = Some t1 ->
        mkdirRecursive (segments (tempDirOf env)) t1 = Some t2 ->
        manifestOf env arg = None ->
        fst (Prepare.main env arg w) = Exit 1%N
        /\ trace (snd (Prepare.main env arg w))
           = trace w ++ [DownloadText (manifestUrlOf arg)]
        /\ fs (snd (Prepare.main env arg w)) = t2).
Proof.
  rewrite main_phases, bind_log.
  pose proof (clearStaging_run env (tempDirOf env)
                {| fs := fs w;
                   console := console w ++ [Log (lit "Clearing temp directory...")];
                   trace := trace w |}) as C.
  change (fs {| fs := fs w;
                console := console w ++ [Log (lit "Clearing temp directory...")];
                trace := trace w |}) with (fs w) in C.
  unfold manifestOf, manifestUrlOf.
  split.
  - intros H. rewrite H in C. destruct C as [C1 C2].
    destruct (bind_exits (clearStaging env (tempDirOf env))
                (fun _ => bind (log (lit "Starting Hulo downloader..."))
                            (fun _ => fetchStaging env (baseUrlOf arg) (tempDirOf env)))
                _ 1%N C1) as [B1 B2].
    split; [exact B1|]. rewrite B2. exact C2.
  - intros t1 t2 H Hm Hd. rewrite H in C. rewrite (bind_returns _ _ _ _ _ C), bind_log.
    match goal with
    | |- context [fetchStaging _ _ _ ?w2] =>
        apply (fetchStaging_no_manifest env (baseUrlOf arg) (tempDirOf env) w2 t2 Hm)
    end.
    destruct (dataOf env (baseUrlOf arg ++ lit "/checksums.txt")) as [[text|]|];
      [discriminate Hd|exact I|exact I].
Qed.

Lemma failures_before_downloads_are_fatal_witness :
  fst (Prepare.main jsonServer None (start staleTree)) = Exit 1%N
  /\ trace (snd (Prepare.main jsonServer None (start staleTree)))
     = trace (start staleTree) ++ [DownloadText (manifestUrlOf None)]
  /\ fs (snd (Prepare.main jsonServer None (start staleTree)))
     = Dir [ (lit "work", Dir [ (lit "temp", Dir []) ]) ].
Proof.
  apply (proj2 (failures_before_downloads_are_fatal jsonServer None (start staleTree))
               (Dir [ (lit "work", Dir []) ])
               (Dir [ (lit "work", Dir [ (lit "temp", Dir []) ]) ]));
    vm_compute; reflexivity.
Defined.

(** ** [copyDirectory] copies *)

Section CopyDirectory.

Import Postprepare.

Lemma lookup_app (p r : list jsstring) :
  forall n, lookup (p ++ r) n
            = match lookup p n with Some c => lookup r c | None => None end.
Proof.
  induction p as [|s p IH]; intros n; [reflexivity|].
  destruct n as [c|es]; [reflexivity|]. simpl app. rewrite !lookup_cons.
  destruct (getEntry s es); [apply IH|reflexivity].
Qed.

Lemma setEntry_absent (s : jsstring) (x : node) (l : list (jsstring * node)) :
  getEntry s l = None -> setEntry s x l = l ++ [(s, x)].
Proof.
  induction l as [|[k v] l IH]; simpl; [reflexivity|].
  destruct (str_eqb s k); [discriminate|]. intros H. now rewrite IH.
Qed.

Lemma setEntry_last (s : jsstring) (x y : node) (l : list (jsstring * node)) :
  getEntry s l = None -> setEntry s y (l ++ [(s, x)]) = l ++ [(s, y)].
Proof.
  induction l as [|[k v] l IH]; simpl.
  - now rewrite str_eqb_refl.
  - destruct (str_eqb s k); [discriminate|]. intros H. now rewrite IH.
Qed.

Lemma getEntry_last (s : jsstring) (x : node) (l : list (jsstring * node)) :
  getEntry s l = None -> getEntry s (l ++ [(s, x)]) = Some x.
Proof.
  induction l as [|[k v] l IH]; simpl.
  - now rewrite str_eqb_refl.
  - destruct (str_eqb s k); [discriminate|]. exact IH.
Qed.

Lemma getEntry_snoc_other (s t : jsstring) (x : node) (l : list (jsstring * node)) :
  s <> t -> getEntry t (l ++ [(s, x)]) = getEntry t l.
Proof.
  intros H. induction l as [|[k v] l IH]; simpl.
  - destruct (str_eqb t s) eqn:E; [|reflexivity].
    apply str_eqb_eq in E. congruence.
  - now rewrite IH.
Qed.

(** [setDirectory] and the other changes of the tree. *)
Lemma lookup_setDirectory (es' : list (jsstring * node)) (p : list jsstring) :
  forall n n', setDirectory p es' n = Some n' -> lookup p n' = Some (Dir es').
Proof.
  induction p as [|s p IH]; intros n n' H.
  - destruct n; [discriminate|]. now injection H as <-.
  - destruct n as [c|es]; [discriminate|]. simpl in H.
    destruct (getEntry s es) as [c|]; [|discriminate].
    destruct (setDirectory p es' c) as [c'|] eqn:E; [|discriminate].
    injection H as <-. rewrite lookup_cons, getEntry_setEntry. now apply (IH c).
Qed.

Lemma setEntry_setEntry (s : jsstring) (x y : node) (l : list (jsstring * node)) :
  setEntry s y (setEntry s x l) = setEntry s y l.
Proof.
  induction l as [|[k v] l IH]; simpl.
  - now rewrite str_eqb_refl.
  - destruct (str_eqb s k) eqn:E; simpl; rewrite E; [reflexivity|now rewrite IH].
Qed.

Lemma setDirectory_twice (es1 es2 : list (jsstring * node)) (p : list jsstring) :
  forall n n1, setDirectory p es1 n = Some n1 ->
               setDirectory p es2 n1 = setDirectory p es2 n.
Proof.
  induction p as [|s p IH]; intros n n1 H.
  - destruct n; [discriminate|]. now injection H as <-.
  - destruct n as [c|es]; [discriminate|]. simpl in H.
    destruct (getEntry s es) as [c|] eqn:G; [|discriminate].
    destruct (setDirectory p es1 c) as [c1|] eqn:E; [|discriminate].
    injection H as <-. simpl. rewrite getEntry_setEntry, G, (IH c c1 E).
    destruct (setDirectory p es2 c); [|reflexivity]. now rewrite setEntry_setEntry.
Qed.

Lemma setDirectory_child (es' : list (jsstring * node)) (s : jsstring)
  (p : list jsstring) :
  forall n l sub,
    lookup p n = Some (Dir l) -> getEntry s l = Some (Dir sub) ->
    setDirectory (p ++ [s]) es' n = setDirectory p (setEntry s (Dir es') l) n.
Proof.
  induction p as [|a p IH]; intros n l sub L G.
  - injection L as ->. simpl. now rewrite G.
  - destruct n as [c|es]; [discriminate|]. rewrite lookup_cons in L. simpl.
    destruct (getEntry a es) as [c|]; [|discriminate]. now rewrite (IH c l sub L G).
Qed.

Lemma alter_setDirectory (f : option node -> option (option node)) (s : jsstring)
  (r : option node) (p : list jsstring) :
  forall n l,
    lookup p n = Some (Dir l) -> f (getEntry s l) = Some r ->
    alter f (p ++ [s]) n = setDirectory p (putEntry s r l) n.
Proof.
  induction p as [|a p IH]; intros n l L F.
  - injection L as ->. simpl. now rewrite F.
  - destruct n as [c|es]; [discriminate|]. rewrite lookup_cons in L. simpl.
    destruct (p ++ [s]) as [|t u] eqn:E; [now destruct p|].
    destruct (getEntry a es) as [c|]; [|discriminate].
    now rewrite (IH c l L F).
Qed.

Lemma mkdir_setDirectory (s : jsstring) (p : list jsstring) :
  forall n l,
    lookup p n = Some (Dir l) -> getEntry s l = None ->
    mkdirRecursive (p ++ [s]) n = setDirectory p (l ++ [(s, Dir [])]) n.
Proof.
  induction p as [|a p IH]; intros n l L G.
  - injection L as ->. simpl. rewrite G. simpl. now rewrite (setEntry_absent _ _ _ G).
  - destruct n as [c|es]; [discriminate|]. rewrite lookup_cons in L. simpl.
    destruct (getEntry a es) as [c|]; [|discriminate]. now rewrite (IH c l L G).
Qed.

Lemma setDirectory_exists (es' : list (jsstring * node)) (p : list jsstring) :
  forall n l, lookup p n = Some (Dir l) -> exists n', setDirectory p es' n = Some n'.
Proof.
  induction p as [|a p IH]; intros n l L.
  - injection L as ->. now eexists.
  - destruct n as [c|es]; [discriminate|]. rewrite lookup_cons in L. simpl.
    destruct (getEntry a es) as [c|]; [|discriminate].
    destruct (IH c l L) as [c' ->]. now eexists.
Qed.

Lemma diverge_app_r (p q r : list jsstring) :
  diverge p q = true -> diverge p (q ++ r) = true.
Proof.
  revert q; induction p as [|a p IH]; intros [|b q]; simpl; try discriminate.
  destruct (str_eqb a b); [apply IH|reflexivity].
Qed.

Lemma diverge_sym (p q : list jsstring) : diverge p q = diverge q p.
Proof.
  revert q; induction p as [|a p IH]; intros [|b q]; simpl; try reflexivity.
  destruct (str_eqb a b) eqn:E.
  - apply str_eqb_eq in E. subst. now rewrite str_eqb_refl.
  - apply str_eqb_neq in E.
    destruct (str_eqb b a) eqn:E'; [|reflexivity].
    apply str_eqb_eq in E'. congruence.
Qed.

(** Names *)
Lemma existsb_name (x : jsstring) (l : list (jsstring * node)) :
  existsb (str_eqb x) (map fst l) = isSome (getEntry x l).
Proof.
  induction l as [|[k v] l IH]; [reflexivity|]. simpl.
  destruct (str_eqb x k); [reflexivity|exact IH].
Qed.

Lemma height_entry (e : jsstring * node) (es : list (jsstring * node)) :
  In e es -> height (snd e) < height (Dir es).
Proof.
  simpl. induction es as [|e' es IH]; [intros []|].
  intros [->|I]; simpl; [lia|]. specialize (IH I). lia.
Qed.

End CopyDirectory.

Section CopyLoop.

Import Postprepare.

Lemma copyDirectory_S (fuel : nat) (source target : path) :
  copyDirectory (S fuel) source target
  = bind (readdirM source) (fun entries => forOf entries (copyEntry fuel source target)).
Proof. reflexivity. Qed.

Lemma setEntry_same (s : jsstring) (c : node) (es : list (jsstring * node)) :
  getEntry s es = Some c -> setEntry s c es = es.
Proof.
  induction es as [|[k v] es IH]; simpl; [discriminate|].
  destruct (str_eqb s k) eqn:E.
  - now intros [= ->].
  - intros H. now rewrite IH.
Qed.

Lemma setDirectory_same (p : list jsstring) :
  forall n l, lookup p n = Some (Dir l) -> setDirectory p l n = Some n.
Proof.
  induction p as [|a p IH]; intros n l L.
  - now injection L as ->.
  - destruct n as [c|es]; [discriminate|]. rewrite lookup_cons in L. simpl.
    destruct (getEntry a es) as [c|] eqn:G; [|discriminate].
    rewrite (IH c l L). now rewrite (setEntry_same _ _ _ G).
Qed.

Lemma getEntry_unique (es : list (jsstring * node)) (e : jsstring * node) :
  uniqueNames (map fst es) = true -> In e es -> getEntry (fst e) es = Some (snd e).
Proof.
  induction es as [|[k v] es IH]; [intros _ []|].
  simpl. intros U I. apply andb_true_iff in U as [Uk U].
  destruct I as [<-|I]; [simpl; now rewrite str_eqb_refl|].
  destruct (str_eqb (fst e) k) eqn:E; [|now apply IH].
  apply str_eqb_eq in E. subst k. apply negb_true_iff in Uk.
  assert (X : existsb (str_eqb (fst e)) (map fst es) = true).
  { apply existsb_exists. exists (fst e). split; [now apply in_map|apply str_eqb_refl]. }
  congruence.
Qed.

Lemma absentFrom_snoc (l : list (jsstring * node)) (name : jsstring) (n : node)
  (names : list jsstring) :
  existsb (str_eqb name) names = false -> absentFrom l names = true ->
  absentFrom (l ++ [(name, n)]) names = true.
Proof.
  unfold absentFrom. induction names as [|x names IH]; [reflexivity|].
  simpl. intros E A. apply orb_false_iff in E as [Ex E].
  apply andb_true_iff in A as [Ax A]. rewrite (IH E A), andb_true_r.
  apply str_eqb_neq in Ex. now rewrite (getEntry_snoc_other _ _ _ _ Ex).
Qed.

(** The listing and the order of the entries. *)
Lemma listing_insertNode (e : jsstring * node) (l : list (jsstring * node)) :
  listing (insertNode e l)
  = insertSorted (fst e, isDirectory (snd e)) (listing l).
Proof.
  unfold listing.
  induction l as [|x l IH]; [reflexivity|]. cbn [insertNode map insertSorted fst].
  destruct (str_ltb (fst e) (fst x)); [reflexivity|]. cbn [map]. now rewrite IH.
Qed.

Lemma listing_sortNodes (l : list (jsstring * node)) :
  listing (sortNodes l) = sortByName (listing l).
Proof.
  induction l as [|x l IH]; [reflexivity|].
  change (sortNodes (x :: l)) with (insertNode x (sortNodes l)).
  rewrite listing_insertNode, IH. reflexivity.
Qed.

Lemma insertNode_arranged (e : jsstring * node) (l : list (jsstring * node)) :
  map arrangedEntry (insertNode e l) = insertNode (arrangedEntry e) (map arrangedEntry l).
Proof.
  induction l as [|x l IH]; [reflexivity|]. cbn [insertNode map].
  change (fst (arrangedEntry e)) with (fst e). change (fst (arrangedEntry x)) with (fst x).
  destruct (str_ltb (fst e) (fst x)); [reflexivity|]. cbn [map]. now rewrite IH.
Qed.

Lemma sortNodes_arranged (l : list (jsstring * node)) :
  map arrangedEntry (sortNodes l) = sortNodes (map arrangedEntry l).
Proof.
  induction l as [|x l IH]; [reflexivity|].
  change (sortNodes (x :: l)) with (insertNode x (sortNodes l)).
  rewrite insertNode_arranged, IH. reflexivity.
Qed.

Lemma insertNode_perm (e : jsstring * node) (l : list (jsstring * node)) :
  Permutation (insertNode e l) (e :: l).
Proof.
  induction l as [|x l IH]; simpl; [reflexivity|].
  destruct (str_ltb (fst e) (fst x)); [reflexivity|]. rewrite IH. apply perm_swap.
Qed.

Lemma sortNodes_perm (l : list (jsstring * node)) : Permutation (sortNodes l) l.
Proof.
  induction l as [|x l IH]; simpl; [reflexivity|].
  rewrite insertNode_perm. now constructor.
Qed.

Lemma uniqueNames_NoDup (names : list jsstring) :
  uniqueNames names = true <-> NoDup names.
Proof.
  induction names as [|x names IH]; simpl; [split; [constructor|reflexivity]|].
  rewrite andb_true_iff, negb_true_iff, IH. split.
  - intros [E N]. constructor; [|exact N]. intros I.
    assert (X : existsb (str_eqb x) names = true).
    { apply existsb_exists. exists x. split; [exact I|apply str_eqb_refl]. }
    congruence.
  - intros N. inversion N as [|y ys Nx N']. subst. split; [|exact N'].
    destruct (existsb (str_eqb x) names) eqn:E; [|reflexivity].
    apply existsb_exists in E as (y & I & E). apply str_eqb_eq in E. now subst y.
Qed.

Lemma uniqueNames_sortNodes (l : list (jsstring * node)) :
  uniqueNames (map fst l) = true -> uniqueNames (map fst (sortNodes l)) = true.
Proof.
  rewrite !uniqueNames_NoDup. apply Permutation_NoDup, Permutation_map.
  symmetry. apply sortNodes_perm.
Qed.

Lemma absentFrom_sortNodes (ts l : list (jsstring * node)) :
  absentFrom ts (map fst l) = true -> absentFrom ts (map fst (sortNodes l)) = true.
Proof.
  unfold absentFrom. rewrite !forallb_forall. intros H x I. apply H.
  apply (Permutation_in (l := map fst (sortNodes l))); [|exact I].
  apply Permutation_map, sortNodes_perm.
Qed.

Variable fuel : nat.
Hypothesis IHfuel : copiesInto fuel.

Variables source target : path.
Hypothesis apart : diverge (segments target) (segments source) = true.

Variable es : list (jsstring * node).

(** One entry of the source is added to the target. *)
Lemma copyEntry_adds (name : jsstring) (n : node) (l : list (jsstring * node))
  (w : World) :
  lookup (segments source) (fs w) = Some (Dir es) ->
  getEntry name es = Some n ->
  lookup (segments target) (fs w) = Some (Dir l) ->
  getEntry name l = None ->
  wellNamed n = true -> height n <= fuel ->
  exists w',
    copyEntry fuel source target (name, isDirectory n) w = (Return tt, w')
    /\ setDirectory (segments target) (l ++ [(name, arranged n)]) (fs w) = Some (fs w').
Proof.
  intros LS G LT A W H.
  assert (Ln : lookup (segments source ++ [name]) (fs w) = Some n).
  { rewrite lookup_app, LS, lookup_cons, G. reflexivity. }
  unfold copyEntry. cbn [fst snd]. destruct n as [c|sub]; cbn [isDirectory].
  - destruct (setDirectory_exists (l ++ [(name, File c)]) _ _ _ LT) as [t1 S1].
    assert (C : copyFile (child source name) (child target name) (fs w) = Some t1).
    { unfold copyFile, readFile, writeFile. cbn [child segments trailing].
      rewrite Ln.
      rewrite (alter_setDirectory _ name (Some (File c)) _ _ l LT) by now rewrite A.
      cbn [putEntry]. now rewrite (setEntry_absent _ _ _ A). }
    unfold copyFileM, bind, emit, writing. cbn [fs]. rewrite C.
    eexists. split; [reflexivity|exact S1].
  - destruct (setDirectory_exists (l ++ [(name, Dir [])]) _ _ _ LT) as [t1 S1].
    assert (Mk : mkdirRecursive (segments (child target name)) (fs w) = Some t1).
    { cbn [child segments]. now rewrite (mkdir_setDirectory _ _ _ l LT A). }
    pose proof (lookup_setDirectory _ _ _ _ S1) as LT1.
    destruct (IHfuel (child source name) (child target name)
                {| fs := t1; console := console w; trace := trace w |} sub [])
      as (w2 & E2 & S2).
    + cbn [child segments]. now apply diverge_app, diverge_app_r.
    + cbn [child segments fs].
      rewrite (frame_setDirectory _ _ _ _ _ (diverge_app_r _ _ [name] apart) S1).
      exact Ln.
    + cbn [child segments fs]. rewrite lookup_app, LT1, lookup_cons.
      now rewrite (getEntry_last _ _ _ A).
    + exact W.
    + unfold absentFrom. now induction (map fst sub).
    + exact H.
    + unfold bind at 1. unfold mkdirM, writing. rewrite Mk. rewrite E2.
      exists w2. split; [reflexivity|]. rewrite <- S2. cbn [child segments fs app].
      change (arranged (Dir sub)) with (Dir (sortNodes (map arrangedEntry sub))).
      rewrite (setDirectory_child (sortNodes (map arrangedEntry sub)) name _ t1 _ []
                 LT1 (getEntry_last _ _ _ A)).
      rewrite (setEntry_last _ _ _ _ A).
      symmetry. exact (setDirectory_twice _ _ _ _ _ S1).
Qed.

(** The loop adds the entries it is given, in order. *)
Lemma copyLoop_adds (rest : list (jsstring * node)) :
  forall (l : list (jsstring * node)) (w : World),
    lookup (segments source) (fs w) = Some (Dir es) ->
    (forall e, In e rest -> getEntry (fst e) es = Some (snd e)) ->
    lookup (segments target) (fs w) = Some (Dir l) ->
    uniqueNames (map fst rest) = true ->
    absentFrom l (map fst rest) = true ->
    (forall e, In e rest -> wellNamed (snd e) = true /\ height (snd e) <= fuel) ->
    exists w',
      forOf (listing rest) (copyEntry fuel source target) w = (Return tt, w')
      /\ setDirectory (segments target) (l ++ map arrangedEntry rest) (fs w)
         = Some (fs w').
Proof.
  induction rest as [|[name n] rest IH]; intros l w LS G LT U A H.
  - exists w. split; [reflexivity|]. rewrite app_nil_r. now apply setDirectory_same.
  - simpl in U. apply andb_true_iff in U as [Un U]. apply negb_true_iff in Un.
    unfold absentFrom in A. simpl in A. apply andb_true_iff in A as [An A].
    assert (Gn : getEntry name l = None).
    { destruct (getEntry name l); [discriminate|reflexivity]. }
    destruct (H (name, n) (or_introl eq_refl)) as [Wn Hn]. cbn [snd] in Wn, Hn.
    destruct (copyEntry_adds name n l w LS (G (name, n) (or_introl eq_refl)) LT Gn Wn Hn)
      as (w1 & E1 & S1).
    destruct (IH (l ++ [(name, arranged n)]) w1) as (w' & E' & S').
    + now rewrite (frame_setDirectory _ _ _ _ _ apart S1).
    + intros e I. apply G. now right.
    + exact (lookup_setDirectory _ _ _ _ S1).
    + exact U.
    + now apply absentFrom_snoc.
    + intros e I. apply H. now right.
    + exists w'. split.
      * cbn [listing map forOf fst snd]. unfold bind at 1.
        rewrite E1. exact E'.
      * rewrite <- S', <- app_assoc. symmetry.
        exact (setDirectory_twice _ _ _ _ _ S1).
Qed.

End CopyLoop.

Lemma copyDirectory_copiesInto (fuel : nat) : copiesInto fuel.
Proof.
  induction fuel as [|fuel IH]; intros source target w es ts D LS LT W A H.
  - simpl in H. lia.
  - rewrite copyDirectory_S. unfold bind at 1. unfold readdirM, reading, readdir.
    rewrite LS. simpl in W. apply andb_true_iff in W as [U W].
    rewrite forallb_forall in W.
    rewrite <- listing_sortNodes, <- sortNodes_arranged.
    apply (copyLoop_adds fuel IH source target D es (sortNodes es) ts w LS).
    + intros e I. apply getEntry_unique; [exact U|].
      exact (Permutation_in e (sortNodes_perm es) I).
    + exact LT.
    + now apply uniqueNames_sortNodes.
    + now apply absentFrom_sortNodes.
    + intros e I. pose proof (Permutation_in e (sortNodes_perm es) I) as I'.
      split; [now apply W|].
      pose proof (height_entry e es I'). lia.
Qed.

Lemma height_lookup (p : list jsstring) :
  forall n c, lookup p n = Some c -> height c <= height n.
Proof.
  induction p as [|s p IH]; intros n c L; [injection L as ->; lia|].
  destruct n as [x|es]; [discriminate|]. rewrite lookup_cons in L.
  destruct (getEntry s es) as [c0|] eqn:G; [|discriminate].
  specialize (IH c0 c L).
  assert (I : exists k, In (k, c0) es).
  { clear -G. induction es as [|[k v] es IHes]; [discriminate|]. simpl in G.
    destruct (str_eqb s k).
    - injection G as ->. exists k. now left.
    - destruct (IHes G) as [k' I]. exists k'. now right. }
  destruct I as [k I]. pose proof (height_entry (k, c0) es I) as Hh.
  cbn [snd] in Hh. lia.
Qed.

Section ArrangedFacts.

Lemma getEntry_In (l : list (jsstring * node)) (s : jsstring) (v : node) :
  getEntry s l = Some v -> In (s, v) l.
Proof.
  induction l as [|[k x] l IH]; simpl; [discriminate|].
  destruct (str_eqb s k) eqn:E.
  - apply str_eqb_eq in E. subst k. intros [= ->]. now left.
  - intros H. right. now apply IH.
Qed.

Lemma getEntry_None (l : list (jsstring * node)) (s : jsstring) :
  getEntry s l = None <-> ~ In s (map fst l).
Proof.
  induction l as [|[k x] l IH]; simpl; [tauto|].
  destruct (str_eqb s k) eqn:E.
  - apply str_eqb_eq in E. subst k. split; [discriminate|]. intros H.
    exfalso. apply H. now left.
  - apply str_eqb_neq in E. rewrite IH. split.
    + intros H [X|X]; [congruence|contradiction].
    + intros H X. apply H. now right.
Qed.

(** The order of the entries does not matter to a lookup by name. *)
Lemma getEntry_perm (l l' : list (jsstring * node)) (s : jsstring) :
  Permutation l l' -> uniqueNames (map fst l) = true -> getEntry s l' = getEntry s l.
Proof.
  intros P U.
  assert (U' : uniqueNames (map fst l') = true).
  { rewrite uniqueNames_NoDup in *.
    exact (Permutation_NoDup (Permutation_map fst P) U). }
  destruct (getEntry s l) as [v|] eqn:G.
  - apply getEntry_In in G. apply (Permutation_in _ P) in G.
    exact (getEntry_unique l' (s, v) U' G).
  - apply getEntry_None in G. apply getEntry_None. intros I. apply G.
    apply (Permutation_in (l := map fst l')); [|exact I].
    symmetry. now apply Permutation_map.
Qed.

Lemma getEntry_arrangedEntry (l : list (jsstring * node)) (s : jsstring) :
  getEntry s (map arrangedEntry l) = option_map arranged (getEntry s l).
Proof.
  induction l as [|[k x] l IH]; [reflexivity|]. cbn [map arrangedEntry fst snd getEntry].
  destruct (str_eqb s k); [reflexivity|exact IH].
Qed.

Lemma map_fst_arrangedEntry (l : list (jsstring * node)) :
  map fst (map arrangedEntry l) = map fst l.
Proof. rewrite map_map. reflexivity. Qed.

Lemma getEntry_arranged (es : list (jsstring * node)) (s : jsstring) :
  uniqueNames (map fst es) = true ->
  getEntry s (sortNodes (map arrangedEntry es)) = option_map arranged (getEntry s es).
Proof.
  intros U. rewrite <- getEntry_arrangedEntry.
  apply getEntry_perm; [symmetry; apply sortNodes_perm|].
  now rewrite map_fst_arrangedEntry.
Qed.

Lemma wellNamed_entry (es : list (jsstring * node)) (s : jsstring) (c : node) :
  wellNamed (Dir es) = true -> getEntry s es = Some c -> wellNamed c = true.
Proof.
  simpl. intros W G. apply andb_true_iff in W as [_ W]. rewrite forallb_forall in W.
  exact (W (s, c) (getEntry_In _ _ _ G)).
Qed.

(** What is found in the arranged tree is what is found in the tree,
    arranged. *)
Lemma lookup_arranged (p : list jsstring) :
  forall n, wellNamed n = true -> lookup p (arranged n) = option_map arranged (lookup p n).
Proof.
  induction p as [|s p IH]; intros n W; [reflexivity|].
  destruct n as [c|es]; [reflexivity|].
  change (arranged (Dir es)) with (Dir (sortNodes (map arrangedEntry es))).
  rewrite !lookup_cons. pose proof W as W'. simpl in W'.
  apply andb_true_iff in W' as [U _]. rewrite (getEntry_arranged es s U).
  destruct (getEntry s es) as [c|] eqn:G; [|reflexivity]. cbn [option_map].
  apply IH. exact (wellNamed_entry es s c W G).
Qed.

Lemma contentOf_arranged (n : node) : contentOf (arranged n) = contentOf n.
Proof. now destruct n. Qed.

Lemma getEntry_app (l l' : list (jsstring * node)) (s : jsstring) :
  getEntry s (l ++ l') = match getEntry s l with Some v => Some v | None => getEntry s l' end.
Proof.
  induction l as [|[k x] l IH]; [reflexivity|]. simpl.
  destruct (str_eqb s k); [reflexivity|exact IH].
Qed.

End ArrangedFacts.

(** X23: [copyDirectory] copies.  Let the source be a directory whose
    names differ in every directory of it, the target a directory that
    has none of the names of the source, on paths that part.  With fuel
    for the height of the source (the height of the tree, which [main]
    gives, is enough) the copy returns.  Afterwards, below every name
    of the source, the target has what the source has: at every path a
    file with the same content where the source has a file, a directory
    where it has a directory, and nothing where it has nothing.  What
    the target had under other names is as before, the source is as
    before, and so is all that is not below the target. *)
Theorem copyDirectory_copies (fuel : nat) (source target : path) (w : World)
  (es ts : list (jsstring * node)) :
  diverge (segments target) (segments source) = true ->
  lookup (segments source) (fs w) = Some (Dir es) ->
  lookup (segments target) (fs w) = Some (Dir ts) ->
  wellNamed (Dir es) = true ->
  absentFrom ts (map fst es) = true ->
  height (Dir es) <= fuel \/ fuel = height (fs w) ->
  fst (Postprepare.copyDirectory fuel source target w) = Return tt
  /\ (forall name r,
        In name (map fst es) ->
        shapeAt (segments target ++ name :: r)
                (fs (snd (Postprepare.copyDirectory fuel source target w)))
        = shapeAt (segments source ++ name :: r) (fs w))
  /\ (forall name r,
        ~ In name (map fst es) ->
        lookup (segments target ++ name :: r)
               (fs (snd (Postprepare.copyDirectory fuel source target w)))
        = lookup (segments target ++ name :: r) (fs w))
  /\ lookup (segments source) (fs (snd (Postprepare.copyDirectory fuel source target w)))
     = Some (Dir es)
  /\ (forall q, diverge (segments target) q = true ->
                lookup q (fs (snd (Postprepare.copyDirectory fuel source target w)))
                = lookup q (fs w)).
Proof.
  intros D LS LT W A H.
  assert (Hf : height (Dir es) <= fuel).
  { destruct H as [H| ->]; [exact H|]. exact (height_lookup _ _ _ LS). }
  destruct (copyDirectory_copiesInto fuel source target w es ts D LS LT W A Hf)
    as (w' & E & S).
  rewrite E. cbn [fst snd]. split; [reflexivity|].
  pose proof (lookup_setDirectory _ _ _ _ S) as LT'.
  pose proof W as W'. simpl in W'. apply andb_true_iff in W' as [U _].
  split; [|split; [|split]].
  - intros name r I. unfold shapeAt.
    rewrite !lookup_app, LT', LS, !lookup_cons, getEntry_app.
    assert (G : getEntry name ts = None).
    { unfold absentFrom in A. rewrite forallb_forall in A. specialize (A name I).
      now destruct (getEntry name ts). }
    rewrite G, (getEntry_arranged es name U).
    destruct (getEntry name es) as [c|] eqn:Gc; [|reflexivity]. cbn [option_map].
    rewrite (lookup_arranged r c (wellNamed_entry es name c W Gc)).
    destruct (lookup r c) as [x|]; [|reflexivity]. cbn [option_map].
    now rewrite contentOf_arranged.
  - intros name r I. rewrite !lookup_app, LT', LT, !lookup_cons, getEntry_app.
    destruct (getEntry name ts) as [c|]; [reflexivity|].
    rewrite (getEntry_arranged es name U).
    apply getEntry_None in I. now rewrite I.
  - rewrite (frame_setDirectory _ _ _ _ _ D S). exact LS.
  - intros q Dq. exact (frame_setDirectory _ _ _ _ _ Dq S).
Qed.

Lemma copyDirectory_copies_witness :
  shapeAt [lit "bin"; lit "std"; lit "core"; lit "io.hl"]
          (fs (snd (Postprepare.copyDirectory (height stdTree)
                      {| segments := [lit "std"]; trailing := false |}
                      {| segments := [lit "bin"; lit "std"]; trailing := false |}
                      (start stdTree))))
  = shapeAt [lit "std"; lit "core"; lit "io.hl"] (fs (start stdTree)).
Proof.
  refine (proj1 (proj2 (copyDirectory_copies (height stdTree)
                          {| segments := [lit "std"]; trailing := false |}
                          {| segments := [lit "bin"; lit "std"]; trailing := false |}
                          (start stdTree) stdEntries [] _ _ _ _ _ _))
                (lit "core") [lit "io.hl"] _);
    try (vm_compute; reflexivity).
  - right. reflexivity.
  - vm_compute. right. left. reflexivity.
Defined.

(** ** Further runs *)

Section MoreFacts.

Import Platform Handlebars Postprepare.

Lemma frame_mkdir_below (p : list jsstring) (x : jsstring) (r : list jsstring) :
  forall n n', mkdirRecursive p n = Some n' ->
               lookup (p ++ x :: r) n' = lookup (p ++ x :: r) n.
Proof.
  induction p as [|s p IH]; intros n n' H.
  - destruct n; [discriminate|]. now injection H as <-.
  - destruct n as [c|es]; [discriminate|]. simpl in H.
    destruct (mkdirRecursive p match getEntry s es with Some c => c | None => Dir [] end)
      as [c'|] eqn:M; [|discriminate].
    injection H as <-. simpl app. rewrite !lookup_cons, getEntry_setEntry.
    rewrite (IH _ c' M). destruct (getEntry s es); [reflexivity|].
    now destruct p.
Qed.

Lemma diverge_siblings (p : list jsstring) (a b : jsstring) (r1 r2 : list jsstring) :
  a <> b -> diverge (p ++ a :: r1) (p ++ b :: r2) = true.
Proof.
  intros H. induction p as [|s p IH]; simpl.
  - apply str_eqb_neq in H. now rewrite H.
  - now rewrite str_eqb_refl.
Qed.

Lemma listed_false (tempDir : path) (tree : node) (x : jsstring) :
  listed tempDir tree = false -> lookup (segments tempDir ++ [x]) tree = None.
Proof.
  unfold listed, readdir. rewrite lookup_app.
  destruct (lookup (segments tempDir) tree) as [[c|[|e es]]|]; try reflexivity.
  intros H. exfalso. cbn [map] in H. unfold sortByName in H. cbn [fold_right] in H.
  destruct (fold_right insertSorted [] _) as [|y l]; cbn [insertSorted] in H;
    [discriminate H|].
  destruct (str_ltb _ _); discriminate H.
Qed.

Lemma cleared_empty (env : Env) (tempDir : path) (tree t1 : node) (x : jsstring) :
  cleared env tempDir tree = Some t1 -> lookup (segments tempDir ++ [x]) t1 = None.
Proof.
  unfold cleared. destruct (rmSyncBehaviour env tempDir); [| discriminate |].
  - destruct (remove true tempDir tree) as [t|]; [|discriminate].
    destruct (listed tempDir t) eqn:L; [discriminate|].
    intros [= <-]. now apply listed_false.
  - destruct (listed tempDir tree) eqn:L; [discriminate|].
    intros [= <-]. now apply listed_false.
Qed.

Lemma packageJson_keywords (version k : jsstring) (d : PlatformData) :
  In (k, d) platformInfo ->
  hasLine (packageJsonOf version k) (keywordsField (keywords d)).
Proof.
  intros H. unfold packageJsonOf, packageJsonTemplate.
  apply (hasLine_rendered _ _
           [T "    "; S' "keywords"; T ": [";
            Each "keywords" [Q; This; Q; UnlessLast [T ", "]]; T "],"]);
    [simpl; do 14 right; left; reflexivity| |]; unfold platformInfo in H;
    repeat (destruct H as [H|H]; [injection H as <- <-; vm_compute; reflexivity|]);
    destruct H.
Qed.

Lemma mkdir_prefix (p r : list jsstring) :
  forall n n1, mkdirRecursive p n = Some n1 ->
               mkdirRecursive (p ++ r) n1 = mkdirRecursive (p ++ r) n.
Proof.
  induction p as [|s p IH]; intros n n1 H.
  - destruct n; [discriminate|]. now injection H as <-.
  - destruct n as [c|es]; [discriminate|]. simpl in H.
    destruct (mkdirRecursive p match getEntry s es with Some c => c | None => Dir [] end)
      as [c1|] eqn:M; [|discriminate].
    injection H as <-. simpl. rewrite getEntry_setEntry, (IH _ c1 M).
    destruct (mkdirRecursive (p ++ r) _); [|reflexivity].
    now rewrite setEntry_setEntry.
Qed.

Lemma mkdir_fresh (p : list jsstring) : exists n, mkdirRecursive p (Dir []) = Some n.
Proof.
  induction p as [|a p [n IH]]; [now eexists|]. simpl. rewrite IH. now eexists.
Qed.

(** [mkdir] of a path leaves the tree as it is, or makes place for every
    entry of the directory. *)
Lemma mkdir_same_or_extends (p : list jsstring) :
  forall n n1,
    mkdirRecursive p n = Some n1 ->
    n1 = n \/ (forall s, exists n2, mkdirRecursive (p ++ [s]) n = Some n2).
Proof.
  induction p as [|a p IH]; intros n n1 H.
  - destruct n; [discriminate|]. left. now injection H as <-.
  - destruct n as [c|es]; [discriminate|]. simpl in H.
    destruct (getEntry a es) as [c|] eqn:G.
    + destruct (mkdirRecursive p c) as [c1|] eqn:M; [|discriminate].
      injection H as <-. destruct (IH c c1 M) as [->|E].
      * left. now rewrite (setEntry_same _ _ _ G).
      * right. intros s. destruct (E s) as [n2 E2]. simpl. rewrite G, E2. now eexists.
    + right. intros s. simpl. rewrite G.
      destruct (mkdir_fresh (p ++ [s])) as [n2 ->]. now eexists.
Qed.

Lemma copyDirectory_lead (fuel : nat) (source target : path) (w : World)
  (name : jsstring) (rest : list (jsstring * bool)) :
  readdir source (fs w) = Some ((name, true) :: rest) ->
  copyDirectory (S fuel) source target w
  = match mkdirRecursive (segments target ++ [name]) (fs w) with
    | Some t1 =>
        bind (copyDirectory fuel (child source name) (child target name))
             (fun _ => forOf rest (copyEntry fuel source target)) (withTree w t1)
    | None => (Throw (FsError "mkdir" (child target name)), w)
    end.
Proof.
  intros R. rewrite copyDirectory_S. unfold bind at 1. unfold readdirM, reading.
  rewrite R. cbn [forOf]. unfold bind at 1. unfold copyEntry at 1. cbn [fst snd].
  unfold bind at 1. unfold mkdirM, writing. cbn [child segments].
  destruct (mkdirRecursive (segments target ++ [name]) (fs w)); reflexivity.
Qed.

(** A directory at the head of the listing creates the target. *)
Lemma copyDirectory_after_mkdir (fuel : nat) (source target : path) (w : World)
  (entries : list (jsstring * bool)) (t0 : node) :
  diverge (segments target) (segments source) = true ->
  readdir source (fs w) = Some entries ->
  leadsWithDirectory entries = true ->
  mkdirRecursive (segments target) (fs w) = Some t0 ->
  copyDirectory (S fuel) source target w
  = copyDirectory (S fuel) source target (withTree w t0).
Proof.
  intros D R L M.
  assert (R0 : readdir source (fs (withTree w t0)) = Some entries).
  { unfold readdir in *. cbn [withTree fs].
    rewrite (frame_mkdirRecursive _ _ _ _ D M). exact R. }
  destruct entries as [|[name isDir] rest]; [discriminate L|].
  destruct isDir; [|discriminate L].
  rewrite (copyDirectory_lead fuel source target w name rest R).
  rewrite (copyDirectory_lead fuel source target (withTree w t0) name rest R0).
  cbn [withTree fs]. rewrite (mkdir_prefix _ [name] _ _ M).
  destruct (mkdirRecursive (segments target ++ [name]) (fs w)) as [t1|] eqn:E;
    [reflexivity|].
  destruct (mkdir_same_or_extends _ _ _ M) as [->|X].
  - now destruct w.
  - destruct (X name) as [n2 E2]. congruence.
Qed.

End MoreFacts.

(** X24: without the archive, [extractFile] fails, in each of its
    branches, and leaves the tree as it is. *)
Theorem extractFile_without_archive (env : Env) (filePath extractDir : path) (w : World) :
  readFile filePath (fs w) = None ->
  (exists e, fst (Postprepare.extractFile env filePath extractDir w) = Throw e)
  /\ fs (snd (Postprepare.extractFile env filePath extractDir w)) = fs w.
Proof.
  intros R. unfold Postprepare.extractFile.
  destruct (negb _ && negb _).
  - unfold copyFileM, bind, emit, writing, copyFile. cbn [fs]. rewrite R.
    split; [now eexists|reflexivity].
  - destruct (endsWith _ _); [destruct (isWin32 env)|];
      unfold spawnM, bind, emit; cbn [fs]; rewrite R;
      (split; [now eexists|reflexivity]).
Qed.

Lemma extractFile_without_archive_witness :
  exists e,
    fst (Postprepare.extractFile (hostWith releaseArchive)
           {| segments := [lit "work"; lit "temp"; lit "gone.zip"]; trailing := false |}
           {| segments := [lit "work"]; trailing := false |}
           (start workTree)) = Throw e.
Proof.
  apply (extractFile_without_archive (hostWith releaseArchive)
           {| segments := [lit "work"; lit "temp"; lit "gone.zip"]; trailing := false |}
           {| segments := [lit "work"]; trailing := false |} (start workTree)).
  reflexivity.
Defined.

(** X25: the downloader starts from an empty staging directory: once
    the directory has been cleared, a run leaves no file in it but the
    manifest and the files that the manifest lists; a file of an earlier
    run under another name is gone. *)
Theorem downloader_leaves_no_stale_file (env : Env) (arg : option jsstring) (w : World)
  (t1 : node) (x : jsstring) :
  cleared env (tempDirOf env) (fs w) = Some t1 ->
  servesPlainNames env arg ->
  x <> lit "checksums.txt" ->
  (forall text, manifestOf env arg = Some text ->
                ~ In x (map filename (parseChecksums text))) ->
  lookup (segments (tempDirOf env) ++ [x]) (fs (snd (Prepare.main env arg w))) = None.
Proof.
  intros C S Nx Nl. rewrite main_phases, bind_log.
  pose proof (clearStaging_run env (tempDirOf env)
                {| fs := fs w;
                   console := console w ++ [Log (lit "Clearing temp directory...")];
                   trace := trace w |}) as R.
  change (fs {| fs := fs w;
                console := console w ++ [Log (lit "Clearing temp directory...")];
                trace := trace w |}) with (fs w) in R.
  rewrite C in R. rewrite (bind_returns _ _ _ _ _ R), bind_log.
  match goal with
  | |- lookup ?q (fs (snd (fetchStaging _ _ _ ?w2))) = None =>
      rewrite (keeps_fetchStaging env arg q) with (w := w2)
  end.
  - cbn [fs]. exact (cleared_empty env _ _ _ x C).
  - intros w0. unfold mkdirM, writing.
    destruct (mkdirRecursive (segments (tempDirOf env)) (fs w0)) as [n'|] eqn:M;
      [|reflexivity].
    cbn [snd fs]. exact (frame_mkdir_below _ x [] _ _ M).
  - unfold manifestPathOf. rewrite join_plain by reflexivity. cbn [child segments].
    apply diverge_siblings. congruence.
  - intros text e G I. specialize (S text G). rewrite forallb_forall in S.
    rewrite (join_plain _ _ (S e I)). cbn [child segments].
    apply diverge_siblings. intros E. apply (Nl text G). rewrite <- E.
    now apply in_map.
Qed.

Lemma downloader_leaves_no_stale_file_witness :
  lookup [lit "work"; lit "temp"; lit "old.zip"]
         (fs (snd (Prepare.main fullServer None (start projectTree)))) = None.
Proof.
  refine (downloader_leaves_no_stale_file fullServer None (start projectTree)
            (Dir [ (lit "work", Dir [ (lit "package.json", File (lit "{}")) ]) ])
            (lit "old.zip") _ _ _ _).
  - vm_compute. reflexivity.
  - intros text H. vm_compute in H. injection H as <-. vm_compute. reflexivity.
  - discriminate.
  - intros text H. vm_compute in H. injection H as <-. vm_compute.
    intros [E|[]]. discriminate E.
Defined.

(** X26: for every entry of the platform table, the package descriptor
    lists the keywords of the entry, each between quotes, separated by
    commas, with no comma after the last. *)
Theorem descriptor_lists_keywords (env : Env) (arg : option jsstring) (w : World)
  (k data : jsstring) (d : Platform.PlatformData) :
  In (k, d) Platform.platformInfo -> trace w = [] ->
  In (WriteFile (join (platformDirOf env k) [lit "package.json"]) data)
     (trace (snd (Postprepare.main env arg w))) ->
  hasLine data (keywordsField (Platform.keywords d)).
Proof.
  intros H T I.
  pose proof (getProperty_accepted _ _ (platformInfo_getProperty _ _ H)) as A.
  apply main_writes_packageJson in I; [|exact T|exact A]. subst data.
  now apply packageJson_keywords.
Qed.

Lemma descriptor_lists_keywords_witness :
  exists data, hasLine data (keywordsField (Platform.keywords linuxData)).
Proof.
  eexists.
  apply (descriptor_lists_keywords (hostWith releaseArchive) None (start linuxStaging)
           (lit "linux-x86-64") _ linuxData).
  - vm_compute. tauto.
  - reflexivity.
  - vm_compute. do 3 right. left. reflexivity.
Defined.

(** X27: a directory at the head of the listing makes up for the missing
    [mkdir] of the target: when the source lists a directory first, on
    a path that parts from that of the target, [copyDirectory] does what
    it does once the target has been created. *)
Theorem copyDirectory_leading_directory (fuel : nat) (source target : path) (w : World)
  (entries : list (jsstring * bool)) (t0 : node) :
  diverge (segments target) (segments source) = true ->
  readdir source (fs w) = Some entries ->
  leadsWithDirectory entries = true ->
  mkdirRecursive (segments target) (fs w) = Some t0 ->
  Postprepare.copyDirectory (S fuel) source target w
  = Postprepare.copyDirectory (S fuel) source target (withTree w t0).
Proof. apply copyDirectory_after_mkdir. Qed.

Lemma copyDirectory_leading_directory_witness :
  Postprepare.copyDirectory 3
    {| segments := [lit "std"]; trailing := false |}
    {| segments := [lit "bin"; lit "std"]; trailing := false |}
    (start unpackedTree)
  = Postprepare.copyDirectory 3
      {| segments := [lit "std"]; trailing := false |}
      {| segments := [lit "bin"; lit "std"]; trailing := false |}
      (withTree (start unpackedTree)
         (Dir [ (lit "std", Dir [ (lit "core", Dir [ (lit "io.hl", File (lit "fn print")) ]);
                                  (lit "prelude.hl", File (lit "use core")) ]);
                (lit "bin", Dir [ (lit "std", Dir []) ]) ])).
Proof.
  apply (copyDirectory_leading_directory 2 _ _ (start unpackedTree)
           [(lit "core", true); (lit "prelude.hl", false)]);
    vm_compute; reflexivity.
Defined.
